(* ===== verification/_CoqProject ===== *)
-Q . S2P
Prelude.v
Refine.v
Sql.v
Totals.v
Model.v
Store.v
Auth.v
Accounts.v
Vaults.v
Sharing.v
Revisions.v
Invariant.v
Heads.v
Preservation.v
Machine.v
Scenario.v
AccountsSpec.v
RevisionsSpec.v
Replay.v
VaultsSpec.v
Tenants.v
Verify.v
Recovery.v
Io.v
Pools.v
PoolsSpec.v
Text.v
Catalogue.v
Ddl.v
CatalogueSpec.v
Migrations.v
MigrationsSpec.v
Process.v
Files.v
FilesSpec.v
Config.v
Cli.v
CliSpec.v
Staging.v
Reservations.v
Limits.v
Json.v
Protocol.v
Broadcast.v
Delivery.v
Publish.v
PublishSpec.v
World.v
ProtocolSpec.v
UploadSpec.v
Control.v
ControlSpec.v
Admin.v
AdminSpec.v
Snapshot.v
SnapshotSpec.v
Tokens.v
Lanes.v
Admission.v
Metrics.v
Memory.v
Routes.v
RoutesSpec.v
Server.v
