(* ===== verification/Prelude.v ===== *)
(** * Blackglass Server

    A verification development of the Rust server under [src/apps/server-rust/src], a
    self-hosted synchronisation server for end-to-end encrypted note vaults.

    ** The program

    - [db.rs] is the SQLite layer: users, sessions, vaults, memberships, the append-only
      revision log with its contents, retired vault identities, the validation of a database
      before it is served, and the offline restore, recovery, rebind and purge commands.
    - [server.rs] is the network layer: the data WebSocket (one task per connection), the
      control API (sign-in, vaults, sharing) and the in-memory admission limits.
    - [auth.rs], [config.rs], [model.rs], [account.rs] and [admin.rs] are the credential
      policy, the configuration, the shared structures, the self-registration page and the
      administration API.
    - [main.rs] is the command line: the server, the offline commands on database files and
      the streamed backup; [publish.rs] verifies and replays a local Publish runtime.
    A connection or request handler calls the database through [db_task]; commits are
    serialised by the [commit_order] lock and announced to the other connections of the vault;
    the limits live behind mutexes; a deletion, migration or removal cuts live connections off.
    All handlers wait for the same few bounded pools (password checks, downloads, large
    responses, bulk memory, the commit lock, database workers).

    ** The library

    Foundations: [Prelude] (results, integers, tactics), [Refine] (labelled traces and forward
    simulation), [Sql] (selection, update, grouping and ordering on tables), [Totals] (sums over
    finite maps), [Text] (UTF-8, integer and address parsing), [Json], [Io] (handlers as trees
    of commands, with a weakest-precondition calculus), [Process] (a state and error monad for
    code that makes system calls).

    Database: [Model] ([model.rs], limits), [Store] (tables, constraints, cascades and storage
    triggers of schema version 7), [Auth] ([auth.rs]), [Accounts], [Vaults], [Sharing],
    [Revisions] (one definition per method of [impl Db], under its name), [Verify]
    ([verify_connection]: the row checks), [Recovery] ([restore_database],
    [recover_stale_backup], [rebind_data_host]).  A database is the record [db]; an operation
    takes the time and the state and returns [result (value * db)], and an error rolls back.

    Database theorems: [Invariant] states the invariant [db_ok]; [Heads] and [Preservation]
    prove that every operation keeps it; [Machine] runs all of them as a state machine
    ([reachable_ok]); [Scenario] is a concrete run used as a witness.  [AccountsSpec]: the last
    administrator, tokens, revocation, self-registration.  [RevisionsSpec]: push and pull round
    trip, append-only log, compare-and-swap, quotas, restore, purge.  [Replay]: a client that
    catches up gets exactly what it has not seen, in order, while others commit; both ways of
    catching up agree; the list of deleted files.  [VaultsSpec]: authorisation of every
    mutation, invitation, removal, deletion, migration.  [Verify]: the validator implies the
    invariant, and what reachable states pass of it.  [Recovery]: a new epoch, lock-down.
    [Tenants]: an abstract store of vaults (owner, collaborators, log with contents, version);
    the database refines it by forward simulation, and the requests of users who may not use a
    vault leave it alone.

    Schema and migrations: [Catalogue] (the exact verification of [sqlite_schema] and the
    pragmas), [Ddl] (the statements of the migrations on a schema), [CatalogueSpec] (the
    verification accepts exactly what the migrations create), [Migrations] (the same migrations
    on the rows of versions 1 to 6, the checks of those versions, [migrate]), [MigrationsSpec]
    (an upgrade succeeds exactly when the data fits, and loses nothing but sessions).

    Files and process: [Files] (database files in a directory whose system calls may fail:
    opening, copying, locking, every offline command), [FilesSpec] (copies are all or nothing,
    changes in place leave a verified backup), [Cli] ([main.rs]) and [CliSpec] (the offline
    account commands are steps of the server's state machine; streamed backups), [Staging] (the
    upload directory), [Server] (start, supervision of the listeners, shutdown), [Publish] and
    [PublishSpec] ([publish.rs]: what loads is the reviewed tree, what is served is in it).

    Network: [Config] ([config.rs]: what an accepted configuration guarantees),
    [Reservations] ([StorageReservations]), [Limits] ([SourceLimits], [ShareInviteLimits],
    [UserConcurrency]: exact counters and rate bounds under every interleaving), [Protocol] (the
    WebSocket handlers of [server.rs], from [socket_loop] down), [World] (the meaning of their
    commands on the shared state), [Control] and [Admin] (the control and administration
    handlers).  [ProtocolSpec], [UploadSpec], [ControlSpec] and [AdminSpec] hold for every run
    under any interference: a connection is confined to the session and vault it authenticated
    for and checks the session before every frame of vault data; what it commits is what the
    client sent; requests act only in the name of their token's holder.  [Snapshot] and
    [SnapshotSpec]: the administrator's display, its figures and that it shows no secret.
    [Tokens]: the text of random tokens and the way of an administrator's session from the
    sign-in through the cookie back to the database.  [Routes] and [RoutesSpec]: the routing
    tables and layers of the HTTP listeners; what changes anything is a POST from a permitted
    origin or host, and the table agrees with the handlers.  [Metrics]: the metrics page.

    Concurrency: [Broadcast] ([VaultEvents] over an interface of tokio's broadcast channel,
    with two implementations), [Delivery] (all connections of the server joining, replaying and
    following while others commit: delivery is exact, a client that synchronises has
    everything, and committed changes arrive under fairness), [Admission] ([control_admission]
    and [upgrade]: exact permits under every interleaving), [Pools], [PoolsSpec] and [Lanes]
    (fair semaphores: what every handler takes and returns, and that no schedule deadlocks),
    [Memory] (what is admitted at once fits the memory of the service).

    ** Conventions

    A Rust [String] is the list of its UTF-8 bytes; [i64] and [u64] values are [Z] with
    saturation and range checks written out where the code has them; blobs are byte lists; time
    is an argument.  What the repository does not contain is a parameter of the definitions that
    use it: SHA-256 ([token_hash]), [PasswordHash::new] and Argon2, the length of serialised JSON
    ([notice_len], [json_len]), [HeaderValue::from_str], the parsed [Host] header; UUIDs, tokens
    and the iteration order of hash maps and of directories are arbitrary; system calls fail
    as a parameter says.  The increments of plain counters and tracing change nothing else and
    are left out of the handlers.

    ** Fuel

    Loops that are not structural carry fuel.  [pull_frames] runs with the declared number of
    pieces and [page_loop] with more than the number of rows; [pull_complete] and the replay
    theorems prove that this is enough.  In [Protocol], [replay_fuel] is the distance between the
    client's version and the boundary and [frames_fuel] the number of pieces; the wait for one's
    own event takes its fuel as a parameter, and the theorems there are about every prefix of a
    run, so they hold whatever it is.

    ** Not modelled

    Tracing, signal handling and the plain counters inside the handlers; what axum, tokio and
    hyper do themselves (sockets, parsing of HTTP and WebSocket frames, the [Json] extractor);
    [serve_replay] and [replay_router], the socket of the health check and the help text;
    SQLite itself beyond the statements used (its file format, [integrity_check], write-ahead
    log); the contents of the static pages; and the parts of the repository in other languages
    (browser scripts, the TypeScript reference server, release and operations scripts).  What
    is left is input and output, display, or code of other projects.  In [Files] any system
    call may fail, but the process is not killed between two of them. *)

From Stdlib Require Import ZArith Lia List String Ascii Bool.
From stdpp Require Import base list strings gmap.

#[global] Set Default Goal Selector "!".

Local Open Scope Z_scope.

(** ** Results

    [anyhow::Result<T>]: a value, or an error.  The error values the code
    inspects (by downcast or by the text of their message) are kept apart. *)
Inductive error :=
| Bail (message : string)
| StorageQuotaExceeded
| ConditionalWriteConflict
| SqliteError (message : string).

Inductive result (A : Type) :=
| Ok (value : A)
| Err (e : error).
Arguments Ok {A} value.
Arguments Err {A} e.

Declare Scope bg_scope.
Delimit Scope bg_scope with bg.
Open Scope bg_scope.

Notation "'let?' x ':=' m 'in' k" :=
  (match m with Ok x => k | Err err => Err err end)
  (at level 200, x pattern, m at level 200, k at level 200, right associativity) : bg_scope.

Notation "'ensure' b 'orelse' e 'in' k" :=
  (if b then k else Err e)
  (at level 200, b at level 200, e at level 200, k at level 200, right associativity) : bg_scope.

Definition ok_or {A} (o : option A) (e : error) : result A :=
  match o with Some a => Ok a | None => Err e end.

(** State left by an operation that runs in one transaction: an error rolls
    every change back. *)
Definition settle {S A} (s : S) (r : result (A * S)) : S :=
  match r with Ok (_, s') => s' | Err _ => s end.

(** ** Machine integers *)
Definition i64_min : Z := - 2 ^ 63.
Definition i64_max : Z := 2 ^ 63 - 1.
Definition u64_max : Z := 2 ^ 64 - 1.

Definition in_i64 (z : Z) : bool := (i64_min <=? z) && (z <=? i64_max).

(** Two's-complement wrap-around of a 64-bit result (the release profile does
    not enable overflow checks). *)
Definition wrap64 (z : Z) : Z := (z + 2 ^ 63) mod 2 ^ 64 - 2 ^ 63.

Definition sat64 (z : Z) : Z := Z.max i64_min (Z.min i64_max z).
Definition saturating_add (a b : Z) : Z := sat64 (a + b).
Definition saturating_sub (a b : Z) : Z := sat64 (a - b).
Definition saturating_mul (a b : Z) : Z := sat64 (a * b).

(** Inclusive Rust range [(lo..=hi).contains(&x)]. *)
Definition in_range (lo hi x : Z) : bool := (lo <=? x) && (x <=? hi).

Lemma in_range_spec lo hi x : in_range lo hi x = true <-> lo <= x <= hi.
Proof. unfold in_range. rewrite andb_true_iff. lia. Qed.

Lemma sat64_id z : i64_min <= z <= i64_max -> sat64 z = z.
Proof. unfold sat64. lia. Qed.

Lemma sat64_bounds z : i64_min <= sat64 z <= i64_max.
Proof. unfold sat64, i64_min, i64_max. lia. Qed.

Lemma wrap64_id z : i64_min <= z <= i64_max -> wrap64 z = z.
Proof.
  unfold wrap64, i64_min, i64_max. intros.
  rewrite Z.mod_small by lia. lia.
Qed.

(** ** Tactics *)

(** Reflect boolean tests in hypotheses and goal. *)
Ltac breflect :=
  repeat match goal with
  | H : _ && _ = true |- _ => apply andb_true_iff in H; destruct H
  | H : _ || _ = false |- _ => apply orb_false_iff in H; destruct H
  | H : negb _ = true |- _ => apply negb_true_iff in H
  | H : negb _ = false |- _ => apply negb_false_iff in H
  | H : (_ <=? _) = true |- _ => apply Z.leb_le in H
  | H : (_ <=? _) = false |- _ => apply Z.leb_gt in H
  | H : (_ <? _) = true |- _ => apply Z.ltb_lt in H
  | H : (_ <? _) = false |- _ => apply Z.ltb_ge in H
  | H : (_ =? _) = true |- _ => apply Z.eqb_eq in H
  | H : (_ =? _) = false |- _ => apply Z.eqb_neq in H
  | H : String.eqb _ _ = true |- _ => apply String.eqb_eq in H
  | H : String.eqb _ _ = false |- _ => apply String.eqb_neq in H
  | H : in_range _ _ _ = true |- _ => apply in_range_spec in H
  end.

(** Case analysis on the scrutinee of the operation in [H : op .. = r]:
    every [let?], guard, option match is split and the impossible branches
    are closed. *)
Ltac step_in H :=
  match type of H with
  | context [match ?x with _ => _ end] =>
      let E := fresh "E" in destruct x eqn:E; try discriminate H
  end.
Ltac steps_in H := repeat (step_in H; cbn beta iota zeta in H); simplify_eq.

Ltac inv_ok H := unfold ok_or in H; cbn beta iota zeta in H; steps_in H.
