(* ===== verification/Refine.v ===== *)
(** * Refinement of a labelled machine

    A client of a component reasons about an abstract machine; [Refines] is the promise of
    the implementation that each of its steps is at most one step of that machine. *)

From Stdlib Require Import List.
From stdpp Require Import base list.
From S2P Require Import Prelude.

Class Refines {L C A : Type} (good : C -> Prop) (cstep : L -> C -> C -> Prop) (astep : L -> A -> A -> Prop)
    (abs : C -> A) : Prop := {
  refines_good : forall l c c', good c -> cstep l c c' -> good c';
  refines_step : forall l c c', good c -> cstep l c c' -> abs c' = abs c \/ astep l (abs c) (abs c');
}.

(** A finite run with its labels. *)
Inductive trace {L C : Type} (step : L -> C -> C -> Prop) : C -> list L -> C -> Prop :=
| trace_nil c : trace step c [] c
| trace_cons c l c' ls c'' : step l c c' -> trace step c' ls c'' -> trace step c (l :: ls) c''.

Section Transfer.
Context {L C A : Type} {good : C -> Prop} {cstep : L -> C -> C -> Prop} {astep : L -> A -> A -> Prop} {abs : C -> A}.
Context `{!Refines good cstep astep abs}.

(** What the abstract machine keeps under certain labels, every concrete run with these
    labels keeps. *)
Lemma refines_stable (P : A -> Prop) (allowed : L -> Prop) :
  (forall l a a', allowed l -> P a -> astep l a a' -> P a') ->
  forall c ls c', trace cstep c ls c' -> good c -> Forall allowed ls -> P (abs c) -> P (abs c').
Proof.
  intros Hstep c ls c'. induction 1 as [c|c l c1 ls c2 Hs _ IH]; intros Hg Hall HP; [done|].
  inversion_clear Hall as [|? ? Hl Hls]. apply IH; [eapply refines_good; eauto|done|].
  destruct (refines_step l c c1 Hg Hs) as [->|Ha]; eauto.
Qed.

(** The run of the abstract machine behind a concrete one, without the stuttering. *)
Lemma refines_trace c ls c' :
  trace cstep c ls c' -> good c -> exists ls', sublist ls' ls /\ trace astep (abs c) ls' (abs c').
Proof.
  induction 1 as [c|c l c1 ls c2 Hs _ IH]; intros Hg; [exists []; split; constructor|].
  destruct IH as (ls' & Hsub & Ht); [eapply refines_good; eauto|].
  destruct (refines_step l c c1 Hg Hs) as [E|Ha].
  - exists ls'. rewrite <- E. split; [by constructor|done].
  - exists (l :: ls'). split; [by constructor|]. econstructor; eauto.
Qed.
End Transfer.
