(* ===== verification/Sql.v ===== *)
(** * The relational fragment of SQLite the database layer uses

    A table is the list of its rows in insertion order.  [SELECT .. WHERE],
    [UPDATE .. WHERE], [DELETE .. WHERE], [COUNT], [SUM], [MAX], [EXISTS],
    [ORDER BY], [LIMIT/OFFSET] and [GROUP BY key .. MAX(value)] are the functions below; a
    statement of [db.rs] is one application of them.  The lemmas relate the
    functions to each other; the components' proofs use only the lemmas. *)

From Stdlib Require Import ZArith Lia List String Bool Sorted Permutation.
From stdpp Require Import base list strings.
From S2P Require Import Prelude.

Local Open Scope Z_scope.

Section Tables.
Context {A : Type}.
Implicit Types (P Q : A -> bool) (f : A -> Z) (t : list A).

Definition select P t : list A := List.filter P t.
Definition update P (g : A -> A) t : list A := map (fun r => if P r then g r else r) t.
Definition delete_where P t : list A := List.filter (fun r => negb (P r)) t.
Definition count P t : Z := Z.of_nat (length (select P t)).
Definition count_all t : Z := Z.of_nat (length t).
Definition exists_row P t : bool := existsb P t.
Definition sum_of f t : Z := foldr (fun r acc => f r + acc) 0 t.

(** [query_row(..).optional()]: the first row, if there is one. *)
Definition query_row P t : option A := head (select P t).

(** [COALESCE(MAX(f),0)] over values that are never negative. *)
Definition max_of f t : Z := foldr (fun r acc => Z.max (f r) acc) 0 t.

(** [LIMIT n]: a negative limit is no limit. *)
Definition limit (n : Z) t : list A := if n <? 0 then t else firstn (Z.to_nat n) t.
Definition offset (n : Z) t : list A := skipn (Z.to_nat n) t.

(** [ORDER BY]: a stable sort for the given comparison. *)
Fixpoint insert_sorted (le : A -> A -> bool) (x : A) t : list A :=
  match t with
  | [] => [x]
  | y :: t' => if le x y then x :: y :: t' else y :: insert_sorted le x t'
  end.
Definition order_by (le : A -> A -> bool) t : list A := foldr (insert_sorted le) [] t.

(** [SELECT key,MAX(value) .. GROUP BY key]: one row per distinct key. *)
Definition max_val (l : list Z) : Z :=
  match l with [] => 0 | v :: l' => foldr Z.max v l' end.
Definition group_max (key : A -> string) (val : A -> Z) t : list (string * Z) :=
  map (fun k => (k, max_val (map val (select (fun r => String.eqb (key r) k) t))))
    (nodup string_dec (map key t)).
End Tables.

(** [x IN (list)]. *)
Definition in_list (x : Z) (l : list Z) : bool := existsb (Z.eqb x) l.

(** Comparisons on optional columns: [a = b] is not true when either is NULL. *)
Definition sql_eq_opt (a : option string) (b : string) : bool :=
  match a with Some a => String.eqb a b | None => false end.
Definition is_null {A} (o : option A) : bool := match o with None => true | Some _ => false end.

(** ** Lemmas *)
Section TableLemmas.
Context {A : Type}.
Implicit Types (P Q : A -> bool) (f : A -> Z) (g : A -> A) (t : list A) (r : A).

Lemma in_select P t r : In r (select P t) <-> In r t /\ P r = true.
Proof. apply filter_In. Qed.

Lemma in_delete P t r : In r (delete_where P t) <-> In r t /\ P r = false.
Proof. unfold delete_where. rewrite filter_In, negb_true_iff. done. Qed.

Lemma in_update P g t r :
  In r (update P g t) <-> exists r0, In r0 t /\ r = (if P r0 then g r0 else r0).
Proof.
  unfold update. rewrite in_map_iff. split; intros (r0 & H1 & H2); exists r0; auto.
Qed.

Lemma exists_row_spec P t : exists_row P t = true <-> exists r, In r t /\ P r = true.
Proof. apply existsb_exists. Qed.

Lemma exists_row_false P t : exists_row P t = false <-> forall r, In r t -> P r = false.
Proof.
  unfold exists_row. split.
  - intros H r Hr. destruct (P r) eqn:E; [|done].
    assert (existsb P t = true) by (apply existsb_exists; eauto). congruence.
  - intros H. destruct (existsb P t) eqn:E; [|done].
    apply existsb_exists in E as (r & Hr & HP). rewrite (H r Hr) in HP. done.
Qed.

Lemma query_row_some P t r : query_row P t = Some r -> In r t /\ P r = true.
Proof.
  unfold query_row. intros H. apply in_select.
  destruct (select P t) as [|x l] eqn:E; cbn in H; [done|].
  injection H as ->. left; done.
Qed.

Lemma query_row_none P t : query_row P t = None <-> forall r, In r t -> P r = false.
Proof.
  unfold query_row. destruct (select P t) as [|x l] eqn:E; cbn; split; try done.
  - intros _ r Hr. destruct (P r) eqn:EP; [|done].
    assert (In r (select P t)) as Hin by (apply in_select; done).
    rewrite E in Hin. done.
  - intros H. assert (In x (select P t)) as Hin by (rewrite E; left; done).
    apply in_select in Hin as [Hin HP]. rewrite (H x Hin) in HP. done.
Qed.

Lemma select_app P t1 t2 : select P (t1 ++ t2) = select P t1 ++ select P t2.
Proof. apply List.filter_app. Qed.

Lemma select_ext P Q t : (forall r, In r t -> P r = Q r) -> select P t = select Q t.
Proof. apply List.filter_ext_in. Qed.

Lemma select_true P t : (forall r, In r t -> P r = true) -> select P t = t.
Proof.
  induction t as [|x t IH]; intros H; cbn; [done|].
  rewrite (H x) by (left; done). f_equal. apply IH. intros; apply H; right; done.
Qed.

Lemma select_none P t : (forall r, In r t -> P r = false) -> select P t = [].
Proof.
  induction t as [|x t IH]; intros H; cbn; [done|].
  rewrite (H x) by (left; done). apply IH. intros; apply H; right; done.
Qed.

Lemma select_select P Q t : select P (select Q t) = select (fun r => Q r && P r) t.
Proof.
  unfold select. induction t as [|x t IH]; cbn; [done|].
  destruct (Q x); cbn; [|done]. destruct (P x); cbn; rewrite IH; done.
Qed.

Lemma delete_where_select P t : delete_where P t = select (fun r => negb (P r)) t.
Proof. done. Qed.

Lemma delete_none P t : (forall r, In r t -> P r = false) -> delete_where P t = t.
Proof. intros H. apply select_true. intros r Hr. rewrite (H r Hr). done. Qed.

Lemma update_none P g t : (forall r, In r t -> P r = false) -> update P g t = t.
Proof.
  intros H. unfold update. rewrite <- (List.map_id t) at 2. apply map_ext_in.
  intros r Hr. rewrite (H r Hr). done.
Qed.

Lemma length_update P g t : length (update P g t) = length t.
Proof. apply List.length_map. Qed.

Lemma length_select P t : (length (select P t) <= length t)%nat.
Proof. apply List.filter_length_le. Qed.

Lemma map_update {B} (h : A -> B) P g t :
  (forall r, h (g r) = h r) -> map h (update P g t) = map h t.
Proof.
  intros H. unfold update. rewrite List.map_map. apply map_ext. intros r.
  destruct (P r); rewrite ?H; done.
Qed.

Lemma map_update_in {B} (h : A -> B) P g t :
  (forall r, In r t -> P r = true -> h (g r) = h r) -> map h (update P g t) = map h t.
Proof.
  intros H. unfold update. rewrite List.map_map. apply map_ext_in. intros r Hr.
  destruct (P r) eqn:E; rewrite ?H by done; done.
Qed.

(** A predicate the update does not touch selects the updated rows. *)
Lemma select_update P Q g t :
  (forall r, In r t -> P r = true -> Q (g r) = Q r) ->
  select Q (update P g t) = update P g (select Q t).
Proof.
  induction t as [|x t IH]; intros H; cbn; [done|].
  fold (update P g t). fold (select Q (update P g t)).
  rewrite IH by (intros; apply H; [right|]; done).
  destruct (P x) eqn:EP; cbn.
  - rewrite H by (done || (left; done)). destruct (Q x); cbn; rewrite ?EP; done.
  - destruct (Q x); cbn; rewrite ?EP; done.
Qed.

(** *** Counting *)
Lemma count_nonneg P t : 0 <= count P t.
Proof. unfold count. lia. Qed.

Lemma count_app P t1 t2 : count P (t1 ++ t2) = count P t1 + count P t2.
Proof. unfold count. rewrite select_app, length_app. lia. Qed.

Lemma count_cons P x t : count P (x :: t) = (if P x then 1 else 0) + count P t.
Proof. unfold count, select. cbn. destruct (P x); cbn; lia. Qed.

Lemma count_le_all P t : count P t <= count_all t.
Proof. unfold count, count_all. pose proof (length_select P t). lia. Qed.

Lemma count_ext P Q t : (forall r, In r t -> P r = Q r) -> count P t = count Q t.
Proof. intros H. unfold count. rewrite (select_ext P Q t H). done. Qed.

Lemma count_update P Q g t :
  (forall r, In r t -> P r = true -> Q (g r) = Q r) -> count Q (update P g t) = count Q t.
Proof. intros H. unfold count. rewrite select_update, length_update by done. done. Qed.

Lemma count_delete_le P Q t : count Q (delete_where P t) <= count Q t.
Proof.
  unfold count. rewrite delete_where_select. unfold select.
  induction t as [|x t IH]; cbn; [lia|].
  destruct (negb (P x)), (Q x) eqn:E; cbn; rewrite ?E; cbn; lia.
Qed.

Lemma count_mono P Q t : (forall r, In r t -> P r = true -> Q r = true) -> count P t <= count Q t.
Proof.
  unfold count, select. induction t as [|x t IH]; intros H; cbn; [lia|].
  specialize (IH ltac:(intros; apply H; [right|]; done)).
  destruct (P x) eqn:E; [rewrite (H x) by (done || (left; done)); cbn; lia|].
  destruct (Q x); cbn; lia.
Qed.

Lemma count_zero P t : count P t = 0 <-> forall r, In r t -> P r = false.
Proof.
  unfold count. split.
  - intros H r Hr. destruct (P r) eqn:E; [|done].
    assert (In r (select P t)) as Hin by (apply in_select; done).
    destruct (select P t); [done|cbn in H; lia].
  - intros H. rewrite select_none by done. done.
Qed.

Lemma count_pos P t : 0 < count P t <-> exists r, In r t /\ P r = true.
Proof.
  split.
  - intros H. destruct (exists_row P t) eqn:E; [apply exists_row_spec; done|].
    pose proof (proj2 (count_zero P t) (proj1 (exists_row_false P t) E)). lia.
  - intros (r & Hr & HP). destruct (Z.eq_dec (count P t) 0) as [E|E].
    + rewrite (proj1 (count_zero P t) E r Hr) in HP. done.
    + pose proof (count_nonneg P t). lia.
Qed.

Lemma count_select P Q t : count P (select Q t) = count (fun r => Q r && P r) t.
Proof. unfold count. rewrite select_select. done. Qed.

(** *** Sums *)
Lemma sum_of_app f t1 t2 : sum_of f (t1 ++ t2) = sum_of f t1 + sum_of f t2.
Proof. unfold sum_of. induction t1 as [|x t1 IH]; cbn; lia. Qed.

Lemma sum_of_ext f h t : (forall r, In r t -> f r = h r) -> sum_of f t = sum_of h t.
Proof.
  unfold sum_of. induction t as [|x t IH]; intros H; cbn; [done|].
  rewrite (H x) by (left; done). rewrite IH by (intros; apply H; right; done). done.
Qed.

Lemma sum_of_split f P t : sum_of f t = sum_of f (select P t) + sum_of f (delete_where P t).
Proof.
  unfold sum_of, select, delete_where.
  induction t as [|x t IH]; cbn; [done|]. destruct (P x); cbn; lia.
Qed.

Lemma sum_of_nonneg f t : (forall r, In r t -> 0 <= f r) -> 0 <= sum_of f t.
Proof.
  unfold sum_of. induction t as [|x t IH]; intros H; cbn; [lia|].
  pose proof (H x (or_introl eq_refl)).
  specialize (IH ltac:(intros; apply H; right; done)). lia.
Qed.

Lemma sum_of_select_le f P t : (forall r, In r t -> 0 <= f r) -> sum_of f (select P t) <= sum_of f t.
Proof.
  intros H. rewrite (sum_of_split f P t).
  pose proof (sum_of_nonneg f (delete_where P t)
    ltac:(intros r Hr; apply in_delete in Hr as [Hr _]; auto)). lia.
Qed.

Lemma sum_of_update f P g t :
  (forall r, In r t -> P r = true -> f (g r) = f r) -> sum_of f (update P g t) = sum_of f t.
Proof.
  unfold sum_of, update. induction t as [|x t IH]; intros H; cbn; [done|].
  rewrite IH by (intros; apply H; [right|]; done).
  destruct (P x) eqn:E; rewrite ?H by (done || (left; done)); done.
Qed.

Lemma sum_of_select_if f P t : sum_of f (select P t) = sum_of (fun r => if P r then f r else 0) t.
Proof.
  unfold sum_of, select. induction t as [|x t IH]; cbn; [done|].
  destruct (P x); cbn; lia.
Qed.

(** *** Maxima *)
Lemma max_of_nonneg f t : 0 <= max_of f t.
Proof. unfold max_of. induction t; cbn; lia. Qed.

Lemma max_of_ge f t r : In r t -> f r <= max_of f t.
Proof.
  unfold max_of. induction t as [|x t IH]; [done|]. cbn.
  intros [->|H]; [lia|]. specialize (IH H). lia.
Qed.

Lemma max_of_le f t m : 0 <= m -> (forall r, In r t -> f r <= m) -> max_of f t <= m.
Proof.
  unfold max_of. intros Hm. induction t as [|x t IH]; intros H; cbn; [done|].
  pose proof (H x (or_introl eq_refl)).
  specialize (IH ltac:(intros; apply H; right; done)). lia.
Qed.

Lemma max_of_ext f h t : (forall r, In r t -> f r = h r) -> max_of f t = max_of h t.
Proof.
  unfold max_of. induction t as [|x t IH]; intros H; cbn; [done|].
  rewrite (H x) by (left; done). rewrite IH by (intros; apply H; right; done). done.
Qed.
End TableLemmas.

(** *** GROUP BY key, MAX(value) *)

(** [m] is the greatest value of group [k] of the rows [t]. *)
Definition group_head {A} (key : A -> string) (val : A -> Z) (t : list A) (k : string) (m : Z) : Prop :=
  (exists r, In r t /\ key r = k /\ val r = m) /\
  (forall r, In r t -> key r = k -> val r <= m).

Lemma max_val_ge l x : In x l -> x <= max_val l.
Proof.
  destruct l as [|v l]; [done|]. cbn. intros H.
  assert (v <= foldr Z.max v l /\ forall y, In y l -> y <= foldr Z.max v l) as [H1 H2].
  { clear x H. induction l as [|z l [IH1 IH2]]; cbn; [split; [lia|done]|].
    split; [lia|]. intros y [->|Hy]; [lia|]. specialize (IH2 y Hy). lia. }
  destruct H as [->|H]; auto.
Qed.

Lemma max_val_in l : l <> [] -> In (max_val l) l.
Proof.
  destruct l as [|v l]; [done|]. intros _. cbn.
  induction l as [|z l IH]; cbn; [auto|].
  destruct (Z.max_spec z (foldr Z.max v l)) as [[_ ->]|[_ ->]]; [|auto].
  destruct IH as [IH|IH]; [rewrite <- IH|]; auto.
Qed.

Section Groups.
Context {A : Type} (key : A -> string) (val : A -> Z).
Implicit Types (t : list A) (r : A).

Lemma in_group t k v :
  In v (map val (select (fun r => String.eqb (key r) k) t)) <-> exists r, In r t /\ key r = k /\ val r = v.
Proof.
  rewrite in_map_iff. setoid_rewrite in_select. setoid_rewrite String.eqb_eq. naive_solver.
Qed.

Lemma in_group_max t k m : In (k, m) (group_max key val t) <-> group_head key val t k m.
Proof.
  unfold group_max, group_head. rewrite in_map_iff. setoid_rewrite nodup_In.
  setoid_rewrite in_map_iff. split.
  - intros (k' & [= -> <-] & r & Hk & Hr). split.
    + apply in_group, max_val_in. intros E.
      assert (In (val r) []) as []; rewrite <- E. apply in_group. eauto.
    + intros r' Hr' Hk'. apply max_val_ge, in_group. eauto.
  - intros [(r & Hr & Hk & Hv) Hle]. exists k. split; [|eauto]. f_equal.
    apply Z.le_antisymm.
    + assert (In (max_val (map val (select (fun r => String.eqb (key r) k) t)))
                (map val (select (fun r => String.eqb (key r) k) t))) as Hin.
      { apply max_val_in. intros E. assert (In (val r) []) as []; rewrite <- E.
        apply in_group. eauto. }
      apply in_group in Hin as (r' & Hr' & Hk' & <-). auto.
    + rewrite <- Hv. apply max_val_ge, in_group. eauto.
Qed.

(** [uid IN (SELECT MAX(uid) .. GROUP BY path)]. *)
Lemma in_heads t m :
  In m (map snd (group_max key val t)) <-> exists k, group_head key val t k m.
Proof.
  rewrite in_map_iff. split.
  - intros ([k m'] & <- & H). apply in_group_max in H. eauto.
  - intros [k H]. apply in_group_max in H. exists (k, m). auto.
Qed.
End Groups.

Lemma in_list_spec x l : in_list x l = true <-> In x l.
Proof.
  unfold in_list. rewrite existsb_exists. setoid_rewrite Z.eqb_eq. naive_solver.
Qed.

(** *** ORDER BY *)
Section Sorting.
Context {A : Type} (le : A -> A -> bool).
Hypothesis le_total : forall x y, le x y = false -> le y x = true.
Implicit Types (t : list A).

Let leP (x y : A) : Prop := le x y = true.

Lemma insert_sorted_perm x t : Permutation (x :: t) (insert_sorted le x t).
Proof using.
  induction t as [|y t IH]; cbn; [done|]. destruct (le x y); [done|].
  rewrite perm_swap, IH. done.
Qed.

Lemma order_by_perm t : Permutation t (order_by le t).
Proof using.
  induction t as [|x t IH]; cbn; [done|]. rewrite <- insert_sorted_perm, <- IH. done.
Qed.

Lemma in_order_by t x : In x (order_by le t) <-> In x t.
Proof using.
  split; apply Permutation_in; [symmetry|]; apply order_by_perm.
Qed.

Lemma insert_sorted_sorted x t : Sorted leP t -> Sorted leP (insert_sorted le x t).
Proof using le_total.
  induction 1 as [|y t H IH Hhd]; cbn; [repeat constructor|].
  destruct (le x y) eqn:E.
  - constructor; [constructor; done|]. constructor. done.
  - constructor; [done|]. destruct t as [|z t]; cbn.
    + constructor. apply le_total. done.
    + inversion Hhd; subst. destruct (le x z); constructor; [apply le_total|]; done.
Qed.

Lemma order_by_sorted t : Sorted leP (order_by le t).
Proof using le_total.
  induction t as [|x t IH]; cbn; [constructor|]. apply insert_sorted_sorted. done.
Qed.

(** Rows already in order are returned as they are. *)
Lemma order_by_id t : Sorted leP t -> order_by le t = t.
Proof using.
  unfold order_by. induction 1 as [|x t H IH Hhd]; cbn; [done|]. rewrite IH.
  destruct Hhd as [|y t Hxy]; cbn; [done|]. unfold leP in Hxy. rewrite Hxy. done.
Qed.
End Sorting.

Lemma length_order_by {A} (le : A -> A -> bool) t : length (order_by le t) = length t.
Proof. symmetry. apply Permutation_length, order_by_perm. Qed.

(** [ORDER BY f ASC]. *)
Definition asc {A} (f : A -> Z) (x y : A) : bool := f x <=? f y.
Definition desc {A} (f : A -> Z) (x y : A) : bool := f y <=? f x.

Lemma asc_total {A} (f : A -> Z) x y : asc f x y = false -> asc f y x = true.
Proof. unfold asc. lia. Qed.
Lemma desc_total {A} (f : A -> Z) x y : desc f x y = false -> desc f y x = true.
Proof. unfold desc. lia. Qed.

(** *** Rows with a strictly increasing key *)
Definition increasing {A} (f : A -> Z) (t : list A) : Prop :=
  StronglySorted (fun x y => f x < f y) t.

Section Increasing.
Context {A : Type} (f : A -> Z).
Implicit Types (t : list A) (P : A -> bool).

Lemma increasing_select P t : increasing f t -> increasing f (select P t).
Proof.
  unfold increasing, select. induction 1 as [|x t H IH Hx]; cbn; [constructor|].
  destruct (P x); [|done]. constructor; [done|].
  rewrite Forall_forall in *. intros y Hy. apply list_elem_of_In, filter_In in Hy as [Hy _].
  apply Hx, list_elem_of_In. done.
Qed.

Lemma increasing_snoc t x :
  increasing f t -> (forall y, In y t -> f y < f x) -> increasing f (t ++ [x]).
Proof.
  unfold increasing. induction 1 as [|y t H IH Hy]; cbn; intros Hlt; [repeat constructor|].
  constructor; [apply IH; intros; apply Hlt; right; done|].
  rewrite Forall_app. split; [done|]. constructor; [|done]. apply Hlt. left; done.
Qed.

Lemma increasing_app_l t1 t2 : increasing f (t1 ++ t2) -> increasing f t1.
Proof.
  unfold increasing. induction t1 as [|y t IH]; cbn; [constructor|].
  intros H. inversion H as [|? ? H1 H2]; subst. apply Forall_app in H2 as [H2 _]. constructor; auto.
Qed.

Lemma increasing_app t1 t2 :
  increasing f (t1 ++ t2) -> increasing f t2 /\ forall x y, In x t1 -> In y t2 -> f x < f y.
Proof.
  unfold increasing. induction t1 as [|z t IH]; cbn; [done|].
  intros H. inversion H as [|? ? H1 H2]; subst. destruct (IH H1) as [Hs Hlt]. split; [done|].
  intros x y [<-|Hx] Hy; [|auto]. rewrite Forall_forall in H2. apply H2, list_elem_of_In, in_or_app. auto.
Qed.

Lemma increasing_inj t x y : increasing f t -> In x t -> In y t -> f x = f y -> x = y.
Proof.
  unfold increasing. induction 1 as [|z t H IH Hz]; [done|].
  rewrite Forall_forall in Hz. setoid_rewrite list_elem_of_In in Hz.
  intros [<-|Hx] [<-|Hy] E; auto; exfalso.
  - specialize (Hz y Hy). lia.
  - specialize (Hz x Hx). lia.
Qed.

Lemma increasing_update P (g : A -> A) t :
  (forall x, f (g x) = f x) -> increasing f t -> increasing f (update P g t).
Proof.
  unfold increasing, update. intros Hg. induction 1 as [|x t H IH Hx]; cbn; constructor; [done|].
  rewrite Forall_forall in *. intros y Hy. rewrite list_elem_of_In, in_map_iff in Hy.
  destruct Hy as (y0 & <- & Hy0). apply list_elem_of_In in Hy0. specialize (Hx y0 Hy0).
  destruct (P x), (P y0); rewrite ?Hg; done.
Qed.

Lemma increasing_sorted_asc t : increasing f t -> Sorted (fun x y => asc f x y = true) t.
Proof.
  intros H. apply StronglySorted_Sorted. induction H as [|x t H IH Hx]; constructor; [done|].
  eapply Forall_impl; [exact Hx|]. cbn. unfold asc. lia.
Qed.

Lemma order_by_increasing t : increasing f t -> order_by (asc f) t = t.
Proof. intros H. apply order_by_id, increasing_sorted_asc, H. Qed.

Lemma increasing_nodup t : increasing f t -> NoDup (map f t).
Proof.
  unfold increasing. induction 1 as [|x t H IH Hx]; cbn; constructor; [|done].
  rewrite list_elem_of_In, in_map_iff. intros (y & E & Hy).
  rewrite Forall_forall in Hx. apply list_elem_of_In, Hx in Hy. lia.
Qed.
End Increasing.

(** Statements are reasoned about by their lemmas, not by computation. *)
Arguments select {A} P t : simpl never.
Arguments update {A} P g t : simpl never.
Arguments delete_where {A} P t : simpl never.
Arguments count {A} P t : simpl never.
Arguments count_all {A} t : simpl never.
Arguments exists_row {A} P t : simpl never.
Arguments sum_of {A} f t : simpl never.
Arguments query_row {A} P t : simpl never.
Arguments max_of {A} f t : simpl never.
Arguments order_by {A} le t : simpl never.
Arguments group_max {A} key val t : simpl never.
Arguments limit {A} n t : simpl never.
Arguments in_list x l : simpl never.

Lemma select_map {A B} (P : B -> bool) (f : A -> B) t : select P (map f t) = map f (select (fun x => P (f x)) t).
Proof.
  unfold select. induction t as [|x t IH]; cbn; [done|]. destruct (P (f x)); cbn; rewrite IH; done.
Qed.
