(* ===== verification/Totals.v ===== *)
(** * Sums over the tasks of a system *)

From Stdlib Require Import ZArith Lia List.
From stdpp Require Import base list gmap.
From S2P Require Import Prelude.

Local Open Scope Z_scope.

Section Total.
Context {A : Type}.
Implicit Types (f : A -> Z) (ts : gmap nat A).

Definition total f ts : Z := map_fold (fun _ t acc => f t + acc) 0 ts.

Lemma total_empty f : total f ∅ = 0.
Proof. apply map_fold_empty. Qed.
Lemma total_insert f ts i t : ts !! i = None -> total f (<[i := t]> ts) = f t + total f ts.
Proof. intros H. unfold total. rewrite map_fold_insert_L; [done| |done]. intros. lia. Qed.
Lemma total_delete f ts i t : ts !! i = Some t -> total f ts = f t + total f (delete i ts).
Proof. intros H. rewrite <- (insert_delete_id ts i t H) at 1. apply total_insert, lookup_delete_eq. Qed.
Lemma total_update f ts i t t' : ts !! i = Some t -> total f (<[i := t']> ts) = total f ts - f t + f t'.
Proof.
  intros H. rewrite (total_delete f ts i t H), <- insert_delete_eq, total_insert by apply lookup_delete_eq. lia.
Qed.
Lemma total_positive f ts : 0 < total f ts -> exists i t, ts !! i = Some t /\ 0 < f t.
Proof.
  induction ts as [|i t ts Hi IH] using map_ind; [done|]. rewrite total_insert by done. intros H.
  destruct (decide (0 < f t)) as [Hw|Hw]; [exists i, t; rewrite lookup_insert_eq; done|].
  destruct IH as (j & t' & Hj & Hw'); [lia|]. exists j, t'. split; [|done]. rewrite lookup_insert_ne; [done|]. intros <-. congruence.
Qed.
(** A bound on every task bounds the sums. *)
Lemma total_le f g ts : (forall i t, ts !! i = Some t -> f t <= g t) -> total f ts <= total g ts.
Proof.
  induction ts as [|i t ts Hi IH] using map_ind; intros H; [done|]. rewrite !total_insert by done.
  assert (total f ts <= total g ts) as Hle.
  { apply IH. intros j u Hu. apply (H j). rewrite lookup_insert_ne; [done|]. intros <-. congruence. }
  specialize (H i t (lookup_insert_eq _ _ _)). lia.
Qed.
Lemma total_scale c f ts : total (fun t => c * f t) ts = c * total f ts.
Proof.
  induction ts as [|i t ts Hi IH] using map_ind; [rewrite !total_empty; lia|]. rewrite !total_insert, IH by done. lia.
Qed.
Lemma total_nonneg f ts : (forall t, 0 <= f t) -> 0 <= total f ts.
Proof.
  intros H. induction ts as [|i t ts Hi IH] using map_ind; [by rewrite total_empty|]. rewrite total_insert by done. specialize (H t). lia.
Qed.
Lemma total_member f ts i t : (forall t, 0 <= f t) -> ts !! i = Some t -> f t <= total f ts.
Proof. intros H Hi. rewrite (total_delete f ts i t Hi). pose proof (total_nonneg f (delete i ts) H). lia. Qed.
End Total.
