(* ===== verification/Model.v ===== *)
(** * Data of the program ([model.rs], the constants of [db.rs])

    Strings are byte strings (the UTF-8 bytes of a Rust [String]), [i64]
    fields are [Z], blobs are lists of bytes. *)

From Stdlib Require Import ZArith List String Ascii Bool.
From stdpp Require Import base strings.
From S2P Require Import Prelude.

Local Open Scope Z_scope.

(** ** Bounds ([db.rs]) *)
Definition CURRENT_SCHEMA_VERSION : Z := 7.
Definition SUPPORTED_MIGRATIONS : list Z := [1; 2; 3; 4; 5; 6; 7].
Definition MAX_VAULTS : Z := 100.
Definition MAX_JS_SAFE_INTEGER : Z := 9007199254740991.
Definition MAX_USERS : Z := 256.
Definition MAX_RETIRED_VAULTS : Z := 8192.
Definition MAX_RETIRED_VAULTS_PER_OWNER : Z := 512.
Definition MAX_SESSIONS : Z := 1024.
Definition MAX_SESSIONS_PER_USER : Z := 64.
Definition MAX_ACTIVE_COLLABORATORS_PER_VAULT : Z := 20.
Definition MAX_REVOKED_MEMBERSHIPS_PER_VAULT : Z := 64.
Definition MAX_MEMBERSHIPS : Z := 8192.
Definition REVISION_PIECE_SIZE : Z := 2 * 1024 * 1024.
Definition MAX_EVENT_BYTES : Z := 32 * 1024.

(** ** [model.rs] *)
Record UserCredential := {
  uc_id : Z;
  uc_email : string;
  uc_name : string;
  uc_password_hash : string;
  uc_active : bool;
  uc_role : string;
}.

Record AuthContext := {
  ac_user_id : Z;
  ac_email : string;
  ac_name : string;
  ac_role : string;
  ac_token_hash : string;
}.

Record Vault := {
  v_id : string;
  v_name : string;
  v_keyhash : option string;
  v_salt : option string;
  v_host : string;
  v_region : string;
  v_encryption_version : Z;
  v_size : Z;
  v_created : Z;
  v_password : option string;
}.

Record SharedVault := {
  sv_vault : Vault;
  sv_share_uid : Z;
  sv_owner_user_id : Z;
}.

Record VaultShareItem := {
  vs_uid : Z;
  vs_email : string;
  vs_name : option string;
  vs_accepted : bool;
}.

Record Revision := {
  r_uid : Z;
  r_vault_id : string;
  r_path : string;
  r_relatedpath : option string;
  r_extension : string;
  r_hash : string;
  r_ctime : Z;
  r_mtime : Z;
  r_folder : bool;
  r_deleted : bool;
  r_size : Z;
  r_pieces : Z;
  r_device : string;
  r_user_id : Z;
  r_ts : Z;
}.

Record NewRevision := {
  n_vault_id : string;
  n_path : string;
  n_relatedpath : option string;
  n_extension : string;
  n_hash : string;
  n_ctime : Z;
  n_mtime : Z;
  n_folder : bool;
  n_deleted : bool;
  n_size : Z;
  n_pieces : Z;
  n_device : string;
  n_user_id : Z;
  n_expected_version : option Z;
}.

Inductive VaultAccess :=
| Owner (user_id : Z) (vault_id : string)
| Collaborator (user_id : Z) (vault_id : string) (share_uid : Z).

Record PushNotice := {
  pn_path : string;
  pn_relatedpath : option string;
  pn_extension : string;
  pn_hash : string;
  pn_ctime : Z;
  pn_mtime : Z;
  pn_folder : bool;
  pn_deleted : bool;
  pn_size : Z;
  pn_uid : Z;
  pn_device : string;
  pn_user : Z;
  pn_ts : Z;
}.

(** [impl From<Revision> for PushNotice]; the [op] field is the constant
    ["push"]. *)
Definition notice_of_revision (r : Revision) : PushNotice := {|
  pn_path := r_path r;
  pn_relatedpath := r_relatedpath r;
  pn_extension := r_extension r;
  pn_hash := r_hash r;
  pn_ctime := r_ctime r;
  pn_mtime := r_mtime r;
  pn_folder := r_folder r;
  pn_deleted := r_deleted r;
  pn_size := r_size r;
  pn_uid := r_uid r;
  pn_device := r_device r;
  pn_user := r_user_id r;
  pn_ts := r_ts r;
|}.

Definition blob := list Byte.byte.
Definition blob_len (b : blob) : Z := Z.of_nat (length b).

Record PullInfo := {
  pi_vault_id : string;
  pi_hash : string;
  pi_size : Z;
  pi_pieces : Z;
  pi_folder : bool;
  pi_deleted : bool;
  pi_has_content : bool;
}.

Inductive RegistrationResult :=
| RegCreated (id : Z)
| RegDisabled
| RegUnavailable.

(** [str::len]: bytes. *)
Definition str_len (s : string) : Z := Z.of_nat (String.length s).
Definition is_empty (s : string) : bool := String.eqb s "".
