(* ===== verification/Store.v ===== *)
(** * The database state and its constraints

    The tables of schema version 7 ([MIGRATION_1_SQL] .. [MIGRATION_7_SQL],
    [apply_v5_migration]), the AUTOINCREMENT sequences, and the per-connection
    counter [temp.blackglass_runtime_storage_usage] with its two triggers.
    An insertion checks the primary key, UNIQUE and FOREIGN KEY constraints
    SQLite enforces; a deletion performs the ON DELETE CASCADE actions and
    fires the triggers. *)

From Stdlib Require Import ZArith Lia List String Bool.
From stdpp Require Import base list strings.
From S2P Require Import Prelude Sql Model.

Local Open Scope Z_scope.

(** ** Rows *)
Record user_row := {
  u_id : Z;
  u_email_canonical : string;
  u_email : string;
  u_name : string;
  u_password_hash : string;
  u_status : string;
  u_created_at : Z;
  u_updated_at : Z;
  u_role : string;
}.

Record vault_row := {
  vr_vault :> Vault;
  vr_version : Z;
  vr_owner_user_id : Z;
}.

Record revision_row := {
  rr_rev :> Revision;
  rr_content : option blob;
}.

Record content_row := {
  rc_uid : Z;
  rc_content : blob;
}.

Record session_row := {
  s_token_hash : string;
  s_user_id : Z;
  s_created_at : Z;
  s_expires_at : Z;
  s_revoked_at : option Z;
}.

Record retired_row := {
  rt_id : string;
  rt_owner_user_id : Z;
  rt_retired_at : Z;
}.

Record membership_row := {
  m_id : Z;
  m_vault_id : string;
  m_user_id : Z;
  m_invited_by_user_id : Z;
  m_accepted_at : Z;
  m_created_at : Z;
  m_revoked_at : option Z;
}.

Record settings_row := {
  ss_self_registration_enabled : Z;
  ss_updated_at : Z;
  ss_updated_by : Z;
}.

(** [server_settings] has the one row [id=1]; [seq_*] are the rows of
    [sqlite_sequence]; [usage] is the runtime storage counter. *)
Record db := {
  users : list user_row;
  seq_users : Z;
  vaults : list vault_row;
  revisions : list revision_row;
  seq_revisions : Z;
  contents : list content_row;
  sessions : list session_row;
  retired : list retired_row;
  memberships : list membership_row;
  seq_memberships : option Z;
  settings : settings_row;
  usage : Z;
}.

Definition with_users (d : db) x := {| users := x; seq_users := seq_users d; vaults := vaults d; revisions := revisions d; seq_revisions := seq_revisions d; contents := contents d; sessions := sessions d; retired := retired d; memberships := memberships d; seq_memberships := seq_memberships d; settings := settings d; usage := usage d |}.
Definition with_sessions (d : db) x := {| users := users d; seq_users := seq_users d; vaults := vaults d; revisions := revisions d; seq_revisions := seq_revisions d; contents := contents d; sessions := x; retired := retired d; memberships := memberships d; seq_memberships := seq_memberships d; settings := settings d; usage := usage d |}.
Definition with_vaults (d : db) x := {| users := users d; seq_users := seq_users d; vaults := x; revisions := revisions d; seq_revisions := seq_revisions d; contents := contents d; sessions := sessions d; retired := retired d; memberships := memberships d; seq_memberships := seq_memberships d; settings := settings d; usage := usage d |}.
Definition with_retired (d : db) x := {| users := users d; seq_users := seq_users d; vaults := vaults d; revisions := revisions d; seq_revisions := seq_revisions d; contents := contents d; sessions := sessions d; retired := x; memberships := memberships d; seq_memberships := seq_memberships d; settings := settings d; usage := usage d |}.
Definition with_memberships (d : db) x := {| users := users d; seq_users := seq_users d; vaults := vaults d; revisions := revisions d; seq_revisions := seq_revisions d; contents := contents d; sessions := sessions d; retired := retired d; memberships := x; seq_memberships := seq_memberships d; settings := settings d; usage := usage d |}.
Definition with_contents (d : db) x := {| users := users d; seq_users := seq_users d; vaults := vaults d; revisions := revisions d; seq_revisions := seq_revisions d; contents := x; sessions := sessions d; retired := retired d; memberships := memberships d; seq_memberships := seq_memberships d; settings := settings d; usage := usage d |}.
Definition with_settings (d : db) x := {| users := users d; seq_users := seq_users d; vaults := vaults d; revisions := revisions d; seq_revisions := seq_revisions d; contents := contents d; sessions := sessions d; retired := retired d; memberships := memberships d; seq_memberships := seq_memberships d; settings := x; usage := usage d |}.

(** ** Predicates the statements share *)
Definition user_exists (d : db) (id : Z) : bool := exists_row (fun u => u_id u =? id) (users d).
Definition user_active (d : db) (id : Z) : bool :=
  exists_row (fun u => (u_id u =? id) && String.eqb (u_status u) "active") (users d).
Definition find_vault_row (d : db) (id : string) : option vault_row :=
  query_row (fun v : vault_row => String.eqb (v_id v) id) (vaults d).
Definition vault_exists (d : db) (id : string) : bool :=
  exists_row (fun v : vault_row => String.eqb (v_id v) id) (vaults d).
Definition owns_vault (d : db) (id : string) (user_id : Z) : bool :=
  exists_row (fun v : vault_row => String.eqb (v_id v) id && (vr_owner_user_id v =? user_id)) (vaults d).
Definition in_vault (id : string) (r : revision_row) : bool := String.eqb (r_vault_id r) id.
Definition membership_active (m : membership_row) : bool := is_null (m_revoked_at m).

(** ** Insertions *)

(** AUTOINCREMENT: one more than the greatest of the sequence and the
    largest rowid, SQLITE_FULL past [i64::MAX]. *)
Definition next_rowid (seq largest : Z) : result Z :=
  let id := Z.max seq largest + 1 in
  ensure id <=? i64_max orelse SqliteError "database or disk is full" in Ok id.

Definition insert_user (d : db) (email_canonical email name password_hash status role : string)
    (created_at updated_at : Z) : result (Z * db) :=
  ensure negb (exists_row (fun u => String.eqb (u_email_canonical u) email_canonical) (users d))
    orelse SqliteError "UNIQUE constraint failed: users.email_canonical" in
  let? id := next_rowid (seq_users d) (max_of u_id (users d)) in
  let row := {| u_id := id; u_email_canonical := email_canonical; u_email := email; u_name := name;
                u_password_hash := password_hash; u_status := status; u_created_at := created_at;
                u_updated_at := updated_at; u_role := role |} in
  Ok (id, {| users := users d ++ [row]; seq_users := id; vaults := vaults d;
             revisions := revisions d; seq_revisions := seq_revisions d; contents := contents d;
             sessions := sessions d; retired := retired d; memberships := memberships d;
             seq_memberships := seq_memberships d; settings := settings d; usage := usage d |}).

Definition insert_session (d : db) (row : session_row) : result db :=
  ensure negb (exists_row (fun s => String.eqb (s_token_hash s) (s_token_hash row)) (sessions d))
    orelse SqliteError "UNIQUE constraint failed: sessions.token_hash" in
  ensure user_exists d (s_user_id row) orelse SqliteError "FOREIGN KEY constraint failed" in
  Ok (with_sessions d (sessions d ++ [row])).

Definition insert_vault (d : db) (row : vault_row) : result db :=
  ensure negb (vault_exists d (v_id row)) orelse SqliteError "UNIQUE constraint failed: vaults.id" in
  ensure user_exists d (vr_owner_user_id row) orelse SqliteError "FOREIGN KEY constraint failed" in
  Ok (with_vaults d (vaults d ++ [row])).

(** [INSERT INTO revisions(..)] without a uid; [mk uid] is the inserted row.
    The trigger [blackglass_runtime_storage_insert] adds its size. *)
Definition insert_revision (d : db) (mk : Z -> revision_row) : result (Z * db) :=
  let? uid := next_rowid (seq_revisions d) (max_of (fun r : revision_row => r_uid r) (revisions d)) in
  let row := mk uid in
  ensure vault_exists d (r_vault_id row) && user_exists d (r_user_id row)
    orelse SqliteError "FOREIGN KEY constraint failed" in
  ensure 0 <=? usage d + r_size row orelse SqliteError "CHECK constraint failed: ciphertext_bytes>=0" in
  Ok (uid, {| users := users d; seq_users := seq_users d; vaults := vaults d;
              revisions := revisions d ++ [row]; seq_revisions := uid; contents := contents d;
              sessions := sessions d; retired := retired d; memberships := memberships d;
              seq_memberships := seq_memberships d; settings := settings d;
              usage := usage d + r_size row |}).

Definition insert_content (d : db) (uid : Z) (content : blob) : result db :=
  ensure negb (exists_row (fun c => rc_uid c =? uid) (contents d))
    orelse SqliteError "UNIQUE constraint failed: revision_content.uid" in
  ensure exists_row (fun r : revision_row => r_uid r =? uid) (revisions d)
    orelse SqliteError "FOREIGN KEY constraint failed" in
  Ok (with_contents d (contents d ++ [{| rc_uid := uid; rc_content := content |}])).

(** The partial unique index [memberships_active_vault_user]. *)
Definition insert_membership (d : db) (mk : Z -> membership_row) : result (Z * db) :=
  let? id := next_rowid (default 0 (seq_memberships d)) (max_of m_id (memberships d)) in
  let row := mk id in
  ensure negb (membership_active row &&
               exists_row (fun m => membership_active m && String.eqb (m_vault_id m) (m_vault_id row)
                                    && (m_user_id m =? m_user_id row)) (memberships d))
    orelse SqliteError "UNIQUE constraint failed: memberships.vault_id, memberships.user_id" in
  ensure vault_exists d (m_vault_id row) && user_exists d (m_user_id row)
         && user_exists d (m_invited_by_user_id row)
    orelse SqliteError "FOREIGN KEY constraint failed" in
  Ok (id, {| users := users d; seq_users := seq_users d; vaults := vaults d;
             revisions := revisions d; seq_revisions := seq_revisions d; contents := contents d;
             sessions := sessions d; retired := retired d; memberships := memberships d ++ [row];
             seq_memberships := Some id; settings := settings d; usage := usage d |}).

(** [INSERT OR REPLACE INTO retired_vaults]. *)
Definition replace_retired (d : db) (row : retired_row) : result db :=
  ensure user_exists d (rt_owner_user_id row) orelse SqliteError "FOREIGN KEY constraint failed" in
  Ok (with_retired d (delete_where (fun r => String.eqb (rt_id r) (rt_id row)) (retired d) ++ [row])).

(** ** Deletions *)

(** [DELETE FROM revisions WHERE P]: [revision_content] cascades, the trigger
    [blackglass_runtime_storage_delete] subtracts each deleted size. *)
Definition delete_revisions (d : db) (P : revision_row -> bool) : db :=
  let gone := select P (revisions d) in
  {| users := users d; seq_users := seq_users d; vaults := vaults d;
     revisions := delete_where P (revisions d); seq_revisions := seq_revisions d;
     contents := delete_where (fun c => exists_row (fun r : revision_row => r_uid r =? rc_uid c) gone) (contents d);
     sessions := sessions d; retired := retired d; memberships := memberships d;
     seq_memberships := seq_memberships d; settings := settings d;
     usage := usage d - sum_of (fun r : revision_row => r_size r) gone |}.

(** [DELETE FROM vaults WHERE P]: revisions (and their content) and
    memberships of a deleted vault cascade. *)
Definition delete_vaults (d : db) (P : vault_row -> bool) : db :=
  let gone := select P (vaults d) in
  let of_gone (id : string) := exists_row (fun v : vault_row => String.eqb (v_id v) id) gone in
  let d := delete_revisions d (fun r => of_gone (r_vault_id r)) in
  let d := with_memberships d (delete_where (fun m => of_gone (m_vault_id m)) (memberships d)) in
  with_vaults d (delete_where P (vaults d)).

(** ** Live heads *)

(** [SELECT MAX(uid) FROM revisions WHERE vault_id=? GROUP BY path]. *)
Definition head_uids (rs : list revision_row) (id : string) : list Z :=
  map snd (group_max (fun r : revision_row => r_path r) (fun r : revision_row => r_uid r)
             (select (in_vault id) rs)).

(** [vault_size]: bytes of the live file heads. *)
Definition live_size (rs : list revision_row) (id : string) : Z :=
  sum_of (fun r : revision_row => r_size r)
    (select (fun r : revision_row => in_list (r_uid r) (head_uids rs id)
                && negb (r_deleted r) && negb (r_folder r)) rs).
Definition vault_size (d : db) (id : string) : Z := live_size (revisions d) id.

Definition set_size_version (size version : Z) (v : vault_row) : vault_row := {|
  vr_vault := {| v_id := v_id v; v_name := v_name v; v_keyhash := v_keyhash v; v_salt := v_salt v;
                 v_host := v_host v; v_region := v_region v;
                 v_encryption_version := v_encryption_version v; v_size := size;
                 v_created := v_created v; v_password := v_password v |};
  vr_version := version;
  vr_owner_user_id := vr_owner_user_id v |}.

Definition refresh_vault (d : db) (id : string) (version : Z) : db :=
  with_vaults d (update (fun v : vault_row => String.eqb (v_id v) id)
                   (set_size_version (vault_size d id) version) (vaults d)).

(** [SELECT COALESCE(SUM(size),0)]: bytes retained by a set of revisions. *)
Definition total_size (rs : list revision_row) : Z := sum_of (fun r : revision_row => r_size r) rs.

(** [initialize_runtime_storage_usage]: a fresh connection recounts. *)
Definition initialize_runtime_storage_usage (d : db) : db :=
  {| users := users d; seq_users := seq_users d; vaults := vaults d; revisions := revisions d;
     seq_revisions := seq_revisions d; contents := contents d; sessions := sessions d;
     retired := retired d; memberships := memberships d; seq_memberships := seq_memberships d;
     settings := settings d; usage := total_size (revisions d) |}.

Definition stored_ciphertext_size (d : db) : Z := usage d.

(** [SELECT COALESCE(SUM(r.size),0) FROM revisions r JOIN vaults v ON v.id=r.vault_id
    WHERE v.owner_user_id=?]: each joined pair contributes once. *)
Definition owner_stored_ciphertext_size (d : db) (user_id : Z) : Z :=
  sum_of (fun r : revision_row =>
            r_size r * count (fun v : vault_row => String.eqb (v_id v) (r_vault_id r)
                                && (vr_owner_user_id v =? user_id)) (vaults d))
    (revisions d).

Arguments live_size rs id : simpl never.
Arguments head_uids rs id : simpl never.
Arguments total_size rs : simpl never.
