(* ===== verification/Auth.v ===== *)
(** * Account identity and credential policy ([auth.rs])

    Email canonicalisation, display names, the Argon2 policy and the token
    shape tests.  [PasswordHash::new] (crate [password-hash]) and SHA-256 are
    parameters of the definitions that use them. *)

From Stdlib Require Import ZArith Lia List String Ascii Bool.
From stdpp Require Import base list strings.
From S2P Require Import Prelude Model.

Local Open Scope Z_scope.

Definition MIN_ARGON2_MEMORY_KIB : Z := 19456.
Definition MAX_ARGON2_MEMORY_KIB : Z := 65536.
Definition MIN_ARGON2_TIME_COST : Z := 2.
Definition MAX_ARGON2_TIME_COST : Z := 5.
Definition MIN_ARGON2_PARALLELISM : Z := 1.
Definition MAX_ARGON2_PARALLELISM : Z := 4.
Definition MAX_PASSWORD_HASH_LENGTH : Z := 512.
Definition MAX_EMAIL_BYTES : Z := 254.
Definition MAX_DISPLAY_NAME_BYTES : Z := 128.
Definition MIN_SELF_REGISTERED_PASSWORD_BYTES : Z := 12.
Definition MAX_SELF_REGISTERED_PASSWORD_BYTES : Z := 256.

(** ** Bytes of a string *)
Notation bytes_of := list_ascii_of_string.
Definition code (c : ascii) : Z := Z.of_N (N_of_ascii c).

Definition all_bytes (p : ascii -> bool) (s : string) : bool := forallb p (bytes_of s).

(** [char::is_ascii_whitespace]: space, tab, line feed, form feed, return. *)
Definition is_ascii_whitespace (c : ascii) : bool :=
  existsb (Z.eqb (code c)) [32; 9; 10; 12; 13].

Fixpoint drop_while (p : ascii -> bool) (l : list ascii) : list ascii :=
  match l with
  | [] => []
  | c :: l' => if p c then drop_while p l' else l
  end.

(** [str::trim_matches] for a predicate on ASCII characters. *)
Definition trim_matches (p : ascii -> bool) (s : string) : string :=
  string_of_list_ascii (rev (drop_while p (rev (drop_while p (bytes_of s))))).

Definition is_printable (c : ascii) : bool := in_range 33 126 (code c).
Definition is_ascii_uppercase (c : ascii) : bool := in_range 65 90 (code c).
Definition is_ascii_lowercase (c : ascii) : bool := in_range 97 122 (code c).
Definition is_ascii_digit (c : ascii) : bool := in_range 48 57 (code c).
Definition to_lower (c : ascii) : ascii :=
  if is_ascii_uppercase c then ascii_of_N (N_of_ascii c + 32) else c.
Definition to_ascii_lowercase (s : string) : string :=
  string_of_list_ascii (map to_lower (bytes_of s)).

(** [match_indices('@')]: the positions of a byte. *)
Fixpoint positions_from (i : Z) (c : ascii) (l : list ascii) : list Z :=
  match l with
  | [] => []
  | x :: l' => if Ascii.eqb x c then i :: positions_from (i + 1) c l' else positions_from (i + 1) c l'
  end.

Record CanonicalEmail := { ce_display : string; ce_canonical : string }.

Definition email_separator_error : error := Bail "email must contain exactly one non-edge @".

Definition canonicalize_email (value : string) : result CanonicalEmail :=
  let display := trim_matches is_ascii_whitespace value in
  ensure negb (is_empty display || (MAX_EMAIL_BYTES <? str_len display))
    orelse Bail "email must be between 1 and 254 ASCII bytes" in
  ensure all_bytes is_printable display
    orelse Bail "email must contain printable ASCII without whitespace" in
  match positions_from 0 "@"%char (bytes_of display) with
  | [] => Err email_separator_error
  | separator :: others =>
      ensure negb ((separator =? 0) || (separator + 1 =? str_len display)
                   || match others with [] => false | _ => true end)
        orelse email_separator_error in
      Ok {| ce_display := display; ce_canonical := to_ascii_lowercase display |}
  end.

(** [char::is_control] over UTF-8: U+0000..U+001F, U+007F, and the two-byte
    encodings C2 80 .. C2 9F of U+0080..U+009F. *)
Fixpoint has_control (l : list ascii) : bool :=
  match l with
  | [] => false
  | c :: l' =>
      (code c <? 32) || (code c =? 127)
      || ((code c =? 194) && match l' with c' :: _ => in_range 128 159 (code c') | [] => false end)
      || has_control l'
  end.

Definition normalize_display_name (value : string) : result string :=
  let name := trim_matches is_ascii_whitespace value in
  ensure negb (is_empty name || (MAX_DISPLAY_NAME_BYTES <? str_len name))
    orelse Bail "name must be between 1 and 128 bytes" in
  ensure negb (has_control (bytes_of name)) orelse Bail "name must not contain control characters" in
  Ok name.

Definition validate_self_registered_password (value : string) : result unit :=
  ensure in_range MIN_SELF_REGISTERED_PASSWORD_BYTES MAX_SELF_REGISTERED_PASSWORD_BYTES (str_len value)
    orelse Bail "password must be between 12 and 256 bytes" in
  Ok tt.

(** ** Argon2 policy *)

(** What [PasswordHash::new] exposes of an encoded hash: a parameter has a
    name and, when it parses as one, a decimal value. *)
Record PasswordHash := {
  ph_algorithm : string;
  ph_version : option Z;
  ph_params : list (string * option Z);
  ph_salt : option string;
  ph_hash_len : option Z;
}.

Section Policy.
(** [PasswordHash::new]. *)
Context (parse_password_hash : string -> option PasswordHash).

Definition get_decimal (h : PasswordHash) (name : string) : option Z :=
  match find (fun p => String.eqb (fst p) name) (ph_params h) with
  | Some (_, v) => v
  | None => None
  end.

(** The sorted parameter names are exactly ["m"], ["p"], ["t"]. *)
Definition parameter_names_ok (h : PasswordHash) : bool :=
  let names := map fst (ph_params h) in
  (Nat.eqb (length names) 3) && forallb (fun n => existsb (String.eqb n) names) ["m"; "p"; "t"]%string.

Definition accepted_password_hash (encoded : string) : option PasswordHash :=
  if MAX_PASSWORD_HASH_LENGTH <? str_len encoded then None else
  match parse_password_hash encoded with
  | None => None
  | Some hash =>
      match get_decimal hash "m", get_decimal hash "t", get_decimal hash "p",
            ph_salt hash, ph_hash_len hash with
      | Some memory, Some time, Some parallelism, Some salt, Some output_length =>
          if String.eqb (ph_algorithm hash) "argon2id"
             && match ph_version hash with Some v => v =? 19 | None => false end
             && parameter_names_ok hash
             && in_range MIN_ARGON2_MEMORY_KIB MAX_ARGON2_MEMORY_KIB memory
             && in_range MIN_ARGON2_TIME_COST MAX_ARGON2_TIME_COST time
             && in_range MIN_ARGON2_PARALLELISM MAX_ARGON2_PARALLELISM parallelism
             && in_range 8 64 (str_len salt)
             && in_range 16 64 output_length
          then Some hash else None
      | _, _, _, _, _ => None
      end
  end.

Definition password_hash_is_production_grade (encoded : string) : bool :=
  match accepted_password_hash encoded with Some _ => true | None => false end.

(** [verify_password]; [argon2_verify] is the crate's verification. *)
Definition verify_password (argon2_verify : string -> PasswordHash -> bool)
    (password encoded : string) : bool :=
  match accepted_password_hash encoded with
  | Some hash => argon2_verify password hash
  | None => false
  end.
End Policy.

(** ** Tokens *)
Definition is_ascii_hexdigit (c : ascii) : bool :=
  is_ascii_digit c || in_range 97 102 (code c) || in_range 65 70 (code c).
Definition is_lower_hexdigit (c : ascii) : bool := is_ascii_digit c || in_range 97 102 (code c).

(** [token.len() == 64 && token.bytes().all(|b| b.is_ascii_hexdigit())]. *)
Definition hex64 (s : string) : bool := (str_len s =? 64) && all_bytes is_ascii_hexdigit s.
Definition lower_hex64 (s : string) : bool := (str_len s =? 64) && all_bytes is_lower_hexdigit s.

(** ** Lemmas *)

(** A byte-wise fact that holds of all 256 bytes. *)
Ltac all_256 c :=
  destruct c as [b0 b1 b2 b3 b4 b5 b6 b7];
  destruct b0, b1, b2, b3, b4, b5, b6, b7; vm_compute; try reflexivity; try discriminate.

Lemma bytes_of_string l : bytes_of (string_of_list_ascii l) = l.
Proof. apply list_ascii_of_string_of_list_ascii. Qed.

Lemma str_len_bytes s : str_len s = Z.of_nat (length (bytes_of s)).
Proof.
  unfold str_len. f_equal. induction s as [|c s IH]; cbn; [done|]. f_equal. done.
Qed.

Lemma is_empty_bytes s : is_empty s = match bytes_of s with [] => true | _ => false end.
Proof. destruct s; done. Qed.

Lemma to_lower_idem c : to_lower (to_lower c) = to_lower c.
Proof. all_256 c. Qed.
Lemma to_lower_whitespace c : is_ascii_whitespace (to_lower c) = is_ascii_whitespace c.
Proof. all_256 c. Qed.
Lemma to_lower_printable c : is_printable (to_lower c) = is_printable c.
Proof. all_256 c. Qed.
Lemma to_lower_at c : Ascii.eqb (to_lower c) "@"%char = Ascii.eqb c "@"%char.
Proof. all_256 c. Qed.
Lemma to_lower_not_upper c : is_ascii_uppercase (to_lower c) = false.
Proof. all_256 c. Qed.
Lemma printable_not_whitespace c : is_printable c = true -> is_ascii_whitespace c = false.
Proof. all_256 c. Qed.
Lemma lower_hexdigit_hexdigit c : is_lower_hexdigit c = true -> is_ascii_hexdigit c = true.
Proof. all_256 c. Qed.

Lemma drop_while_map p g l :
  (forall c, p (g c) = p c) -> drop_while p (map g l) = map g (drop_while p l).
Proof.
  intros H. induction l as [|c l IH]; cbn; [done|]. rewrite H. destruct (p c); [done|]. done.
Qed.

Lemma drop_while_all p l : forallb (fun c => negb (p c)) l = true -> drop_while p l = l.
Proof. destruct l as [|c l]; cbn; [done|]. destruct (p c); done. Qed.

Lemma forallb_rev {A} (p : A -> bool) l : forallb p (rev l) = forallb p l.
Proof.
  apply eq_true_iff_eq. rewrite !forallb_forall. setoid_rewrite <- in_rev. done.
Qed.

Lemma forallb_map_inv {A} (p : A -> bool) g l :
  (forall c, p (g c) = p c) -> forallb p (map g l) = forallb p l.
Proof. intros H. induction l as [|c l IH]; cbn; [done|]. rewrite H, IH. done. Qed.

Lemma positions_map i c g l :
  (forall x, Ascii.eqb (g x) c = Ascii.eqb x c) -> positions_from i c (map g l) = positions_from i c l.
Proof.
  intros H. revert i. induction l as [|x l IH]; intros i; cbn; [done|]. rewrite H, IH. done.
Qed.

(** Trimming a string with no trimmed byte leaves it alone. *)
Lemma trim_clean p s : all_bytes (fun c => negb (p c)) s = true -> trim_matches p s = s.
Proof.
  unfold all_bytes, trim_matches. intros H.
  rewrite (drop_while_all p (bytes_of s)) by done.
  rewrite drop_while_all by (rewrite forallb_rev; done).
  rewrite rev_involutive. apply string_of_list_ascii_of_string.
Qed.

Lemma trim_lower s :
  trim_matches is_ascii_whitespace (to_ascii_lowercase s) =
  to_ascii_lowercase (trim_matches is_ascii_whitespace s).
Proof.
  unfold trim_matches, to_ascii_lowercase. rewrite !bytes_of_string.
  rewrite drop_while_map by apply to_lower_whitespace.
  rewrite <- map_rev, drop_while_map by apply to_lower_whitespace.
  rewrite map_rev. done.
Qed.

Lemma lower_idem s : to_ascii_lowercase (to_ascii_lowercase s) = to_ascii_lowercase s.
Proof.
  unfold to_ascii_lowercase. rewrite bytes_of_string, map_map. f_equal.
  apply map_ext, to_lower_idem.
Qed.

Lemma lower_bytes s : bytes_of (to_ascii_lowercase s) = map to_lower (bytes_of s).
Proof. apply bytes_of_string. Qed.

Lemma lower_len s : str_len (to_ascii_lowercase s) = str_len s.
Proof. rewrite !str_len_bytes, lower_bytes, length_map. done. Qed.

Lemma lower_empty s : is_empty (to_ascii_lowercase s) = is_empty s.
Proof. rewrite !is_empty_bytes, lower_bytes. destruct (bytes_of s); done. Qed.

Lemma lower_printable s : all_bytes is_printable (to_ascii_lowercase s) = all_bytes is_printable s.
Proof. unfold all_bytes. rewrite lower_bytes. apply forallb_map_inv, to_lower_printable. Qed.

Lemma lower_positions s :
  positions_from 0 "@"%char (bytes_of (to_ascii_lowercase s)) = positions_from 0 "@"%char (bytes_of s).
Proof. rewrite lower_bytes. apply positions_map, to_lower_at. Qed.

(** Canonicalisation commutes with lower-casing the input: the tests see the
    same bytes up to case. *)
Lemma canonicalize_email_lower s :
  canonicalize_email (to_ascii_lowercase s) =
  match canonicalize_email s with
  | Ok e => Ok {| ce_display := to_ascii_lowercase (ce_display e); ce_canonical := ce_canonical e |}
  | Err e => Err e
  end.
Proof.
  unfold canonicalize_email.
  rewrite trim_lower, lower_empty, lower_len, lower_printable, lower_positions, lower_idem.
  destruct (negb _); [|done]. destruct (all_bytes _ _); [|done].
  destruct (positions_from _ _ _) as [|sep others]; [done|]. destruct (negb _); done.
Qed.

(** The accepted display form is its own canonicalisation input. *)
Lemma canonicalize_email_display v e :
  canonicalize_email v = Ok e ->
  ce_display e = trim_matches is_ascii_whitespace v /\
  ce_canonical e = to_ascii_lowercase (ce_display e) /\
  all_bytes is_printable (ce_display e) = true /\
  canonicalize_email (ce_display e) = Ok e.
Proof.
  intros H. pose proof H as H0. unfold canonicalize_email in H0.
  destruct (negb _) eqn:E1; [|done]. destruct (all_bytes is_printable _) eqn:E2; [|done].
  destruct (positions_from _ _ _) as [|sep others] eqn:E3; [done|].
  destruct (negb _) eqn:E4 in H0; [|done]. injection H0 as <-. cbn.
  assert (trim_matches is_ascii_whitespace (trim_matches is_ascii_whitespace v)
          = trim_matches is_ascii_whitespace v) as Ht.
  { apply trim_clean. unfold all_bytes in *. rewrite forallb_forall in *. intros c Hc.
    rewrite (printable_not_whitespace c) by auto. done. }
  repeat split; try done.
  unfold canonicalize_email in *. rewrite Ht, E1, E2, E3, E4. done.
Qed.
