(* ===== verification/Accounts.v ===== *)
(** * Accounts and sessions ([impl Db], first half of [db.rs])

    User administration, self-registration, sign-in lookup, session issue,
    renewal and revocation.  [now] is the value of [now_ms()] during the
    operation; each state-changing operation returns its value with the
    committed database, or an error with nothing committed. *)

From Stdlib Require Import ZArith Lia List String Ascii Bool.
From stdpp Require Import base list strings.
From S2P Require Import Prelude Sql Model Store Auth.

Local Open Scope Z_scope.

Record UserSummary := {
  us_id : Z;
  us_email : string;
  us_name : string;
  us_status : string;
  us_role : string;
  us_owned_vaults : Z;
  us_sessions : Z;
}.

Definition list_users (d : db) : list UserSummary :=
  map (fun u => {| us_id := u_id u; us_email := u_email u; us_name := u_name u;
                   us_status := u_status u; us_role := u_role u;
                   us_owned_vaults := count (fun v : vault_row => vr_owner_user_id v =? u_id u) (vaults d);
                   us_sessions := count (fun s => s_user_id s =? u_id u) (sessions d) |})
    (limit MAX_USERS (order_by (asc u_id) (users d))).

(** ** Row updates *)
Definition set_password_hash (hash : string) (now : Z) (u : user_row) : user_row := {|
  u_id := u_id u; u_email_canonical := u_email_canonical u; u_email := u_email u; u_name := u_name u;
  u_password_hash := hash; u_status := u_status u; u_created_at := u_created_at u;
  u_updated_at := now; u_role := u_role u |}.
Definition set_email (canonical display : string) (now : Z) (u : user_row) : user_row := {|
  u_id := u_id u; u_email_canonical := canonical; u_email := display; u_name := u_name u;
  u_password_hash := u_password_hash u; u_status := u_status u; u_created_at := u_created_at u;
  u_updated_at := now; u_role := u_role u |}.
Definition set_name (name : string) (now : Z) (u : user_row) : user_row := {|
  u_id := u_id u; u_email_canonical := u_email_canonical u; u_email := u_email u; u_name := name;
  u_password_hash := u_password_hash u; u_status := u_status u; u_created_at := u_created_at u;
  u_updated_at := now; u_role := u_role u |}.
Definition set_status (status : string) (now : Z) (u : user_row) : user_row := {|
  u_id := u_id u; u_email_canonical := u_email_canonical u; u_email := u_email u; u_name := u_name u;
  u_password_hash := u_password_hash u; u_status := status; u_created_at := u_created_at u;
  u_updated_at := now; u_role := u_role u |}.
Definition set_role (role : string) (now : Z) (u : user_row) : user_row := {|
  u_id := u_id u; u_email_canonical := u_email_canonical u; u_email := u_email u; u_name := u_name u;
  u_password_hash := u_password_hash u; u_status := u_status u; u_created_at := u_created_at u;
  u_updated_at := now; u_role := role |}.

Definition set_revoked (now : Z) (s : session_row) : session_row := {|
  s_token_hash := s_token_hash s; s_user_id := s_user_id s; s_created_at := s_created_at s;
  s_expires_at := s_expires_at s; s_revoked_at := Some (Z.max now (s_created_at s)) |}.
Definition set_expiry (expires_at : Z) (s : session_row) : session_row := {|
  s_token_hash := s_token_hash s; s_user_id := s_user_id s; s_created_at := s_created_at s;
  s_expires_at := expires_at; s_revoked_at := s_revoked_at s |}.

Definition by_id (id : Z) (u : user_row) : bool := u_id u =? id.

(** [UPDATE sessions SET revoked_at=MAX(?,created_at) WHERE user_id=? AND revoked_at IS NULL]. *)
Definition live_session_of (user_id : Z) (s : session_row) : bool :=
  (s_user_id s =? user_id) && is_null (s_revoked_at s).
Definition revoke_sessions_of (now user_id : Z) (d : db) : db :=
  with_sessions d (update (live_session_of user_id) (set_revoked now) (sessions d)).

Definition is_active_admin (u : user_row) : bool :=
  String.eqb (u_role u) "admin" && String.eqb (u_status u) "active".
Definition active_admins (d : db) : Z := count is_active_admin (users d).

Definition user_not_found {A} : result A := Err (Bail "user not found").

Section Accounts.
(** [PasswordHash::new] of the password-hash crate, [hex(Sha256(token))]. *)
Context (parse_password_hash : string -> option PasswordHash).
Context (token_hash : string -> string).

(** ** User administration *)
Definition create_user (now : Z) (email name password_hash : string) (d : db) : result (Z * db) :=
  let? email := canonicalize_email email in
  let? name := normalize_display_name name in
  ensure password_hash_is_production_grade parse_password_hash password_hash
    orelse Bail "password hash does not meet the production Argon2 policy" in
  ensure negb (MAX_USERS <=? count_all (users d)) orelse Bail "user limit reached" in
  ensure negb (MAX_JS_SAFE_INTEGER <=? seq_users d) orelse Bail "user ID sequence exhausted" in
  insert_user d (ce_canonical email) (ce_display email) name password_hash "active" "user" now now.

Definition create_self_registered_user (now : Z) (email name password_hash : string) (d : db)
    : result (RegistrationResult * db) :=
  let? email := canonicalize_email email in
  let? name := normalize_display_name name in
  ensure password_hash_is_production_grade parse_password_hash password_hash
    orelse Bail "password hash does not meet the production Argon2 policy" in
  if negb (ss_self_registration_enabled (settings d) =? 1) then Ok (RegDisabled, d) else
  let exists_ := exists_row (fun u => String.eqb (u_email_canonical u) (ce_canonical email)) (users d) in
  if (MAX_USERS <=? count_all (users d)) || exists_ then Ok (RegUnavailable, d) else
  if MAX_JS_SAFE_INTEGER <=? seq_users d then Ok (RegUnavailable, d) else
  let? (id, d') := insert_user d (ce_canonical email) (ce_display email) name password_hash
                     "active" "user" now now in
  Ok (RegCreated id, d').

Definition self_registration_enabled (d : db) : bool := ss_self_registration_enabled (settings d) =? 1.

Definition set_self_registration_enabled (now administrator_id : Z) (enabled : bool) (d : db)
    : result (unit * db) :=
  let authorized := exists_row (fun u => (u_id u =? administrator_id)
                      && String.eqb (u_status u) "active" && String.eqb (u_role u) "admin") (users d) in
  ensure authorized orelse Bail "administrator authorization changed" in
  ensure user_exists d administrator_id orelse SqliteError "FOREIGN KEY constraint failed" in
  Ok (tt, with_settings d {| ss_self_registration_enabled := Z.b2z enabled;
                             ss_updated_at := now; ss_updated_by := administrator_id |}).

(** [update] returns the number of changed rows. *)
Definition update_user_and_revoke (now user_id : Z) (upd : db -> Z -> result (Z * db)) (d : db)
    : result (unit * db) :=
  let? (changed, d1) := upd d now in
  ensure changed =? 1 orelse Bail "user not found" in
  Ok (tt, revoke_sessions_of now user_id d1).

Definition set_user_password (now user_id : Z) (password_hash : string) (d : db) : result (unit * db) :=
  ensure password_hash_is_production_grade parse_password_hash password_hash
    orelse Bail "password hash does not meet the production Argon2 policy" in
  update_user_and_revoke now user_id (fun d now =>
    Ok (count (by_id user_id) (users d),
        with_users d (update (by_id user_id) (set_password_hash password_hash now) (users d)))) d.

Definition set_user_email (now user_id : Z) (value : string) (d : db) : result (unit * db) :=
  let? email := canonicalize_email value in
  update_user_and_revoke now user_id (fun d now =>
    ensure negb (exists_row (by_id user_id) (users d)
                 && exists_row (fun u => negb (u_id u =? user_id)
                      && String.eqb (u_email_canonical u) (ce_canonical email)) (users d))
      orelse SqliteError "UNIQUE constraint failed: users.email_canonical" in
    Ok (count (by_id user_id) (users d),
        with_users d (update (by_id user_id) (set_email (ce_canonical email) (ce_display email) now)
                        (users d)))) d.

Definition set_user_name (now user_id : Z) (value : string) (d : db) : result (unit * db) :=
  let? name := normalize_display_name value in
  ensure count (by_id user_id) (users d) =? 1 orelse Bail "user not found" in
  Ok (tt, with_users d (update (by_id user_id) (set_name name now) (users d))).

Definition set_user_status (now user_id : Z) (status : string) (d : db) : result (unit * db) :=
  ensure String.eqb status "active" || String.eqb status "disabled"
    orelse Bail "user status must be active or disabled" in
  if String.eqb status "disabled" then
    match query_row (by_id user_id) (users d) with
    | None => user_not_found
    | Some u =>
        ensure negb (String.eqb (u_role u) "admin" && (active_admins d <=? 1))
          orelse Bail "cannot disable the last active administrator" in
        let d := with_users d (update (by_id user_id) (set_status "disabled" now) (users d)) in
        Ok (tt, revoke_sessions_of now user_id d)
    end
  else
    ensure count (by_id user_id) (users d) =? 1 orelse Bail "user not found" in
    Ok (tt, with_users d (update (by_id user_id) (set_status "active" now) (users d))).

Definition set_user_role (now user_id : Z) (role : string) (d : db) : result (unit * db) :=
  ensure String.eqb role "admin" || String.eqb role "user"
    orelse Bail "user role must be admin or user" in
  match query_row (by_id user_id) (users d) with
  | None => user_not_found
  | Some u =>
      ensure negb (String.eqb (u_role u) "admin" && String.eqb role "user"
                   && String.eqb (u_status u) "active" && (active_admins d <=? 1))
        orelse Bail "cannot demote the last active administrator" in
      let d := with_users d (update (by_id user_id) (set_role role now) (users d)) in
      Ok (tt, revoke_sessions_of now user_id d)
  end.

Definition revoke_user_sessions (now user_id : Z) (d : db) : result (Z * db) :=
  ensure user_exists d user_id orelse Bail "user not found" in
  Ok (count (live_session_of user_id) (sessions d), revoke_sessions_of now user_id d).

(** ** Sessions *)

(** A row [DELETE FROM sessions WHERE expires_at <= ? OR revoked_at IS NOT NULL] removes. *)
Definition stale (now : Z) (s : session_row) : bool :=
  (s_expires_at s <=? now) || negb (is_null (s_revoked_at s)).

(** [token] is the value of [auth::new_token()]. *)
Definition issue_session_for_user (now : Z) (token : string) (user_id ttl_secs : Z) (d : db)
    : result (string * db) :=
  let hash := token_hash token in
  let d1 := with_sessions d (delete_where (stale now) (sessions d)) in
  ensure negb (MAX_SESSIONS <=? count_all (sessions d1)) orelse Bail "active session limit reached" in
  ensure user_active d1 user_id orelse Bail "user is unavailable" in
  let user_count := count (fun s => (s_user_id s =? user_id) && is_null (s_revoked_at s)
                                    && (now <? s_expires_at s)) (sessions d1) in
  ensure negb (MAX_SESSIONS_PER_USER <=? user_count) orelse Bail "active user session limit reached" in
  let? d2 := insert_session d1 {| s_token_hash := hash; s_user_id := user_id; s_created_at := now;
                                  s_expires_at := wrap64 (now + wrap64 (ttl_secs * 1000));
                                  s_revoked_at := None |} in
  Ok (token, d2).

Definition signin_candidate (canonical_email : string) (d : db) : option UserCredential :=
  option_map (fun u => {| uc_id := u_id u; uc_email := u_email u; uc_name := u_name u;
                          uc_password_hash := u_password_hash u;
                          uc_active := String.eqb (u_status u) "active"; uc_role := u_role u |})
    (query_row (fun u => String.eqb (u_email_canonical u) canonical_email) (users d)).

(** [sessions s JOIN users u] restricted to a live session of an active user. *)
Definition session_live (now : Z) (hash : string) (s : session_row) : bool :=
  String.eqb (s_token_hash s) hash && (now <? s_expires_at s) && is_null (s_revoked_at s).
Definition live_joined (now : Z) (hash : string) (d : db) : list (session_row * user_row) :=
  flat_map (fun s => map (pair s) (select (fun u => (u_id u =? s_user_id s)
                                     && String.eqb (u_status u) "active") (users d)))
    (select (session_live now hash) (sessions d)).
Definition context_of (su : session_row * user_row) : AuthContext :=
  let '(s, u) := su in
  {| ac_user_id := u_id u; ac_email := u_email u; ac_name := u_name u; ac_role := u_role u;
     ac_token_hash := s_token_hash s |}.

Definition auth_context_hash (now : Z) (hash : string) (d : db) : option AuthContext :=
  if negb (hex64 hash) then None else option_map context_of (head (live_joined now hash d)).

Definition auth_context (now : Z) (token : string) (d : db) : option AuthContext :=
  if negb (hex64 token) then None else auth_context_hash now (token_hash token) d.

Definition renewal_threshold (now ttl_secs : Z) : Z :=
  saturating_add now (Z.quot (saturating_mul ttl_secs 1000) 2).
Definition renewed_expiry (now ttl_secs : Z) : Z :=
  saturating_add now (saturating_mul ttl_secs 1000).

Definition auth_context_hash_with_renewal (now : Z) (hash : string) (ttl_secs : Z) (d : db)
    : (option AuthContext * bool) * db :=
  if negb (hex64 hash) then ((None, false), d) else
  match head (live_joined now hash d) with
  | None => ((None, false), d)
  | Some (s, u) =>
      if renewal_threshold now ttl_secs <? s_expires_at s then ((Some (context_of (s, u)), false), d) else
      let renew s := session_live now hash s && (s_expires_at s <=? renewal_threshold now ttl_secs)
                     && user_active d (s_user_id s) in
      let renewed := count renew (sessions d) =? 1 in
      let d' := with_sessions d (update renew (set_expiry (renewed_expiry now ttl_secs)) (sessions d)) in
      ((option_map context_of (head (live_joined now hash d')), renewed), d')
  end.

Definition auth_context_with_renewal (now : Z) (token : string) (ttl_secs : Z) (d : db)
    : (option AuthContext * bool) * db :=
  if negb (hex64 token) then ((None, false), d)
  else auth_context_hash_with_renewal now (token_hash token) ttl_secs d.

(** The [authorization] fragment: an active user who owns the vault or has
    an active membership of it. *)
Definition vault_reachable (d : db) (vault : string) (user_id : Z) : bool :=
  exists_row (fun v : vault_row => String.eqb (v_id v) vault
    && ((vr_owner_user_id v =? user_id)
        || exists_row (fun m => String.eqb (m_vault_id m) (v_id v) && (m_user_id m =? user_id)
                                && membership_active m) (memberships d))) (vaults d).

Definition valid_session_for_vault (now : Z) (hash vault : string) (d : db) : bool :=
  if negb (str_len hash =? 64) || is_empty vault then false else
  exists_row (fun s => session_live now hash s && user_active d (s_user_id s)
                       && vault_reachable d vault (s_user_id s)) (sessions d).

Definition renew_session_for_vault (now : Z) (hash vault : string) (ttl_secs : Z) (d : db)
    : option bool * db :=
  if negb (str_len hash =? 64) || is_empty vault then (None, d) else
  let authorized s := user_active d (s_user_id s) && vault_reachable d vault (s_user_id s) in
  match query_row (fun s => session_live now hash s && authorized s) (sessions d) with
  | None => (None, d)
  | Some s =>
      if renewal_threshold now ttl_secs <? s_expires_at s then (Some false, d) else
      let renew s := session_live now hash s && (s_expires_at s <=? renewal_threshold now ttl_secs)
                     && authorized s in
      let renewed := count renew (sessions d) =? 1 in
      let d' := with_sessions d (update renew (set_expiry (renewed_expiry now ttl_secs)) (sessions d)) in
      (option_map (fun _ => renewed)
         (query_row (fun s => session_live now hash s && authorized s) (sessions d')), d')
  end.

Definition revoke_session (now : Z) (token : string) (d : db) : db :=
  with_sessions d (update (fun s => String.eqb (s_token_hash s) (token_hash token)) (set_revoked now)
                     (sessions d)).

Definition revoke_all_sessions (now : Z) (d : db) : Z * db :=
  (count (fun s => is_null (s_revoked_at s)) (sessions d),
   with_sessions d (update (fun s => is_null (s_revoked_at s)) (set_revoked now) (sessions d))).
End Accounts.

(** [authorize_account_mutation] of a release build: the exact session of the
    acting active user, neither expired nor revoked. *)
Definition authorize_account_mutation (now : Z) (token_hash : option string) (user_id : Z) (d : db)
    : result unit :=
  match token_hash with
  | None => Err (Bail "mutation authorization is required")
  | Some token_hash =>
      ensure exists_row (fun s => String.eqb (s_token_hash s) token_hash && (s_user_id s =? user_id)
                           && (now <? s_expires_at s) && is_null (s_revoked_at s)
                           && user_active d (s_user_id s)) (sessions d)
        orelse Bail "mutation authorization expired or was revoked" in
      Ok tt
  end.
