(* ===== verification/Vaults.v ===== *)
(** * Vaults ([impl Db]: create, list, find, rename, bind, delete, migrate;
    [retire_vault_identity], [vault_access], [authorize_mutation]) *)

From Stdlib Require Import ZArith Lia List String Ascii Bool.
From stdpp Require Import base list strings pretty.
From S2P Require Import Prelude Sql Model Store Auth Accounts.

Local Open Scope Z_scope.

(** ** Access *)

(** [vault_access]: the owner, else the first active membership. *)
Definition vault_access (d : db) (user_id : Z) (vault_id : string) : option VaultAccess :=
  match find_vault_row d vault_id with
  | None => None
  | Some v =>
      if vr_owner_user_id v =? user_id then Some (Owner user_id vault_id) else
      match query_row (fun m => String.eqb (m_vault_id m) (v_id v) && (m_user_id m =? user_id)
                                && membership_active m) (memberships d) with
      | Some m => Some (Collaborator user_id vault_id (m_id m))
      | None => None
      end
  end.

Definition authorize_mutation (now : Z) (token_hash : option string) (user_id : Z) (vault_id : string)
    (d : db) : result unit :=
  let? _ := authorize_account_mutation now token_hash user_id d in
  match vault_access d user_id vault_id with
  | None => Err (Bail "mutation authorization expired or was revoked")
  | Some _ => Ok tt
  end.

(** ** Creation and lookup *)
Definition new_vault_row (user_id : Z) (vault : Vault) : vault_row :=
  {| vr_vault := vault; vr_version := 0; vr_owner_user_id := user_id |}.

Definition create_vault_internal (now : Z) (user_id : Z) (token_hash : option string) (vault : Vault) (d : db)
    : result (unit * db) :=
  let? _ := authorize_account_mutation now token_hash user_id d in
  ensure negb (MAX_VAULTS <=? count_all (vaults d)) orelse Bail "vault limit reached" in
  ensure negb (MAX_VAULTS <=? count (fun v : vault_row => vr_owner_user_id v =? user_id) (vaults d))
    orelse Bail "vault limit reached" in
  let? d := insert_vault d (new_vault_row user_id vault) in
  Ok (tt, d).

Definition create_vault_for_session (now user_id : Z) (token_hash : string) (vault : Vault) (d : db) :=
  create_vault_internal now user_id (Some token_hash) vault d.

Definition string_leb (a b : string) : bool := match String.compare a b with Gt => false | _ => true end.

(** [ORDER BY created ASC,id ASC]. *)
Definition created_order (x y : vault_row) : bool :=
  (v_created x <? v_created y) || ((v_created x =? v_created y) && string_leb (v_id x) (v_id y)).

Definition list_vaults_for_user (user_id : Z) (d : db) : list Vault :=
  map vr_vault (limit MAX_VAULTS (order_by created_order
    (select (fun v : vault_row => vr_owner_user_id v =? user_id) (vaults d)))).

(** [ORDER BY m.created_at,m.id]. *)
Definition membership_order (x y : membership_row) : bool :=
  (m_created_at x <? m_created_at y) || ((m_created_at x =? m_created_at y) && (m_id x <=? m_id y)).

Definition list_shared_vaults_for_user (user_id : Z) (d : db) : list SharedVault :=
  limit MAX_MEMBERSHIPS
    (flat_map (fun m =>
       map (fun v : vault_row => {| sv_vault := v; sv_share_uid := m_id m; sv_owner_user_id := vr_owner_user_id v |})
         (select (fun v : vault_row => String.eqb (v_id v) (m_vault_id m)) (vaults d)))
     (order_by membership_order
        (select (fun m => (m_user_id m =? user_id) && membership_active m && user_active d (m_user_id m))
           (memberships d)))).

(** [SELECT DISTINCT host .. ORDER BY host]. *)
Definition mismatched_data_hosts (expected : string) (d : db) : list string :=
  order_by string_leb (nodup string_dec
    (map (fun v : vault_row => v_host v)
       (select (fun v : vault_row => negb (String.eqb (v_host v) expected)) (vaults d)))).

Definition find_owned_vault (user_id : Z) (id : string) (d : db) : option Vault :=
  option_map vr_vault
    (query_row (fun v : vault_row => String.eqb (v_id v) id && (vr_owner_user_id v =? user_id)) (vaults d)).

Definition find_authorized_vault (user_id : Z) (id : string) (d : db) : option (Vault * VaultAccess) :=
  match vault_access d user_id id with
  | None => None
  | Some access => option_map (fun v : vault_row => (vr_vault v, access)) (find_vault_row d id)
  end.

Definition vault_owner_user_id (id : string) (d : db) : option Z :=
  option_map vr_owner_user_id (find_vault_row d id).

Definition stored_ciphertext_size_for_vault_owner (vault_id : string) (d : db) : option Z :=
  option_map (owner_stored_ciphertext_size d) (vault_owner_user_id vault_id d).

(** [current_version]: 0 for an unknown vault. *)
Definition current_version (id : string) (d : db) : Z :=
  default 0 (option_map vr_version (find_vault_row d id)).

Definition is_retired_vault_for_user (user_id : Z) (vault : string) (d : db) : bool :=
  exists_row (fun r => String.eqb (rt_id r) vault && (rt_owner_user_id r =? user_id)) (retired d).

(** The owner and every author of a retained revision, by decimal user id. *)
Definition usernames_for_vault (vault : string) (d : db) : list (string * string) :=
  map (fun u => (pretty (u_id u), u_name u))
    (limit MAX_USERS (order_by (asc u_id)
       (select (fun u =>
          match vault_owner_user_id vault d with Some o => u_id u =? o | None => false end
          || exists_row (fun r : revision_row => in_vault vault r && (r_user_id r =? u_id u)) (revisions d))
        (users d)))).

(** ** Mutations of one vault row *)
Definition set_vault_name (name : string) (v : vault_row) : vault_row := {|
  vr_vault := {| v_id := v_id v; v_name := name; v_keyhash := v_keyhash v; v_salt := v_salt v;
                 v_host := v_host v; v_region := v_region v;
                 v_encryption_version := v_encryption_version v; v_size := v_size v;
                 v_created := v_created v; v_password := v_password v |};
  vr_version := vr_version v; vr_owner_user_id := vr_owner_user_id v |}.
Definition set_vault_keyhash (keyhash : string) (v : vault_row) : vault_row := {|
  vr_vault := {| v_id := v_id v; v_name := v_name v; v_keyhash := Some keyhash; v_salt := v_salt v;
                 v_host := v_host v; v_region := v_region v;
                 v_encryption_version := v_encryption_version v; v_size := v_size v;
                 v_created := v_created v; v_password := v_password v |};
  vr_version := vr_version v; vr_owner_user_id := vr_owner_user_id v |}.

Definition owned_by (id : string) (user_id : Z) (v : vault_row) : bool :=
  String.eqb (v_id v) id && (vr_owner_user_id v =? user_id).

Definition bind_managed_keyhash_for_session (now user_id : Z) (token_hash id keyhash : string) (d : db)
    : result (option string * db) :=
  let? _ := authorize_account_mutation now (Some token_hash) user_id d in
  let d := with_vaults d (update (fun v => owned_by id user_id v && negb (is_null (v_password v))
                                           && is_null (v_keyhash v))
                            (set_vault_keyhash keyhash) (vaults d)) in
  Ok (match query_row (owned_by id user_id) (vaults d) with Some v => v_keyhash v | None => None end, d).

Definition rename_vault_for_session (now user_id : Z) (token_hash id name : string) (d : db)
    : result (bool * db) :=
  let? _ := authorize_account_mutation now (Some token_hash) user_id d in
  Ok (count (owned_by id user_id) (vaults d) =? 1,
      with_vaults d (update (owned_by id user_id) (set_vault_name name) (vaults d))).

(** ** Retirement, deletion, migration *)

(** [ORDER BY retired_at DESC,id DESC]. *)
Definition retired_order (x y : retired_row) : bool :=
  (rt_retired_at y <? rt_retired_at x)
  || ((rt_retired_at x =? rt_retired_at y) && string_leb (rt_id y) (rt_id x)).

(** Delete all but the [keep] newest markers of an owner
    ([LIMIT -1 OFFSET keep]). *)
Definition prune_retired (owner keep : Z) (rts : list retired_row) : list retired_row :=
  let old := map rt_id (offset keep (order_by retired_order
               (select (fun r => rt_owner_user_id r =? owner) rts))) in
  delete_where (fun r => (rt_owner_user_id r =? owner) && existsb (String.eqb (rt_id r)) old) rts.

Definition retire_vault_identity (vault_id : string) (retired_at : Z) (d : db) : result db :=
  match find_vault_row d vault_id with
  | None => Err (SqliteError "Query returned no rows")
  | Some v =>
      let owner := vr_owner_user_id v in
      let d := with_retired d (prune_retired owner (MAX_RETIRED_VAULTS_PER_OWNER - 1) (retired d)) in
      ensure negb (MAX_RETIRED_VAULTS <=? count_all (retired d))
        orelse Bail "retired vault marker limit reached" in
      replace_retired d {| rt_id := vault_id; rt_owner_user_id := owner; rt_retired_at := retired_at |}
  end.

Definition delete_vault_internal (now user_id : Z) (token_hash : option string) (id : string) (d : db)
    : result (bool * db) :=
  let? _ := authorize_account_mutation now token_hash user_id d in
  if negb (owns_vault d id user_id) then Ok (false, d) else
  let? d := retire_vault_identity id now d in
  Ok (true, delete_vaults d (owned_by id user_id)).

Definition delete_vault_for_session (now user_id : Z) (token_hash id : string) (d : db) :=
  delete_vault_internal now user_id (Some token_hash) id d.

(** [UPDATE memberships SET vault_id=? WHERE vault_id=? AND revoked_at IS NULL]. *)
Definition set_membership_vault (id : string) (m : membership_row) : membership_row := {|
  m_id := m_id m; m_vault_id := id; m_user_id := m_user_id m;
  m_invited_by_user_id := m_invited_by_user_id m; m_accepted_at := m_accepted_at m;
  m_created_at := m_created_at m; m_revoked_at := m_revoked_at m |}.

Definition move_memberships (source target : string) (ms : list membership_row) : list membership_row :=
  update (fun m => String.eqb (m_vault_id m) source && membership_active m)
    (set_membership_vault target) ms.

Definition migrate_vault_internal (now user_id : Z) (token_hash : option string) (source_id : string)
    (replacement : Vault) (d : db) : result (bool * db) :=
  let? _ := authorize_account_mutation now token_hash user_id d in
  if negb (owns_vault d source_id user_id) then Ok (false, d) else
  let? d := insert_vault d (new_vault_row user_id replacement) in
  let d := with_memberships d (move_memberships source_id (v_id replacement) (memberships d)) in
  let? d := retire_vault_identity source_id now d in
  Ok (true, delete_vaults d (owned_by source_id user_id)).

Definition migrate_vault_for_session (now user_id : Z) (token_hash source_id : string) (replacement : Vault)
    (d : db) :=
  migrate_vault_internal now user_id (Some token_hash) source_id replacement d.
