(* ===== verification/Sharing.v ===== *)
(** * Sharing ([impl Db]: list, invite and remove collaborators) *)

From Stdlib Require Import ZArith Lia List String Ascii Bool.
From stdpp Require Import base list strings.
From S2P Require Import Prelude Sql Model Store Auth Accounts Vaults.

Local Open Scope Z_scope.

Definition list_shares_for_owner (owner_user_id : Z) (vault_id : string) (d : db)
    : option (list VaultShareItem) :=
  if negb (owns_vault d vault_id owner_user_id) then None else
  Some (limit MAX_ACTIVE_COLLABORATORS_PER_VAULT
    (flat_map (fun m =>
       map (fun u => {| vs_uid := m_id m; vs_email := u_email u; vs_name := Some (u_name u); vs_accepted := true |})
         (select (fun u => u_id u =? m_user_id m) (users d)))
     (order_by membership_order
        (select (fun m => String.eqb (m_vault_id m) vault_id && membership_active m) (memberships d))))).

(** ** Membership bounds *)
Definition active_in (vault_id : string) (m : membership_row) : bool :=
  String.eqb (m_vault_id m) vault_id && membership_active m.
Definition revoked_in (vault_id : string) (m : membership_row) : bool :=
  String.eqb (m_vault_id m) vault_id && negb (membership_active m).

(** [ORDER BY revoked_at,id]. *)
Definition revoked_order (x y : membership_row) : bool :=
  let rx := default 0 (m_revoked_at x) in
  let ry := default 0 (m_revoked_at y) in
  (rx <? ry) || ((rx =? ry) && (m_id x <=? m_id y)).

(** Delete the oldest revoked rows of the vault so that one more fits. *)
Definition prune_revoked (vault_id : string) (ms : list membership_row) : list membership_row :=
  let excess := Z.max 0 (count (revoked_in vault_id) ms - MAX_REVOKED_MEMBERSHIPS_PER_VAULT + 1) in
  let old := map m_id (limit excess (order_by revoked_order (select (revoked_in vault_id) ms))) in
  delete_where (fun m => in_list (m_id m) old) ms.

Definition share_item (uid : Z) (u : user_row) : VaultShareItem :=
  {| vs_uid := uid; vs_email := u_email u; vs_name := Some (u_name u); vs_accepted := true |}.

Definition invite_collaborator_for_session (now owner_user_id : Z) (token_hash vault_id target_email : string)
    (d : db) : result (VaultShareItem * db) :=
  let? email := canonicalize_email target_email in
  let? _ := authorize_account_mutation now (Some token_hash) owner_user_id d in
  ensure owns_vault d vault_id owner_user_id orelse Bail "sharing vault unavailable" in
  match query_row (fun u => String.eqb (u_email_canonical u) (ce_canonical email)
                            && String.eqb (u_status u) "active") (users d) with
  | None => Err (Bail "sharing user unavailable")
  | Some target =>
      ensure negb (u_id target =? owner_user_id) orelse Bail "sharing user unavailable" in
      match query_row (fun m => active_in vault_id m && (m_user_id m =? u_id target)) (memberships d) with
      | Some m => Ok (share_item (m_id m) target, d)
      | None =>
          ensure negb (MAX_ACTIVE_COLLABORATORS_PER_VAULT <=? count (active_in vault_id) (memberships d))
            orelse Bail "collaborator limit reached" in
          let d := with_memberships d (prune_revoked vault_id (memberships d)) in
          ensure negb (MAX_MEMBERSHIPS <=? count_all (memberships d))
            orelse Bail "membership capacity reached" in
          ensure negb (MAX_JS_SAFE_INTEGER <=? default 0 (seq_memberships d))
            orelse Bail "membership sequence exhausted" in
          let? (uid, d) := insert_membership d (fun id =>
            {| m_id := id; m_vault_id := vault_id; m_user_id := u_id target;
               m_invited_by_user_id := owner_user_id; m_accepted_at := now; m_created_at := now;
               m_revoked_at := None |}) in
          Ok (share_item uid target, d)
      end
  end.

Definition set_membership_revoked (now : Z) (m : membership_row) : membership_row := {|
  m_id := m_id m; m_vault_id := m_vault_id m; m_user_id := m_user_id m;
  m_invited_by_user_id := m_invited_by_user_id m; m_accepted_at := m_accepted_at m;
  m_created_at := m_created_at m; m_revoked_at := Some now |}.

Definition share_target (share_uid : Z) (vault_id : string) (m : membership_row) : bool :=
  (m_id m =? share_uid) && String.eqb (m_vault_id m) vault_id && membership_active m.

(** The removed collaborator's user id, or [None] when the share is not
    active or the actor is neither the owner nor that collaborator. *)
Definition remove_collaborator_for_session (now acting_user_id : Z) (token_hash vault_id : string)
    (share_uid : Z) (d : db) : result (option Z * db) :=
  let? _ := authorize_account_mutation now (Some token_hash) acting_user_id d in
  match query_row (share_target share_uid vault_id) (memberships d), find_vault_row d vault_id with
  | Some m, Some v =>
      if negb (acting_user_id =? vr_owner_user_id v) && negb (acting_user_id =? m_user_id m)
      then Ok (None, d) else
      let changed := count (share_target share_uid vault_id) (memberships d) =? 1 in
      let d := with_memberships d (update (share_target share_uid vault_id) (set_membership_revoked now)
                                     (memberships d)) in
      Ok (if changed then Some (m_user_id m) else None, d)
  | _, _ => Ok (None, d)
  end.
