(* ===== verification/Revisions.v ===== *)
(** * Revisions ([impl Db]: push, pull, replay, history, restore, purge)

    The content of a staged upload is the byte list the file holds when the
    transaction copies it.  The length of a serialised notice
    ([serde_json::to_vec]) is a parameter. *)

From Stdlib Require Import ZArith Lia List String Ascii Bool.
From stdpp Require Import base list strings.
From S2P Require Import Prelude Sql Model Store Auth Accounts Vaults.

Local Open Scope Z_scope.

(** ** Guards shared by every write *)
Definition check_expected_version (d : db) (r : NewRevision) : result unit :=
  match n_expected_version r with
  | None => Ok tt
  | Some expected =>
      ensure in_range 0 MAX_JS_SAFE_INTEGER expected orelse Bail "invalid conditional write boundary" in
      match find_vault_row d (n_vault_id r) with
      | None => Err (SqliteError "Query returned no rows")
      | Some v => ensure vr_version v =? expected orelse ConditionalWriteConflict in Ok tt
      end
  end.

Definition enforce_storage_quotas (d : db) (vault_id : string) (additional global_limit owner_limit : Z)
    : result unit :=
  ensure negb ((additional <? 0) || (global_limit <? 0) || (owner_limit <? 0))
    orelse Bail "invalid stored ciphertext quota accounting input" in
  match vault_owner_user_id vault_id d with
  | None => Err (Bail "vault is unavailable")
  | Some owner_user_id =>
      if additional =? 0 then Ok tt else
      ensure negb ((global_limit =? 0) || (owner_limit =? 0)) orelse StorageQuotaExceeded in
      let global_used := stored_ciphertext_size d in
      let owner_used := owner_stored_ciphertext_size d owner_user_id in
      ensure negb ((global_limit <? global_used) || (global_limit - global_used <? additional)
                   || (owner_limit <? owner_used) || (owner_limit - owner_used <? additional))
        orelse StorageQuotaExceeded in
      Ok tt
  end.

(** ** Commit of a new revision *)
Definition revision_of (r : NewRevision) (ts uid : Z) : Revision := {|
  r_uid := uid; r_vault_id := n_vault_id r; r_path := n_path r; r_relatedpath := n_relatedpath r;
  r_extension := n_extension r; r_hash := n_hash r; r_ctime := n_ctime r; r_mtime := n_mtime r;
  r_folder := n_folder r; r_deleted := n_deleted r; r_size := n_size r; r_pieces := n_pieces r;
  r_device := n_device r; r_user_id := n_user_id r; r_ts := ts |}.

Definition find_revision (d : db) (uid : Z) : option revision_row :=
  query_row (fun r : revision_row => r_uid r =? uid) (revisions d).

Definition uid_in_range (uid : Z) : result unit :=
  ensure uid <=? MAX_JS_SAFE_INTEGER
    orelse Bail "revision UID exceeds the JavaScript safe-integer range" in Ok tt.

(** [SELECT .. FROM revisions WHERE uid=?] of a row that must exist. *)
Definition reread (d : db) (uid : Z) : result Revision :=
  ok_or (option_map rr_rev (find_revision d uid)) (SqliteError "Query returned no rows").

Definition add_revision (now : Z) (r : NewRevision) (token_hash : option string) (content : option blob)
    (storage_quota owner_quota : Z) (d : db) : result (Revision * db) :=
  let? _ := authorize_mutation now token_hash (n_user_id r) (n_vault_id r) d in
  let? _ := check_expected_version d r in
  let? _ := enforce_storage_quotas d (n_vault_id r) (n_size r) storage_quota owner_quota in
  let? (uid, d) := insert_revision d (fun uid => {| rr_rev := revision_of r now uid; rr_content := content |}) in
  let? _ := uid_in_range uid in
  let d := refresh_vault d (n_vault_id r) uid in
  let? stored := reread d uid in
  Ok (stored, d).

Definition add_empty_revision_internal (now : Z) (r : NewRevision) (token_hash : option string)
    (storage_quota owner_quota : Z) (d : db) : result (Revision * db) :=
  ensure (n_size r =? 0) && (n_pieces r =? 0)
    orelse Bail "metadata-only revision must have zero size and pieces" in
  add_revision now r token_hash None storage_quota owner_quota d.

Definition add_empty_revision_for_session (now : Z) (r : NewRevision) (token_hash : string)
    (storage_quota owner_quota : Z) (d : db) :=
  add_empty_revision_internal now r (Some token_hash) storage_quota owner_quota d.

(** [(size + REVISION_PIECE_SIZE - 1) / REVISION_PIECE_SIZE] in [i64]. *)
Definition pieces_for (size : Z) : Z := Z.quot (wrap64 (size + REVISION_PIECE_SIZE - 1)) REVISION_PIECE_SIZE.

(** [SQLITE_MAX_LENGTH] of the bundled SQLite. *)
Definition SQLITE_MAX_LENGTH : Z := 1000000000.

(** [INSERT .. zeroblob(size)] followed by the copy of [source] into it. *)
Definition write_content (d : db) (uid size : Z) (source : blob) (short : string) : result db :=
  ensure size <=? SQLITE_MAX_LENGTH orelse SqliteError "string or blob too big" in
  let? d := insert_content d uid source in
  ensure blob_len source <=? size orelse SqliteError "failed to write whole buffer" in
  ensure blob_len source =? size orelse Bail short in
  Ok d.

Definition add_file_revision_internal (now : Z) (r : NewRevision) (token_hash : option string) (file : blob)
    (storage_quota owner_quota : Z) (d : db) : result (Revision * db) :=
  ensure negb (n_folder r || n_deleted r || (n_size r <=? 0) || negb (n_pieces r =? pieces_for (n_size r)))
    orelse Bail "file revision metadata is inconsistent" in
  let? _ := authorize_mutation now token_hash (n_user_id r) (n_vault_id r) d in
  let? _ := check_expected_version d r in
  let? _ := enforce_storage_quotas d (n_vault_id r) (n_size r) storage_quota owner_quota in
  let? (uid, d) := insert_revision d (fun uid => {| rr_rev := revision_of r now uid; rr_content := None |}) in
  let? _ := uid_in_range uid in
  let? d := write_content d uid (n_size r) file "staged upload changed size before commit" in
  let d := refresh_vault d (n_vault_id r) uid in
  let? stored := reread d uid in
  Ok (stored, d).

Definition add_file_revision_for_session (now : Z) (r : NewRevision) (token_hash : string) (file : blob)
    (storage_quota owner_quota : Z) (d : db) :=
  add_file_revision_internal now r (Some token_hash) file storage_quota owner_quota d.

(** ** Reading *)
Definition external_content (d : db) (uid : Z) : option blob :=
  option_map rc_content (query_row (fun c => rc_uid c =? uid) (contents d)).

Definition pull_info (uid : Z) (d : db) : option PullInfo :=
  option_map (fun r : revision_row =>
    {| pi_vault_id := r_vault_id r; pi_hash := r_hash r; pi_size := r_size r; pi_pieces := r_pieces r;
       pi_folder := r_folder r; pi_deleted := r_deleted r;
       pi_has_content := negb (is_null (rr_content r)) || negb (is_null (external_content d (r_uid r))) |})
    (find_revision d uid).

Definition content_chunk (uid offset_ length_ : Z) (d : db) : result blob :=
  ensure negb ((offset_ <? 0) || negb (in_range 0 REVISION_PIECE_SIZE length_))
    orelse Bail "invalid revision content chunk bounds" in
  let end_ := offset_ + length_ in
  ensure end_ <=? i64_max orelse Bail "revision content chunk bounds overflow" in
  match find_revision d uid with
  | None => Err (Bail "revision content metadata not found")
  | Some r =>
      ensure end_ <=? r_size r orelse Bail "revision content chunk exceeds declared size" in
      match external_content d uid, rr_content r with
      | Some b, None | None, Some b =>
          ensure blob_len b =? r_size r orelse Bail "revision content length changed after validation" in
          Ok (take (Z.to_nat length_) (drop (Z.to_nat offset_) b))
      | _, _ => Err (Bail "revision content storage is missing, duplicated, or not a BLOB")
      end
  end.

(** The frame loop of [pull] in [server.rs]: pieces of at most [PIECE_SIZE] until
    the declared size is sent.  [fuel] bounds the number of iterations. *)
Fixpoint pull_frames (fuel : nat) (uid size offset_ : Z) (d : db) : result (list blob) :=
  if offset_ <? size then
    match fuel with
    | O => Err (Bail "out of fuel")
    | S fuel =>
        let len := Z.min (size - offset_) REVISION_PIECE_SIZE in
        let? chunk := content_chunk uid offset_ len d in
        let? rest := pull_frames fuel uid size (offset_ + len) d in
        Ok (chunk :: rest)
    end
  else Ok [].

Definition clamp (lo hi x : Z) : Z := Z.max lo (Z.min hi x).

Definition by_uid (r : revision_row) : Z := r_uid r.

(** [ORDER BY uid ASC LIMIT clamp(limit,1,1024)] of a selection. *)
Definition uid_page (P : revision_row -> bool) (n : Z) (d : db) : list Revision :=
  map rr_rev (limit (clamp 1 1024 n) (order_by (asc by_uid) (select P (revisions d)))).

Definition list_changes_page (vault : string) (after through n : Z) (d : db) : list Revision :=
  uid_page (fun r => in_vault vault r && (after <? r_uid r) && (r_uid r <=? through)) n d.

(** [SELECT MAX(uid) .. WHERE vault_id=? AND uid<=? GROUP BY path]. *)
Definition head_uids_through (rs : list revision_row) (vault : string) (through : Z) : list Z :=
  map snd (group_max (fun r : revision_row => r_path r) by_uid
             (select (fun r => in_vault vault r && (r_uid r <=? through)) rs)).

Definition initial_snapshot_page (vault : string) (after through n : Z) (d : db) : list Revision :=
  uid_page (fun r => in_list (r_uid r) (head_uids_through (revisions d) vault through)
                     && negb (r_deleted r) && (after <? r_uid r)) n d.

Definition list_deleted_page (vault : string) (suppress : bool) (after n : Z) (d : db) : list Revision :=
  uid_page (fun r =>
    in_list (r_uid r) (head_uids (revisions d) vault)
    && r_deleted r && (Z.max after 0 <? r_uid r)
    && exists_row (fun prior : revision_row => String.eqb (r_vault_id prior) (r_vault_id r)
         && String.eqb (r_path prior) (r_path r) && (r_uid prior <? r_uid r)
         && negb (r_deleted prior)) (revisions d)
    && (negb suppress || negb (exists_row (fun live : revision_row =>
          in_list (r_uid live) (head_uids (revisions d) (r_vault_id r))
          && negb (r_deleted live) && sql_eq_opt (r_relatedpath live) (r_path r)) (revisions d)))) n d.

Definition history (vault path : string) (last : option Z) (n : Z) (d : db) : list Revision :=
  map rr_rev (limit n (order_by (desc by_uid)
    (select (fun r : revision_row => in_vault vault r && String.eqb (r_path r) path
               && match last with None => true | Some l => r_uid r <? l end) (revisions d)))).

(** ** Restore *)
Definition restored_row (source : revision_row) (path device : string) (user_id ts uid : Z) : revision_row := {|
  rr_rev := {| r_uid := uid; r_vault_id := r_vault_id source; r_path := path; r_relatedpath := None;
               r_extension := r_extension source; r_hash := r_hash source; r_ctime := r_ctime source;
               r_mtime := r_mtime source; r_folder := r_folder source; r_deleted := false;
               r_size := r_size source; r_pieces := r_pieces source; r_device := device;
               r_user_id := user_id; r_ts := ts |};
  rr_content := None |}.

(** The revision whose content a restore copies: a live target itself, the
    newest earlier live revision of its path for a tombstone. *)
Definition restore_source (d : db) (vault : string) (target : revision_row) : option revision_row :=
  if r_deleted target then
    head (order_by (desc by_uid)
      (select (fun r : revision_row => in_vault vault r && String.eqb (r_path r) (r_path target)
                 && (r_uid r <? r_uid target) && negb (r_deleted r)) (revisions d)))
  else Some target.

Section Restore.
(** [serde_json::to_vec(&PushNotice::from(..)).len()]. *)
Context (notice_len : PushNotice -> Z).

Definition restore_internal (now user_id : Z) (token_hash : option string) (vault : string) (uid : Z)
    (device : string) (global_limit owner_limit : Z) (d : db) : result (option Revision * db) :=
  let? _ := authorize_mutation now token_hash user_id vault d in
  match query_row (fun r : revision_row => (r_uid r =? uid) && in_vault vault r) (revisions d) with
  | None => Ok (None, d)
  | Some target =>
      match restore_source d vault target with
      | None => Ok (None, d)
      | Some source =>
          let? _ := enforce_storage_quotas d vault (r_size source) global_limit owner_limit in
          let? (new_uid, d1) := insert_revision d (restored_row source (r_path target) device user_id now) in
          let? _ := uid_in_range new_uid in
          let? d2 :=
            if 0 <? r_size source then
              match external_content d (r_uid source), rr_content source with
              | Some b, _ | None, Some b =>
                  write_content d1 new_uid (r_size source) b "restored content size changed during copy"
              | None, None => Err (SqliteError "cannot open value of type null")
              end
            else Ok d1 in
          let? restored := reread d2 new_uid in
          ensure notice_len (notice_of_revision restored) <=? MAX_EVENT_BYTES
            orelse Bail "restored revision metadata exceeds the bounded event size" in
          Ok (Some restored, refresh_vault d2 vault new_uid)
      end
  end.

Definition restore_for_session (now user_id : Z) (token_hash vault : string) (uid : Z) (device : string)
    (limits : Z * Z) (d : db) :=
  restore_internal now user_id (Some token_hash) vault uid device (fst limits) (snd limits) d.
End Restore.

(** ** Purge *)
Definition purge_internal (now user_id : Z) (token_hash : option string) (vault : string) (d : db)
    : result (unit * db) :=
  let? _ := authorize_mutation now token_hash user_id vault d in
  let heads := head_uids (revisions d) vault in
  let d1 := delete_revisions d (fun r => in_vault vault r && negb (in_list (r_uid r) heads)) in
  match find_vault_row d1 vault with
  | None => Err (SqliteError "Query returned no rows")
  | Some v => Ok (tt, refresh_vault d1 vault (vr_version v))
  end.

Definition purge_for_session (now user_id : Z) (token_hash vault : string) (d : db) :=
  purge_internal now user_id (Some token_hash) vault d.

(** The transaction of the offline command [purge_deleted_history]: drop
    every earlier revision of a path whose head is a tombstone. *)
Definition purge_deleted_history (vault : string) (d : db) : result (Z * db) :=
  ensure negb (is_empty vault || (64 <? str_len vault)) orelse Bail "vault ID must be between 1 and 64 bytes" in
  ensure vault_exists d vault orelse Bail "vault not found" in
  let heads := group_max (fun r : revision_row => r_path r) by_uid (select (in_vault vault) (revisions d)) in
  let deleted_heads := select (fun h : string * Z =>
    exists_row (fun r : revision_row => (r_uid r =? snd h) && r_deleted r) (revisions d)) heads in
  let doomed (r : revision_row) := in_vault vault r
    && exists_row (fun h : string * Z => String.eqb (fst h) (r_path r) && negb (snd h =? r_uid r)) deleted_heads in
  let d1 := delete_revisions d doomed in
  match find_vault_row d1 vault with
  | None => Err (SqliteError "Query returned no rows")
  | Some v => Ok (count doomed (revisions d), refresh_vault d1 vault (vr_version v))
  end.
