(* ===== verification/Invariant.v ===== *)
(** * The database invariant

    [db_ok] ([db_inv] with the vault bound) is the conjunction of one predicate per table, each stated on the
    columns it depends on (the user ids, the vault ids), so that an operation
    that leaves those columns alone preserves it by rewriting.  The lemmas here
    say how each statement of [Store] affects each part; the operations'
    preservation theorems are in [Preservation]. *)

From Stdlib Require Import ZArith Lia List String Bool Sorted.
From stdpp Require Import base list strings.
From S2P Require Import Prelude Sql Model Store.

Local Open Scope Z_scope.

Notation user_ids d := (map u_id (users d)).
Notation vid := (fun v : vault_row => v_id v).
Notation vault_ids d := (map vid (vaults d)).
Notation ruid := (fun r : revision_row => r_uid r).
Notation rsize := (fun r : revision_row => r_size r).

(** ** The parts *)
Record users_ok (us : list user_row) (seq : Z) : Prop := {
  users_increasing : increasing u_id us;
  users_bounds : forall u, In u us -> 1 <= u_id u <= seq;
  users_emails : NoDup (map u_email_canonical us);
  users_count : count_all us <= MAX_USERS;
  users_seq : 0 <= seq <= MAX_JS_SAFE_INTEGER;
}.

(** At most [cap] vaults: [MAX_VAULTS], except between the two statements of a
    migration, where the replacement exists beside its source. *)
Record vaults_ok (cap : Z) (uids : list Z) (vs : list vault_row) : Prop := {
  vaults_nodup : NoDup (map vid vs);
  vaults_owner : forall v, In v vs -> In (vr_owner_user_id v) uids;
  vaults_count : count_all vs <= cap;
}.

(** Sizes, pieces and flags agree: the [revision metadata] invariant. *)
Definition pieces_shape (size : Z) : Z :=
  if size =? 0 then 0 else (size + (REVISION_PIECE_SIZE - 1)) / REVISION_PIECE_SIZE.
Definition rev_shape (r : Revision) : Prop :=
  0 <= r_size r /\ r_pieces r = pieces_shape (r_size r) /\
  (r_folder r = true \/ r_deleted r = true -> r_size r = 0).

Record revs_ok (uids : list Z) (vids : list string) (rs : list revision_row) (seq : Z) : Prop := {
  revs_increasing : increasing ruid rs;
  revs_bounds : forall r, In r rs -> 1 <= r_uid r <= seq;
  revs_vault : forall r, In r rs -> In (r_vault_id r) vids;
  revs_user : forall r, In r rs -> In (r_user_id r) uids;
  revs_shape : forall r, In r rs -> rev_shape r;
  revs_seq : 0 <= seq <= MAX_JS_SAFE_INTEGER;
}.

(** Where the bytes of a revision are: inline or external, never both, and
    exactly [size] of them; a zero-size revision has none. *)
Definition content_of (cs : list content_row) (uid : Z) : option blob :=
  option_map rc_content (query_row (fun c => rc_uid c =? uid) cs).
Definition content_placed (cs : list content_row) (r : revision_row) : Prop :=
  match rr_content r, content_of cs (r_uid r) with
  | None, None => r_size r = 0
  | Some b, None | None, Some b => r_size r = blob_len b /\ 0 < r_size r
  | Some _, Some _ => False
  end.

Record contents_ok (rs : list revision_row) (cs : list content_row) : Prop := {
  contents_nodup : NoDup (map rc_uid cs);
  contents_revision : forall c, In c cs -> In (rc_uid c) (map ruid rs);
  contents_placed : forall r, In r rs -> content_placed cs r;
}.

(** A vault row summarises its revisions: the version is a high-water mark
    below the sequence, the size is that of the live file heads. *)
Definition summary_ok (rs : list revision_row) (seq : Z) (v : vault_row) : Prop :=
  max_of ruid (select (in_vault (v_id v)) rs) <= vr_version v <= seq /\
  v_size v = live_size rs (v_id v).
Definition sizes_ok (vs : list vault_row) (rs : list revision_row) (seq : Z) : Prop :=
  forall v, In v vs -> summary_ok rs seq v.
(** The same for every vault but one. *)
Definition sizes_ok_except (id : string) (vs : list vault_row) (rs : list revision_row) (seq : Z) : Prop :=
  forall v, In v vs -> v_id v <> id -> summary_ok rs seq v.

Record sessions_ok (uids : list Z) (ss : list session_row) : Prop := {
  sessions_nodup : NoDup (map s_token_hash ss);
  sessions_user : forall s, In s ss -> In (s_user_id s) uids;
  sessions_count : count_all ss <= MAX_SESSIONS;
}.

(** Pairs (vault id, owner). *)
Definition owners (vs : list vault_row) : list (string * Z) :=
  map (fun v : vault_row => (v_id v, vr_owner_user_id v)) vs.
Arguments owners vs : simpl never.

Definition active_pair (m : membership_row) : string * Z := (m_vault_id m, m_user_id m).

Record memberships_ok (uids : list Z) (os : list (string * Z)) (ms : list membership_row) (seq : option Z)
    : Prop := {
  ms_increasing : increasing m_id ms;
  ms_bounds : forall m, In m ms -> 1 <= m_id m <= default 0 seq;
  ms_vault : forall m, In m ms -> In (m_vault_id m) (map fst os);
  ms_user : forall m, In m ms -> In (m_user_id m) uids;
  ms_inviter : forall m, In m ms -> In (m_invited_by_user_id m) uids;
  ms_not_owner : forall m, In m ms -> ~ In (m_vault_id m, m_user_id m) os;
  ms_unique : NoDup (map active_pair (select membership_active ms));
  ms_active : forall id, count (fun m => String.eqb (m_vault_id m) id && membership_active m) ms
                         <= MAX_ACTIVE_COLLABORATORS_PER_VAULT;
  ms_total : count_all ms <= MAX_MEMBERSHIPS;
  ms_seq : 0 <= default 0 seq <= MAX_JS_SAFE_INTEGER;
}.

Record retired_ok (uids : list Z) (vids : list string) (rts : list retired_row) : Prop := {
  rt_nodup : NoDup (map rt_id rts);
  rt_owner : forall r, In r rts -> In (rt_owner_user_id r) uids;
  rt_per_owner : forall o, count (fun r => rt_owner_user_id r =? o) rts <= MAX_RETIRED_VAULTS_PER_OWNER;
  rt_total : count_all rts <= MAX_RETIRED_VAULTS;
  rt_disjoint : forall r, In r rts -> ~ In (rt_id r) vids;
}.

(** Everything but the size summaries: what holds between the statement that
    changes revisions and [refresh_vault]. *)
Record db_frame (cap : Z) (d : db) : Prop := {
  fr_users : users_ok (users d) (seq_users d);
  fr_vaults : vaults_ok cap (user_ids d) (vaults d);
  fr_revs : revs_ok (user_ids d) (vault_ids d) (revisions d) (seq_revisions d);
  fr_contents : contents_ok (revisions d) (contents d);
  fr_usage : usage d = total_size (revisions d);
  fr_sessions : sessions_ok (user_ids d) (sessions d);
  fr_memberships : memberships_ok (user_ids d) (owners (vaults d)) (memberships d) (seq_memberships d);
  fr_retired : retired_ok (user_ids d) (vault_ids d) (retired d);
}.

Record db_inv (cap : Z) (d : db) : Prop := {
  ok_users : users_ok (users d) (seq_users d);
  ok_vaults : vaults_ok cap (user_ids d) (vaults d);
  ok_revs : revs_ok (user_ids d) (vault_ids d) (revisions d) (seq_revisions d);
  ok_contents : contents_ok (revisions d) (contents d);
  ok_sizes : sizes_ok (vaults d) (revisions d) (seq_revisions d);
  ok_usage : usage d = total_size (revisions d);
  ok_sessions : sessions_ok (user_ids d) (sessions d);
  ok_memberships : memberships_ok (user_ids d) (owners (vaults d)) (memberships d) (seq_memberships d);
  ok_retired : retired_ok (user_ids d) (vault_ids d) (retired d);
}.

Notation db_ok := (db_inv MAX_VAULTS).

Lemma ok_frame cap d : db_inv cap d -> db_frame cap d.
Proof. intros []. constructor; done. Qed.

(** ** Existence tests and id lists *)
Lemma user_exists_in d id : user_exists d id = true <-> In id (user_ids d).
Proof.
  unfold user_exists. rewrite exists_row_spec, in_map_iff. setoid_rewrite Z.eqb_eq. naive_solver.
Qed.

Lemma user_active_exists d id : user_active d id = true -> In id (user_ids d).
Proof.
  unfold user_active. rewrite exists_row_spec, in_map_iff. intros (u & Hu & H). breflect. eauto.
Qed.

Lemma vault_exists_in d id : vault_exists d id = true <-> In id (vault_ids d).
Proof.
  unfold vault_exists. rewrite exists_row_spec, in_map_iff. setoid_rewrite String.eqb_eq. naive_solver.
Qed.

Lemma find_vault_row_in d id v : find_vault_row d id = Some v -> In v (vaults d) /\ v_id v = id.
Proof. intros H. apply query_row_some in H as [H1 H2]. breflect. auto. Qed.

Lemma find_vault_row_none d id : find_vault_row d id = None <-> ~ In id (vault_ids d).
Proof.
  unfold find_vault_row. rewrite query_row_none, in_map_iff. split.
  - intros H (v & E & Hv). specialize (H v Hv). apply String.eqb_neq in H. done.
  - intros H v Hv. apply String.eqb_neq. intros E. apply H. eauto.
Qed.

Lemma nodup_map_inj {A B} (f : A -> B) l x y :
  NoDup (map f l) -> In x l -> In y l -> f x = f y -> x = y.
Proof.
  induction l as [|z l IH]; cbn; [done|]. intros Hnd. apply NoDup_cons in Hnd as [Hn Hnd].
  rewrite list_elem_of_In, in_map_iff in Hn.
  intros [<-|Hx] [<-|Hy] E; auto; exfalso; eauto.
Qed.

Lemma find_vault_row_eq d v :
  NoDup (vault_ids d) -> In v (vaults d) -> find_vault_row d (v_id v) = Some v.
Proof.
  intros Hnd Hv. destruct (find_vault_row d (v_id v)) as [w|] eqn:E.
  - apply find_vault_row_in in E as [Hw E]. f_equal.
    eapply (nodup_map_inj vid); eauto.
  - apply find_vault_row_none in E. exfalso. apply E. rewrite in_map_iff. eauto.
Qed.

(** A key selects at most one row. *)
Lemma count_one {A B} (f : A -> B) (P : A -> bool) l x :
  NoDup (map f l) -> In x l -> P x = true -> (forall y, In y l -> P y = true -> f y = f x) -> count P l = 1.
Proof.
  intros Hnd Hx HP Huniq. induction l as [|z l IH]; [done|]. cbn in Hnd. apply NoDup_cons in Hnd as [Hn Hnd].
  rewrite count_cons. destruct Hx as [->|Hx].
  - rewrite HP, (proj2 (count_zero _ _)); [done|]. intros y Hy. destruct (P y) eqn:E; [|done].
    exfalso. apply Hn. rewrite list_elem_of_In, <- (Huniq y (or_intror Hy) E). apply in_map. done.
  - rewrite IH by (auto; intros; apply Huniq; auto; right; done). destruct (P z) eqn:E; [|done].
    exfalso. apply Hn. rewrite list_elem_of_In, (Huniq z (or_introl eq_refl) E). apply in_map. done.
Qed.

Lemma owners_fst vs : map fst (owners vs) = map vid vs.
Proof. unfold owners. rewrite map_map. done. Qed.

Lemma in_owners vs id o : In (id, o) (owners vs) <-> exists v : vault_row, In v vs /\ v_id v = id /\ vr_owner_user_id v = o.
Proof. unfold owners. rewrite in_map_iff. naive_solver. Qed.

Lemma nodup_map_select {A B} (f : A -> B) P l : NoDup (map f l) -> NoDup (map f (select P l)).
Proof.
  unfold select. induction l as [|x l IH]; cbn; [done|]. intros H.
  apply NoDup_cons in H as [Hn H]. destruct (P x); cbn; [|auto].
  apply NoDup_cons. split; [|auto]. intros Hin. apply Hn.
  rewrite list_elem_of_In, in_map_iff in *. destruct Hin as (y & E & Hy).
  apply filter_In in Hy as [Hy _]. eauto.
Qed.

Lemma nodup_map_snoc {A B} (f : A -> B) l x :
  NoDup (map f l) -> ~ In (f x) (map f l) -> NoDup (map f (l ++ [x])).
Proof.
  intros H1 H2. rewrite map_app. apply NoDup_app. split; [done|]. split.
  - intros y Hy. cbn. rewrite list_elem_of_singleton. rewrite list_elem_of_In in Hy. congruence.
  - apply NoDup_singleton.
Qed.

Lemma next_rowid_spec seq largest id :
  next_rowid seq largest = Ok id -> id = Z.max seq largest + 1 /\ id <= i64_max.
Proof. unfold next_rowid. intros H. steps_in H. breflect. auto. Qed.
