(* ===== verification/Heads.v ===== *)
(** * Live heads of a vault

    What [head_uids] and [live_size] depend on: only the rows of the vault,
    and of those only the newest row of each path.  The size summaries of the
    vault table, the snapshot replay and the purge all rest on these lemmas. *)

From Stdlib Require Import ZArith Lia List String Bool Sorted.
From stdpp Require Import base list strings.
From S2P Require Import Prelude Sql Model Store Invariant.

Local Open Scope Z_scope.

Notation rpath := (fun r : revision_row => r_path r).

(** [r] is the newest revision of its path among [t]. *)
Definition is_head (t : list revision_row) (r : revision_row) : Prop :=
  In r t /\ forall r', In r' t -> r_path r' = r_path r -> r_uid r' <= r_uid r.

Lemma group_head_exists {A} (key : A -> string) (val : A -> Z) t r :
  In r t -> exists m, group_head key val t (key r) m /\ val r <= m.
Proof.
  intros Hr. set (l := map val (select (fun x => String.eqb (key x) (key r)) t)).
  assert (In (val r) l) as Hin by (apply in_group; eauto).
  exists (max_val l). split; [|apply max_val_ge; done]. split.
  - apply in_group, max_val_in. intros E. fold l in E. rewrite E in Hin. done.
  - intros r' Hr' Hk. apply max_val_ge, in_group. eauto.
Qed.

Lemma head_uids_spec rs id m :
  In m (head_uids rs id) <-> exists k, group_head rpath ruid (select (in_vault id) rs) k m.
Proof. unfold head_uids. apply in_heads. Qed.

Lemma in_head_uids rs id r :
  increasing ruid rs -> In r rs ->
  in_list (r_uid r) (head_uids rs id) = true <-> is_head (select (in_vault id) rs) r.
Proof.
  intros Hinc Hr. rewrite in_list_spec, head_uids_spec. unfold is_head. split.
  - intros (k & (r' & Hr' & <- & Eu) & Hle). apply in_select in Hr' as Hr''.
    assert (r' = r) as -> by (eapply (increasing_inj ruid rs); [done|apply Hr''|done..]).
    split; [done|]. intros r2 Hr2 Ek. apply Hle; done.
  - intros [Hin Hle]. exists (r_path r). split; [eauto|auto].
Qed.

(** A head of the vault is a row of the vault. *)
Lemma live_size_local rs id :
  increasing ruid rs ->
  live_size rs id = live_size (select (in_vault id) rs) id.
Proof.
  intros Hinc. unfold live_size. f_equal.
  assert (head_uids (select (in_vault id) rs) id = head_uids rs id) as ->.
  { unfold head_uids. rewrite select_select. f_equal. f_equal. apply select_ext.
    intros r _. rewrite andb_diag. done. }
  rewrite select_select. apply select_ext. intros r Hr.
  destruct (in_list (r_uid r) (head_uids rs id)) eqn:E; cbn; [|rewrite andb_false_r; done].
  apply in_head_uids in E as [Hin _]; [|done..]. apply in_select in Hin as [_ ->]. done.
Qed.

Lemma live_size_cong rs rs' id :
  increasing ruid rs -> increasing ruid rs' ->
  select (in_vault id) rs = select (in_vault id) rs' -> live_size rs id = live_size rs' id.
Proof. intros H1 H2 E. rewrite live_size_local, E, <- live_size_local by done. done. Qed.

(** Deleting rows that are not heads keeps the heads. *)
Section DropOld.
Context (P : revision_row -> bool) (rs : list revision_row) (id : string).
Hypothesis Hinc : increasing ruid rs.
Hypothesis Hold : forall r, In r rs -> P r = true -> in_list (r_uid r) (head_uids rs id) = false.

Lemma head_uids_drop m : In m (head_uids (delete_where P rs) id) <-> In m (head_uids rs id).
Proof using Hinc Hold.
  rewrite !head_uids_spec. split; intros (k & (r & Hr & <- & <-) & Hle); exists (r_path r).
  - apply in_select in Hr as [Hr Hv]. apply in_delete in Hr as [Hr HP].
    assert (In r (select (in_vault id) rs)) as Hrs by (apply in_select; done).
    destruct (group_head_exists rpath ruid _ r Hrs) as (m & Hm & Hrm).
    destruct Hm as [(h & Hh & Hk & Eh) Hmax].
    assert (r_uid h <= r_uid r) as Hge.
    { apply (Hle h); [|done]. pose proof Hh as Hh0. apply in_select in Hh as [Hh Hhv]. apply in_select. split; [|done].
      apply in_delete. split; [done|]. destruct (P h) eqn:EP; [|done]. specialize (Hold h Hh EP).
      assert (in_list (r_uid h) (head_uids rs id) = true); [|congruence].
      apply in_list_spec, head_uids_spec. exists (r_path r). split; [exists h; done|].
      intros r' Hr' E. subst m. apply Hmax; done. }
    cbn in *. assert (m = r_uid r) as -> by lia. split; [eauto|done].
  - pose proof Hr as Hsel. apply in_select in Hr as [Hr Hv]. cbn in Hle. split.
    + exists r. split; [|done]. apply in_select. split; [|done]. apply in_delete. split; [done|].
      destruct (P r) eqn:EP; [|done]. specialize (Hold r Hr EP).
      assert (in_list (r_uid r) (head_uids rs id) = true); [|congruence].
      apply in_list_spec, head_uids_spec. exists (r_path r). split; [eauto|done].
    + intros r' Hr' E. apply Hle; [|done]. apply in_select in Hr' as [Hr' ?].
      apply in_select. split; [|done]. apply in_delete in Hr' as [? _]. done.
Qed.

Lemma in_list_head_uids_drop x :
  in_list x (head_uids (delete_where P rs) id) = in_list x (head_uids rs id).
Proof using Hinc Hold. apply eq_true_iff_eq. rewrite !in_list_spec. apply head_uids_drop. Qed.

Lemma live_size_drop : live_size (delete_where P rs) id = live_size rs id.
Proof using Hinc Hold.
  unfold live_size. rewrite delete_where_select, select_select. f_equal. apply select_ext.
  intros r Hr. rewrite <- delete_where_select, in_list_head_uids_drop.
  destruct (P r) eqn:E; cbn; [|done]. rewrite Hold by done. done.
Qed.
End DropOld.

(** A row of another vault does not matter. *)
Lemma live_size_other rs r id :
  increasing ruid (rs ++ [r]) -> r_vault_id r <> id -> live_size (rs ++ [r]) id = live_size rs id.
Proof.
  intros Hinc Hne. apply live_size_cong; [done| |].
  - eapply increasing_app_l; eauto.
  - rewrite select_app. rewrite (select_none _ [r]), app_nil_r; [done|].
    intros x [<-|[]]. apply String.eqb_neq. done.
Qed.

Lemma live_size_nonneg (rs : list revision_row) id : (forall r, In r rs -> 0 <= r_size r) -> 0 <= live_size rs id.
Proof. intros H. apply sum_of_nonneg. intros r Hr. apply in_select in Hr as [Hr _]. auto. Qed.

(** ** Statements on the size summaries *)

Lemma summary_ok_cong rs rs' seq seq' (v : vault_row) :
  increasing ruid rs -> increasing ruid rs' -> seq <= seq' ->
  select (in_vault (v_id v)) rs = select (in_vault (v_id v)) rs' ->
  summary_ok rs seq v -> summary_ok rs' seq' v.
Proof.
  unfold summary_ok. intros H1 H2 Hseq E [[Hlo Hhi] Hsz]. rewrite E in Hlo.
  rewrite (live_size_cong rs rs') in Hsz by done. split; [lia|done].
Qed.

(** [refresh_vault] re-establishes the summary of the one vault whose
    revisions changed. *)
Lemma refresh_sizes d id version :
  sizes_ok_except id (vaults d) (revisions d) (seq_revisions d) ->
  max_of ruid (select (in_vault id) (revisions d)) <= version <= seq_revisions d ->
  sizes_ok (vaults (refresh_vault d id version)) (revisions d) (seq_revisions d).
Proof.
  intros Hex Hv v Hin. cbn in Hin. apply in_update in Hin as (v0 & Hv0 & ->).
  destruct (String.eqb (v_id v0) id) eqn:E; breflect.
  - unfold summary_ok, set_size_version, vault_size. cbn. rewrite E. done.
  - apply Hex; done.
Qed.

Lemma owners_refresh d id version : owners (vaults (refresh_vault d id version)) = owners (vaults d).
Proof. unfold owners, refresh_vault. cbn [vaults with_vaults]. rewrite map_update; done. Qed.
