(* ===== verification/Preservation.v ===== *)
(** * Every statement of the database layer preserves [db_ok]

    First the effect of replacing one table, then the effect of inserting and
    deleting revisions on the size summaries of the vaults, then one lemma per
    operation of [Accounts], [Vaults], [Sharing] and [Revisions]. *)

From Stdlib Require Import ZArith Lia List String Bool Sorted Permutation.
From stdpp Require Import base list strings.
From S2P Require Import Prelude Sql Model Store Auth Accounts Vaults Sharing Revisions Invariant Heads.

Local Open Scope Z_scope.

(** ** Columns determine the parts *)
Lemma increasing_map {A} (f : A -> Z) t : increasing f t <-> StronglySorted Z.lt (map f t).
Proof.
  unfold increasing. split.
  - induction 1 as [|x t H IH Hx]; cbn; constructor; [done|].
    rewrite Forall_forall in Hx. apply Forall_forall. intros y Hy. rewrite list_elem_of_In, in_map_iff in Hy.
    destruct Hy as (r & <- & Hr). apply Hx, list_elem_of_In. done.
  - induction t as [|x t IH]; cbn; intros H; [constructor|]. inversion H as [|? ? H1 H2]; subst.
    constructor; [auto|]. rewrite Forall_forall in H2. apply Forall_forall. intros y Hy.
    apply H2, list_elem_of_In, in_map, list_elem_of_In. done.
Qed.

Lemma users_ok_cols us us' seq :
  map u_id us' = map u_id us -> NoDup (map u_email_canonical us') -> users_ok us seq -> users_ok us' seq.
Proof.
  intros Hid Hem []. constructor; auto.
  - rewrite increasing_map, Hid, <- increasing_map. done.
  - intros u Hu. apply (in_map u_id) in Hu. rewrite Hid in Hu.
    apply in_map_iff in Hu as (u0 & <- & Hu0). auto.
  - unfold count_all in *. rewrite <- (length_map u_id us'), Hid, length_map. done.
Qed.

Section Tables.
Context (cap : Z) (d : db) (Hd : db_inv cap d).

Lemma ok_with_users us :
  map u_id us = user_ids d -> NoDup (map u_email_canonical us) -> db_inv cap (with_users d us).
Proof using Hd.
  intros Hid Hem. destruct Hd. constructor; cbn; rewrite ?Hid; auto.
  eapply users_ok_cols; eauto.
Qed.

Lemma ok_with_sessions ss : sessions_ok (user_ids d) ss -> db_inv cap (with_sessions d ss).
Proof using Hd. intros H. destruct Hd. constructor; auto. Qed.

Lemma ok_with_settings s : db_inv cap (with_settings d s).
Proof using Hd. destruct Hd. constructor; auto. Qed.

Lemma ok_with_memberships ms :
  memberships_ok (user_ids d) (owners (vaults d)) ms (seq_memberships d) -> db_inv cap (with_memberships d ms).
Proof using Hd. intros H. destruct Hd. constructor; auto. Qed.

Lemma ok_with_retired rts : retired_ok (user_ids d) (vault_ids d) rts -> db_inv cap (with_retired d rts).
Proof using Hd. intros H. destruct Hd. constructor; auto. Qed.

End Tables.

(** A change of vault rows that keeps ids and owners and (re)establishes the
    summaries. *)
Lemma ok_with_vaults cap d vs :
  db_frame cap d -> owners vs = owners (vaults d) -> sizes_ok vs (revisions d) (seq_revisions d) ->
  db_inv cap (with_vaults d vs).
Proof.
  intros Hd Hown Hsz. assert (map vid vs = vault_ids d) as Hids.
  { rewrite <- !owners_fst, Hown. done. }
  destruct Hd as [? Hv]. destruct Hv as [Hnd Ho Hc].
  constructor; cbn; rewrite ?Hids, ?Hown; auto. constructor.
  - rewrite Hids. done.
  - intros v Hv. assert (In (v_id v, vr_owner_user_id v) (owners vs)) as Hin by (apply in_owners; eauto).
    rewrite Hown in Hin. apply in_owners in Hin as (w & Hw & _ & <-). auto.
  - unfold count_all in *. rewrite <- (length_map vid vs), Hids, length_map. done.
Qed.

Lemma ok_refresh cap d id version :
  db_frame cap d -> sizes_ok_except id (vaults d) (revisions d) (seq_revisions d) ->
  max_of ruid (select (in_vault id) (revisions d)) <= version <= seq_revisions d ->
  db_inv cap (refresh_vault d id version).
Proof.
  intros Hd Hex Hv. apply ok_with_vaults; [done|apply (owners_refresh d id version)|].
  apply refresh_sizes; done.
Qed.


(** ** Sessions *)
Lemma sessions_ok_update uids P g ss :
  (forall s, s_token_hash (g s) = s_token_hash s /\ s_user_id (g s) = s_user_id s) ->
  sessions_ok uids ss -> sessions_ok uids (update P g ss).
Proof.
  intros Hg []. constructor.
  - rewrite map_update by apply Hg. done.
  - intros s Hs. apply in_update in Hs as (s0 & Hs0 & ->). destruct (P s0); rewrite ?(proj2 (Hg s0)); auto.
  - unfold count_all in *. rewrite length_update. done.
Qed.

Lemma sessions_ok_delete uids P ss : sessions_ok uids ss -> sessions_ok uids (delete_where P ss).
Proof.
  intros []. constructor.
  - apply nodup_map_select. done.
  - intros s Hs. apply in_delete in Hs as [Hs _]. auto.
  - unfold count_all, delete_where in *. pose proof (filter_length_le (fun r => negb (P r)) ss). lia.
Qed.

Lemma ok_revoke_sessions_of now user_id d : db_ok d -> db_ok (revoke_sessions_of now user_id d).
Proof. intros H. apply ok_with_sessions, sessions_ok_update; [done..|auto]. apply H. Qed.

Lemma ok_insert_session d row d' :
  insert_session d row = Ok d' -> count_all (sessions d) < MAX_SESSIONS -> db_ok d -> db_ok d'.
Proof.
  unfold insert_session. intros H Hc Hd. steps_in H. breflect.
  apply ok_with_sessions; [done|]. destruct (ok_sessions _ d Hd). constructor.
  - apply nodup_map_snoc; [done|]. rewrite in_map_iff. intros (s & E1 & Hs).
    apply (proj1 (exists_row_false _ _)) with (r := s) in E; [|done]. apply String.eqb_neq in E. done.
  - intros s Hs. apply in_app_or in Hs as [Hs|[<-|[]]]; [auto|]. apply user_exists_in. done.
  - unfold count_all in *. rewrite length_app. cbn. lia.
Qed.

(** ** Accounts *)
Lemma ok_insert_user d ec e n ph st ro ca ua id d' :
  insert_user d ec e n ph st ro ca ua = Ok (id, d') ->
  count_all (users d) < MAX_USERS -> seq_users d < MAX_JS_SAFE_INTEGER -> db_ok d -> db_ok d'.
Proof.
  unfold insert_user. intros H Hc Hs Hd. step_in H. cbn beta zeta in H.
  destruct (next_rowid _ _) as [id'|] eqn:En; [|done]. injection H as <- <-.
  apply next_rowid_spec in En as [-> _]. breflect.
  assert (forall x, In x (user_ids d) -> In x (map u_id (users d ++ [
    {| u_id := Z.max (seq_users d) (max_of u_id (users d)) + 1; u_email_canonical := ec; u_email := e;
       u_name := n; u_password_hash := ph; u_status := st; u_created_at := ca; u_updated_at := ua;
       u_role := ro |}]))) as Hmono.
  { intros x Hx. rewrite map_app. apply in_or_app. auto. }
  destruct Hd as [Hu Hv Hr Hct Hsz Hus Hse Hm Hrt]. destruct Hu as [Hinc Hb Hem Hcnt Hseq].
  assert (max_of u_id (users d) <= seq_users d) as Hmax.
  { apply max_of_le; [lia|]. intros u Hu. specialize (Hb u Hu). lia. }
  constructor; cbn [users seq_users vaults revisions seq_revisions contents sessions retired memberships
                    seq_memberships settings usage]; auto.
  - constructor.
    + apply increasing_snoc; [done|]. intros u Hu. cbn. specialize (Hb u Hu). lia.
    + intros u Hu. apply in_app_or in Hu as [Hu|[<-|[]]]; cbn; [specialize (Hb u Hu)|]; lia.
    + apply nodup_map_snoc; [done|]. cbn. rewrite in_map_iff. intros (u & E1 & Hu).
      apply (proj1 (exists_row_false _ _)) with (r := u) in E; [|done]. apply String.eqb_neq in E. done.
    + unfold count_all in *. rewrite length_app. cbn. lia.
    + lia.
  - destruct Hv. constructor; auto.
  - destruct Hr. constructor; auto.
  - destruct Hse. constructor; auto.
  - destruct Hm. constructor; auto.
  - destruct Hrt. constructor; auto.
Qed.

Lemma ok_update_users d P g :
  (forall u, u_id (g u) = u_id u /\ u_email_canonical (g u) = u_email_canonical u) ->
  db_ok d -> db_ok (with_users d (update P g (users d))).
Proof.
  intros Hg Hd. apply ok_with_users; [done|..]; rewrite map_update by apply Hg; [done|].
  apply Hd.
Qed.

Lemma nodup_update_email d user_id canonical display now :
  db_ok d ->
  exists_row (by_id user_id) (users d) &&
  exists_row (fun u => negb (u_id u =? user_id) && String.eqb (u_email_canonical u) canonical) (users d)
    = false ->
  NoDup (map u_email_canonical (update (by_id user_id) (set_email canonical display now) (users d))).
Proof.
  intros Hd Hf. destruct (ok_users _ d Hd) as [Hinc _ Hnd _ _].
  apply andb_false_iff in Hf as [Hf|Hf]; pose proof (proj1 (exists_row_false _ _) Hf) as Hn; cbn in Hn.
  { rewrite update_none by done. done. }
  clear Hf. unfold by_id. induction (users d) as [|u us IH]; cbn; [constructor|].
  apply NoDup_cons in Hnd as [Hx Hnd]. inversion Hinc as [|? ? Hi1 Hi2]; subst.
  specialize (IH Hi1 Hnd ltac:(intros; apply Hn; right; done)).
  unfold update. cbn [map]. fold (update (fun u => u_id u =? user_id) (set_email canonical display now) us).
  apply NoDup_cons. split; [|exact IH].
  rewrite list_elem_of_In, in_map_iff. intros (w & Ew & Hw). apply in_update in Hw as (w0 & Hw0 & ->).
  rewrite Forall_forall in Hi2. apply list_elem_of_In in Hw0 as Hlt. apply Hi2 in Hlt.
  pose proof (Hn u (or_introl eq_refl)) as Hnu. pose proof (Hn w0 (or_intror Hw0)) as Hnw.
  apply Hx. apply list_elem_of_In, in_map_iff. exists w0. split; [|done].
  destruct (u_id w0 =? user_id) eqn:E1, (u_id u =? user_id) eqn:E2; cbn in *; breflect; try lia; congruence.
Qed.

(** Closes the preservation goal of a composition of the statements above. *)
Create HintDb preserve.
#[export] Hint Resolve ok_with_settings ok_revoke_sessions_of ok_update_users : preserve.

Section AccountOps.
Context (parse_password_hash : string -> option PasswordHash) (token_hash : string -> string).
Context (d : db) (Hd : db_ok d).

Lemma create_user_ok now email name hash id d' :
  create_user parse_password_hash now email name hash d = Ok (id, d') -> db_ok d'.
Proof using Hd.
  unfold create_user. intros H. repeat (step_in H; cbn beta zeta in H). breflect.
  eapply ok_insert_user; eauto.
Qed.

Lemma create_self_registered_user_ok now email name hash r d' :
  create_self_registered_user parse_password_hash now email name hash d = Ok (r, d') -> db_ok d'.
Proof using Hd.
  unfold create_self_registered_user. intros H. repeat (step_in H; cbn beta zeta in H); simplify_eq; auto.
  breflect. eapply ok_insert_user; eauto.
Qed.

Lemma set_self_registration_enabled_ok now admin enabled r d' :
  set_self_registration_enabled now admin enabled d = Ok (r, d') -> db_ok d'.
Proof using Hd. unfold set_self_registration_enabled. intros H. steps_in H. auto with preserve. Qed.

Lemma set_user_password_ok now user_id hash r d' :
  set_user_password parse_password_hash now user_id hash d = Ok (r, d') -> db_ok d'.
Proof using Hd.
  unfold set_user_password, update_user_and_revoke. intros H. steps_in H. auto with preserve.
Qed.

Lemma set_user_email_ok now user_id value r d' :
  set_user_email now user_id value d = Ok (r, d') -> db_ok d'.
Proof using Hd.
  unfold set_user_email, update_user_and_revoke. intros H. steps_in H. steps_in E0.
  apply ok_revoke_sessions_of, ok_with_users; [done|apply map_update; done|].
  apply nodup_update_email; [done|]. breflect. done.
Qed.

Lemma set_user_name_ok now user_id value r d' :
  set_user_name now user_id value d = Ok (r, d') -> db_ok d'.
Proof using Hd. unfold set_user_name. intros H. steps_in H. auto with preserve. Qed.

Lemma set_user_status_ok now user_id status r d' :
  set_user_status now user_id status d = Ok (r, d') -> db_ok d'.
Proof using Hd. unfold set_user_status. intros H. steps_in H; auto with preserve. Qed.

Lemma set_user_role_ok now user_id role r d' :
  set_user_role now user_id role d = Ok (r, d') -> db_ok d'.
Proof using Hd. unfold set_user_role. intros H. steps_in H; auto with preserve. Qed.

Lemma revoke_user_sessions_ok now user_id r d' :
  revoke_user_sessions now user_id d = Ok (r, d') -> db_ok d'.
Proof using Hd. unfold revoke_user_sessions. intros H. steps_in H; auto with preserve. Qed.

Lemma issue_session_for_user_ok now token user_id ttl r d' :
  issue_session_for_user token_hash now token user_id ttl d = Ok (r, d') -> db_ok d'.
Proof using Hd.
  unfold issue_session_for_user. intros H. repeat (step_in H; cbn beta zeta in H). simplify_eq. breflect.
  eapply ok_insert_session; [eassumption|done|].
  apply ok_with_sessions, sessions_ok_delete; [done|apply Hd].
Qed.

Lemma ok_update_sessions P g :
  (forall s, s_token_hash (g s) = s_token_hash s /\ s_user_id (g s) = s_user_id s) ->
  db_ok (with_sessions d (update P g (sessions d))).
Proof using Hd. intros Hg. apply ok_with_sessions, sessions_ok_update; auto. apply Hd. Qed.

Lemma auth_context_with_renewal_ok now token ttl :
  db_ok (snd (auth_context_with_renewal token_hash now token ttl d)).
Proof using Hd.
  unfold auth_context_with_renewal, auth_context_hash_with_renewal.
  repeat case_match; simplify_eq; cbn; auto. apply ok_update_sessions; done.
Qed.

Lemma renew_session_for_vault_ok now hash vault ttl :
  db_ok (snd (renew_session_for_vault now hash vault ttl d)).
Proof using Hd.
  unfold renew_session_for_vault. repeat case_match; simplify_eq; cbn; auto. apply ok_update_sessions; done.
Qed.

Lemma revoke_session_ok now token : db_ok (revoke_session token_hash now token d).
Proof using Hd. apply ok_update_sessions. done. Qed.

Lemma revoke_all_sessions_ok now : db_ok (snd (revoke_all_sessions now d)).
Proof using Hd. apply ok_update_sessions. done. Qed.
End AccountOps.

(** ** Commit of a revision *)
Lemma query_row_app {A} (P : A -> bool) t1 t2 :
  query_row P (t1 ++ t2) = match query_row P t1 with Some r => Some r | None => query_row P t2 end.
Proof. unfold query_row. rewrite select_app. destruct (select P t1); done. Qed.

Lemma content_of_fresh rs cs uid :
  contents_ok rs cs -> ~ In uid (map ruid rs) -> content_of cs uid = None.
Proof.
  intros [_ Hrev _] Hn. unfold content_of. rewrite (proj2 (query_row_none _ _)); [done|].
  intros c Hc. apply Z.eqb_neq. intros E. apply Hn. rewrite <- E. auto.
Qed.

Lemma content_of_snoc cs c uid :
  content_of (cs ++ [c]) uid
  = match content_of cs uid with Some b => Some b | None => if rc_uid c =? uid then Some (rc_content c) else None end.
Proof.
  unfold content_of. rewrite query_row_app. destruct (query_row _ cs); cbn; [done|].
  unfold query_row, select. cbn. destruct (rc_uid c =? uid); done.
Qed.

Section NewContent.
Context (rs : list revision_row) (cs : list content_row) (row : revision_row).
Hypothesis Hok : contents_ok rs cs.
Hypothesis Hfresh : ~ In (r_uid row) (map ruid rs).
Hypothesis Hinline : rr_content row = None.

Lemma contents_ok_empty : r_size row = 0 -> contents_ok (rs ++ [row]) cs.
Proof using Hok Hfresh Hinline.
  intros Hz. pose proof (content_of_fresh _ _ _ Hok Hfresh) as Hn. destruct Hok. constructor; auto.
  - intros c Hc. rewrite map_app. apply in_or_app. auto.
  - intros r Hr. apply in_app_or in Hr as [Hr|[<-|[]]]; [auto|].
    unfold content_placed. rewrite Hinline, Hn. done.
Qed.

Lemma contents_ok_written b :
  r_size row = blob_len b -> 0 < r_size row ->
  contents_ok (rs ++ [row]) (cs ++ [{| rc_uid := r_uid row; rc_content := b |}]).
Proof using Hok Hfresh Hinline.
  intros Hz Hpos. pose proof (content_of_fresh _ _ _ Hok Hfresh) as Hn. destruct Hok as [Hnd Hrev Hpl].
  constructor.
  - apply nodup_map_snoc; [done|]. cbn. rewrite in_map_iff. intros (c & E & Hc). apply Hfresh.
    rewrite <- E. auto.
  - intros c Hc. rewrite map_app. apply in_or_app. cbn.
    apply in_app_or in Hc as [Hc|[<-|[]]]; cbn; auto.
  - intros r Hr. unfold content_placed. rewrite content_of_snoc. cbn [rc_uid rc_content].
    apply in_app_or in Hr as [Hr|[<-|[]]].
    + replace (r_uid row =? r_uid r) with false.
      * specialize (Hpl r Hr). unfold content_placed in Hpl. destruct (content_of cs (r_uid r)); done.
      * symmetry. apply Z.eqb_neq. intros E. apply Hfresh. rewrite E. apply in_map_iff. eauto.
    + rewrite Hinline, Hn, Z.eqb_refl. done.
Qed.
End NewContent.

Lemma revs_fresh d : db_ok d -> max_of ruid (revisions d) <= seq_revisions d.
Proof.
  intros Hd. destruct (ok_revs _ d Hd) as [_ Hb _ _ _ Hs]. apply max_of_le; [lia|].
  intros r Hr. specialize (Hb r Hr). lia.
Qed.

Lemma insert_revision_spec d mk uid d1 :
  db_ok d -> insert_revision d mk = Ok (uid, d1) ->
  uid = seq_revisions d + 1 /\ In (r_vault_id (mk uid)) (vault_ids d) /\ In (r_user_id (mk uid)) (user_ids d) /\
  d1 = {| users := users d; seq_users := seq_users d; vaults := vaults d;
          revisions := revisions d ++ [mk uid]; seq_revisions := uid; contents := contents d;
          sessions := sessions d; retired := retired d; memberships := memberships d;
          seq_memberships := seq_memberships d; settings := settings d;
          usage := usage d + r_size (mk uid) |}.
Proof.
  intros Hd H. unfold insert_revision in H. destruct (next_rowid _ _) as [u|] eqn:En; [|done].
  cbn zeta in H. steps_in H. apply next_rowid_spec in En as [-> _]. breflect.
  pose proof (revs_fresh d Hd). rewrite Z.max_l by done.
  repeat split; [apply vault_exists_in|apply user_exists_in]; rewrite Z.max_l in * by done; done.
Qed.

Lemma max_of_snoc {A} (f : A -> Z) t x : max_of f (t ++ [x]) = Z.max (max_of f t) (Z.max (f x) 0).
Proof. unfold max_of. induction t as [|y t IH]; cbn; [lia|]. rewrite IH. lia. Qed.

Lemma ok_commit d mk uid d1 cs :
  db_ok d -> insert_revision d mk = Ok (uid, d1) -> r_uid (mk uid) = uid ->
  uid <= MAX_JS_SAFE_INTEGER -> rev_shape (mk uid) -> contents_ok (revisions d1) cs ->
  db_ok (refresh_vault (with_contents d1 cs) (r_vault_id (mk uid)) uid).
Proof.
  intros Hd Hins Hu Hmax Hsh Hcs. destruct (insert_revision_spec _ _ _ _ Hd Hins) as (Eu & Hvi & Hui & ->).
  destruct Hd as [Hus Hv Hr Hct Hsz Husg Hse Hm Hrt]. destruct Hr as [Hinc Hb Hrv Hru Hrs Hseq].
  assert (forall r, In r (revisions d) -> r_uid r < uid) as Hlt.
  { intros r Hr. specialize (Hb r Hr). lia. }
  assert (increasing ruid (revisions d ++ [mk uid])) as Hinc'.
  { apply increasing_snoc; [done|]. intros r Hr. rewrite Hu. auto. }
  apply ok_refresh; cbn in *.
  - constructor; cbn; auto.
    + constructor; auto; [..|lia]; intros r Hr; apply in_app_or in Hr as [Hr|[<-|[]]]; auto; [|lia].
      specialize (Hb r Hr). lia.
    + unfold total_size in *. rewrite sum_of_app. unfold sum_of at 2. cbn. lia.
  - intros v Hv0 Hne. eapply summary_ok_cong; [exact Hinc|exact Hinc'| | |apply Hsz; done]; [lia|].
    rewrite select_app, (select_none _ [mk uid]), app_nil_r; [done|].
    intros x [<-|[]]. apply String.eqb_neq. done.
  - split; [|lia]. apply max_of_le; [lia|]. intros r Hr.
    apply in_select in Hr as [Hr _]. apply in_app_or in Hr as [Hr|[<-|[]]]; [|lia].
    specialize (Hlt r Hr). lia.
Qed.

Lemma with_contents_id d : with_contents d (contents d) = d.
Proof. destruct d. done. Qed.

Lemma fresh_uid d uid : db_ok d -> uid = seq_revisions d + 1 -> ~ In uid (map ruid (revisions d)).
Proof.
  intros Hd -> Hin. apply in_map_iff in Hin as (r & E & Hr).
  destruct (ok_revs _ d Hd) as [_ Hb _ _ _ _]. specialize (Hb r Hr). lia.
Qed.

Lemma pieces_for_shape size : 0 < size <= SQLITE_MAX_LENGTH -> pieces_for size = pieces_shape size.
Proof.
  unfold pieces_for, pieces_shape, SQLITE_MAX_LENGTH, REVISION_PIECE_SIZE. intros H.
  rewrite wrap64_id by (unfold i64_min, i64_max; lia). destruct (Z.eqb_spec size 0); [lia|].
  rewrite Z.quot_div_nonneg by lia. f_equal. lia.
Qed.

Lemma write_content_spec d uid size b short d' :
  write_content d uid size b short = Ok d' ->
  d' = with_contents d (contents d ++ [{| rc_uid := uid; rc_content := b |}]) /\
  blob_len b = size /\ size <= SQLITE_MAX_LENGTH.
Proof.
  unfold write_content, insert_content. intros H. step_in H. step_in H. steps_in H. steps_in E0. breflect.
  auto.
Qed.

(** A metadata-only revision. *)
Lemma ok_commit_empty d mk uid d1 :
  db_ok d -> insert_revision d mk = Ok (uid, d1) -> r_uid (mk uid) = uid ->
  uid <= MAX_JS_SAFE_INTEGER -> rr_content (mk uid) = None -> r_size (mk uid) = 0 -> r_pieces (mk uid) = 0 ->
  db_ok (refresh_vault d1 (r_vault_id (mk uid)) uid).
Proof.
  intros Hd Hins Hu Hmax Hin Hz Hp. rewrite <- (with_contents_id d1).
  destruct (insert_revision_spec _ _ _ _ Hd Hins) as (Eu & _ & _ & E1).
  eapply ok_commit; eauto.
  - split; [lia|]. rewrite Hz, Hp. split; done.
  - subst d1. cbn. apply contents_ok_empty; auto; [apply Hd|]. rewrite Hu. apply fresh_uid; done.
Qed.

(** A revision with [size] bytes of external content. *)
Lemma ok_commit_written d mk uid d1 d2 b short :
  db_ok d -> insert_revision d mk = Ok (uid, d1) -> r_uid (mk uid) = uid ->
  uid <= MAX_JS_SAFE_INTEGER -> rr_content (mk uid) = None ->
  write_content d1 uid (r_size (mk uid)) b short = Ok d2 -> 0 < r_size (mk uid) -> rev_shape (mk uid) ->
  db_ok (refresh_vault d2 (r_vault_id (mk uid)) uid).
Proof.
  intros Hd Hins Hu Hmax Hin Hw Hpos Hsh. apply write_content_spec in Hw as (-> & Hlen & _).
  destruct (insert_revision_spec _ _ _ _ Hd Hins) as (Eu & _ & _ & E1).
  eapply ok_commit; eauto. subst d1. cbn.
  pose proof (contents_ok_written (revisions d) (contents d) (mk uid)) as Hc. rewrite Hu in Hc.
  apply Hc; auto; [apply Hd|]. apply fresh_uid; done.
Qed.

Lemma add_empty_revision_ok now r th q oq rev d d' :
  db_ok d -> add_empty_revision_internal now r th q oq d = Ok (rev, d') -> db_ok d'.
Proof.
  unfold add_empty_revision_internal, add_revision, uid_in_range. intros Hd H.
  repeat (step_in H; cbn beta zeta in H). simplify_eq. breflect. steps_in E5. breflect.
  eapply (ok_commit_empty d (fun uid => {| rr_rev := revision_of r now uid; rr_content := None |}) z); eauto.
Qed.

Lemma add_file_revision_ok now r th file q oq rev d d' :
  db_ok d -> add_file_revision_internal now r th file q oq d = Ok (rev, d') -> db_ok d'.
Proof.
  unfold add_file_revision_internal, uid_in_range. intros Hd H.
  repeat (step_in H; cbn beta zeta in H). simplify_eq. breflect. steps_in E5. breflect.
  pose proof (write_content_spec _ _ _ _ _ _ E6) as (_ & _ & Hmax).
  eapply (ok_commit_written d (fun uid => {| rr_rev := revision_of r now uid; rr_content := None |}) z);
    eauto; cbn.
  unfold rev_shape. cbn. split; [lia|]. split; [rewrite <- pieces_for_shape by lia; done|].
  intros [?|?]; congruence.
Qed.

Lemma restore_source_in d vault target source :
  In target (revisions d) -> r_vault_id target = vault -> restore_source d vault target = Some source ->
  In source (revisions d) /\ r_vault_id source = vault /\ r_deleted source = false.
Proof.
  intros Ht Hv. unfold restore_source. destruct (r_deleted target) eqn:E; [|naive_solver].
  destruct (order_by _ _) as [|x l] eqn:Eo; [done|]. intros [= <-].
  assert (In x (order_by (desc by_uid) (select (fun r : revision_row => in_vault vault r
    && String.eqb (r_path r) (r_path target) && (r_uid r <? r_uid target) && negb (r_deleted r))
    (revisions d)))) as Hin by (rewrite Eo; left; done).
  apply in_order_by, in_select in Hin as [Hin Hp]. unfold in_vault in Hp. breflect. done.
Qed.

Lemma restored_shape (source : revision_row) path device user_id ts uid :
  rev_shape source -> r_deleted source = false -> rev_shape (restored_row source path device user_id ts uid).
Proof.
  unfold rev_shape. cbn. intros (? & ? & Hf) Hd. repeat split; auto. intros [?|?]; [auto|done].
Qed.

Lemma restore_ok notice_len now user_id th vault uid device gl ol r d d' :
  db_ok d -> restore_internal notice_len now user_id th vault uid device gl ol d = Ok (r, d') -> db_ok d'.
Proof.
  unfold restore_internal, uid_in_range. intros Hd H.
  step_in H. step_in H; [|simplify_eq; done]. rename r0 into target. step_in H; [|simplify_eq; done].
  rename r0 into source. step_in H. step_in H. destruct value1 as [new_uid d1]. step_in H. steps_in E4.
  apply query_row_some in E0 as [Ht Hv]. unfold in_vault in Hv. breflect.
  apply restore_source_in in E1 as (Hs & Hsv & Hsd); [|done..].
  assert (rev_shape source) as Hsh by (apply (ok_revs _ d Hd); done).
  pose proof (restored_shape source (r_path target) device user_id now new_uid Hsh Hsd) as Hsh'.
  destruct (0 <? r_size source) eqn:Epos; breflect.
  - destruct (match external_content d (r_uid source) with Some b => _ | None => _ end) as [d2|] eqn:Ew; [|done].
    steps_in H. rewrite <- Hsv.
    assert (exists b short, write_content d1 new_uid (r_size source) b short = Ok d2) as (b & short & Hw)
      by (repeat case_match; try done; eauto).
    eapply (ok_commit_written d (restored_row source (r_path target) device user_id now)); eauto.
  - steps_in H. rewrite <- Hsv. destruct Hsh as (H0 & Hp & _).
    assert (r_size source = 0) as Hz by lia.
    eapply (ok_commit_empty d (restored_row source (r_path target) device user_id now)); eauto.
    cbn. rewrite Hp, Hz. done.
Qed.

(** ** Deletion of revisions *)
Lemma content_of_in cs uid b : content_of cs uid = Some b -> exists c, In c cs /\ rc_uid c = uid /\ rc_content c = b.
Proof.
  unfold content_of. destruct (query_row _ cs) as [c|] eqn:E; [|done]. cbn. intros [= <-].
  apply query_row_some in E as [? ?]. breflect. eauto.
Qed.

Lemma content_of_delete P cs uid :
  (forall c, In c cs -> rc_uid c = uid -> P c = false) -> content_of (delete_where P cs) uid = content_of cs uid.
Proof.
  intros H. unfold content_of, query_row. rewrite delete_where_select, select_select. f_equal. f_equal.
  apply select_ext. intros c Hc. destruct (Z.eqb_spec (rc_uid c) uid) as [E|E]; [|rewrite andb_false_r; done].
  rewrite (H c Hc E). done.
Qed.

Lemma contents_ok_delete rs cs P :
  increasing ruid rs -> contents_ok rs cs ->
  contents_ok (delete_where P rs)
    (delete_where (fun c => exists_row (fun r : revision_row => r_uid r =? rc_uid c) (select P rs)) cs).
Proof.
  intros Hinc [Hnd Hrev Hpl]. constructor.
  - apply nodup_map_select. done.
  - intros c Hc. apply in_delete in Hc as [Hc Hn]. specialize (Hrev c Hc).
    apply in_map_iff in Hrev as (r & E & Hr). apply in_map_iff. exists r. split; [done|].
    apply in_delete. split; [done|]. destruct (P r) eqn:EP; [|done].
    rewrite exists_row_false in Hn. specialize (Hn r ltac:(apply in_select; done)). breflect. done.
  - intros r Hr. apply in_delete in Hr as [Hr HP]. specialize (Hpl r Hr). unfold content_placed in *.
    rewrite content_of_delete; [done|]. intros c Hc E. apply exists_row_false. intros r' Hr'.
    apply in_select in Hr' as [Hr' HP']. apply Z.eqb_neq. intros E'.
    assert (r = r') by (eapply (increasing_inj ruid rs); cbn; try done; lia). congruence.
Qed.

Lemma revs_ok_delete uids vids rs seq P : revs_ok uids vids rs seq -> revs_ok uids vids (delete_where P rs) seq.
Proof.
  intros []. constructor; auto; try (intros r Hr; apply in_delete in Hr as [Hr _]; auto).
  apply increasing_select. done.
Qed.

Lemma frame_delete_revisions cap d P : db_frame cap d -> db_frame cap (delete_revisions d P).
Proof.
  intros [? ? Hr Hc Hu ? ? ?]. constructor; cbn; auto.
  - apply revs_ok_delete. done.
  - apply contents_ok_delete; [|done]. destruct Hr. done.
  - rewrite Hu. unfold total_size. rewrite (sum_of_split _ P (revisions d)). lia.
Qed.

Lemma select_delete_none {A} (P Q : A -> bool) t :
  (forall r, In r t -> Q r = true -> P r = false) -> select Q (delete_where P t) = select Q t.
Proof.
  intros H. rewrite delete_where_select, select_select. apply select_ext. intros r Hr.
  destruct (Q r) eqn:E; [|rewrite andb_false_r; done]. rewrite (H r Hr E). done.
Qed.

Lemma max_of_delete {A} (f : A -> Z) P Q t : max_of f (select Q (delete_where P t)) <= max_of f (select Q t).
Proof.
  apply max_of_le; [apply max_of_nonneg|]. intros r Hr. apply max_of_ge.
  apply in_select in Hr as [Hr ?]. apply in_delete in Hr as [Hr _]. apply in_select. done.
Qed.

(** Delete within one vault, then refresh it at its current version. *)
Lemma ok_delete_refresh d P id v :
  db_ok d -> find_vault_row d id = Some v -> (forall r, P r = true -> in_vault id r = true) ->
  db_ok (refresh_vault (delete_revisions d P) id (vr_version v)).
Proof.
  intros Hd Hv HP. pose proof (revs_increasing _ _ _ _ (ok_revs _ d Hd)) as Hinc.
  apply find_vault_row_in in Hv as [Hv <-]. pose proof (ok_sizes _ d Hd) as Hsz.
  apply ok_refresh; cbn.
  - apply frame_delete_revisions, ok_frame. done.
  - intros w Hw Hne. eapply summary_ok_cong; [exact Hinc| | | |apply Hsz; done];
      [apply increasing_select; done|lia|].
    symmetry. apply select_delete_none. intros r _ Hr. destruct (P r) eqn:E; [|done].
    apply HP in E. unfold in_vault in *. breflect. congruence.
  - destruct (Hsz v Hv) as [[Hlo Hhi] _]. split; [|done].
    etransitivity; [apply max_of_delete|done].
Qed.

Lemma purge_ok now user_id th vault r d d' :
  db_ok d -> purge_internal now user_id th vault d = Ok (r, d') -> db_ok d'.
Proof.
  unfold purge_internal. intros Hd H. steps_in H. eapply ok_delete_refresh; eauto.
  intros r Hr. breflect. done.
Qed.

Lemma purge_deleted_history_ok vault n d d' :
  db_ok d -> purge_deleted_history vault d = Ok (n, d') -> db_ok d'.
Proof.
  unfold purge_deleted_history. intros Hd H. steps_in H. eapply ok_delete_refresh; eauto.
  intros r Hr. breflect. done.
Qed.

(** ** Vault rows *)
Section InsertVault.
Context (cap : Z) (d : db) (v : vault_row) (d' : db).
Hypothesis Hd : db_inv cap d.
Hypothesis Hins : insert_vault d v = Ok d'.
Hypothesis Hnew : vr_version v = 0 /\ v_size v = 0.
Hypothesis Hret : ~ In (v_id v) (map rt_id (retired d)).

Lemma insert_vault_spec :
  d' = with_vaults d (vaults d ++ [v]) /\ ~ In (v_id v) (vault_ids d) /\ In (vr_owner_user_id v) (user_ids d).
Proof using Hins.
  pose proof Hins as H. unfold insert_vault in H. steps_in H. breflect. repeat split.
  - intros Hin. apply vault_exists_in in Hin. congruence.
  - apply user_exists_in. done.
Qed.

(** No row refers to an id that is not in the vault table. *)
Lemma no_revisions_of id : ~ In id (vault_ids d) -> select (in_vault id) (revisions d) = [].
Proof using Hd.
  intros Hn. apply select_none. intros r Hr. apply String.eqb_neq. intros <-.
  apply Hn. apply (ok_revs _ d Hd). done.
Qed.

Lemma no_memberships_of id m : ~ In id (vault_ids d) -> In m (memberships d) -> m_vault_id m <> id.
Proof using Hd.
  intros Hn Hm <-. apply Hn. rewrite <- owners_fst. apply (ok_memberships _ d Hd). done.
Qed.

Lemma ok_insert_vault : db_inv (cap + 1) d'.
Proof using Hd Hins Hnew Hret.
  destruct insert_vault_spec as (-> & Hfresh & Howner). pose proof (no_revisions_of _ Hfresh) as Hnone.
  destruct Hd as [Hus [Hnd Ho Hc] Hr Hct Hsz Husg Hse Hm Hrt].
  assert (forall x, In x (vault_ids d) -> In x (map vid (vaults d ++ [v]))) as Hmono.
  { intros x Hx. rewrite map_app. apply in_or_app. auto. }
  assert (owners (vaults d ++ [v]) = owners (vaults d) ++ [(v_id v, vr_owner_user_id v)]) as Hown.
  { unfold owners. rewrite map_app. done. }
  constructor; cbn; auto.
  - constructor.
    + apply nodup_map_snoc; done.
    + intros w Hw. apply in_app_or in Hw as [Hw|[<-|[]]]; auto.
    + unfold count_all in *. rewrite length_app. cbn. lia.
  - destruct Hr. constructor; auto.
  - intros w Hw. apply in_app_or in Hw as [Hw|[<-|[]]]; [apply Hsz; done|].
    unfold summary_ok. rewrite live_size_local, Hnone by (destruct Hr; done).
    destruct Hnew as [-> ->]. destruct Hr. split; [split; [done|lia]|done].
  - rewrite Hown. destruct Hm as [Hmi Hmb Hmv Hmu Hmin Hmo Hun Hact Htot Hmseq]. constructor; auto.
    + intros m Hin. rewrite map_app. apply in_or_app. auto.
    + intros m Hin. rewrite in_app_iff. intros [H|[[= E _]|[]]]; [eapply Hmo; eauto|].
      apply Hfresh. rewrite E, <- owners_fst. auto.
  - destruct Hrt as [Hrn Hro Hrp Hrtot Hrd]. constructor; auto.
    intros r Hr0. rewrite map_app, in_app_iff. cbn. intros [H|[E|[]]]; [eapply Hrd; eauto|].
    apply Hret. rewrite E. apply in_map. done.
Qed.
End InsertVault.

Lemma inv_cap cap cap' d : db_inv cap d -> count_all (vaults d) <= cap' -> db_inv cap' d.
Proof. intros [? [? ? ?] ? ? ? ? ? ? ?] H. constructor; auto. constructor; auto. Qed.

Lemma create_vault_ok now user_id th vault r d d' :
  db_ok d -> create_vault_internal now user_id th vault d = Ok (r, d') ->
  ~ In (v_id vault) (map rt_id (retired d)) -> v_size vault = 0 -> db_ok d'.
Proof.
  unfold create_vault_internal. intros Hd H Hret Hz. repeat (step_in H; cbn beta zeta in H).
  simplify_eq. breflect.
  replace MAX_VAULTS with (MAX_VAULTS - 1 + 1) by lia.
  eapply ok_insert_vault; [eapply (inv_cap MAX_VAULTS)|exact E2|..]; [done|lia|done|done].
Qed.

Lemma ok_update_vaults d P (g : vault_row -> vault_row) :
  (forall v : vault_row, v_id (g v) = v_id v /\ vr_owner_user_id (g v) = vr_owner_user_id v
             /\ vr_version (g v) = vr_version v /\ v_size (g v) = v_size v) ->
  db_ok d -> db_ok (with_vaults d (update P g (vaults d))).
Proof.
  intros Hg Hd. apply ok_with_vaults; [apply ok_frame; done|..].
  - unfold owners. apply map_update. intros v. destruct (Hg v) as (-> & -> & _). done.
  - intros v Hv. apply in_update in Hv as (v0 & Hv0 & ->). pose proof (ok_sizes _ d Hd v0 Hv0) as Hs.
    destruct (P v0); [|done]. destruct (Hg v0) as (E1 & _ & E2 & E3).
    unfold summary_ok in *. rewrite E1, E2, E3. done.
Qed.

Lemma rename_vault_ok now user_id th id name r d d' :
  db_ok d -> rename_vault_for_session now user_id th id name d = Ok (r, d') -> db_ok d'.
Proof.
  unfold rename_vault_for_session. intros Hd H. steps_in H. apply ok_update_vaults; done.
Qed.

Lemma bind_managed_keyhash_ok now user_id th id keyhash r d d' :
  db_ok d -> bind_managed_keyhash_for_session now user_id th id keyhash d = Ok (r, d') -> db_ok d'.
Proof.
  unfold bind_managed_keyhash_for_session. intros Hd H. step_in H. cbn zeta in H.
  injection H as <- <-. apply ok_update_vaults; done.
Qed.

(** ** Pruning *)

(** No row of a list avoids the keys of the list. *)
Lemma count_not_keys {A B} (eqb : B -> B -> bool) (key : A -> B) l :
  (forall x, eqb x x = true) -> count (fun r => negb (existsb (eqb (key r)) (map key l))) l = 0.
Proof.
  intros Hrefl. apply count_zero. intros r Hr. apply negb_false_iff, existsb_exists.
  exists (key r). split; [apply in_map; done|done].
Qed.

Lemma count_perm {A} (P : A -> bool) t t' : Permutation t t' -> count P t = count P t'.
Proof.
  unfold count, select. intros H. f_equal. induction H as [|x l l' H IH|x y l|l l' l'' H1 IH1 H2 IH2]; cbn.
  - done.
  - destruct (P x); cbn; lia.
  - destruct (P x), (P y); cbn; lia.
  - lia.
Qed.

Lemma prune_retired_owner owner keep rts :
  0 <= keep -> count (fun r => rt_owner_user_id r =? owner) (prune_retired owner keep rts) <= keep.
Proof.
  intros Hk. unfold prune_retired. set (S := order_by retired_order _).
  unfold count. rewrite delete_where_select, select_select.
  rewrite (select_ext _ (fun r => (rt_owner_user_id r =? owner)
             && negb (existsb (String.eqb (rt_id r)) (map rt_id (offset keep S))))).
  2: { intros r _. destruct (rt_owner_user_id r =? owner); cbn; rewrite ?andb_true_r, ?andb_false_r; done. }
  rewrite <- select_select.
  change (Z.of_nat (length (select ?P ?t))) with (count P t).
  rewrite (count_perm _ _ S) by apply order_by_perm. unfold offset.
  set (Q := fun r => negb _). assert (count Q (drop (Z.to_nat keep) S) = 0) as Hz
    by (apply (count_not_keys String.eqb rt_id), String.eqb_refl).
  assert (count Q S = count Q (take (Z.to_nat keep) S) + count Q (drop (Z.to_nat keep) S)) as ->
    by (rewrite <- count_app, take_drop; done).
  pose proof (count_le_all Q (take (Z.to_nat keep) S)) as Hle.
  unfold count_all in Hle. rewrite length_take in Hle. lia.
Qed.

Lemma prune_retired_sub owner keep rts r : In r (prune_retired owner keep rts) -> In r rts.
Proof. unfold prune_retired. intros H. apply in_delete in H as [H _]. done. Qed.

(** ** Retirement and deletion of a vault *)
Definition remaining (id : string) (vs : list vault_row) : list vault_row :=
  delete_where (fun v : vault_row => String.eqb (v_id v) id) vs.

Lemma retire_vault_identity_spec id now d d' v :
  find_vault_row d id = Some v -> retire_vault_identity id now d = Ok d' ->
  exists rts, d' = with_retired d rts /\
    rts = delete_where (fun r => String.eqb (rt_id r) id)
            (prune_retired (vr_owner_user_id v) (MAX_RETIRED_VAULTS_PER_OWNER - 1) (retired d))
          ++ [{| rt_id := id; rt_owner_user_id := vr_owner_user_id v; rt_retired_at := now |}] /\
    count_all (prune_retired (vr_owner_user_id v) (MAX_RETIRED_VAULTS_PER_OWNER - 1) (retired d))
      < MAX_RETIRED_VAULTS.
Proof.
  unfold retire_vault_identity, replace_retired. intros -> H. cbn zeta in H. steps_in H. breflect. eauto.
Qed.

Lemma retired_ok_retire uids vs rts id owner now :
  retired_ok uids (map vid vs) rts -> In owner uids ->
  count_all (prune_retired owner (MAX_RETIRED_VAULTS_PER_OWNER - 1) rts) < MAX_RETIRED_VAULTS ->
  retired_ok uids (map vid (remaining id vs))
    (delete_where (fun r => String.eqb (rt_id r) id) (prune_retired owner (MAX_RETIRED_VAULTS_PER_OWNER - 1) rts)
     ++ [{| rt_id := id; rt_owner_user_id := owner; rt_retired_at := now |}]).
Proof.
  intros [Hnd Ho Hp Ht Hdis] Hown Hc. set (pr := prune_retired _ _ rts) in *.
  assert (forall r, In r (delete_where (fun r => String.eqb (rt_id r) id) pr) -> In r rts /\ rt_id r <> id) as Hsub.
  { intros r Hr. apply in_delete in Hr as [Hr Hne]. breflect. split; [|done].
    eapply prune_retired_sub. exact Hr. }
  constructor.
  - apply nodup_map_snoc.
    + apply nodup_map_select, nodup_map_select. done.
    + cbn. rewrite in_map_iff. intros (r & E & Hr). apply Hsub in Hr as [_ Hne]. done.
  - intros r Hr. apply in_app_or in Hr as [Hr|[<-|[]]]; [apply Hsub in Hr as [? _]; auto|done].
  - intros o. rewrite count_app. set (n := count _ [_]).
    pose proof (count_delete_le (fun r => String.eqb (rt_id r) id) (fun r => rt_owner_user_id r =? o) pr) as H1.
    pose proof (count_delete_le (fun r => (rt_owner_user_id r =? owner) && existsb (String.eqb (rt_id r))
      (map rt_id (offset (MAX_RETIRED_VAULTS_PER_OWNER - 1) (order_by retired_order
               (select (fun r => rt_owner_user_id r =? owner) rts))))) (fun r => rt_owner_user_id r =? o) rts) as H2.
    specialize (Hp o). assert (n = if owner =? o then 1 else 0) as En.
    { subst n. unfold count, select. cbn. destruct (owner =? o); done. }
    destruct (Z.eqb_spec owner o) as [->|]; [|unfold pr, prune_retired in *; lia].
    pose proof (prune_retired_owner o (MAX_RETIRED_VAULTS_PER_OWNER - 1) rts ltac:(done)) as H3. fold pr in H3. lia.
  - unfold count_all in *. rewrite length_app. unfold delete_where at 1.
    pose proof (filter_length_le (fun r => negb (String.eqb (rt_id r) id)) pr). cbn. lia.
  - intros r Hr Hin. apply in_map_iff in Hin as (v & E & Hv). apply in_delete in Hv as [Hv Hne]. breflect.
    apply in_app_or in Hr as [Hr|[<-|[]]]; cbn in *; [|congruence].
    apply Hsub in Hr as [Hr _]. eapply Hdis; [exact Hr|]. apply in_map_iff. eauto.
Qed.

(** What [DELETE FROM vaults] does to the database when the vault exists. *)
Definition drop_vault (d : db) (id : string) : db :=
  with_vaults
    (with_memberships (delete_revisions d (in_vault id))
       (delete_where (fun m => String.eqb (m_vault_id m) id) (memberships d)))
    (remaining id (vaults d)).

Lemma delete_where_ext {A} (P Q : A -> bool) t :
  (forall r, In r t -> P r = Q r) -> delete_where P t = delete_where Q t.
Proof. intros H. apply select_ext. intros r Hr. rewrite (H r Hr). done. Qed.

Lemma delete_revisions_ext d P Q :
  (forall r, P r = Q r) -> delete_revisions d P = delete_revisions d Q.
Proof.
  intros H. unfold delete_revisions. rewrite (select_ext P Q), (delete_where_ext P Q (revisions d)) by auto. done.
Qed.

Lemma delete_vaults_drop d id user_id v :
  NoDup (vault_ids d) -> In v (vaults d) -> v_id v = id -> vr_owner_user_id v = user_id ->
  delete_vaults d (owned_by id user_id) = drop_vault d id.
Proof.
  intros Hnd Hv Hid Ho. unfold delete_vaults, drop_vault, remaining.
  assert (forall x, exists_row (fun w : vault_row => String.eqb (v_id w) x)
                      (select (owned_by id user_id) (vaults d)) = String.eqb x id) as Hgone.
  { intros x. apply eq_true_iff_eq. rewrite exists_row_spec, String.eqb_eq. split.
    - intros (w & Hw & E). apply in_select in Hw as [_ Hw]. unfold owned_by in Hw. breflect. congruence.
    - intros ->. exists v. rewrite in_select. unfold owned_by. rewrite Hid, Ho, String.eqb_refl, Z.eqb_refl. done. }
  rewrite (delete_revisions_ext _ _ (in_vault id)) by (intros; apply Hgone). cbn.
  rewrite (delete_where_ext _ (fun m => String.eqb (m_vault_id m) id) (memberships d)) by (intros; apply Hgone).
  f_equal. apply delete_where_ext. intros w Hw. unfold owned_by.
  destruct (String.eqb_spec (v_id w) id) as [E|E]; [|done].
  assert (w = v) as -> by (eapply (nodup_map_inj vid); eauto; congruence).
  apply Z.eqb_eq. done.
Qed.

Lemma memberships_ok_drop uids vs ms seq id :
  memberships_ok uids (owners vs) ms seq ->
  memberships_ok uids (owners (remaining id vs)) (delete_where (fun m => String.eqb (m_vault_id m) id) ms) seq.
Proof.
  intros [Hmi Hmb Hmv Hmu Hmin Hmo Hun Hact Htot Hmseq].
  constructor; auto; try (intros m Hm; apply in_delete in Hm as [Hm Hne]; auto; breflect).
  - apply increasing_select. done.
  - specialize (Hmv m Hm). rewrite owners_fst, in_map_iff in *. destruct Hmv as (v & E & Hv).
    exists v. split; [done|]. apply in_delete. split; [done|]. apply String.eqb_neq. congruence.
  - intros Hin. apply (Hmo m Hm). apply in_owners in Hin as (v & Hv & E1 & E2). apply in_delete in Hv as [Hv _].
    apply in_owners. eauto.
  - rewrite delete_where_select, select_select.
    rewrite (select_ext _ (fun m => membership_active m && negb (String.eqb (m_vault_id m) id)))
      by (intros; apply andb_comm).
    rewrite <- select_select. apply nodup_map_select. done.
  - intros x. etransitivity; [apply count_delete_le|done].
  - unfold count_all in *. unfold delete_where. etransitivity; [|exact Htot]. apply inj_le, filter_length_le.
Qed.

Lemma remaining_count id vs :
  In id (map vid vs) -> count_all (remaining id vs) <= count_all vs - 1.
Proof.
  intros Hin. apply in_map_iff in Hin as (v & E & Hv). unfold count_all, remaining, delete_where.
  induction vs as [|w vs IH]; [done|]. cbn [List.filter].
  pose proof (filter_length_le (fun r : vault_row => negb (String.eqb (v_id r) id)) vs).
  destruct Hv as [->|Hv].
  - rewrite E, String.eqb_refl. cbn. lia.
  - specialize (IH Hv). destruct (negb _); cbn [length]; lia.
Qed.

Lemma ok_drop_vault cap d id rts :
  db_inv cap d -> In id (vault_ids d) -> retired_ok (user_ids d) (map vid (remaining id (vaults d))) rts ->
  db_inv (cap - 1) (with_retired (drop_vault d id) rts).
Proof.
  intros Hd Hin Hrts. pose proof (ok_frame _ _ Hd) as Hf. apply (frame_delete_revisions _ _ (in_vault id)) in Hf.
  destruct Hf as [Hus Hv Hr Hct Husg Hse Hm _]. destruct Hv as [Hnd Ho Hc].
  pose proof (ok_sizes _ d Hd) as Hsz. pose proof (revs_increasing _ _ _ _ (ok_revs _ d Hd)) as Hinc.
  constructor; cbn in *; auto.
  - constructor.
    + apply nodup_map_select. done.
    + intros v Hv. apply in_delete in Hv as [Hv _]. auto.
    + pose proof (remaining_count id (vaults d) Hin). lia.
  - destruct Hr as [Hi Hb Hrv Hru Hsh Hseq]. constructor; auto. intros r Hr.
    specialize (Hrv r Hr). apply in_map_iff in Hrv as (v & E & Hv). apply in_map_iff. exists v. split; [done|].
    apply in_delete. split; [done|]. apply in_delete in Hr as [_ Hr]. unfold in_vault in Hr. congruence.
  - intros v Hv. apply in_delete in Hv as [Hv Hne]. breflect.
    eapply summary_ok_cong; [exact Hinc|apply increasing_select; done| | |apply Hsz; done]; [lia|].
    symmetry. apply select_delete_none. intros r _ Er. unfold in_vault in *. breflect.
    apply String.eqb_neq. congruence.
  - apply memberships_ok_drop. done.
Qed.

Lemma ok_retire_delete cap d id user_id v now d1 :
  db_inv cap d -> In v (vaults d) -> v_id v = id -> vr_owner_user_id v = user_id ->
  retire_vault_identity id now d = Ok d1 ->
  db_inv (cap - 1) (delete_vaults d1 (owned_by id user_id)).
Proof.
  intros Hd Hv Hid Ho Hret.
  assert (find_vault_row d id = Some v) as Hfind.
  { rewrite <- Hid. apply find_vault_row_eq; [apply Hd|done]. }
  destruct (retire_vault_identity_spec _ _ _ _ _ Hfind Hret) as (rts & -> & Erts & Hc).
  rewrite (delete_vaults_drop _ id user_id v); [|apply Hd|done..].
  change (drop_vault (with_retired d rts) id) with (with_retired (drop_vault d id) rts).
  apply ok_drop_vault; [done|rewrite <- Hid; apply in_map_iff; eauto|]. subst rts.
  apply retired_ok_retire; [apply Hd| |done]. apply (ok_vaults _ d Hd). done.
Qed.

Lemma owns_vault_in d id user_id :
  owns_vault d id user_id = true -> exists v, In v (vaults d) /\ v_id v = id /\ vr_owner_user_id v = user_id.
Proof.
  unfold owns_vault. rewrite exists_row_spec. intros (v & Hv & H). breflect. eauto.
Qed.

Lemma delete_vault_ok now user_id th id r d d' :
  db_ok d -> delete_vault_internal now user_id th id d = Ok (r, d') -> db_ok d'.
Proof.
  unfold delete_vault_internal. intros Hd H. steps_in H; [done|]. breflect.
  apply owns_vault_in in E0 as (v & Hv & Hid & Ho).
  pose proof (ok_retire_delete _ _ _ _ _ _ _ Hd Hv Hid Ho E1) as Hok.
  eapply inv_cap; [exact Hok|]. pose proof (vaults_count _ _ _ (ok_vaults _ _ Hok)). lia.
Qed.

(** ** Migration *)
Lemma nodup_map_update_ren {A B} (f : A -> B) P g (h : B -> B) t :
  (forall x, In x t -> f (g x) = h (f x)) ->
  (forall x y, In x t -> In y t -> P x = true -> P y = true -> h (f x) = h (f y) -> f x = f y) ->
  (forall x y, In x t -> In y t -> P x = true -> P y = false -> h (f x) <> f y) ->
  NoDup (map f t) -> NoDup (map f (update P g t)).
Proof.
  intros Hg Hinj Hsep. induction t as [|x t IH]; [done|]. intros Hnd. cbn in Hnd.
  apply NoDup_cons in Hnd as [Hn Hnd]. unfold update. cbn [map]. fold (update P g t).
  apply NoDup_cons. split; [|apply IH; auto; intros; first [apply Hinj|apply Hsep|apply Hg]; auto; right; done].
  rewrite list_elem_of_In, in_map_iff. intros (y & E & Hy). apply in_update in Hy as (y0 & Hy0 & ->).
  apply Hn. rewrite list_elem_of_In, in_map_iff. exists y0. split; [|done].
  pose proof (Hg x (or_introl eq_refl)) as Gx. pose proof (Hg y0 (or_intror Hy0)) as Gy.
  destruct (P x) eqn:Px, (P y0) eqn:Py; rewrite ?Gx, ?Gy in E; [| | |done].
  - symmetry. apply Hinj; auto; [left|right]; done.
  - exfalso. apply (Hsep x y0); auto; [left|right]; done.
  - exfalso. apply (Hsep y0 x); auto; [right|left]; done.
Qed.

Lemma count_update_eq {A} (P Q : A -> bool) g t :
  count Q (update P g t) = count (fun r => Q (if P r then g r else r)) t.
Proof.
  unfold count, select, update. f_equal. induction t as [|x t IH]; cbn; [done|].
  destruct (Q (if P x then g x else x)); cbn; lia.
Qed.

Section Move.
Context (uids : list Z) (os : list (string * Z)) (ms : list membership_row) (seq : option Z).
Context (src tgt : string) (user_id : Z).
Hypothesis Hms : memberships_ok uids os ms seq.
Hypothesis Hsrc : In (src, user_id) os.
Hypothesis Htgt : In (tgt, user_id) os.
Hypothesis Htgt_owner : forall u, In (tgt, u) os -> u = user_id.
Hypothesis Hnone : forall m, In m ms -> m_vault_id m <> tgt.

Let P := fun m => String.eqb (m_vault_id m) src && membership_active m.
Let g := set_membership_vault tgt.

Lemma moved_unique :
  NoDup (map active_pair (select membership_active (update P g ms))).
Proof using Hms Hnone.
  rewrite select_update by done.
  apply (nodup_map_update_ren _ _ _ (fun p => (tgt, snd p))).
  - done.
  - unfold P, active_pair. cbn. intros x y Hx Hy Px Py E. breflect. congruence.
  - unfold active_pair. cbn. intros x y Hx Hy Px Py [= E _]. apply in_select in Hy as [Hy _].
    apply (Hnone y Hy). done.
  - apply Hms.
Qed.

Lemma moved_active x :
  count (fun m => String.eqb (m_vault_id m) x && membership_active m) (update P g ms)
    <= MAX_ACTIVE_COLLABORATORS_PER_VAULT.
Proof using Hms Hnone.
  rewrite count_update_eq. destruct (String.eqb_spec x tgt) as [->|Hne].
  - etransitivity; [|apply (ms_active _ _ _ _ Hms src)]. apply count_mono. intros m Hm. unfold P.
    specialize (Hnone m Hm). destruct (String.eqb (m_vault_id m) src); cbn.
    + destruct (membership_active m) eqn:E; cbn; rewrite ?E, ?andb_false_r; done.
    + intros H. breflect. done.
  - etransitivity; [|apply (ms_active _ _ _ _ Hms x)]. apply count_mono. intros m Hm.
    destruct (P m); [|done]. cbn. intros H. breflect. congruence.
Qed.

Lemma memberships_ok_move : memberships_ok uids os (move_memberships src tgt ms) seq.
Proof using All.
  pose proof moved_unique as Hu. pose proof moved_active as Ha. unfold move_memberships. fold P g.
  destruct Hms as [Hmi Hmb Hmv Hmu Hmin Hmo Hun Hact Htot Hmseq].
  constructor; auto; try (intros m Hm; apply in_update in Hm as (m0 & Hm0 & ->); destruct (P m0) eqn:EP; unfold g; cbn; auto).
  - apply increasing_update; done.
  - apply in_map_iff. exists (tgt, user_id). done.
  - intros Hin. apply Htgt_owner in Hin. apply (Hmo m0 Hm0). unfold P in EP. breflect.
    rewrite Hin. replace (m_vault_id m0) with src by congruence. done.
  - unfold count_all in *. rewrite length_update. done.
Qed.
End Move.

Lemma migrate_vault_ok now user_id th src repl r d d' :
  db_ok d -> migrate_vault_internal now user_id th src repl d = Ok (r, d') ->
  ~ In (v_id repl) (map rt_id (retired d)) -> v_size repl = 0 -> db_ok d'.
Proof.
  unfold migrate_vault_internal. intros Hd H Hret Hz. repeat (step_in H; cbn beta zeta in H);
    [simplify_eq; done|]. injection H as <- <-. breflect.
  apply owns_vault_in in E0 as (v & Hv & Hid & Ho).
  pose proof (insert_vault_spec _ _ _ E1) as (-> & Hfresh & Howner). cbn in Hfresh, Howner.
  pose proof (ok_insert_vault _ _ _ _ Hd E1 (conj eq_refl Hz) Hret) as Hi.
  replace MAX_VAULTS with (MAX_VAULTS + 1 - 1) by lia.
  eapply (ok_retire_delete _ _ _ _ v); [|..|exact E2]; [|cbn; apply in_or_app; auto|done|done].
  apply ok_with_memberships; [done|]. apply (memberships_ok_move _ _ _ _ _ _ user_id).
  - apply Hi.
  - apply in_owners. exists v. split; [apply in_or_app; auto|done].
  - apply in_owners. eexists. split; [apply in_or_app; right; left; reflexivity|done].
  - intros u Hu. apply in_owners in Hu as (w & Hw & E3 & <-). apply in_app_or in Hw as [Hw|[<-|[]]]; [|done].
    exfalso. apply Hfresh. rewrite <- E3. apply in_map_iff. eauto.
  - intros m Hm. exact (no_memberships_of _ d Hd _ m Hfresh Hm).
Qed.

(** ** Sharing *)
Lemma memberships_ok_delete uids os ms seq P :
  memberships_ok uids os ms seq -> memberships_ok uids os (delete_where P ms) seq.
Proof.
  intros [Hmi Hmb Hmv Hmu Hmin Hmo Hun Hact Htot Hmseq].
  constructor; auto; try (intros m Hm; apply in_delete in Hm as [Hm Hne]; auto).
  - apply increasing_select. done.
  - rewrite delete_where_select, select_select.
    rewrite (select_ext _ (fun m => membership_active m && negb (P m))) by (intros; apply andb_comm).
    rewrite <- select_select. apply nodup_map_select. done.
  - intros x. etransitivity; [apply count_delete_le|done].
  - unfold count_all in *. unfold delete_where. etransitivity; [|exact Htot]. apply inj_le, filter_length_le.
Qed.

(** Revoking memberships. *)
Lemma select_revoked (Q P : membership_row -> bool) now ms :
  select (fun m => Q m && membership_active m) (update P (set_membership_revoked now) ms)
  = select (fun m => Q m && membership_active m) (delete_where P ms).
Proof.
  unfold select, update, delete_where. induction ms as [|m l IH]; cbn; [done|]. destruct (P m) eqn:E; cbn.
  - unfold membership_active at 1. cbn. rewrite andb_false_r. exact IH.
  - rewrite IH. done.
Qed.

Lemma memberships_ok_revoke uids os ms seq P now :
  memberships_ok uids os ms seq -> memberships_ok uids os (update P (set_membership_revoked now) ms) seq.
Proof.
  intros Hms. pose proof (memberships_ok_delete _ _ _ _ P Hms) as Hdel.
  destruct Hms as [Hmi Hmb Hmv Hmu Hmin Hmo Hun Hact Htot Hmseq].
  constructor; auto;
    try (intros m Hm; apply in_update in Hm as (m0 & Hm0 & ->); destruct (P m0); cbn; auto; done).
  - apply increasing_update; done.
  - pose proof (select_revoked (fun _ => true) P now ms) as E. cbn in E.
    change (fun m => membership_active m) with membership_active in E. rewrite E. apply Hdel.
  - intros x. unfold count. rewrite (select_revoked (fun m => String.eqb (m_vault_id m) x)). apply Hdel.
  - unfold count_all in *. rewrite length_update. done.
Qed.

Lemma remove_collaborator_ok now actor th vault uid r d d' :
  db_ok d -> remove_collaborator_for_session now actor th vault uid d = Ok (r, d') -> db_ok d'.
Proof.
  unfold remove_collaborator_for_session. intros Hd H. steps_in H; try done.
  all: apply ok_with_memberships, memberships_ok_revoke; [done|apply Hd].
Qed.

Lemma insert_membership_spec d mk uid d' :
  db_ok d -> insert_membership d mk = Ok (uid, d') ->
  uid = default 0 (seq_memberships d) + 1 /\
  memberships d' = memberships d ++ [mk uid] /\
  In (m_vault_id (mk uid)) (vault_ids d) /\ In (m_user_id (mk uid)) (user_ids d) /\
  In (m_invited_by_user_id (mk uid)) (user_ids d) /\
  (membership_active (mk uid) = true -> ~ In (active_pair (mk uid)) (map active_pair (select membership_active (memberships d)))).
Proof.
  intros Hd H. unfold insert_membership in H. destruct (next_rowid _ _) as [u|] eqn:En; [|done].
  cbn zeta in H. step_in H. step_in H. injection H as <- <-. apply next_rowid_spec in En as [-> _]. breflect.
  destruct (ok_memberships _ d Hd) as [_ Hb _ _ _ _ _ _ _ Hs].
  assert (max_of m_id (memberships d) <= default 0 (seq_memberships d)) as Hle.
  { apply max_of_le; [lia|]. intros m Hm. specialize (Hb m Hm). lia. }
  rewrite Z.max_l in * by done. repeat split; [apply vault_exists_in; done|apply user_exists_in; done..|].
  intros Hact. rewrite Hact in E. cbn in E. rewrite exists_row_false in E.
  rewrite in_map_iff. intros (m & Epair & Hm). apply in_select in Hm as [Hm Hma]. specialize (E m Hm).
  rewrite Hma in E. unfold active_pair in Epair. injection Epair as E1 E2.
  rewrite E1, E2, String.eqb_refl, Z.eqb_refl in E. done.
Qed.

Lemma ok_insert_membership d mk uid d' :
  db_ok d -> insert_membership d mk = Ok (uid, d') -> m_id (mk uid) = uid ->
  (forall o, In (m_vault_id (mk uid), o) (owners (vaults d)) -> o <> m_user_id (mk uid)) ->
  count (active_in (m_vault_id (mk uid))) (memberships d) < MAX_ACTIVE_COLLABORATORS_PER_VAULT ->
  count_all (memberships d) < MAX_MEMBERSHIPS -> default 0 (seq_memberships d) < MAX_JS_SAFE_INTEGER ->
  db_ok d'.
Proof.
  intros Hd Hins Hid Hno Hc Ht Hs.
  destruct (insert_membership_spec _ _ _ _ Hd Hins) as (Eu & Ems & Hv & Hu & Hi & Hun).
  assert (d' = {| users := users d; seq_users := seq_users d; vaults := vaults d;
             revisions := revisions d; seq_revisions := seq_revisions d; contents := contents d;
             sessions := sessions d; retired := retired d; memberships := memberships d ++ [mk uid];
             seq_memberships := Some uid; settings := settings d; usage := usage d |}) as ->.
  { unfold insert_membership in Hins. destruct (next_rowid _ _); [|done]. cbn zeta in Hins. steps_in Hins. done. }
  destruct Hd as [? ? ? ? ? ? ? Hm ?]. constructor; cbn; auto.
  destruct Hm as [Hmi Hmb Hmv Hmu Hmin Hmo Hmun Hact Htot Hmseq]. constructor; cbn; auto; [..|lia];
    try (intros m Hm; apply in_app_or in Hm as [Hm|[<-|[]]]; auto).
  - apply increasing_snoc; [done|]. intros m Hm. specialize (Hmb m Hm). lia.
  - specialize (Hmb m Hm). lia.
  - lia.
  - rewrite owners_fst. done.
  - intros Hin. apply Hno in Hin. done.
  - rewrite select_app. unfold select at 2. cbn. destruct (membership_active (mk uid)) eqn:E.
    + apply nodup_map_snoc; auto.
    + rewrite app_nil_r. done.
  - intros x. rewrite count_app. unfold count at 2, select. cbn. specialize (Hact x).
    destruct (String.eqb_spec (m_vault_id (mk uid)) x) as [<-|]; cbn; [|lia].
    unfold active_in in Hc. destruct (membership_active _); cbn; lia.
  - unfold count_all in *. rewrite length_app. cbn. lia.
Qed.

Lemma invite_collaborator_ok now owner th vault email r d d' :
  db_ok d -> invite_collaborator_for_session now owner th vault email d = Ok (r, d') -> db_ok d'.
Proof.
  unfold invite_collaborator_for_session. intros Hd H. repeat (step_in H; cbn beta zeta in H);
    simplify_eq; [done|]. breflect. cbn in *.
  apply owns_vault_in in E1 as (v & Hv & Hid & Ho).
  eapply ok_insert_membership; [|eassumption|..]; cbn; auto.
  - apply ok_with_memberships; [done|]. apply memberships_ok_delete, Hd.
  - intros o Hin. apply in_owners in Hin as (w & Hw & E1 & <-).
    assert (w = v) as -> by (eapply (nodup_map_inj vid); [apply Hd|..]; auto; congruence).
    congruence.
  - eapply Z.le_lt_trans; [apply count_delete_le|done].
Qed.
