(* ===== verification/Machine.v ===== *)
(** * The database as a state machine

    [op] has one constructor per state-changing operation of [impl Db] and per
    offline maintenance command that runs on the database; [exec] runs it at a
    given time and keeps the committed state.  A new vault id comes from
    [Uuid::new_v4], so a [step] requires it to differ from the retired ids; the
    handlers create vaults with size 0.  [reachable_ok] is the invariant of
    every state these operations can produce from an initialised database; restore, stale
    recovery and rebinding are in [Recovery]. *)

From Stdlib Require Import ZArith Lia List String Bool.
From stdpp Require Import base list strings.
From S2P Require Import Prelude Sql Model Store Auth Accounts Vaults Sharing Revisions Invariant Heads Preservation.

Local Open Scope Z_scope.

(** The database [initialize] leaves: all migrations on an empty file, with the
    initial user as the first administrator. *)
Record InitialUser := {
  iu_email_canonical : string;
  iu_email : string;
  iu_name : string;
  iu_password_hash : string;
}.

Section InitialUser.
Context (parse_password_hash : string -> option PasswordHash).

Definition new_initial_user (email name password_hash : string) : result InitialUser :=
  let? email := canonicalize_email email in
  let? name := normalize_display_name name in
  ensure password_hash_is_production_grade parse_password_hash password_hash
    orelse Bail "initial user password hash does not meet the production Argon2 policy" in
  Ok {| iu_email_canonical := ce_canonical email; iu_email := ce_display email; iu_name := name;
        iu_password_hash := password_hash |}.
End InitialUser.

Definition initial_db (now : Z) (u : InitialUser) : db := {|
  users := [{| u_id := 1; u_email_canonical := iu_email_canonical u; u_email := iu_email u;
               u_name := iu_name u; u_password_hash := iu_password_hash u; u_status := "active";
               u_created_at := now; u_updated_at := now; u_role := "admin" |}];
  seq_users := 1;
  vaults := []; revisions := []; seq_revisions := 0; contents := []; sessions := []; retired := [];
  memberships := []; seq_memberships := None;
  settings := {| ss_self_registration_enabled := 0; ss_updated_at := now / 1000 * 1000; ss_updated_by := 1 |};
  usage := 0;
|}.

Inductive op :=
| OpCreateUser (email name password_hash : string)
| OpSelfRegister (email name password_hash : string)
| OpSetSelfRegistration (administrator_id : Z) (enabled : bool)
| OpSetPassword (user_id : Z) (password_hash : string)
| OpSetEmail (user_id : Z) (email : string)
| OpSetName (user_id : Z) (name : string)
| OpSetStatus (user_id : Z) (status : string)
| OpSetRole (user_id : Z) (role : string)
| OpRevokeUserSessions (user_id : Z)
| OpIssueSession (token : string) (user_id ttl_secs : Z)
| OpAuthRenew (token : string) (ttl_secs : Z)
| OpVaultRenew (hash vault : string) (ttl_secs : Z)
| OpRevokeSession (token : string)
| OpRevokeAll
| OpCreateVault (user_id : Z) (token_hash : string) (vault : Vault)
| OpRenameVault (user_id : Z) (token_hash id name : string)
| OpBindKeyhash (user_id : Z) (token_hash id keyhash : string)
| OpDeleteVault (user_id : Z) (token_hash id : string)
| OpMigrateVault (user_id : Z) (token_hash source : string) (replacement : Vault)
| OpInvite (owner_user_id : Z) (token_hash vault email : string)
| OpRemove (acting_user_id : Z) (token_hash vault : string) (share_uid : Z)
| OpPushEmpty (r : NewRevision) (token_hash : string) (quota owner_quota : Z)
| OpPushFile (r : NewRevision) (token_hash : string) (file : blob) (quota owner_quota : Z)
| OpRestore (user_id : Z) (token_hash vault : string) (uid : Z) (device : string) (limits : Z * Z)
| OpPurge (user_id : Z) (token_hash vault : string)
| OpPurgeDeletedHistory (vault : string).

Section Machine.
Context (parse_password_hash : string -> option PasswordHash).
Context (token_hash : string -> string).
Context (notice_len : PushNotice -> Z).

Definition exec (now : Z) (o : op) (d : db) : db :=
  match o with
  | OpCreateUser e n h => settle d (create_user parse_password_hash now e n h d)
  | OpSelfRegister e n h => settle d (create_self_registered_user parse_password_hash now e n h d)
  | OpSetSelfRegistration a b => settle d (set_self_registration_enabled now a b d)
  | OpSetPassword u h => settle d (set_user_password parse_password_hash now u h d)
  | OpSetEmail u e => settle d (set_user_email now u e d)
  | OpSetName u n => settle d (set_user_name now u n d)
  | OpSetStatus u s => settle d (set_user_status now u s d)
  | OpSetRole u r => settle d (set_user_role now u r d)
  | OpRevokeUserSessions u => settle d (revoke_user_sessions now u d)
  | OpIssueSession t u ttl => settle d (issue_session_for_user token_hash now t u ttl d)
  | OpAuthRenew t ttl => snd (auth_context_with_renewal token_hash now t ttl d)
  | OpVaultRenew h v ttl => snd (renew_session_for_vault now h v ttl d)
  | OpRevokeSession t => revoke_session token_hash now t d
  | OpRevokeAll => snd (revoke_all_sessions now d)
  | OpCreateVault u h v => settle d (create_vault_for_session now u h v d)
  | OpRenameVault u h id n => settle d (rename_vault_for_session now u h id n d)
  | OpBindKeyhash u h id k => settle d (bind_managed_keyhash_for_session now u h id k d)
  | OpDeleteVault u h id => settle d (delete_vault_for_session now u h id d)
  | OpMigrateVault u h s v => settle d (migrate_vault_for_session now u h s v d)
  | OpInvite u h v e => settle d (invite_collaborator_for_session now u h v e d)
  | OpRemove u h v s => settle d (remove_collaborator_for_session now u h v s d)
  | OpPushEmpty r h q oq => settle d (add_empty_revision_for_session now r h q oq d)
  | OpPushFile r h f q oq => settle d (add_file_revision_for_session now r h f q oq d)
  | OpRestore u h v uid dev l => settle d (restore_for_session notice_len now u h v uid dev l d)
  | OpPurge u h v => settle d (purge_for_session now u h v d)
  | OpPurgeDeletedHistory v => settle d (purge_deleted_history v d)
  end.

(** A new vault is empty and its random id is not one of the retired ids. *)
Definition new_vault_for (d : db) (v : Vault) : Prop :=
  ~ In (v_id v) (map rt_id (retired d)) /\ v_size v = 0.
Definition admissible (d : db) (o : op) : Prop :=
  match o with
  | OpCreateVault _ _ v | OpMigrateVault _ _ _ v => new_vault_for d v
  | _ => True
  end.

Inductive step (d : db) : db -> Prop :=
| step_exec now o : admissible d o -> step d (exec now o d).

Inductive reachable : db -> Prop :=
| reachable_init now email name hash u :
    new_initial_user parse_password_hash email name hash = Ok u -> reachable (initial_db now u)
| reachable_step d d' : reachable d -> step d d' -> reachable d'.

Lemma initial_db_ok now u : db_ok (initial_db now u).
Proof using.
  constructor; cbn.
  - constructor; cbn; [repeat constructor|naive_solver lia|apply NoDup_singleton|done|done].
  - constructor; cbn; [constructor|done|done].
  - constructor; cbn; [constructor|done..].
  - constructor; cbn; [constructor|done..].
  - intros v [].
  - done.
  - constructor; cbn; [constructor|done|done].
  - constructor; cbn; try done; constructor.
  - constructor; cbn; try done; constructor.
Qed.

Lemma settle_ok {A} d (r : result (A * db)) :
  db_ok d -> (forall a d', r = Ok (a, d') -> db_ok d') -> db_ok (settle d r).
Proof using. intros Hd H. destruct r as [[a d']|]; cbn; eauto. Qed.

Lemma exec_ok now o d : db_ok d -> admissible d o -> db_ok (exec now o d).
Proof using.
  intros Hd Ha. destruct o; cbn in *; try (apply settle_ok; [done|]; intros a d' E).
  - eapply create_user_ok; eauto.
  - eapply create_self_registered_user_ok; eauto.
  - eapply set_self_registration_enabled_ok; eauto.
  - eapply set_user_password_ok; eauto.
  - eapply set_user_email_ok; eauto.
  - eapply set_user_name_ok; eauto.
  - eapply set_user_status_ok; eauto.
  - eapply set_user_role_ok; eauto.
  - eapply revoke_user_sessions_ok; eauto.
  - eapply issue_session_for_user_ok; eauto.
  - apply auth_context_with_renewal_ok. done.
  - apply renew_session_for_vault_ok. done.
  - apply revoke_session_ok. done.
  - apply revoke_all_sessions_ok. done.
  - destruct Ha. eapply create_vault_ok; eauto.
  - eapply rename_vault_ok; eauto.
  - eapply bind_managed_keyhash_ok; eauto.
  - eapply delete_vault_ok; eauto.
  - destruct Ha. eapply migrate_vault_ok; eauto.
  - eapply invite_collaborator_ok; eauto.
  - eapply remove_collaborator_ok; eauto.
  - eapply add_empty_revision_ok; eauto.
  - eapply add_file_revision_ok; eauto.
  - eapply restore_ok; eauto.
  - eapply purge_ok; eauto.
  - eapply purge_deleted_history_ok; eauto.
Qed.

(** C1: every database that the server, its user-administration commands and the
    purge command can reach from an initialised one, by any sequence of operations at
    any times, satisfies the whole database
    invariant: unique increasing ids, no dangling reference, every revision's
    bytes stored exactly once with the declared length and piece count, every
    vault summary equal to its live heads, the runtime usage counter equal to
    the retained bytes, and the bounds on users, vaults, sessions, active
    collaborators, memberships and retired markers. *)
Theorem reachable_ok d : reachable d -> db_ok d.
Proof using.
  induction 1 as [now email name hash u _|d d' _ IH [now o Ha]]; [apply initial_db_ok|].
  apply exec_ok; done.
Qed.
End Machine.
