(* ===== verification/Scenario.v ===== *)
(** * A concrete run of the database machine

    The witnesses of the later files evaluate on these states: an instance of
    every parameter, a run of operations with two users, a shared vault, files,
    a folder and a deletion, and the proof that its states are reachable. *)

From Stdlib Require Import ZArith Lia List String Ascii Bool.
From stdpp Require Import base list strings.
From S2P Require Import Prelude Sql Model Store Auth Accounts Vaults Sharing Revisions Invariant Machine.

Local Open Scope Z_scope.

Definition demo_parse (encoded : string) : option PasswordHash :=
  if String.eqb encoded "$argon2id$demo" then
    Some {| ph_algorithm := "argon2id"; ph_version := Some 19;
            ph_params := [("m", Some 19456); ("t", Some 2); ("p", Some 1)]%string;
            ph_salt := Some "saltsaltsalt"%string; ph_hash_len := Some 32 |}
  else None.
Definition demo_token_hash (token : string) : string := token.
Definition demo_notice_len (_ : PushNotice) : Z := 512.

Fixpoint repeat_char (c : ascii) (n : nat) : string :=
  match n with O => EmptyString | S n => String c (repeat_char c n) end.
Definition token_a : string := repeat_char "a"%char 64.
Definition token_b : string := repeat_char "b"%char 64.

Definition demo_user : InitialUser :=
  {| iu_email_canonical := "ann@example.test"; iu_email := "Ann@Example.test"; iu_name := "Ann";
     iu_password_hash := "$argon2id$demo" |}.

Definition demo_vault (id : string) : Vault :=
  {| v_id := id; v_name := "Notes"; v_keyhash := Some "key"%string; v_salt := Some "salt"%string;
     v_host := "sync.example.test"; v_region := "Self-hosted"; v_encryption_version := 3; v_size := 0;
     v_created := 100; v_password := None |}.

Definition demo_revision (path : string) (folder deleted : bool) (size : Z) (user : Z) : NewRevision :=
  {| n_vault_id := "vault-1"; n_path := path; n_relatedpath := None; n_extension := "md"; n_hash := "hash";
     n_ctime := 1; n_mtime := 2; n_folder := folder; n_deleted := deleted; n_size := size;
     n_pieces := if size =? 0 then 0 else 1; n_device := "laptop"; n_user_id := user;
     n_expected_version := None |}.

Definition demo_bytes (n : nat) : blob := repeat Byte.x41 n.

(** Ann is signed in at time 1000, Bob at 1100; Bob collaborates on vault-1. *)
Definition demo_setup : list (Z * op) :=
  [ (900, OpCreateUser "bob@example.test" "Bob" "$argon2id$demo");
    (1000, OpIssueSession token_a 1 3600);
    (1100, OpIssueSession token_b 2 3600);
    (1200, OpCreateVault 1 token_a (demo_vault "vault-1"));
    (1300, OpInvite 1 token_a "vault-1" "BOB@example.test") ].

Definition demo_edits : list (Z * op) :=
  [ (1400, OpPushFile (demo_revision "a.md" false false 3 1) token_a (demo_bytes 3) 1000 1000);
    (1500, OpPushFile (demo_revision "b.md" false false 5 2) token_b (demo_bytes 5) 1000 1000);
    (1600, OpPushEmpty (demo_revision "dir" true false 0 1) token_a 1000 1000);
    (1700, OpPushEmpty (demo_revision "b.md" false true 0 1) token_a 1000 1000) ].

Definition run (ops : list (Z * op)) (d : db) : db :=
  fold_left (fun d '(now, o) => exec demo_parse demo_token_hash demo_notice_len now o d) ops d.

Definition demo_shared : db := run demo_setup (initial_db 500 demo_user).
Definition demo_db : db := run demo_edits demo_shared.
#[global] Strategy 1000 [run demo_shared demo_db].

(** [admissible], decided. *)
Definition admissibleb (d : db) (o : op) : bool :=
  match o with
  | OpCreateVault _ _ v | OpMigrateVault _ _ _ v =>
      negb (existsb (String.eqb (v_id v)) (map rt_id (retired d))) && (v_size v =? 0)
  | _ => true
  end.
Fixpoint run_admissible (ops : list (Z * op)) (d : db) : bool :=
  match ops with
  | [] => true
  | (now, o) :: ops => admissibleb d o && run_admissible ops (exec demo_parse demo_token_hash demo_notice_len now o d)
  end.

Lemma admissibleb_spec d o : admissibleb d o = true -> admissible d o.
Proof.
  assert (forall v, negb (existsb (String.eqb (v_id v)) (map rt_id (retired d))) && (v_size v =? 0) = true ->
                    new_vault_for d v) as H.
  { intros v H. breflect. split; [|done]. intros Hin.
    assert (existsb (String.eqb (v_id v)) (map rt_id (retired d)) = true); [|congruence].
    apply existsb_exists. exists (v_id v). split; [done|apply String.eqb_refl]. }
  destruct o; cbn; auto.
Qed.

Notation demo_reachable := (reachable demo_parse demo_token_hash demo_notice_len).

Lemma run_reachable ops d : demo_reachable d -> run_admissible ops d = true -> demo_reachable (run ops d).
Proof.
  revert d. induction ops as [|[now o] ops IH]; intros d Hd H; cbn in *; [done|]. breflect.
  apply IH; [|done]. eapply reachable_step; [exact Hd|]. constructor. apply admissibleb_spec. done.
Qed.

Lemma demo_init_reachable : demo_reachable (initial_db 500 demo_user).
Proof. apply (reachable_init _ _ _ 500 " Ann@Example.test " "Ann" "$argon2id$demo"). reflexivity. Qed.

Lemma demo_shared_reachable : demo_reachable demo_shared.
Proof. apply run_reachable; [apply demo_init_reachable|vm_compute; reflexivity]. Qed.

Lemma demo_db_reachable : demo_reachable demo_db.
Proof. apply run_reachable; [apply demo_shared_reachable|vm_compute; reflexivity]. Qed.

Lemma run_ok ops d : db_ok d -> run_admissible ops d = true -> db_ok (run ops d).
Proof.
  revert d. induction ops as [|[now o] ops IH]; intros d Hd H; cbn in *; [done|]. breflect.
  apply IH; [|done]. apply exec_ok; [done|]. apply admissibleb_spec. done.
Qed.

Lemma demo_shared_ok : db_ok demo_shared.
Proof. apply run_ok; [apply initial_db_ok|vm_compute; reflexivity]. Qed.

Lemma demo_db_ok : db_ok demo_db.
Proof. apply run_ok; [apply demo_shared_ok|vm_compute; reflexivity]. Qed.

(** Every operation of the run succeeded. *)
Example demo_db_contents :
  map (fun r : revision_row => (r_uid r, r_path r, r_size r)) (revisions demo_db)
    = [(1, "a.md", 3); (2, "b.md", 5); (3, "dir", 0); (4, "b.md", 0)]%string /\
  map (fun v : vault_row => (v_id v, v_size v, vr_version v)) (vaults demo_db) = [("vault-1"%string, 3, 4)] /\
  map m_user_id (memberships demo_db) = [2] /\ usage demo_db = 8.
Proof. vm_compute. repeat split. Qed.

(** C1 at the end of the run. *)
Lemma reachable_ok_witness : demo_reachable demo_db /\ db_ok demo_db.
Proof.
  split; [apply demo_db_reachable|].
  apply (reachable_ok demo_parse demo_token_hash demo_notice_len demo_db), demo_db_reachable.
Defined.
