(* ===== verification/AccountsSpec.v ===== *)
(** * Correctness of accounts and sessions *)

From Stdlib Require Import ZArith Lia List String Ascii Bool.
From stdpp Require Import base list strings.
From S2P Require Import Prelude Sql Model Store Auth Accounts Vaults Sharing Revisions Invariant Heads Preservation.
From S2P Require Import Machine Scenario.

Local Open Scope Z_scope.

(** ** Who leaves the user table alone *)
Lemma insert_vault_users d v d' : insert_vault d v = Ok d' -> users d' = users d.
Proof. unfold insert_vault. intros H. steps_in H. done. Qed.
Lemma insert_revision_users d mk u d' : insert_revision d mk = Ok (u, d') -> users d' = users d.
Proof. unfold insert_revision. intros H. destruct (next_rowid _ _); [|done]. cbn zeta in H. steps_in H. done. Qed.
Lemma insert_membership_users d mk u d' : insert_membership d mk = Ok (u, d') -> users d' = users d.
Proof. unfold insert_membership. intros H. destruct (next_rowid _ _); [|done]. cbn zeta in H. steps_in H. done. Qed.
Lemma insert_session_users d s d' : insert_session d s = Ok d' -> users d' = users d.
Proof. unfold insert_session. intros H. steps_in H. done. Qed.
Lemma write_content_users d u s b m d' : write_content d u s b m = Ok d' -> users d' = users d.
Proof. intros H. apply write_content_spec in H as (-> & _). done. Qed.
Lemma retire_users id now d d' : retire_vault_identity id now d = Ok d' -> users d' = users d.
Proof. unfold retire_vault_identity, replace_retired. intros H. steps_in H. done. Qed.

(** Rewrite the users of the database after each inner statement. *)
Ltac users_of :=
  repeat match goal with
  | H : insert_vault _ _ = Ok _ |- _ => apply insert_vault_users in H
  | H : insert_revision _ _ = Ok (_, _) |- _ => apply insert_revision_users in H
  | H : insert_membership _ _ = Ok (_, _) |- _ => apply insert_membership_users in H
  | H : insert_session _ _ = Ok _ |- _ => apply insert_session_users in H
  | H : write_content _ _ _ _ _ = Ok _ |- _ => apply write_content_users in H
  | H : retire_vault_identity _ _ _ = Ok _ |- _ => apply retire_users in H
  end; cbn in *; try congruence.

(** Operations that touch users. *)
Definition touches_users (o : op) : bool :=
  match o with
  | OpCreateUser _ _ _ | OpSelfRegister _ _ _ | OpSetPassword _ _ | OpSetEmail _ _ | OpSetName _ _
  | OpSetStatus _ _ | OpSetRole _ _ => true
  | _ => false
  end.

Lemma settle_users {A} d (r : result (A * db)) :
  (forall a d', r = Ok (a, d') -> users d' = users d) -> users (settle d r) = users d.
Proof. destruct r as [[a d']|]; cbn; eauto. Qed.

Section Frame.
Context (pp : string -> option PasswordHash) (th : string -> string) (nl : PushNotice -> Z).

Lemma restore_users now u h v uid dev gl ol r d d' :
  restore_internal nl now u h v uid dev gl ol d = Ok (r, d') -> users d' = users d.
Proof using.
  unfold restore_internal. intros H. step_in H. step_in H; [|simplify_eq; done].
  step_in H; [|simplify_eq; done]. step_in H. step_in H. destruct value1. step_in H.
  destruct (0 <? _); [|steps_in H; users_of].
  destruct (external_content _ _); [|destruct (rr_content _); [|done]]; steps_in H; users_of.
Qed.

Lemma exec_users now o d : touches_users o = false -> users (exec pp th nl now o d) = users d.
Proof using.
  destruct o; cbn; intros E; try done; try (apply settle_users; intros a d' H; cbn in H).
  - unfold set_self_registration_enabled in H. steps_in H. done.
  - unfold revoke_user_sessions in H. steps_in H. done.
  - unfold issue_session_for_user in H. repeat (step_in H; cbn beta zeta in H). users_of.
  - unfold auth_context_with_renewal, auth_context_hash_with_renewal. repeat case_match; simplify_eq; done.
  - unfold renew_session_for_vault. repeat case_match; simplify_eq; done.
  - unfold create_vault_for_session, create_vault_internal in H. steps_in H. users_of.
  - unfold rename_vault_for_session in H. steps_in H. done.
  - unfold bind_managed_keyhash_for_session in H. steps_in H; done.
  - unfold delete_vault_for_session, delete_vault_internal in H. steps_in H; users_of.
  - unfold migrate_vault_for_session, migrate_vault_internal in H. steps_in H; users_of.
  - unfold invite_collaborator_for_session in H. steps_in H; users_of.
  - unfold remove_collaborator_for_session in H. steps_in H; done.
  - unfold add_empty_revision_for_session, add_empty_revision_internal, add_revision in H. steps_in H. users_of.
  - unfold add_file_revision_for_session, add_file_revision_internal in H. steps_in H. users_of.
  - unfold restore_for_session in H. eapply restore_users; eauto.
  - unfold purge_for_session, purge_internal in H. steps_in H. done.
  - unfold purge_deleted_history in H. steps_in H. done.
Qed.
End Frame.

(** ** The last active administrator *)

(** An update of the row with one id changes a count by at most one. *)
Lemma count_by_id_le Q (g : user_row -> user_row) i us :
  increasing u_id us -> count Q us - 1 <= count Q (update (by_id i) g us).
Proof.
  intros Hinc. unfold increasing in Hinc. induction Hinc as [|u us H IH Hu]; [done|].
  unfold update. cbn [map]. fold (update (by_id i) g us).
  rewrite !count_cons. destruct (by_id i u) eqn:E.
  - unfold by_id in *. breflect. rewrite update_none.
    + destruct (Q u), (Q (g u)); lia.
    + intros w Hw. rewrite Forall_forall in Hu. apply list_elem_of_In, Hu in Hw. lia.
  - destruct (Q u); lia.
Qed.

(** An update of the row with one id that does not change the predicate on it
    keeps a count. *)
Lemma count_by_id_eq Q (g : user_row -> user_row) i us u :
  increasing u_id us -> query_row (by_id i) us = Some u -> Q (g u) = Q u ->
  count Q (update (by_id i) g us) = count Q us.
Proof.
  intros Hinc Hq HQ. apply query_row_some in Hq as [Hu Hi]. unfold by_id in Hi. apply count_update. intros w Hw Hwi.
  unfold by_id in Hwi. breflect. assert (w = u) as -> by (eapply (increasing_inj u_id us); eauto; congruence). done.
Qed.

Lemma insert_user_admins d ec e n ph ca ua id d' :
  insert_user d ec e n ph "active" "user" ca ua = Ok (id, d') -> active_admins d' = active_admins d.
Proof.
  unfold insert_user. intros H. step_in H. destruct (next_rowid _ _); [|done]. cbn zeta in H. simplify_eq.
  unfold active_admins. cbn. rewrite count_app. unfold count at 2, select. cbn. lia.
Qed.

Section Admins.
Context (pp : string -> option PasswordHash) (th : string -> string) (nl : PushNotice -> Z).

Lemma admins_update d P (g : user_row -> user_row) :
  (forall u, u_role (g u) = u_role u /\ u_status (g u) = u_status u) ->
  count is_active_admin (update P g (users d)) = count is_active_admin (users d).
Proof using.
  intros Hg. apply count_update. intros u _ _. unfold is_active_admin. destruct (Hg u) as [-> ->]. done.
Qed.

Lemma set_user_status_admins now u status r d d' :
  db_ok d -> set_user_status now u status d = Ok (r, d') -> 1 <= active_admins d -> 1 <= active_admins d'.
Proof using.
  intros Hd H Ha. pose proof (users_increasing _ _ (ok_users _ d Hd)) as Hinc.
  unfold set_user_status in H. steps_in H; unfold active_admins in *; cbn; breflect.
  - destruct (String.eqb (u_role u0) "admin") eqn:Er.
    + cbn in E2. breflect.
      pose proof (count_by_id_le is_active_admin (set_status "disabled" now) u _ Hinc). lia.
    + rewrite (count_by_id_eq is_active_admin _ u _ u0); auto. unfold is_active_admin. cbn. rewrite Er. done.
  - etransitivity; [exact Ha|].
    rewrite count_update_eq. apply count_mono. intros w Hw Hadm.
    destruct (by_id u w); [|done]. unfold is_active_admin in *. cbn. breflect.
    rewrite H, String.eqb_refl. done.
Qed.

Lemma set_user_role_admins now u role r d d' :
  db_ok d -> set_user_role now u role d = Ok (r, d') -> 1 <= active_admins d -> 1 <= active_admins d'.
Proof using.
  intros Hd H Ha. pose proof (users_increasing _ _ (ok_users _ d Hd)) as Hinc.
  unfold set_user_role in H. steps_in H. unfold active_admins in *; cbn; breflect.
  destruct (String.eqb (u_role u0) "admin" && String.eqb role "user" && String.eqb (u_status u0) "active") eqn:Eg.
  - cbn in E1. breflect. pose proof (count_by_id_le is_active_admin (set_role role now) u _ Hinc). lia.
  - destruct (String.eqb role "admin") eqn:Er.
    + etransitivity; [exact Ha|]. rewrite count_update_eq. apply count_mono. intros w Hw Hadm.
      destruct (by_id u w); [|done]. unfold is_active_admin in *. cbn. breflect. subst role.
      rewrite H0, String.eqb_refl. done.
    + cbn in E. breflect. subst role. rewrite (count_by_id_eq is_active_admin _ u _ u0); auto.
      unfold is_active_admin. cbn. rewrite String.eqb_refl, andb_true_r in Eg. symmetry. exact Eg.
Qed.

Lemma exec_admins now o d :
  db_ok d -> 1 <= active_admins d -> 1 <= active_admins (exec pp th nl now o d).
Proof using.
  intros Hd Ha. destruct (touches_users o) eqn:E.
  2: { unfold active_admins in *. rewrite exec_users by done. done. }
  destruct o; try done; cbn; (destruct (_ : result _) as [[r d']|] eqn:Er; cbn; [|done]).
  - unfold create_user in Er. repeat (step_in Er; cbn beta zeta in Er).
    erewrite insert_user_admins by exact Er. done.
  - unfold create_self_registered_user in Er. repeat (step_in Er; cbn beta zeta in Er); simplify_eq; auto.
    erewrite insert_user_admins by eassumption. done.
  - unfold set_user_password, update_user_and_revoke in Er. steps_in Er. unfold active_admins in *. cbn.
    rewrite admins_update; done.
  - unfold set_user_email, update_user_and_revoke in Er. steps_in Er. steps_in E1. unfold active_admins in *. cbn.
    rewrite admins_update; done.
  - unfold set_user_name in Er. steps_in Er. unfold active_admins in *. cbn. rewrite admins_update; done.
  - eapply set_user_status_admins; eauto.
  - eapply set_user_role_admins; eauto.
Qed.

(** C18: in every reachable state at least one active administrator exists: no
    sequence of status changes, role changes, registrations or other operations
    of a live database can lock every administrator out. *)
Theorem last_admin_survives d : reachable pp th nl d -> 1 <= active_admins d.
Proof using.
  intros Hr. assert (db_ok d /\ 1 <= active_admins d) as [_ H]; [|done].
  induction Hr as [now email name hash u _|d d' _ [IH1 IH2] [now o Ha]].
  - split; [apply initial_db_ok|]. done.
  - split; [apply exec_ok; done|apply exec_admins; done].
Qed.
End Admins.

Lemma last_admin_survives_witness : 1 <= active_admins demo_db.
Proof.
  apply (last_admin_survives demo_parse demo_token_hash demo_notice_len demo_db), demo_db_reachable.
Defined.

(** ** Session lookup *)
Lemma in_live_joined now hash d s u :
  In (s, u) (live_joined now hash d) <->
  In s (sessions d) /\ session_live now hash s = true /\ In u (users d) /\ u_id u = s_user_id s /\ u_status u = "active"%string.
Proof.
  unfold live_joined. rewrite in_flat_map. split.
  - intros (s0 & Hs & Hin). apply in_map_iff in Hin as (u0 & [= -> ->] & Hu).
    apply in_select in Hs as [Hs Hl]. apply in_select in Hu as [Hu H]. breflect. auto.
  - intros (Hs & Hl & Hu & Hid & Hst). exists s. split; [apply in_select; done|].
    apply in_map_iff. exists u. split; [done|]. apply in_select. split; [done|].
    rewrite Hid, Hst, Z.eqb_refl. done.
Qed.

(** The joined rows of one token hash are at most one. *)
Lemma live_joined_unique now hash d p q :
  db_ok d -> In p (live_joined now hash d) -> In q (live_joined now hash d) -> p = q.
Proof.
  intros Hd. destruct p as [s u], q as [s' u']. rewrite !in_live_joined.
  unfold session_live. intros (Hs & Hl & Hu & Hi & _) (Hs' & Hl' & Hu' & Hi' & _). breflect.
  assert (s = s') as <-.
  { eapply (nodup_map_inj s_token_hash); [apply (ok_sessions _ d Hd)|..]; auto. congruence. }
  f_equal. eapply (increasing_inj u_id); [apply (ok_users _ d Hd)|..]; auto. congruence.
Qed.

Lemma live_joined_head now hash d p :
  db_ok d -> In p (live_joined now hash d) -> head (live_joined now hash d) = Some p.
Proof.
  intros Hd Hp. destruct (live_joined now hash d) as [|q l] eqn:E; [done|]. cbn. f_equal.
  eapply (live_joined_unique now hash d); [done| |]; rewrite E; [left|]; done.
Qed.

Lemma auth_context_hash_spec now hash d c :
  db_ok d -> hex64 hash = true ->
  auth_context_hash now hash d = Some c <->
  exists s u, In (s, u) (live_joined now hash d) /\ c = context_of (s, u).
Proof.
  intros Hd Hh. unfold auth_context_hash. rewrite Hh. cbn. split.
  - destruct (live_joined now hash d) as [|[s u] l] eqn:E; [done|]. cbn. intros [= <-].
    exists s, u. split; [left; done|done].
  - intros (s & u & Hin & ->). rewrite (live_joined_head _ _ _ _ Hd Hin). done.
Qed.

(** ** Issue *)
Section Issue.
Context (th : string -> string).

Lemma issue_spec now token u ttl t d d' :
  issue_session_for_user th now token u ttl d = Ok (t, d') ->
  let row := {| s_token_hash := th token; s_user_id := u; s_created_at := now;
                s_expires_at := wrap64 (now + wrap64 (ttl * 1000)); s_revoked_at := None |} in
  let kept := delete_where (stale now) (sessions d) in
  t = token /\ d' = with_sessions d (kept ++ [row]) /\ user_active d u = true /\
  count_all kept < MAX_SESSIONS /\
  count (fun s => (s_user_id s =? u) && is_null (s_revoked_at s) && (now <? s_expires_at s)) kept
    < MAX_SESSIONS_PER_USER.
Proof using.
  unfold issue_session_for_user, insert_session. intros H. repeat (step_in H; cbn beta zeta in H).
  steps_in E2. breflect. simplify_eq. repeat split; try done.
Qed.

(** A freshly issued token authenticates as its user, and as nobody else, at
    every time before its expiry [now + ttl], and never afterwards. *)
Theorem issued_token_authenticates now token u ttl t d d' now' :
  db_ok d -> hex64 token = true -> hex64 (th token) = true ->
  0 <= now <= MAX_JS_SAFE_INTEGER -> 0 <= ttl <= MAX_JS_SAFE_INTEGER / 1000 ->
  issue_session_for_user th now token u ttl d = Ok (t, d') ->
  (now' < now + ttl * 1000 -> exists c, auth_context th now' t d' = Some c /\ ac_user_id c = u /\ ac_token_hash c = th token) /\
  (now + ttl * 1000 <= now' -> auth_context th now' t d' = None).
Proof using.
  intros Hd Ht Hh Hnow Httl H. pose proof (issue_session_for_user_ok th d Hd _ _ _ _ _ _ H) as Hd'.
  apply issue_spec in H as (-> & Ed' & Hact & _). cbn zeta in Ed'.
  assert (wrap64 (now + wrap64 (ttl * 1000)) = now + ttl * 1000) as Ew.
  { unfold MAX_JS_SAFE_INTEGER in *. assert (ttl <= 9007199254740) by (apply Httl).
    rewrite (wrap64_id (ttl * 1000)), wrap64_id; unfold i64_min, i64_max; lia. }
  rewrite Ew in Ed'. set (row := {| s_token_hash := th token |}) in Ed'.
  assert (In row (sessions d')) as Hrow by (subst d'; cbn; apply in_or_app; right; left; done).
  unfold auth_context. rewrite Ht. cbn [negb]. split; intros Hn.
  - unfold user_active in Hact. apply exists_row_spec in Hact as (w & Hw & Hw'). breflect.
    exists (context_of (row, w)). split; [|done].
    apply auth_context_hash_spec; [done|done|]. exists row, w. split; [|done].
    apply in_live_joined. unfold session_live. cbn. rewrite String.eqb_refl.
    repeat split; auto; [|subst d'; done]. rewrite (proj2 (Z.ltb_lt _ _)); done.
  - unfold auth_context_hash. rewrite Hh. cbn [negb]. destruct (live_joined now' (th token) d') as [|[s w] l] eqn:E; [done|].
    assert (In (s, w) (live_joined now' (th token) d')) as Hin by (rewrite E; left; done).
    apply in_live_joined in Hin as (Hs & Hl & _). unfold session_live in Hl. breflect.
    assert (s = row) as ->; [|cbn in *; lia].
    eapply (nodup_map_inj s_token_hash); [apply (ok_sessions _ _ Hd')|..]; auto.
Qed.
End Issue.

Lemma issued_token_authenticates_witness :
  exists d', issue_session_for_user demo_token_hash 2000 (repeat_char "c"%char 64) 2 60 demo_db
               = Ok (repeat_char "c"%char 64, d') /\
  (5000 < 2000 + 60 * 1000 ->
     exists c, auth_context demo_token_hash 5000 (repeat_char "c"%char 64) d' = Some c /\ ac_user_id c = 2
               /\ ac_token_hash c = repeat_char "c"%char 64) /\
  (2000 + 60 * 1000 <= 5000 -> auth_context demo_token_hash 5000 (repeat_char "c"%char 64) d' = None).
Proof.
  destruct (issue_session_for_user demo_token_hash 2000 (repeat_char "c"%char 64) 2 60 demo_db)
    as [[t d']|] eqn:E; [|vm_compute in E; discriminate].
  assert (t = repeat_char "c"%char 64) as -> by (apply issue_spec in E as (-> & _); reflexivity).
  exists d'. split; [reflexivity|].
  apply (issued_token_authenticates demo_token_hash 2000 (repeat_char "c"%char 64) 2 60 _ demo_db d' 5000);
    [apply demo_db_ok|reflexivity|reflexivity|vm_compute; split; discriminate|vm_compute; split; discriminate|exact E].
Defined.

(** Issuing a session keeps the session table within its bounds: at most
    [MAX_SESSIONS] rows, at most [MAX_SESSIONS_PER_USER] live sessions of the user,
    and no expired or revoked row survives. *)
Theorem issue_bounds th now token u ttl t d d' :
  issue_session_for_user th now token u ttl d = Ok (t, d') ->
  count_all (sessions d') <= MAX_SESSIONS /\
  count (fun s => (s_user_id s =? u) && negb (stale now s)) (sessions d') <= MAX_SESSIONS_PER_USER /\
  (forall s, In s (sessions d') -> s_token_hash s <> th token -> In s (sessions d) /\ stale now s = false).
Proof.
  intros H. apply issue_spec in H as (-> & -> & _ & Hall & Hu). cbn [sessions with_sessions]. repeat split.
  - unfold count_all in *. rewrite length_app. cbn. lia.
  - rewrite count_app. set (row := {| s_token_hash := _ |}).
    assert (count (fun s => (s_user_id s =? u) && negb (stale now s)) [row] <= 1) as Hone.
    { rewrite count_cons. destruct (_ && _); done. }
    rewrite (count_ext _ (fun s => (s_user_id s =? u) && is_null (s_revoked_at s) && (now <? s_expires_at s))); [lia|].
    intros s _. unfold stale. rewrite negb_orb, negb_involutive, Z.leb_antisym, negb_involutive, <- andb_assoc.
    f_equal. apply andb_comm.
  - apply in_app_or in H as [H|[<-|[]]]; [|done]. apply in_delete in H as [H _]. done.
  - apply in_app_or in H as [H|[<-|[]]]; [|done]. apply in_delete in H as [_ H]. done.
Qed.

Lemma issue_bounds_witness :
  exists d', issue_session_for_user demo_token_hash 2000 (repeat_char "c"%char 64) 2 60 demo_db
               = Ok (repeat_char "c"%char 64, d') /\ count_all (sessions d') <= MAX_SESSIONS.
Proof.
  destruct (issue_session_for_user demo_token_hash 2000 (repeat_char "c"%char 64) 2 60 demo_db)
    as [[t d']|] eqn:E; [|vm_compute in E; discriminate].
  assert (t = repeat_char "c"%char 64) as -> by (apply issue_spec in E as (-> & _); reflexivity).
  exists d'. split; [reflexivity|]. exact (proj1 (issue_bounds _ _ _ _ _ _ _ _ E)).
Defined.

(** ** Revocation *)

(** A user with no live session cannot be authenticated. *)
Lemma no_live_session d u :
  (forall s, In s (sessions d) -> s_user_id s = u -> s_revoked_at s <> None) ->
  forall now hash, (forall c, auth_context_hash now hash d = Some c -> ac_user_id c <> u) /\
                   authorize_account_mutation now (Some hash) u d
                     = Err (Bail "mutation authorization expired or was revoked").
Proof.
  intros Hrev now hash. split.
  - intros c. unfold auth_context_hash. destruct (negb _); [done|].
    destruct (live_joined now hash d) as [|[s w] l] eqn:E; [done|]. cbn. intros [= <-]. cbn.
    assert (In (s, w) (live_joined now hash d)) as Hin by (rewrite E; left; done).
    apply in_live_joined in Hin as (Hs & Hl & _ & -> & _). intros <-.
    unfold session_live in Hl. breflect. specialize (Hrev s Hs eq_refl). destruct (s_revoked_at s); done.
  - unfold authorize_account_mutation. rewrite (proj2 (exists_row_false _ _)); [done|].
    intros s Hs. destruct (Z.eqb_spec (s_user_id s) u) as [E|E]; [|rewrite andb_false_r; done].
    specialize (Hrev s Hs E). destruct (s_revoked_at s); [|done]. cbn. rewrite !andb_false_r. done.
Qed.

Lemma revoked_sessions_of now u d s :
  In s (sessions (revoke_sessions_of now u d)) -> s_user_id s = u -> s_revoked_at s <> None.
Proof.
  cbn. intros Hs Hu. apply in_update in Hs as (s0 & Hs0 & ->).
  destruct (live_session_of u s0) eqn:E; [done|]. unfold live_session_of in E.
  rewrite Hu, Z.eqb_refl in E. cbn in E. destruct (s_revoked_at s0); done.
Qed.

(** The operations that change what a user may do. *)
Inductive revoking (pp : string -> option PasswordHash) (now u : Z) (d : db) : db -> Prop :=
| rv_password h d' : set_user_password pp now u h d = Ok (tt, d') -> revoking pp now u d d'
| rv_email e d' : set_user_email now u e d = Ok (tt, d') -> revoking pp now u d d'
| rv_disable d' : set_user_status now u "disabled" d = Ok (tt, d') -> revoking pp now u d d'
| rv_role r d' : set_user_role now u r d = Ok (tt, d') -> revoking pp now u d d'
| rv_revoke n d' : revoke_user_sessions now u d = Ok (n, d') -> revoking pp now u d d'.

Lemma revoking_spec pp now u d d' :
  revoking pp now u d d' -> exists d0, d' = revoke_sessions_of now u d0.
Proof.
  intros [h d1 H|e d1 H|d1 H|r d1 H|n d1 H].
  - unfold set_user_password, update_user_and_revoke in H. steps_in H. eauto.
  - unfold set_user_email, update_user_and_revoke in H. steps_in H. eauto.
  - unfold set_user_status in H. cbn in H. steps_in H. eauto.
  - unfold set_user_role in H. steps_in H. eauto.
  - unfold revoke_user_sessions in H. steps_in H. eauto.
Qed.

(** A change of password, email, role or status to disabled, and an explicit
    revocation, end every session of the user at once: no token authenticates as
    the user any more, whatever the time, and no mutation is authorised. *)
Theorem credential_change_revokes pp now u d d' :
  revoking pp now u d d' ->
  forall now' hash, (forall c, auth_context_hash now' hash d' = Some c -> ac_user_id c <> u) /\
                    authorize_account_mutation now' (Some hash) u d'
                      = Err (Bail "mutation authorization expired or was revoked").
Proof.
  intros H. apply revoking_spec in H as (d0 & ->). apply no_live_session. apply revoked_sessions_of.
Qed.

Lemma credential_change_revokes_witness :
  auth_context_hash 2000 token_b demo_db <> None /\
  forall d', set_user_status 2000 2 "disabled" demo_db = Ok (tt, d') ->
  authorize_account_mutation 2001 (Some token_b) 2 d' = Err (Bail "mutation authorization expired or was revoked").
Proof.
  split; [vm_compute; discriminate|]. intros d' H.
  exact (proj2 (credential_change_revokes demo_parse 2000 2 demo_db d' (rv_disable _ _ _ _ _ H) 2001 token_b)).
Defined.

(** ** Renewal *)

(** [d'] differs from [d] only in that sessions selected by [live] expire at
    [expiry], which is not earlier than before. *)
Definition only_extends (live : session_row -> bool) (expiry : Z) (d d' : db) : Prop :=
  d' = with_sessions d (sessions d') /\
  exists renew, sessions d' = update renew (set_expiry expiry) (sessions d) /\
    forall s, In s (sessions d) -> renew s = true -> live s = true /\ s_expires_at s <= expiry.

Lemma only_extends_refl live expiry d : only_extends live expiry d d.
Proof.
  split; [destruct d; done|]. exists (fun _ => false). split; [|done]. rewrite update_none; done.
Qed.

Section Renewal.
Context (now ttl : Z).
Hypothesis Hnow : 0 <= now <= MAX_JS_SAFE_INTEGER.
Hypothesis Httl : 0 <= ttl <= MAX_JS_SAFE_INTEGER / 1000.

Lemma renewal_arith :
  renewal_threshold now ttl = now + ttl * 500 /\ renewed_expiry now ttl = now + ttl * 1000.
Proof using Hnow Httl.
  unfold renewal_threshold, renewed_expiry, saturating_add, saturating_mul.
  assert (ttl <= 9007199254740) by (apply Httl). unfold MAX_JS_SAFE_INTEGER in *.
  rewrite (sat64_id (ttl * 1000)) by (unfold i64_min, i64_max; lia).
  rewrite Z.quot_div_nonneg by lia.
  replace (ttl * 1000 / 2) with (ttl * 500) by (replace (ttl * 1000) with (ttl * 500 * 2) by lia; rewrite Z.div_mul; lia).
  rewrite !sat64_id; unfold i64_min, i64_max; lia.
Qed.

(** A session worth renewing stays live when its expiry is set. *)
Lemma renew_keeps_live hash s :
  session_live now hash s = true -> s_expires_at s <= renewal_threshold now ttl ->
  session_live now hash (set_expiry (renewed_expiry now ttl) s) = true /\
  s_expires_at s <= renewed_expiry now ttl.
Proof using Hnow Httl.
  destruct renewal_arith as [-> ->]. unfold session_live. cbn. intros H Hle. breflect.
  rewrite H, H0, String.eqb_refl. cbn. rewrite andb_true_r. split; [apply Z.ltb_lt|]; lia.
Qed.

(** Authenticating with renewal answers exactly what authenticating without
    renewal answers, and changes nothing but the expiry of the session that was
    presented while live; it never shortens a session, and never touches a
    revoked or expired one. *)
Theorem renewal_sound hash d :
  db_ok d ->
  let '((ctx, renewed), d') := auth_context_hash_with_renewal now hash ttl d in
  ctx = auth_context_hash now hash d /\
  only_extends (session_live now hash) (renewed_expiry now ttl) d d' /\
  (renewed = true -> exists s, In s (sessions d) /\ session_live now hash s = true
                               /\ s_expires_at s <= now + ttl * 500).
Proof using Hnow Httl.
  intros Hd. destruct (auth_context_hash_with_renewal now hash ttl d) as [[ctx renewed] d'] eqn:E.
  unfold auth_context_hash_with_renewal in E. destruct (negb (hex64 hash)) eqn:Hh.
  { simplify_eq. unfold auth_context_hash. rewrite Hh. split; [done|]. split; [apply only_extends_refl|done]. }
  apply negb_false_iff in Hh. destruct (head (live_joined now hash d)) as [[s u]|] eqn:Ehd.
  2: { simplify_eq. unfold auth_context_hash. rewrite Hh, Ehd. split; [done|]. split; [apply only_extends_refl|done]. }
  assert (auth_context_hash now hash d = Some (context_of (s, u))) as Hctx
    by (unfold auth_context_hash; rewrite Hh, Ehd; done).
  assert (In (s, u) (live_joined now hash d)) as Hin.
  { destruct (live_joined now hash d); [done|]. cbn in Ehd. simplify_eq. left. done. }
  destruct (renewal_threshold now ttl <? s_expires_at s) eqn:Eth.
  { simplify_eq. split; [done|]. split; [apply only_extends_refl|done]. }
  cbn zeta in E. set (renew := fun s0 => _ && _ && _) in E. injection E as Ectx Eren Ed'.
  assert (db_ok d') as Hd' by (rewrite <- Ed'; apply ok_update_sessions; done).
  pose proof Hin as Hin0. apply in_live_joined in Hin as (Hs & Hl & Hu & Hi & Hst). breflect.
  assert (renew s = true) as Hrs.
  { unfold renew. rewrite Hl. cbn. rewrite (proj2 (Z.leb_le _ _)) by lia. cbn.
    unfold user_active. apply exists_row_spec. exists u. split; [done|]. rewrite Hi, Hst, Z.eqb_refl. done. }
  split; [|split].
  - rewrite Hctx, <- Ectx, Ed'.
    rewrite (live_joined_head now hash d' (set_expiry (renewed_expiry now ttl) s, u) Hd'); [done|].
    apply in_live_joined. split.
    { rewrite <- Ed'. cbn. apply in_update. exists s. rewrite Hrs. done. }
    split; [apply renew_keeps_live; [done|lia]|]. rewrite <- Ed'. done.
  - split; [rewrite <- Ed'; done|]. exists renew. split; [rewrite <- Ed'; done|].
    intros x Hx Hrx. unfold renew in Hrx. breflect. split; [done|]. apply (renew_keeps_live hash); done.
  - intros _. destruct renewal_arith as [Ht _]. exists s. split; [done|]. split; [done|]. lia.
Qed.

(** Renewing the session behind an open vault connection succeeds exactly
    when that session is valid for the vault (live, active user, owner or active
    collaborator), and only ever extends that session. *)
Theorem vault_renewal_sound hash vault d :
  (is_Some (fst (renew_session_for_vault now hash vault ttl d)) <->
   valid_session_for_vault now hash vault d = true) /\
  only_extends (session_live now hash) (renewed_expiry now ttl) d
    (snd (renew_session_for_vault now hash vault ttl d)).
Proof using Hnow Httl.
  unfold renew_session_for_vault, valid_session_for_vault.
  destruct (negb (str_len hash =? 64) || is_empty vault).
  { split; [split; [intros []; done|done]|apply only_extends_refl]. }
  cbn zeta. set (authorized := fun s => user_active d (s_user_id s) && vault_reachable d vault (s_user_id s)).
  assert (exists_row (fun s => session_live now hash s && user_active d (s_user_id s)
            && vault_reachable d vault (s_user_id s)) (sessions d) = true <->
          exists s, In s (sessions d) /\ session_live now hash s && authorized s = true) as Hval.
  { rewrite exists_row_spec. unfold authorized. setoid_rewrite andb_assoc. done. }
  rewrite Hval. clear Hval. unfold authorized. clear authorized.
  destruct (query_row _ (sessions d)) as [s|] eqn:Eq.
  2: { split; [|apply only_extends_refl]. split; [intros []; done|]. intros (s & Hs & Ha).
       pose proof (proj1 (query_row_none _ _) Eq s Hs) as Hn. cbn beta in Hn. congruence. }
  apply query_row_some in Eq as [Hs Ha]. apply andb_true_iff in Ha as [Hl Hau].
  destruct (renewal_threshold now ttl <? s_expires_at s) eqn:Eth; cbn zeta.
  { split; [|apply only_extends_refl]. split; [intros _; exists s; rewrite Hl, Hau; done|done]. }
  cbn [fst snd sessions with_sessions]. set (renew := fun s0 => _ && _ && _). apply Z.ltb_ge in Eth.
  assert (renew s = true) as Hrs.
  { unfold renew. rewrite Hl, Hau. rewrite (proj2 (Z.leb_le _ _)) by lia. done. }
  split.
  - split; [intros _; exists s; split; [done|rewrite Hl, Hau; done]|]. intros _.
    destruct (query_row _ _) eqn:Eq; [eexists; done|]. exfalso.
    pose proof (proj1 (query_row_none _ _) Eq (set_expiry (renewed_expiry now ttl) s)) as Hn. cbn beta in Hn.
    destruct (renew_keeps_live hash s Hl ltac:(lia)) as [Hk _].
    cbn [s_user_id set_expiry] in Hn. rewrite Hk, Hau in Hn. discriminate Hn. apply in_update. exists s. rewrite Hrs. done.
  - split; [done|]. exists renew. split; [done|]. intros x Hx Hrx. unfold renew in Hrx. breflect.
    split; [done|]. apply (renew_keeps_live hash); done.
Qed.
End Renewal.

Lemma renewal_sound_witness :
  let '((ctx, renewed), d') := auth_context_hash_with_renewal 3000000 token_a 3600 demo_db in
  renewed = true /\ ctx = auth_context_hash 3000000 token_a demo_db.
Proof.
  pose proof (renewal_sound 3000000 3600 ltac:(vm_compute; split; discriminate)
    ltac:(vm_compute; split; discriminate) token_a demo_db demo_db_ok) as H.
  destruct (auth_context_hash_with_renewal 3000000 token_a 3600 demo_db) as [[ctx renewed] d'] eqn:E.
  split; [vm_compute in E; congruence|exact (proj1 H)].
Defined.

Lemma vault_renewal_sound_witness :
  valid_session_for_vault 3000000 token_b "vault-1" demo_db = true /\
  is_Some (fst (renew_session_for_vault 3000000 token_b "vault-1" 3600 demo_db)).
Proof.
  assert (valid_session_for_vault 3000000 token_b "vault-1" demo_db = true) as Hv by (vm_compute; reflexivity).
  split; [exact Hv|].
  exact (proj2 (proj1 (vault_renewal_sound 3000000 3600 ltac:(vm_compute; split; discriminate)
    ltac:(vm_compute; split; discriminate) token_b "vault-1" demo_db)) Hv).
Defined.

(** ** Self-registration *)
Lemma insert_user_spec d ec e n ph st ro ca ua id d' :
  insert_user d ec e n ph st ro ca ua = Ok (id, d') ->
  exists_row (fun u => String.eqb (u_email_canonical u) ec) (users d) = false /\
  users d' = users d ++ [{| u_id := id; u_email_canonical := ec; u_email := e; u_name := n;
                            u_password_hash := ph; u_status := st; u_created_at := ca;
                            u_updated_at := ua; u_role := ro |}] /\
  sessions d' = sessions d /\ settings d' = settings d /\ vaults d' = vaults d /\ memberships d' = memberships d.
Proof.
  unfold insert_user. intros H. step_in H. destruct (next_rowid _ _); [|done]. cbn zeta in H. simplify_eq.
  breflect. done.
Qed.

Lemma query_row_snoc_new {A} (P : A -> bool) t x :
  exists_row P t = false -> P x = true -> query_row P (t ++ [x]) = Some x.
Proof.
  intros H Hx. rewrite query_row_app, (proj2 (query_row_none _ _)) by (apply exists_row_false; done).
  unfold query_row, select. cbn. rewrite Hx. done.
Qed.

(** Self-registration creates at most one account, only while an administrator
    has it enabled, always an active ordinary user (never an administrator) without
    sessions, and the account can then be found by sign-in under any spelling that
    canonicalises to the same address; any other outcome leaves the database as it
    was. *)
Theorem self_registration_sound pp now email name hash r d d' :
  create_self_registered_user pp now email name hash d = Ok (r, d') ->
  match r with
  | RegCreated id =>
      self_registration_enabled d = true /\
      exists e u, canonicalize_email email = Ok e /\ users d' = users d ++ [u] /\
        u_id u = id /\ u_role u = "user"%string /\ u_status u = "active"%string /\
        sessions d' = sessions d /\ vaults d' = vaults d /\ memberships d' = memberships d /\
        settings d' = settings d /\
        signin_candidate (ce_canonical e) d' =
          Some {| uc_id := id; uc_email := ce_display e; uc_name := u_name u; uc_password_hash := hash;
                  uc_active := true; uc_role := "user" |}
  | RegDisabled => self_registration_enabled d = false /\ d' = d
  | RegUnavailable => self_registration_enabled d = true /\ d' = d
  end.
Proof.
  unfold create_self_registered_user, self_registration_enabled. intros H.
  repeat (step_in H; cbn beta zeta in H); simplify_eq; breflect; repeat split; auto using Z.eqb_eq, Z.eqb_neq.
  all: try (apply Z.eqb_neq; done); try (apply Z.eqb_eq; done).
  match goal with H : insert_user _ _ _ _ _ _ _ _ _ = _ |- _ => apply insert_user_spec in H as (Hn & Hu & Hs & Hst & Hv & Hm) end.
  eexists _, _. repeat split; [exact Hu|done..|]. unfold signin_candidate. rewrite Hu.
  rewrite query_row_snoc_new; [done|done|]. cbn. apply String.eqb_refl.
Qed.

Definition demo_open : db := settle demo_db (set_self_registration_enabled 1900 1 true demo_db).

Lemma self_registration_sound_witness :
  exists d', create_self_registered_user demo_parse 2000 "Eve@example.test" "Eve" "$argon2id$demo" demo_open
               = Ok (RegCreated 3, d') /\ self_registration_enabled demo_open = true.
Proof.
  destruct (create_self_registered_user demo_parse 2000 "Eve@example.test" "Eve" "$argon2id$demo" demo_open)
    as [[r d']|] eqn:E; [|vm_compute in E; discriminate].
  assert (r = RegCreated 3) as -> by (vm_compute in E; congruence).
  exists d'. split; [reflexivity|].
  exact (proj1 (self_registration_sound demo_parse 2000 _ _ _ (RegCreated 3) demo_open d' E)).
Defined.
