(* ===== verification/RevisionsSpec.v ===== *)
(** * Correctness of the revision log *)

From Stdlib Require Import ZArith Lia List String Ascii Bool Sorted.
From stdpp Require Import base list strings.
From S2P Require Import Prelude Sql Model Store Auth Accounts Vaults Sharing Revisions Invariant Heads Preservation.
From S2P Require Import Machine Scenario.

Local Open Scope Z_scope.

(** ** What a push does *)
Lemma find_revision_in d r : db_ok d -> In r (revisions d) -> find_revision d (r_uid r) = Some r.
Proof.
  intros Hd Hr. unfold find_revision. destruct (query_row _ _) as [r'|] eqn:E.
  - apply query_row_some in E as [Hr' E]. breflect. f_equal.
    eapply (increasing_inj ruid); [apply (ok_revs _ d Hd)|..]; auto.
  - pose proof (proj1 (query_row_none _ _) E r Hr) as Hn. cbn in Hn. rewrite Z.eqb_refl in Hn. done.
Qed.

(** The state after the statement sequence of a push: one row appended to the
    log, its bytes (if any) to the content table, the vault summary refreshed. *)
Definition pushed (d : db) (row : revision_row) (cs : list content_row) : db :=
  refresh_vault
    {| users := users d; seq_users := seq_users d; vaults := vaults d;
       revisions := revisions d ++ [row]; seq_revisions := r_uid row; contents := contents d ++ cs;
       sessions := sessions d; retired := retired d; memberships := memberships d;
       seq_memberships := seq_memberships d; settings := settings d; usage := usage d + r_size row |}
    (r_vault_id row) (r_uid row).

Definition new_row (now : Z) (r : NewRevision) (d : db) : revision_row :=
  {| rr_rev := revision_of r now (seq_revisions d + 1); rr_content := None |}.

(** The guards of every write. *)
Record push_guards (now : Z) (r : NewRevision) (th : option string) (q oq : Z) (d : db) : Prop := {
  pg_auth : authorize_mutation now th (n_user_id r) (n_vault_id r) d = Ok tt;
  pg_version : check_expected_version d r = Ok tt;
  pg_quota : enforce_storage_quotas d (n_vault_id r) (n_size r) q oq = Ok tt;
  pg_uid : seq_revisions d + 1 <= MAX_JS_SAFE_INTEGER;
}.

Lemma push_file_spec now r th file q oq rev d d' :
  db_ok d -> add_file_revision_internal now r th file q oq d = Ok (rev, d') ->
  push_guards now r th q oq d /\
  n_folder r = false /\ n_deleted r = false /\ 0 < n_size r <= SQLITE_MAX_LENGTH /\
  n_pieces r = pieces_shape (n_size r) /\ blob_len file = n_size r /\
  rev = new_row now r d /\
  d' = pushed d (new_row now r d) [{| rc_uid := seq_revisions d + 1; rc_content := file |}].
Proof.
  intros Hd H. pose proof (add_file_revision_ok _ _ _ _ _ _ _ _ _ Hd H) as Hd'.
  unfold add_file_revision_internal, uid_in_range in H.
  repeat (step_in H; cbn beta zeta in H). injection H as <- <-. breflect. steps_in E5. breflect.
  destruct (insert_revision_spec _ _ _ _ Hd E3) as (-> & _ & _ & E1').
  pose proof (write_content_spec _ _ _ _ _ _ E6) as (E2' & Hlen & Hmax). subst.
  destruct value, value0, value1. split; [constructor; done|]. do 2 (split; [done|]).
  split; [lia|]. split; [rewrite <- pieces_for_shape by lia; done|]. split; [done|].
  split; [|done]. unfold reread, ok_or in E7.
  match type of E7 with context [find_revision ?x _] => set (d1 := x) in * end.
  assert (find_revision d1 (seq_revisions d + 1) = Some (new_row now r d)) as Hf.
  { change (seq_revisions d + 1) with (r_uid (new_row now r d)). apply find_revision_in; [done|].
    cbn. apply in_or_app. right. left. done. }
  rewrite Hf in E7. injection E7 as <-. done.
Qed.

Lemma push_empty_spec now r th q oq rev d d' :
  db_ok d -> add_empty_revision_internal now r th q oq d = Ok (rev, d') ->
  push_guards now r th q oq d /\ n_size r = 0 /\ n_pieces r = 0 /\
  rev = new_row now r d /\ d' = pushed d (new_row now r d) [].
Proof.
  intros Hd H. pose proof (add_empty_revision_ok _ _ _ _ _ _ _ _ Hd H) as Hd'.
  unfold add_empty_revision_internal, add_revision, uid_in_range in H.
  repeat (step_in H; cbn beta zeta in H). injection H as <- <-. breflect. steps_in E5. breflect.
  destruct (insert_revision_spec _ _ _ _ Hd E3) as (-> & _ & _ & E1'). subst.
  destruct value, value0, value1. split; [constructor; done|]. do 2 (split; [done|]).
  split.
  - unfold reread, ok_or in E6. match type of E6 with context [find_revision ?x _] => set (d1 := x) in * end.
    assert (find_revision d1 (seq_revisions d + 1) = Some (new_row now r d)) as Hf.
    { change (seq_revisions d + 1) with (r_uid (new_row now r d)). apply find_revision_in; [done|].
      cbn. apply in_or_app. right. left. done. }
    rewrite Hf in E6. injection E6 as <-. done.
  - unfold pushed. rewrite app_nil_r. done.
Qed.

(** ** Pull *)

(** The bytes a revision row stands for. *)
Definition stored_bytes (d : db) (r : revision_row) : option blob :=
  match external_content d (r_uid r), rr_content r with
  | Some b, None | None, Some b => Some b
  | _, _ => None
  end.

Lemma stored_bytes_placed d r :
  db_ok d -> In r (revisions d) -> 0 < r_size r -> exists b, stored_bytes d r = Some b /\ blob_len b = r_size r.
Proof.
  intros Hd Hr Hpos. pose proof (contents_placed _ _ (ok_contents _ d Hd) r Hr) as Hp.
  unfold content_placed in Hp. unfold stored_bytes.
  change (external_content d (r_uid r)) with (content_of (contents d) (r_uid r)).
  destruct (rr_content r), (content_of (contents d) (r_uid r)); try lia; [eexists; split; [done|]; lia..].
Qed.

Lemma content_chunk_spec d r b off len :
  db_ok d -> In r (revisions d) -> stored_bytes d r = Some b -> blob_len b = r_size r -> r_size r <= i64_max ->
  0 <= off -> 0 <= len <= REVISION_PIECE_SIZE -> off + len <= r_size r ->
  content_chunk (r_uid r) off len d = Ok (take (Z.to_nat len) (drop (Z.to_nat off) b)).
Proof.
  intros Hd Hr Hb Hlen Hmax Hoff Hl Hend. unfold content_chunk.
  rewrite (proj2 (Z.ltb_ge off 0)), (proj2 (in_range_spec _ _ _)) by lia. cbn.
  rewrite (proj2 (Z.leb_le _ _)) by lia. rewrite find_revision_in by done.
  rewrite (proj2 (Z.leb_le _ _)) by lia. unfold stored_bytes in Hb.
  destruct (external_content d (r_uid r)), (rr_content r); try done; injection Hb as ->;
    rewrite (proj2 (Z.eqb_eq _ _)) by done; done.
Qed.

Lemma pull_frames_from d r b fuel off :
  db_ok d -> In r (revisions d) -> stored_bytes d r = Some b -> blob_len b = r_size r -> r_size r <= i64_max ->
  0 <= off <= r_size r -> (r_size r - off + (REVISION_PIECE_SIZE - 1)) / REVISION_PIECE_SIZE <= Z.of_nat fuel ->
  exists frames, pull_frames fuel (r_uid r) (r_size r) off d = Ok frames /\
    concat frames = drop (Z.to_nat off) b /\
    Z.of_nat (length frames) = (r_size r - off + (REVISION_PIECE_SIZE - 1)) / REVISION_PIECE_SIZE.
Proof.
  intros Hd Hr Hb Hlen Hmax. revert off. induction fuel as [|fuel IH]; intros off Hoff Hfuel.
  all: cbn [pull_frames]; destruct (Z.ltb_spec off (r_size r)) as [Hlt|Hge].
  all: unfold REVISION_PIECE_SIZE in *.
  2, 4: exists []; split; [done|]; split;
    [symmetry; apply drop_ge; unfold blob_len in Hlen; lia|];
    replace off with (r_size r) by lia; rewrite Z.sub_diag; done.
  - exfalso. assert (1 <= (r_size r - off + (2 * 1024 * 1024 - 1)) / (2 * 1024 * 1024)); [|lia].
    apply Z.div_le_lower_bound; lia.
  - set (len := Z.min (r_size r - off) (2 * 1024 * 1024)). cbn zeta.
    rewrite (content_chunk_spec d r b off len) by (auto; unfold REVISION_PIECE_SIZE; lia).
    destruct (IH (off + len)) as (frames & -> & Hc & Hn); [lia| |].
    + destruct (Z.le_gt_cases (r_size r - off) (2 * 1024 * 1024)).
      * replace (r_size r - (off + len)) with 0 by lia. rewrite Z.div_small; lia.
      * replace (r_size r - (off + len) + (2 * 1024 * 1024 - 1))
          with (r_size r - off + (2 * 1024 * 1024 - 1) + (-1) * (2 * 1024 * 1024)) by lia.
        rewrite Z.div_add by lia. lia.
    + eexists. split; [reflexivity|]. split.
      * cbn. rewrite Hc. rewrite <- (take_drop (Z.to_nat len) (drop (Z.to_nat off) b)) at 2.
        rewrite drop_drop. do 2 f_equal. lia.
      * cbn [length]. destruct (Z.le_gt_cases (r_size r - off) (2 * 1024 * 1024)).
        -- replace (r_size r - (off + len)) with 0 in Hn by lia. change ((0 + (2 * 1024 * 1024 - 1)) / (2 * 1024 * 1024)) with 0 in Hn.
           assert ((r_size r - off + (2 * 1024 * 1024 - 1)) / (2 * 1024 * 1024) = 1); [|lia].
           symmetry. apply (Z.div_unique _ _ _ (r_size r - off - 1)); lia.
        -- replace (r_size r - (off + len) + (2 * 1024 * 1024 - 1))
             with (r_size r - off + (2 * 1024 * 1024 - 1) + (-1) * (2 * 1024 * 1024)) in Hn by lia.
           rewrite Z.div_add in Hn by lia. lia.
Qed.

(** C39: a pull always terminates with exactly the declared number of frames, which
    concatenate to the stored bytes of the revision, for every non-empty revision of
    a consistent database. *)
Theorem pull_complete d (r : revision_row) :
  db_ok d -> In r (revisions d) -> 0 < r_size r <= i64_max ->
  exists b frames,
    stored_bytes d r = Some b /\ blob_len b = r_size r /\
    pull_frames (Z.to_nat (r_pieces r)) (r_uid r) (r_size r) 0 d = Ok frames /\
    concat frames = b /\ Z.of_nat (length frames) = r_pieces r.
Proof.
  intros Hd Hr Hsz. destruct (stored_bytes_placed d r Hd Hr ltac:(lia)) as (b & Hb & Hlen).
  destruct (revs_shape _ _ _ _ (ok_revs _ d Hd) r Hr) as (_ & Hp & _).
  unfold pieces_shape in Hp. rewrite (proj2 (Z.eqb_neq _ _)) in Hp by lia.
  destruct (pull_frames_from d r b (Z.to_nat (r_pieces r)) 0) as (frames & Hf & Hc & Hn); auto; try lia.
  - rewrite Z.sub_0_r, <- Hp. rewrite Z2Nat.id; [lia|]. rewrite Hp. apply Z.div_pos; unfold REVISION_PIECE_SIZE; lia.
  - exists b, frames. rewrite Z.sub_0_r, <- Hp in Hn. rewrite drop_0 in Hc. done.
Qed.

Lemma stored_bytes_pushed d (row : revision_row) file cs :
  ~ In (r_uid row) (map ruid (revisions d)) -> db_ok d -> rr_content row = None ->
  cs = [{| rc_uid := r_uid row; rc_content := file |}] ->
  stored_bytes (pushed d row cs) row = Some file.
Proof.
  intros Hfresh Hd Hin ->. unfold stored_bytes. rewrite Hin.
  change (external_content (pushed d row ?cs) (r_uid row)) with (content_of (contents d ++ cs) (r_uid row)).
  rewrite content_of_snoc, (content_of_fresh _ _ _ (ok_contents _ d Hd) Hfresh). cbn. rewrite Z.eqb_refl. done.
Qed.



Lemma pull_complete_witness :
  exists frames, pull_frames 1 2 5 0 demo_db = Ok frames /\ concat frames = demo_bytes 5.
Proof.
  destruct (find_revision demo_db 2) as [r|] eqn:E; [|vm_compute in E; discriminate].
  assert (In r (revisions demo_db)) as Hr by (exact (proj1 (query_row_some _ _ _ E))).
  assert (r_uid r = 2 /\ r_size r = 5 /\ r_pieces r = 1 /\ stored_bytes demo_db r = Some (demo_bytes 5)) as (E1 & E2 & E3 & E4)
    by (vm_compute in E; injection E as <-; vm_compute; repeat split).
  destruct (pull_complete demo_db r demo_db_ok Hr ltac:(rewrite E2; vm_compute; split; [reflexivity|discriminate]))
    as (b & frames & Hb & _ & Hf & Hc & _).
  exists frames. rewrite E1, E2, E3 in Hf. split; [exact Hf|]. rewrite Hc. rewrite E4 in Hb. congruence.
Defined.

(** ** Every accepted write *)

(** An accepted push: metadata only, or with the staged bytes. *)
Definition accepted (now : Z) (r : NewRevision) (th : option string) (q oq : Z) (d : db) (rev : Revision) (d' : db) : Prop :=
  add_empty_revision_internal now r th q oq d = Ok (rev, d') \/
  exists file, add_file_revision_internal now r th file q oq d = Ok (rev, d').

Lemma accepted_spec now r th q oq d rev d' :
  db_ok d -> accepted now r th q oq d rev d' ->
  db_ok d' /\ push_guards now r th q oq d /\ 0 <= n_size r /\ rev = new_row now r d /\
  exists cs, d' = pushed d (new_row now r d) cs.
Proof.
  intros Hd [H|[file H]].
  - pose proof (add_empty_revision_ok _ _ _ _ _ _ _ _ Hd H) as Hd'.
    apply push_empty_spec in H as (? & ? & _ & ? & ?); [|done]. split_and!; eauto; lia.
  - pose proof (add_file_revision_ok _ _ _ _ _ _ _ _ _ Hd H) as Hd'.
    apply push_file_spec in H as (? & _ & _ & ? & _ & _ & ? & ?); [|done]. split_and!; eauto; lia.
Qed.

Lemma authorized_vault now th u vault d :
  authorize_mutation now th u vault d = Ok tt -> exists v, find_vault_row d vault = Some v.
Proof.
  unfold authorize_mutation, vault_access. intros H. step_in H.
  destruct (find_vault_row d vault) as [v|]; [eauto|done].
Qed.

Lemma find_refresh d id version id' :
  find_vault_row (refresh_vault d id version) id' =
  option_map (fun v : vault_row => if String.eqb (v_id v) id then set_size_version (vault_size d id) version v else v)
    (find_vault_row d id').
Proof.
  unfold find_vault_row, refresh_vault, query_row. cbn [vaults with_vaults].
  rewrite select_update by done. unfold update. destruct (select _ (vaults d)); done.
Qed.

Lemma current_version_refresh d id version id' v :
  find_vault_row d id = Some v ->
  current_version id' (refresh_vault d id version) = if String.eqb id' id then version else current_version id' d.
Proof.
  intros Hv. unfold current_version. rewrite find_refresh.
  destruct (String.eqb_spec id' id) as [->|Hne].
  - rewrite Hv. apply find_vault_row_in in Hv as [_ <-]. cbn. rewrite String.eqb_refl. done.
  - destruct (find_vault_row d id') as [w|] eqn:Ew; [|done]. apply find_vault_row_in in Ew as [_ <-]. cbn.
    rewrite (proj2 (String.eqb_neq _ _)) by done. done.
Qed.

(** An accepted push appends exactly one revision, under a uid larger than every
    uid ever used, to the log; the vault's version becomes that uid, every other
    vault's version and every other table but the content table is unchanged, and
    the caller gets the stored row back. *)
Theorem push_appends now r th q oq d rev d' :
  db_ok d -> accepted now r th q oq d rev d' ->
  revisions d' = revisions d ++ [{| rr_rev := rev; rr_content := None |}] /\
  rev = revision_of r now (seq_revisions d + 1) /\
  (forall x, In x (revisions d) -> r_uid x < r_uid rev) /\
  (forall id, current_version id d' = if String.eqb id (n_vault_id r) then r_uid rev else current_version id d) /\
  find_revision d' (r_uid rev) = Some {| rr_rev := rev; rr_content := None |} /\
  users d' = users d /\ sessions d' = sessions d /\ memberships d' = memberships d /\
  retired d' = retired d /\ owners (vaults d') = owners (vaults d).
Proof.
  intros Hd H. apply accepted_spec in H as (Hd' & [Hauth _ _ _] & _ & -> & cs & Ed'); [|done].
  split; [rewrite Ed'; done|]. split; [done|]. split; [|split; [|split; [|rewrite Ed'; repeat split]]].
  - intros x Hx. cbn. pose proof (revs_bounds _ _ _ _ (ok_revs _ d Hd) x Hx). lia.
  - intros id. apply authorized_vault in Hauth as (v & Hv). rewrite Ed'. unfold pushed.
    erewrite current_version_refresh; [done|]. exact Hv.
  - apply (find_revision_in d' (new_row now r d)); [done|]. rewrite Ed'. cbn. apply in_or_app. right. left. done.
  - unfold pushed. rewrite owners_refresh. done.
Qed.

Definition demo_push_result := add_file_revision_internal 2000 (demo_revision "c.md" false false 7 1) (Some token_a) (demo_bytes 7) 1000 1000 demo_db.

Lemma push_appends_witness :
  exists rev d', demo_push_result = Ok (rev, d') /\ rev = revision_of (demo_revision "c.md" false false 7 1) 2000 5.
Proof.
  destruct demo_push_result as [[rev d']|] eqn:E; [|vm_compute in E; discriminate].
  exists rev, d'. split; [reflexivity|].
  assert (accepted 2000 (demo_revision "c.md" false false 7 1) (Some token_a) 1000 1000 demo_db rev d') as H
    by (right; exists (demo_bytes 7); exact E).
  exact (proj1 (proj2 (push_appends _ _ _ _ _ _ _ _ demo_db_ok H))).
Defined.


Definition expecting (e : Z) (r : NewRevision) : NewRevision :=
  {| n_vault_id := n_vault_id r; n_path := n_path r; n_relatedpath := n_relatedpath r;
     n_extension := n_extension r; n_hash := n_hash r; n_ctime := n_ctime r; n_mtime := n_mtime r;
     n_folder := n_folder r; n_deleted := n_deleted r; n_size := n_size r; n_pieces := n_pieces r;
     n_device := n_device r; n_user_id := n_user_id r; n_expected_version := Some e |}.


(** ** Quotas *)
Lemma enforce_quota_spec d vault n q oq :
  enforce_storage_quotas d vault n q oq = Ok tt -> 0 < n ->
  exists v, find_vault_row d vault = Some v /\
    usage d + n <= q /\ owner_stored_ciphertext_size d (vr_owner_user_id v) + n <= oq.
Proof.
  unfold enforce_storage_quotas, vault_owner_user_id, stored_ciphertext_size. intros H Hn.
  step_in H. destruct (find_vault_row d vault) as [v|]; [|done]. cbn [option_map] in H.
  rewrite (proj2 (Z.eqb_neq n 0)) in H by lia. steps_in H. breflect. exists v. split_and!; [done|lia..].
Qed.

Lemma owner_size_refresh d id version u :
  owner_stored_ciphertext_size (refresh_vault d id version) u = owner_stored_ciphertext_size d u.
Proof.
  unfold owner_stored_ciphertext_size. apply sum_of_ext. intros r _. f_equal. cbn [vaults refresh_vault with_vaults].
  apply count_update. done.
Qed.

Lemma count_vault_owner d (v : vault_row) :
  NoDup (vault_ids d) -> In v (vaults d) ->
  count (fun w : vault_row => String.eqb (v_id w) (v_id v) && (vr_owner_user_id w =? vr_owner_user_id v)) (vaults d) = 1.
Proof.
  intros Hnd Hv. apply (count_one vid _ _ v Hnd Hv).
  - rewrite String.eqb_refl, Z.eqb_refl. done.
  - intros w _ Hw. breflect. done.
Qed.

(** C16: quotas are never exceeded by a write: after an accepted push of a non-empty
    revision the bytes retained by the whole server are at most the global limit and
    those of the vault's owner at most the owner's limit, where the retained bytes
    are the true sum over all stored revisions (the running counter never drifts). *)
Theorem push_within_quota now r th q oq d rev d' :
  db_ok d -> accepted now r th q oq d rev d' -> 0 < n_size r ->
  usage d' = total_size (revisions d') /\ 0 <= usage d' <= q /\
  exists owner, vault_owner_user_id (n_vault_id r) d' = Some owner /\
    owner_stored_ciphertext_size d' owner <= oq.
Proof.
  intros Hd H Hpos. apply accepted_spec in H as (Hd' & [_ _ Hq _] & _ & -> & cs & Ed'); [|done].
  apply enforce_quota_spec in Hq as (v & Hv & Hg & Ho); [|done].
  pose proof (ok_usage _ d' Hd') as Hus. split; [done|]. split.
  { split.
    - rewrite Hus. apply sum_of_nonneg. intros x Hx. apply (revs_shape _ _ _ _ (ok_revs _ d' Hd') x Hx).
    - rewrite Ed'. cbn. lia. }
  exists (vr_owner_user_id v). split.
  - rewrite Ed'. unfold pushed, vault_owner_user_id. rewrite find_refresh.
    change (find_vault_row {| users := _ |} (n_vault_id r)) with (find_vault_row d (n_vault_id r)).
    rewrite Hv. cbn. destruct (String.eqb _ _); done.
  - rewrite Ed'. unfold pushed. rewrite owner_size_refresh.
    unfold owner_stored_ciphertext_size in *. cbn [revisions vaults]. rewrite sum_of_app. unfold sum_of at 2. cbn.
    apply find_vault_row_in in Hv as [Hv <-].
    rewrite count_vault_owner; [lia|apply (ok_vaults _ d Hd)|done].
Qed.

Lemma push_within_quota_witness :
  exists rev d', demo_push_result = Ok (rev, d') /\ usage d' <= 1000.
Proof.
  destruct demo_push_result as [[rev d']|] eqn:E; [|vm_compute in E; discriminate].
  exists rev, d'. split; [reflexivity|].
  assert (accepted 2000 (demo_revision "c.md" false false 7 1) (Some token_a) 1000 1000 demo_db rev d') as H
    by (right; exists (demo_bytes 7); exact E).
  exact (proj2 (proj1 (proj2 (push_within_quota _ _ _ _ _ _ _ _ demo_db_ok H eq_refl)))).
Defined.

(** ** Restore *)
Lemma order_by_desc_head (t : list revision_row) x :
  head (order_by (desc by_uid) t) = Some x -> In x t /\ forall y, In y t -> r_uid y <= r_uid x.
Proof.
  intros H. destruct (order_by (desc by_uid) t) as [|z l] eqn:E; [done|]. cbn in H. injection H as ->.
  split; [apply (in_order_by (desc by_uid)); rewrite E; left; done|].
  intros y Hy. apply (in_order_by (desc by_uid)) in Hy. rewrite E in Hy. destruct Hy as [<-|Hy]; [lia|].
  pose proof (order_by_sorted (desc by_uid) (desc_total by_uid) t) as Hs. rewrite E in Hs.
  apply Sorted_StronglySorted in Hs.
  - inversion Hs as [|? ? _ Hf]; subst. rewrite Forall_forall in Hf.
    apply list_elem_of_In in Hy. apply Hf in Hy. unfold desc, by_uid in Hy. breflect. lia.
  - intros a b c. unfold desc. intros. breflect. apply Z.leb_le. lia.
Qed.

(** The row a restore copies: the target itself when it is live, else the newest
    live revision of the same path before it. *)
Definition restorable (d : db) (vault : string) (target source : revision_row) : Prop :=
  In source (revisions d) /\ r_vault_id source = vault /\ r_path source = r_path target /\ r_deleted source = false /\
  r_uid source <= r_uid target /\
  forall r, In r (revisions d) -> r_vault_id r = vault -> r_path r = r_path target -> r_deleted r = false ->
    r_uid r < r_uid target -> r_deleted target = true -> r_uid r <= r_uid source.

Lemma restore_source_spec d vault target source :
  In target (revisions d) -> r_vault_id target = vault ->
  restore_source d vault target = Some source -> restorable d vault target source.
Proof.
  intros Ht Hv. unfold restore_source, restorable. destruct (r_deleted target) eqn:E.
  - intros H. apply order_by_desc_head in H as [Hin Hmax]. apply in_select in Hin as [Hin Hp].
    unfold in_vault in Hp. breflect. split_and!; try done; [lia|].
    intros r Hr Hrv Hrp Hrd Hle _. apply Hmax. apply in_select. split; [done|].
    unfold in_vault. rewrite Hrv, Hrp, Hrd, !String.eqb_refl. cbn. rewrite andb_true_r. apply Z.ltb_lt. done.
  - intros [= <-]. split_and!; done.
Qed.

(** The successful restore appends a live copy of the source's bytes under the
    target's path. *)
Lemma restore_spec notice_len now user_id th vault uid device gl ol rev d d' :
  db_ok d -> restore_internal notice_len now user_id th vault uid device gl ol d = Ok (Some rev, d') ->
  exists target source cs,
    In target (revisions d) /\ r_uid target = uid /\ r_vault_id target = vault /\
    restorable d vault target source /\
    authorize_mutation now th user_id vault d = Ok tt /\
    enforce_storage_quotas d vault (r_size source) gl ol = Ok tt /\
    rev = restored_row source (r_path target) device user_id now (seq_revisions d + 1) /\
    d' = pushed d (restored_row source (r_path target) device user_id now (seq_revisions d + 1)) cs /\
    (r_size source = 0 /\ cs = [] \/
     0 < r_size source /\ exists b, stored_bytes d source = Some b /\
       cs = [{| rc_uid := seq_revisions d + 1; rc_content := b |}]).
Proof.
  intros Hd H. pose proof (restore_ok _ _ _ _ _ _ _ _ _ _ _ _ Hd H) as Hd'.
  unfold restore_internal, uid_in_range in H. step_in H. step_in H. rename r into target.
  step_in H. rename r into source. step_in H. step_in H. destruct value1 as [new_uid d1]. step_in H.
  apply query_row_some in E0 as [Ht Hv]. unfold in_vault in Hv. breflect.
  pose proof (restore_source_spec _ _ _ _ Ht H1 E1) as Hsrc.
  destruct (insert_revision_spec _ _ _ _ Hd E3) as (-> & _ & _ & E1').
  set (row := restored_row source (r_path target) device user_id now (seq_revisions d + 1)) in *.
  assert (forall d2, reread d2 (seq_revisions d + 1) = Ok rev -> db_ok (refresh_vault d2 vault (seq_revisions d + 1)) ->
            In row (revisions d2) -> rev = row) as Hrev.
  { intros d2 Hre Hok Hin. unfold reread, ok_or in Hre.
    change (find_revision d2 ?u) with (find_revision (refresh_vault d2 vault (seq_revisions d + 1)) u) in Hre.
    change (seq_revisions d + 1) with (r_uid row) in Hre at 2.
    rewrite (find_revision_in _ row Hok Hin) in Hre. injection Hre as <-. done. }
  exists target, source. destruct value, value0.
  destruct (0 <? r_size source) eqn:Epos; breflect.
  - destruct (stored_bytes_placed d source Hd ltac:(apply Hsrc) Epos) as (b & Hb & Hlen).
    exists [{| rc_uid := seq_revisions d + 1; rc_content := b |}].
    destruct (match external_content d (r_uid source) with Some b => _ | None => _ end) as [d2|] eqn:Ew; [|done].
    assert (d2 = with_contents d1 (contents d1 ++ [{| rc_uid := seq_revisions d + 1; rc_content := b |}])) as Ed2.
    { unfold stored_bytes in Hb. destruct (external_content d (r_uid source)), (rr_content source);
        simplify_eq; apply write_content_spec in Ew as (-> & _); done. }
    step_in H. step_in H. injection H as <- <-.
    assert (value = row) as -> by (apply (Hrev d2); [done|done|rewrite Ed2, E1'; cbn; apply in_or_app; right; left; done]).
    split_and!; try done; [|right; eauto]. rewrite Ed2, E1'. unfold pushed. cbn.
    destruct Hsrc as (_ & -> & _). done.
  - pose proof (revs_shape _ _ _ _ (ok_revs _ d Hd) source ltac:(apply Hsrc)) as (Hz & _).
    exists []. step_in H. step_in H. injection H as <- <-.
    assert (value = row) as -> by (apply (Hrev d1); [done|done|rewrite E1'; cbn; apply in_or_app; right; left; done]).
    split_and!; try done; [|left; split; [lia|done]]. rewrite E1'. unfold pushed. rewrite app_nil_r. cbn.
    destruct Hsrc as (_ & -> & _). done.
Qed.

(** Restore is undo by appending: it never changes an existing revision; when it
    answers with a revision, that revision is the new live head of the target's path
    and carries the bytes, hash, size and kind of the target, or of the newest live
    revision before it when the target is a deletion; when it answers with nothing,
    nothing changed. *)
Theorem restore_live_copy notice_len now user_id th vault uid device gl ol res d d' :
  db_ok d -> restore_internal notice_len now user_id th vault uid device gl ol d = Ok (res, d') ->
  match res with
  | None => d' = d
  | Some rev =>
      exists target source,
        In target (revisions d) /\ r_uid target = uid /\ r_vault_id target = vault /\
        restorable d vault target source /\
        revisions d' = revisions d ++ [{| rr_rev := rev; rr_content := None |}] /\
        r_path rev = r_path target /\ r_deleted rev = false /\ r_vault_id rev = vault /\
        r_size rev = r_size source /\ r_hash rev = r_hash source /\ r_folder rev = r_folder source /\
        (forall x, In x (revisions d) -> r_uid x < r_uid rev) /\
        current_version vault d' = r_uid rev /\
        (0 < r_size source -> stored_bytes d' {| rr_rev := rev; rr_content := None |} = stored_bytes d source)
  end.
Proof.
  intros Hd H. destruct res as [rev|].
  2: { unfold restore_internal in H. step_in H. step_in H; [|simplify_eq; done]. step_in H; [|simplify_eq; done].
       steps_in H. }
  apply restore_spec in H as (target & source & cs & Ht & Hu & Hv & Hsrc & Hauth & _ & -> & Ed' & Hcs); [|done].
  exists target, source. pose proof Hsrc as (Hin & Hsv & _).
  split_and!; try done.
  - rewrite Ed'. done.
  - intros x Hx. pose proof (revs_bounds _ _ _ _ (ok_revs _ d Hd) x Hx). cbn. lia.
  - apply authorized_vault in Hauth as (v & Hfv). rewrite Ed'. unfold pushed. cbn [r_vault_id rr_rev restored_row].
    rewrite Hsv. erewrite current_version_refresh; [|exact Hfv]. rewrite String.eqb_refl. done.
  - intros Hpos. destruct Hcs as [[? _]|(_ & b & -> & Ecs)]; [lia|]. rewrite Ed'.
    apply (stored_bytes_pushed d (restored_row source (r_path target) device user_id now (seq_revisions d + 1)) b);
      [|done..]. apply fresh_uid; done.
Qed.

Lemma restore_live_copy_witness :
  exists rev d', restore_internal demo_notice_len 2000 2 (Some token_b) "vault-1" 4 "phone" 1000 1000 demo_db
                   = Ok (Some rev, d') /\
  exists target source : revision_row, r_uid target = 4 /\ r_path rev = r_path target /\ r_size rev = r_size source.
Proof.
  destruct (restore_internal demo_notice_len 2000 2 (Some token_b) "vault-1" 4 "phone" 1000 1000 demo_db)
    as [[[rev|] d']|] eqn:E; [|vm_compute in E; discriminate..].
  exists rev, d'. split; [reflexivity|].
  destruct (restore_live_copy _ _ _ _ _ _ _ _ _ (Some rev) _ _ demo_db_ok E)
    as (t & s & _ & Hu & _ & _ & _ & Hp & _ & _ & Hz & _).
  exists t, s. split; [exact Hu|]. split; [exact Hp|exact Hz].
Defined.

(** ** Purge *)

(** Deleting revisions leaves the bytes of the others alone. *)
Lemma kept_bytes d P (r : revision_row) :
  increasing ruid (revisions d) -> In r (revisions d) -> P r = false ->
  stored_bytes (delete_revisions d P) r = stored_bytes d r.
Proof.
  intros Hinc Hr HP. unfold stored_bytes.
  change (external_content (delete_revisions d P) (r_uid r)) with (content_of (contents (delete_revisions d P)) (r_uid r)).
  change (external_content d (r_uid r)) with (content_of (contents d) (r_uid r)).
  cbn [contents delete_revisions]. rewrite content_of_delete; [done|]. intros c _ ->.
  apply exists_row_false. intros x Hx. apply in_select in Hx as [Hx HPx]. apply Z.eqb_neq. intros Eu.
  assert (x = r) as -> by (eapply (increasing_inj ruid); eauto). congruence.
Qed.

(** Purge forgets history and nothing else: afterwards the vault keeps exactly
    the newest revision of every path, other vaults keep all of theirs; version, live
    size and the bytes of every kept revision are unchanged, and the released bytes
    leave the usage counter. *)
Theorem purge_keeps_heads now user_id th vault d d' :
  db_ok d -> purge_internal now user_id th vault d = Ok (tt, d') ->
  (forall r, In r (revisions d') <->
     In r (revisions d) /\ (r_vault_id r = vault -> is_head (select (in_vault vault) (revisions d)) r)) /\
  (forall id, current_version id d' = current_version id d /\ vault_size d' id = vault_size d id) /\
  (forall r, In r (revisions d') -> stored_bytes d' r = stored_bytes d r) /\
  usage d' = total_size (revisions d').
Proof.
  intros Hd H. pose proof (purge_ok _ _ _ _ _ _ _ Hd H) as Hd'.
  pose proof (revs_increasing _ _ _ _ (ok_revs _ d Hd)) as Hinc.
  unfold purge_internal in H. revert Hd'. steps_in H. intros Hd'.
  set (P := fun r : revision_row => in_vault vault r && negb (in_list (r_uid r) (head_uids (revisions d) vault))) in *.
  assert (find_vault_row d vault = Some v) as Hv by exact E0.
  assert (forall r, In r (revisions d) -> P r = false <-> (r_vault_id r = vault -> is_head (select (in_vault vault) (revisions d)) r)) as HP.
  { intros r Hr. unfold P, in_vault at 1. destruct (String.eqb_spec (r_vault_id r) vault) as [Ev|Ev]; cbn; [|naive_solver].
    rewrite negb_false_iff, in_head_uids by done. naive_solver. }
  cbn [revisions refresh_vault with_vaults delete_revisions].
  split; [|split; [|split]].
  - intros r. rewrite in_delete. split; intros [Hr Hp]; (split; [done|]); apply HP; done.
  - intros id. split.
    + erewrite current_version_refresh; [|exact Hv]. destruct (String.eqb_spec id vault) as [->|]; [|done].
      unfold current_version. rewrite Hv. done.
    + unfold vault_size. cbn [revisions refresh_vault with_vaults delete_revisions].
      destruct (String.eqb_spec id vault) as [->|Hne].
      * apply live_size_drop; [done|]. intros r Hr Hp. unfold P in Hp. breflect. done.
      * apply live_size_cong; [apply increasing_select; done|done|]. apply select_delete_none.
        intros r _ Hr. unfold P, in_vault in *. breflect. rewrite (proj2 (String.eqb_neq _ _)); [done|congruence].
  - intros r Hr. apply in_delete in Hr as [Hr HPr]. exact (kept_bytes d P r Hinc Hr HPr).
  - apply Hd'.
Qed.

Lemma purge_keeps_heads_witness :
  exists d', purge_internal 2000 1 (Some token_a) "vault-1" demo_db = Ok (tt, d') /\ usage d' = total_size (revisions d').
Proof.
  destruct (purge_internal 2000 1 (Some token_a) "vault-1" demo_db) as [[[] d']|] eqn:E; [|vm_compute in E; discriminate].
  exists d'. split; [reflexivity|].
  exact (proj2 (proj2 (proj2 (purge_keeps_heads _ _ _ _ _ _ demo_db_ok E)))).
Defined.
