(* ===== verification/Replay.v ===== *)
(** * Replay: how a connecting client catches up

    The page loops of [init] (replay of changes or of the initial snapshot) and
    of [deleted] in [server.rs], over the page queries of [Revisions].  Page [i]
    of a replay reads the database as it is at that moment ([dbs i]), so the
    theorems cover commits that happen while the replay is being sent. *)

From Stdlib Require Import ZArith Lia List String Ascii Bool Sorted.
From stdpp Require Import base list strings gmap.
From S2P Require Import Prelude Sql Model Store Auth Accounts Vaults Sharing Revisions Invariant Heads Preservation.
From S2P Require Import Machine Scenario RevisionsSpec.

Local Open Scope Z_scope.

Definition REPLAY_PAGE_SIZE : Z := 16.
Definition DELETED_PAGE_SIZE : Z := 64.

Definition last_uid (cursor : Z) (page : list Revision) : Z := List.last (map r_uid page) cursor.

(** The loop of [init]: stop at an empty or short page, continue after the last
    uid of a full one.  [None] is running out of [fuel]. *)
Fixpoint page_loop (fuel : nat) (size : Z) (page : nat -> Z -> list Revision) (i : nat) (cursor : Z)
    : option (list Revision) :=
  match fuel with
  | O => None
  | S fuel =>
      let p := page i cursor in
      match p with
      | [] => Some []
      | _ :: _ =>
          if Z.of_nat (length p) <? size then Some p
          else option_map (app p) (page_loop fuel size page (S i) (last_uid cursor p))
      end
  end.

Definition replay (fuel : nat) (initial : bool) (vault : string) (version ready : Z) (dbs : nat -> db)
    : option (list Revision) :=
  page_loop fuel REPLAY_PAGE_SIZE
    (fun i cursor => if initial then initial_snapshot_page vault cursor ready REPLAY_PAGE_SIZE (dbs i)
                     else list_changes_page vault cursor ready REPLAY_PAGE_SIZE (dbs i))
    0 (if initial then 0 else version).

(** The loop of [deleted], under the commit lock: one database throughout. *)
Definition deleted_items (fuel : nat) (vault : string) (suppress : bool) (d : db) : option (list Revision) :=
  page_loop fuel DELETED_PAGE_SIZE
    (fun _ after => list_deleted_page vault suppress after DELETED_PAGE_SIZE d) 0 0.

(** ** Paging over an increasing list *)
Section Paging.
Context (rows : list Revision) (n : Z).
Hypothesis Hinc : increasing r_uid rows.
Hypothesis Hn : 0 < n.

Notation above c := (select (fun r => c <? r_uid r) rows).

Lemma above_trans c c' : c <= c' -> select (fun r => c' <? r_uid r) (above c) = above c'.
Proof using.
  intros H. rewrite select_select. apply select_ext. intros r _.
  destruct (Z.ltb_spec c (r_uid r)), (Z.ltb_spec c' (r_uid r)); cbn; done || lia.
Qed.

(** After the last row of a prefix come exactly the remaining rows. *)
Lemma above_prefix (l1 l2 : list Revision) c :
  increasing r_uid (l1 ++ l2) -> l1 <> [] ->
  select (fun r => last_uid c l1 <? r_uid r) (l1 ++ l2) = l2.
Proof using.
  intros Hi Hne. destruct (exists_last Hne) as (l & x & ->). unfold last_uid.
  rewrite map_app. cbn [map]. rewrite List.last_last. rewrite <- app_assoc in *. cbn [app] in *.
  destruct (increasing_app r_uid l (x :: l2) Hi) as [Hi2 Hlt].
  destruct (increasing_app r_uid [x] l2 Hi2) as [_ Hlt2].
  rewrite select_app, select_none.
  - cbn [app]. change (x :: l2) with ([x] ++ l2). rewrite select_app, select_none, select_true; [done|..].
    + intros r Hr. apply Z.ltb_lt, Hlt2; [left|]; done.
    + intros r [<-|[]]. apply Z.ltb_irrefl.
  - intros r Hr. apply Z.ltb_ge. specialize (Hlt r x Hr (or_introl eq_refl)). lia.
Qed.

Lemma page_loop_complete page fuel i c :
  (forall i c, page i c = take (Z.to_nat n) (above c)) ->
  (length (above c) < fuel)%nat -> page_loop fuel n page i c = Some (above c).
Proof using Hinc Hn.
  intros Hpage. revert i c. induction fuel as [|fuel IH]; intros i c Hf; [lia|].
  cbn [page_loop]. rewrite Hpage. pose proof (increasing_select r_uid (fun r => c <? r_uid r) rows Hinc) as HM.
  set (M := above c) in *. destruct (take (Z.to_nat n) M) as [|x p] eqn:Ep.
  { destruct M; [done|]. destruct (Z.to_nat n) eqn:En; [lia|done]. }
  rewrite <- Ep. destruct (Z.ltb_spec (Z.of_nat (length (take (Z.to_nat n) M))) n) as [Hs|Hs].
  { rewrite length_take in Hs. rewrite take_ge by lia. done. }
  assert (above (last_uid c (take (Z.to_nat n) M)) = drop (Z.to_nat n) M) as Habove.
  { rewrite <- (above_trans c).
    - fold M. pose proof (above_prefix (take (Z.to_nat n) M) (drop (Z.to_nat n) M) c) as Hp.
      rewrite take_drop in Hp. apply Hp; [done|]. rewrite Ep. done.
    - rewrite Ep. unfold last_uid.
      assert (In (List.last (map r_uid (x :: p)) c) (map r_uid (x :: p))) as Hin.
      { destruct (@exists_last _ (x :: p) ltac:(done)) as (l & y & E). rewrite E, map_app. cbn [map]. rewrite List.last_last.
        apply in_or_app. right. left. done. }
      apply in_map_iff in Hin as (y & <- & Hy). rewrite <- Ep in Hy.
      assert (In y M) as HyM by (rewrite <- (take_drop (Z.to_nat n) M); apply in_or_app; auto).
      apply in_select in HyM as [_ HyM]. lia. }
  rewrite IH; rewrite Habove; [cbn; rewrite take_drop; done|].
  rewrite length_drop. rewrite length_take in Hs. lia.
Qed.
End Paging.

(** ** What the pages contain *)
Lemma increasing_map_rr (t : list revision_row) : increasing ruid t -> increasing r_uid (map rr_rev t).
Proof. rewrite !increasing_map, map_map. done. Qed.

Lemma uid_page_take P n d :
  increasing ruid (revisions d) -> 1 <= n <= 1024 ->
  uid_page P n d = take (Z.to_nat n) (map rr_rev (select P (revisions d))).
Proof.
  intros Hinc Hn. unfold uid_page, clamp, limit. rewrite Z.min_r, Z.max_r by lia.
  rewrite (proj2 (Z.ltb_ge _ _)) by lia.
  rewrite (order_by_increasing by_uid) by (apply (increasing_select by_uid); exact Hinc).
  symmetry. apply firstn_map.
Qed.

(** The log of a vault up to a boundary. *)
Definition log_through (vault : string) (through : Z) (d : db) : list revision_row :=
  select (fun r => in_vault vault r && (r_uid r <=? through)) (revisions d).

(** Changes a client at [after] has not seen. *)
Definition changes (vault : string) (after through : Z) (d : db) : list Revision :=
  map rr_rev (select (fun r : revision_row => after <? r_uid r) (log_through vault through d)).

Definition live_head (t : list revision_row) (r : revision_row) : bool :=
  in_list (r_uid r) (map snd (group_max rpath by_uid t)) && negb (r_deleted r).

(** The live heads of the log. *)
Definition snapshot (vault : string) (through : Z) (d : db) : list Revision :=
  map rr_rev (select (live_head (log_through vault through d)) (log_through vault through d)).

Lemma changes_page vault after through d :
  db_ok d ->
  list_changes_page vault after through REPLAY_PAGE_SIZE d
  = take (Z.to_nat REPLAY_PAGE_SIZE) (select (fun r => after <? r_uid r) (map rr_rev (log_through vault through d))).
Proof.
  intros Hd. pose proof (revs_increasing _ _ _ _ (ok_revs _ d Hd)) as Hinc. unfold list_changes_page.
  rewrite uid_page_take by done. unfold log_through. rewrite select_map, select_select. do 2 f_equal.
  apply select_ext. intros r _. destruct (in_vault vault r), (after <? r_uid r), (r_uid r <=? through); done.
Qed.

Lemma in_heads_log rs t r :
  increasing ruid rs -> (forall x, In x t -> In x rs) -> In r rs ->
  in_list (r_uid r) (map snd (group_max rpath by_uid t)) = true <-> is_head t r.
Proof.
  intros Hinc Hsub Hr. rewrite in_list_spec, in_heads. unfold is_head. split.
  - intros (k & (r' & Hr' & <- & Eu) & Hle).
    assert (r' = r) as -> by (eapply (increasing_inj ruid rs); eauto).
    split; [done|]. intros r2 Hr2 Ek. apply Hle; done.
  - intros [Hin Hle]. exists (r_path r). split; [eauto|auto].
Qed.

Lemma snapshot_page vault after through d :
  db_ok d ->
  initial_snapshot_page vault after through REPLAY_PAGE_SIZE d
  = take (Z.to_nat REPLAY_PAGE_SIZE) (select (fun r => after <? r_uid r) (snapshot vault through d)).
Proof.
  intros Hd. pose proof (revs_increasing _ _ _ _ (ok_revs _ d Hd)) as Hinc. unfold initial_snapshot_page.
  rewrite uid_page_take by done. unfold snapshot. rewrite select_map. do 2 f_equal.
  unfold log_through at 2. rewrite !select_select. apply select_ext. intros r Hr.
  change (head_uids_through (revisions d) vault through)
    with (map snd (group_max rpath by_uid (log_through vault through d))).
  unfold live_head. destruct (in_list (r_uid r) _) eqn:E; cbn.
  - apply (in_heads_log (revisions d)) in E; [|done|intros x Hx; apply in_select in Hx; apply Hx|done].
    destruct E as [Hin _]. apply in_select in Hin as [_ ->]. done.
  - rewrite andb_false_r. done.
Qed.

(** ** Commits during a replay *)

(** Databases a replay may read: [d] followed by accepted pushes and restores. *)
Inductive commits (nl : PushNotice -> Z) (d : db) : db -> Prop :=
| commits_refl : commits nl d d
| commits_push d1 d2 now r th q oq rev :
    commits nl d d1 -> accepted now r th q oq d1 rev d2 -> commits nl d d2
| commits_restore d1 d2 now u th v uid dev gl ol rev :
    commits nl d d1 -> restore_internal nl now u th v uid dev gl ol d1 = Ok (Some rev, d2) -> commits nl d d2.

Lemma pushed_log d (row : revision_row) cs vault through :
  through < r_uid row -> log_through vault through (pushed d row cs) = log_through vault through d.
Proof.
  intros H. unfold log_through, pushed. cbn [revisions refresh_vault with_vaults].
  rewrite select_app, (select_none _ [row]), app_nil_r; [done|].
  intros r [<-|[]]. rewrite (proj2 (Z.leb_gt _ _)) by lia. apply andb_false_r.
Qed.

Lemma commits_log nl d d' vault through :
  db_ok d -> through <= seq_revisions d -> commits nl d d' ->
  db_ok d' /\ through <= seq_revisions d' /\ log_through vault through d' = log_through vault through d.
Proof.
  intros Hd Hseq. induction 1 as [|d1 d2 now r th q oq rev _ (Hd1 & Hs & IH) H
                                 |d1 d2 now u th v uid dev gl ol rev _ (Hd1 & Hs & IH) H]; [done|..].
  - apply accepted_spec in H as (Hd2 & _ & _ & _ & cs & Ed2); [|done]. split; [done|]. rewrite Ed2.
    split; [cbn; lia|]. rewrite pushed_log by (cbn; lia). done.
  - pose proof (restore_ok _ _ _ _ _ _ _ _ _ _ _ _ Hd1 H) as Hd2.
    apply restore_spec in H as (t & s & cs & _ & _ & _ & _ & _ & _ & _ & Ed2 & _); [|done].
    split; [done|]. rewrite Ed2. split; [cbn; lia|]. rewrite pushed_log by (cbn; lia). done.
Qed.

Lemma current_version_seq d vault : db_ok d -> current_version vault d <= seq_revisions d.
Proof.
  intros Hd. unfold current_version. destruct (find_vault_row d vault) as [v|] eqn:E; cbn.
  - apply find_vault_row_in in E as [Hv _]. apply (ok_sizes _ d Hd v Hv).
  - apply (revs_seq _ _ _ _ (ok_revs _ d Hd)).
Qed.

(** ** Replays are exact *)

(** The databases the pages are read from share the log up to the boundary. *)
Section Pages.
Context (d : db) (vault : string) (ready : Z) (dbs : nat -> db).
Hypothesis Hd : db_ok d.
Hypothesis page_db : forall i, db_ok (dbs i) /\ log_through vault ready (dbs i) = log_through vault ready d.

Lemma log_increasing : increasing ruid (log_through vault ready d).
Proof using Hd. apply increasing_select. apply (ok_revs _ d Hd). Qed.

Lemma replay_changes version fuel :
  (length (changes vault version ready d) < fuel)%nat ->
  replay fuel false vault version ready dbs = Some (changes vault version ready d).
Proof using Hd page_db.
  intros Hf. unfold replay, changes in *. rewrite <- (select_map (fun r => version <? r_uid r)) in *.
  apply (page_loop_complete _ REPLAY_PAGE_SIZE); [|done| |done].
  - apply increasing_map_rr, log_increasing.
  - intros i c. destruct (page_db i) as [Hok Hlog]. rewrite changes_page, Hlog by done. done.
Qed.

Lemma replay_snapshot version fuel :
  (length (snapshot vault ready d) < fuel)%nat ->
  replay fuel true vault version ready dbs = Some (snapshot vault ready d).
Proof using Hd page_db.
  intros Hf. unfold replay.
  assert (select (fun r => 0 <? r_uid r) (snapshot vault ready d) = snapshot vault ready d) as Hpos.
  { apply select_true. intros r Hr. apply in_map_iff in Hr as (x & <- & Hx). apply in_select in Hx as [Hx _].
    apply in_select in Hx as [Hx _]. pose proof (revs_bounds _ _ _ _ (ok_revs _ d Hd) x Hx). lia. }
  rewrite <- Hpos at 1. apply (page_loop_complete _ REPLAY_PAGE_SIZE); [|done| |rewrite Hpos; done].
  - apply increasing_map_rr, increasing_select, log_increasing.
  - intros i c. destruct (page_db i) as [Hok Hlog]. rewrite snapshot_page by done. unfold snapshot.
    rewrite Hlog. done.
Qed.

End Pages.

Section Exact.
Context (nl : PushNotice -> Z) (d : db) (vault : string) (dbs : nat -> db).
Hypothesis Hd : db_ok d.
Hypothesis Hcommits : forall i, commits nl d (dbs i).
Notation ready := (current_version vault d).

Lemma commits_pages i : db_ok (dbs i) /\ log_through vault ready (dbs i) = log_through vault ready d.
Proof using Hd Hcommits.
  destruct (commits_log nl d (dbs i) vault ready Hd (current_version_seq d vault Hd) (Hcommits i)) as (? & _ & ?).
  done.
Qed.

(** C5: an incremental replay terminates and sends exactly the changes the client
    has not seen, each once and in commit order, up to the boundary fixed when it
    subscribed, no matter how many pushes and restores commit while it is sent. *)
Theorem incremental_replay_exact version fuel :
  (length (changes vault version ready d) < fuel)%nat ->
  replay fuel false vault version ready dbs = Some (changes vault version ready d).
Proof using Hd Hcommits. apply replay_changes; auto using commits_pages. Qed.

End Exact.

(** ** The client's view *)

(** A client folds the notices it receives into a map from path to revision. *)
Definition apply_notice (m : gmap string Revision) (r : Revision) : gmap string Revision :=
  if r_deleted r then delete (r_path r) m else <[r_path r := r]> m.
Definition apply_all (m : gmap string Revision) (rs : list Revision) : gmap string Revision :=
  fold_left apply_notice rs m.

Lemma apply_all_lookup rs m p :
  apply_all m rs !! p =
  match last (select (fun r => String.eqb (r_path r) p) rs) with
  | Some r => if r_deleted r then None else Some r
  | None => m !! p
  end.
Proof.
  revert m. induction rs as [|r rs IH] using rev_ind; intros m; [done|].
  unfold apply_all in *. rewrite fold_left_app. cbn [fold_left]. unfold apply_notice at 1.
  rewrite select_app. unfold select at 2. cbn [List.filter].
  destruct (String.eqb_spec (r_path r) p) as [<-|Hne].
  - rewrite last_snoc. destruct (r_deleted r); [apply lookup_delete_eq|apply lookup_insert_eq].
  - rewrite app_nil_r. destruct (r_deleted r); [rewrite lookup_delete_ne|rewrite lookup_insert_ne]; auto.
Qed.

(** The last row of a path in commit order is its newest. *)
Lemma last_is_newest (l : list Revision) p r :
  increasing r_uid l ->
  last (select (fun r => String.eqb (r_path r) p) l) = Some r <->
  In r l /\ r_path r = p /\ forall r', In r' l -> r_path r' = p -> r_uid r' <= r_uid r.
Proof.
  intros Hinc. set (g := select _ l).
  assert (increasing r_uid g) as Hg by (apply increasing_select; done).
  assert (forall x, In x g <-> In x l /\ r_path x = p) as Hin.
  { intros x. unfold g. rewrite in_select, String.eqb_eq. done. }
  assert (forall x, last g = Some x -> In x l /\ r_path x = p /\
            forall r', In r' l -> r_path r' = p -> r_uid r' <= r_uid x) as Hfwd.
  { intros x H. apply last_Some in H as (g' & E). pose proof Hg as Hg'. rewrite E in Hg'.
    apply increasing_app in Hg' as [_ Hlt].
    assert (In x l /\ r_path x = p) as [Hx Hp] by (apply Hin; rewrite E; apply in_or_app; right; left; done).
    split_and!; try done. intros y Hy Hyp. assert (In y g) as Hyg by (apply Hin; done).
    rewrite E in Hyg. apply in_app_or in Hyg as [Hyg|[->|[]]]; [|lia].
    specialize (Hlt y x Hyg (or_introl eq_refl)). lia. }
  split; [apply Hfwd|]. intros (Hr & Hp & Hmax).
  destruct (last g) as [x|] eqn:E.
  - f_equal. destruct (Hfwd x eq_refl) as (Hx & Hxp & Hxmax).
    eapply (increasing_inj r_uid l); auto. apply Z.le_antisymm; auto.
  - apply last_None in E. assert (In r g) as Hrg by (apply Hin; done). rewrite E in Hrg. done.
Qed.

(** An increasing list splits at any boundary. *)
Lemma increasing_split {A} (f : A -> Z) l c :
  increasing f l -> select (fun x => f x <=? c) l ++ select (fun x => c <? f x) l = l.
Proof.
  unfold increasing. induction 1 as [|x l H IH Hx]; [done|]. rewrite Forall_forall in Hx.
  change (x :: l) with ([x] ++ l). rewrite !select_app. unfold select at 1 3. cbn.
  destruct (Z.leb_spec (f x) c), (Z.ltb_spec c (f x)); try lia; cbn.
  - f_equal. exact IH.
  - rewrite (select_none (fun y => f y <=? c) l); cbn.
    + rewrite (select_true (fun y => c <? f y) l); [done|]. intros y Hy. apply list_elem_of_In, Hx in Hy. lia.
    + intros y Hy. apply list_elem_of_In, Hx in Hy. lia.
Qed.

Lemma log_split d vault version through :
  db_ok d -> version <= through ->
  map rr_rev (log_through vault version d) ++ changes vault version through d
  = map rr_rev (log_through vault through d).
Proof.
  intros Hd Hver. unfold changes. rewrite <- map_app. f_equal.
  etransitivity;
    [|apply (increasing_split ruid _ version), increasing_select, (ok_revs _ d Hd)].
  f_equal. unfold log_through. rewrite select_select. apply select_ext. intros r _.
  destruct (in_vault vault r); cbn; [|done].
  destruct (Z.leb_spec (r_uid r) version), (Z.leb_spec (r_uid r) through); done || lia.
Qed.

(** Folding the snapshot and folding the log give the same files. *)
Lemma snapshot_folds_log d vault version :
  db_ok d -> version <= current_version vault d ->
  apply_all empty (snapshot vault (current_version vault d) d)
  = apply_all (apply_all empty (map rr_rev (log_through vault version d)))
      (changes vault version (current_version vault d) d).
Proof.
  intros Hd Hver. set (ready := current_version vault d) in *.
  unfold apply_all at 2 3. rewrite <- (fold_left_app apply_notice), log_split by done.
  fold (apply_all empty (map rr_rev (log_through vault ready d))).
  set (L := map rr_rev (log_through vault ready d)). set (S := snapshot vault ready d).
  assert (increasing ruid (log_through vault ready d)) as Hlog by (apply increasing_select, (ok_revs _ d Hd)).
  assert (increasing r_uid L) as HL by (apply increasing_map_rr; done).
  assert (increasing r_uid S) as HS by (apply increasing_map_rr, increasing_select; done).
  assert (forall r, In r S <-> In r L /\ r_deleted r = false /\
            forall r', In r' L -> r_path r' = r_path r -> r_uid r' <= r_uid r) as HinS.
  { intros r. unfold S, snapshot, L. rewrite !in_map_iff. split.
    - intros (x & <- & Hx). apply in_select in Hx as [Hx Hh]. unfold live_head in Hh. breflect. apply (in_heads_log (log_through vault ready d)) in H; [|done..].
      destruct H as [_ Hmax]. split; [exists x; split; done|]. split; [done|]. intros r' Hr'. apply in_map_iff in Hr' as (y & <- & Hy). auto.
    - intros ((x & <- & Hx) & Hdel & Hmax). exists x. split; [done|]. apply in_select. split; [done|].
      unfold live_head. rewrite Hdel, andb_true_r.
      apply (in_heads_log (log_through vault ready d)); auto. split; [done|]. intros y Hy. apply Hmax, in_map. done. }
  apply map_eq. intros p. rewrite !apply_all_lookup, lookup_empty.
  destruct (last (select _ L)) as [r|] eqn:E.
  - apply last_is_newest in E as (Hr & <- & Hmax); [|done]. destruct (r_deleted r) eqn:Edel.
    + rewrite (select_none _ S); [done|]. intros x Hx. apply HinS in Hx as (Hx & Hxd & Hxmax).
      apply String.eqb_neq. intros Ep. assert (x = r) as ->; [|congruence].
      eapply (increasing_inj r_uid L); auto. apply Z.le_antisymm; auto.
    + rewrite (proj2 (last_is_newest S (r_path r) r HS)); [rewrite Edel; done|].
      split_and!; [apply HinS; done|done|]. intros x Hx. apply Hmax, HinS. done.
  - apply last_None in E. rewrite (select_none _ S); [done|]. intros x Hx. apply HinS in Hx as (Hx & _).
    destruct (String.eqb (r_path x) p) eqn:Ep; [|done].
    assert (In x (select (fun r => String.eqb (r_path r) p) L)) as Hin by (apply in_select; done).
    rewrite E in Hin. done.
Qed.

Lemma snapshot_length vault through d : (length (snapshot vault through d) <= length (revisions d))%nat.
Proof.
  unfold snapshot, log_through, select. rewrite length_map.
  etransitivity; apply filter_length_le.
Qed.
Lemma changes_length vault after_ through d : (length (changes vault after_ through d) <= length (revisions d))%nat.
Proof.
  unfold changes, log_through, select. rewrite length_map.
  etransitivity; apply filter_length_le.
Qed.

(** The two ways to catch up agree: both replays terminate, and a fresh client that
    folds the initial one and a client that already holds everything up to [version] and
    folds the incremental one end with the same files, whatever commits while either is
    sent. *)
Theorem replays_agree nl d vault dbs dbs' version fuel :
  db_ok d -> (forall i, commits nl d (dbs i)) -> (forall i, commits nl d (dbs' i)) ->
  version <= current_version vault d -> (length (revisions d) < fuel)%nat ->
  exists fresh late,
    replay fuel true vault 0 (current_version vault d) dbs = Some fresh /\
    replay fuel false vault version (current_version vault d) dbs' = Some late /\
    apply_all empty fresh = apply_all (apply_all empty (map rr_rev (log_through vault version d))) late.
Proof.
  intros Hd H1 H2 Hver Hf. eexists _, _. split_and!.
  - apply (replay_snapshot d); eauto using commits_pages. eapply Nat.le_lt_trans; [apply snapshot_length|done].
  - apply (replay_changes d); eauto using commits_pages. eapply Nat.le_lt_trans; [apply changes_length|done].
  - apply snapshot_folds_log; done.
Qed.

(** Witness data: two pushes commit while a replay is being sent. *)
Definition demo_during (i : nat) : db :=
  match i with
  | O => demo_db
  | _ => settle demo_db (add_empty_revision_internal 2000 (demo_revision "late" true false 0 1) (Some token_a) 1000 1000 demo_db)
  end.

Lemma demo_during_commits i : commits demo_notice_len demo_db (demo_during i).
Proof.
  destruct i as [|i]; [exact (commits_refl demo_notice_len demo_db)|]. unfold demo_during.
  destruct (add_empty_revision_internal 2000 (demo_revision "late" true false 0 1) (Some token_a) 1000 1000 demo_db)
    as [[rev d']|] eqn:E; unfold settle; [|apply commits_refl].
  apply (commits_push demo_notice_len demo_db demo_db d' 2000 (demo_revision "late" true false 0 1)
           (Some token_a) 1000 1000 rev); [apply commits_refl|]. left. exact E.
Qed.

Lemma incremental_replay_exact_witness :
  replay 4 false "vault-1" 1 4 demo_during = Some (changes "vault-1" 1 4 demo_db) /\
  map r_uid (changes "vault-1" 1 4 demo_db) = [2; 3; 4].
Proof.
  split; [|vm_compute; reflexivity].
  exact (incremental_replay_exact demo_notice_len demo_db "vault-1" demo_during demo_db_ok demo_during_commits 1 4
           ltac:(vm_compute; repeat constructor)).
Defined.


Lemma replays_agree_witness :
  exists fresh late,
    replay 9 true "vault-1" 0 (current_version "vault-1" demo_db) demo_during = Some fresh /\
    replay 9 false "vault-1" 2 (current_version "vault-1" demo_db) demo_during = Some late /\
    apply_all empty fresh = apply_all (apply_all empty (map rr_rev (log_through "vault-1" 2 demo_db))) late.
Proof.
  exact (replays_agree demo_notice_len demo_db "vault-1" demo_during demo_during 2 9 demo_db_ok demo_during_commits
           demo_during_commits ltac:(vm_compute; discriminate) ltac:(vm_compute; repeat constructor)).
Defined.

(** ** Deleted files *)

(** A path whose newest revision is a deletion and that was live before. *)
Definition recoverable (d : db) (vault : string) (r : revision_row) : Prop :=
  is_head (select (in_vault vault) (revisions d)) r /\ r_deleted r = true /\
  exists prior, In prior (revisions d) /\ r_vault_id prior = vault /\ r_path prior = r_path r /\
    r_uid prior < r_uid r /\ r_deleted prior = false.

(** A live head that names the path as the one it was renamed from. *)
Definition renamed_away (d : db) (vault : string) (r : revision_row) : Prop :=
  exists live, is_head (select (in_vault vault) (revisions d)) live /\ r_deleted live = false /\
    r_relatedpath live = Some (r_path r).

Definition deleted_test (vault : string) (suppress : bool) (d : db) (r : revision_row) : bool :=
  in_list (r_uid r) (head_uids (revisions d) vault)
  && r_deleted r
  && exists_row (fun prior : revision_row => String.eqb (r_vault_id prior) (r_vault_id r)
       && String.eqb (r_path prior) (r_path r) && (r_uid prior <? r_uid r)
       && negb (r_deleted prior)) (revisions d)
  && (negb suppress || negb (exists_row (fun live : revision_row =>
        in_list (r_uid live) (head_uids (revisions d) (r_vault_id r))
        && negb (r_deleted live) && sql_eq_opt (r_relatedpath live) (r_path r)) (revisions d))).

Lemma deleted_test_spec vault suppress d r :
  db_ok d -> In r (revisions d) ->
  deleted_test vault suppress d r = true <->
  recoverable d vault r /\ (suppress = true -> ~ renamed_away d vault r).
Proof.
  intros Hd Hr. pose proof (revs_increasing _ _ _ _ (ok_revs _ d Hd)) as Hinc.
  unfold deleted_test, recoverable, renamed_away.
  rewrite !andb_true_iff, in_head_uids, exists_row_spec by done.
  assert (is_head (select (in_vault vault) (revisions d)) r -> r_vault_id r = vault) as Hv.
  { intros [Hin _]. apply in_select in Hin as [_ Hin]. unfold in_vault in Hin. breflect. done. }
  rewrite orb_true_iff, !negb_true_iff, exists_row_false. split.
  - intros (((Hh & Hdel) & prior & Hp & Hpp) & Hsup). specialize (Hv Hh). breflect.
    split; [split; [done|]; split; [done|]; exists prior; split_and!; congruence || done|].
    intros -> (live & Hl & Hld & Hrel). destruct Hsup as [Hsup|Hsup]; [done|].
    assert (In live (revisions d)) as Hin by (destruct Hl as [Hl _]; apply in_select in Hl; apply Hl).
    specialize (Hsup live Hin). rewrite Hv, Hld, Hrel in Hsup.
    rewrite (proj2 (in_head_uids _ _ _ Hinc Hin) Hl) in Hsup. cbn in Hsup. rewrite String.eqb_refl in Hsup. done.
  - intros ((Hh & Hdel & prior & Hp & Hpv & Hpp & Hlt & Hpd) & Hsup). specialize (Hv Hh). split_and!; try done.
    + exists prior. split; [done|]. rewrite Hpv, Hv, Hpp, Hpd, !String.eqb_refl. cbn.
      rewrite andb_true_r. apply Z.ltb_lt. done.
    + destruct suppress; [right|left; done]. intros live Hl.
      destruct (in_list (r_uid live) (head_uids (revisions d) (r_vault_id r)) && negb (r_deleted live)
                && sql_eq_opt (r_relatedpath live) (r_path r)) eqn:E; [|done].
      exfalso. breflect. apply (Hsup eq_refl). exists live. rewrite Hv, in_head_uids in H by done.
      split_and!; [done|done|]. unfold sql_eq_opt in H0. destruct (r_relatedpath live); [|done]. breflect. congruence.
Qed.

Lemma recoverable_source d vault r :
  recoverable d vault r -> exists s, restore_source d vault r = Some s.
Proof.
  intros (_ & Hdel & prior & Hp & Hv & Hpath & Hlt & Hpd). unfold restore_source. rewrite Hdel.
  destruct (order_by _ _) as [|x l] eqn:E; [|eauto]. exfalso.
  assert (In prior (order_by (desc by_uid) (select (fun r0 : revision_row => in_vault vault r0
    && String.eqb (r_path r0) (r_path r) && (r_uid r0 <? r_uid r) && negb (r_deleted r0)) (revisions d)))) as Hin.
  { apply in_order_by, in_select. split; [done|]. unfold in_vault.
    rewrite Hv, Hpath, Hpd, !String.eqb_refl. cbn. rewrite andb_true_r. apply Z.ltb_lt. done. }
  rewrite E in Hin. done.
Qed.

(** The list of deleted files is complete and every entry can be undone: it
    terminates with one entry per path whose newest revision is a deletion and that
    was live before (leaving out, on request, paths a live file was renamed from), in
    commit order, and a restore of any listed revision finds a revision to copy. *)
Theorem deleted_listing_exact vault suppress d fuel :
  db_ok d -> (length (revisions d) < fuel)%nat ->
  exists items, deleted_items fuel vault suppress d = Some (map rr_rev items) /\ increasing ruid items /\
    (forall r, In r items <->
      In r (revisions d) /\ recoverable d vault r /\ (suppress = true -> ~ renamed_away d vault r)) /\
    (forall r, In r items -> exists source, restore_source d vault r = Some source).
Proof.
  intros Hd Hf. pose proof (revs_increasing _ _ _ _ (ok_revs _ d Hd)) as Hinc.
  exists (select (deleted_test vault suppress d) (revisions d)).
  assert (forall c, select (fun r => c <? r_uid r) (map rr_rev (select (deleted_test vault suppress d) (revisions d)))
            = map rr_rev (select (fun r => deleted_test vault suppress d r && (c <? r_uid r)) (revisions d))) as Hsel.
  { intros c. rewrite select_map, select_select. done. }
  assert (select (fun r => 0 <? r_uid r) (map rr_rev (select (deleted_test vault suppress d) (revisions d)))
          = map rr_rev (select (deleted_test vault suppress d) (revisions d))) as Hpos.
  { apply select_true. intros r Hr. apply in_map_iff in Hr as (x & <- & Hx). apply in_select in Hx as [Hx _].
    pose proof (revs_bounds _ _ _ _ (ok_revs _ d Hd) x Hx). lia. }
  split; [|split; [|split]].
  - unfold deleted_items. rewrite <- Hpos. apply (page_loop_complete _ DELETED_PAGE_SIZE).
    + apply increasing_map_rr, increasing_select. done.
    + done.
    + intros _ c. rewrite Hsel. unfold list_deleted_page. rewrite uid_page_take by done. do 2 f_equal.
      apply select_ext. intros r Hr. pose proof (revs_bounds _ _ _ _ (ok_revs _ d Hd) r Hr). unfold deleted_test.
      assert ((Z.max c 0 <? r_uid r) = (c <? r_uid r)) as ->.
      { destruct (Z.ltb_spec (Z.max c 0) (r_uid r)), (Z.ltb_spec c (r_uid r)); done || lia. }
      destruct (in_list _ _), (r_deleted r), (c <? r_uid r), (exists_row _ _); cbn; rewrite ?andb_false_r, ?andb_true_r; done.
    + rewrite Hpos, length_map. pose proof (length_select (deleted_test vault suppress d) (revisions d)). lia.
  - apply increasing_select. done.
  - intros r. rewrite in_select. split; intros [Hr H]; (split; [done|]); apply deleted_test_spec; done.
  - intros r Hin. apply in_select in Hin as [Hr Ht]. apply deleted_test_spec in Ht as [Hrec _]; [|done..].
    apply recoverable_source. done.
Qed.

Lemma deleted_listing_exact_witness :
  exists items, deleted_items 5 "vault-1" true demo_db = Some (map rr_rev items) /\
    (forall r, In r items -> exists source, restore_source demo_db "vault-1" r = Some source).
Proof.
  destruct (deleted_listing_exact "vault-1" true demo_db 5 demo_db_ok ltac:(vm_compute; repeat constructor))
    as (items & H & _ & _ & Hr).
  exists items. split; [exact H|exact Hr].
Defined.
