(* ===== verification/VaultsSpec.v ===== *)
(** * Correctness of vault access, sharing, deletion and migration *)

From Stdlib Require Import ZArith Lia List String Ascii Bool.
From stdpp Require Import base list strings.
From S2P Require Import Prelude Sql Model Store Auth Accounts Vaults Sharing Revisions Invariant Heads Preservation.
From S2P Require Import Machine Scenario RevisionsSpec.

Local Open Scope Z_scope.

(** ** Authorisation of every mutation *)

(** The acting user and session of an operation of the wire protocol. *)
Definition session_of (o : op) : option (Z * string) :=
  match o with
  | OpCreateVault u h _ | OpRenameVault u h _ _ | OpBindKeyhash u h _ _ | OpDeleteVault u h _
  | OpMigrateVault u h _ _ | OpInvite u h _ _ | OpRemove u h _ _ | OpRestore u h _ _ _ _ | OpPurge u h _ => Some (u, h)
  | OpPushEmpty r h _ _ | OpPushFile r h _ _ _ => Some (n_user_id r, h)
  | _ => None
  end.

(** The vault only its owner may change this way. *)
Definition owner_target (o : op) : option string :=
  match o with
  | OpRenameVault _ _ id _ | OpBindKeyhash _ _ id _ | OpDeleteVault _ _ id | OpMigrateVault _ _ id _
  | OpInvite _ _ id _ => Some id
  | _ => None
  end.

(** The vault its owner and its active collaborators may change this way. *)
Definition member_target (o : op) : option string :=
  match o with
  | OpPushEmpty r _ _ _ | OpPushFile r _ _ _ _ => Some (n_vault_id r)
  | OpRestore _ _ v _ _ _ | OpPurge _ _ v => Some v
  | _ => None
  end.

Definition live_session (now : Z) (h : string) (u : Z) (d : db) : Prop :=
  user_active d u = true /\
  exists s, In s (sessions d) /\ s_token_hash s = h /\ s_user_id s = u /\ now < s_expires_at s /\ s_revoked_at s = None.

Lemma authorize_spec now h u d :
  authorize_account_mutation now (Some h) u d = Ok tt <-> live_session now h u d.
Proof.
  unfold authorize_account_mutation, live_session. split.
  - intros H. steps_in H. apply exists_row_spec in E as (s & Hs & E). breflect. subst.
    split; [done|]. exists s. split_and!; try done. destruct (s_revoked_at s); done.
  - intros (Ha & s & Hs & <- & <- & He & Hr). rewrite (proj2 (exists_row_spec _ _)); [done|].
    exists s. split; [done|]. rewrite String.eqb_refl, Z.eqb_refl, Hr, Ha, (proj2 (Z.ltb_lt _ _)); done.
Qed.

Lemma with_vaults_id d vs : vs = vaults d -> with_vaults d vs = d.
Proof. intros ->. destruct d. done. Qed.

Lemma settle_neq {A} d (r : result (A * db)) : settle d r <> d -> exists a d', r = Ok (a, d') /\ d' <> d.
Proof. destruct r as [[a d']|]; cbn; [eauto|done]. Qed.

Lemma not_owned_update d id u (P g : vault_row -> _) :
  owns_vault d id u = false -> (forall v, P v = true -> owned_by id u v = true) ->
  with_vaults d (update P g (vaults d)) = d.
Proof.
  intros H HP. apply with_vaults_id, update_none. intros v Hv.
  pose proof (proj1 (exists_row_false _ _) H v Hv) as Hn. cbn in Hn.
  destruct (P v) eqn:E; [|done]. apply HP in E. unfold owned_by in E. congruence.
Qed.

Lemma authorize_mutation_spec now h u vault d :
  authorize_mutation now (Some h) u vault d = Ok tt -> live_session now h u d /\ vault_access d u vault <> None.
Proof.
  unfold authorize_mutation. intros H. destruct (authorize_account_mutation _ _ _ _) as [[]|] eqn:E; [|done].
  apply authorize_spec in E. destruct (vault_access d u vault); done.
Qed.

(** Read the session off the first guard of an operation that succeeded. *)
Ltac session_guard :=
  match goal with
  | H : authorize_account_mutation _ (Some _) _ _ = Ok ?x |- _ => destruct x; apply authorize_spec in H; exact H
  | H : authorize_mutation _ (Some _) _ _ _ = Ok ?x |- _ => destruct x; apply authorize_mutation_spec in H; apply H
  end.

Section Authorised.
Context (pp : string -> option PasswordHash) (th : string -> string) (nl : PushNotice -> Z).

Lemma exec_needs_session now o d u h :
  session_of o = Some (u, h) -> exec pp th nl now o d <> d -> live_session now h u d.
Proof using.
  intros Hs Hne. destruct o; try done; cbn in Hs; injection Hs as <- <-; cbn in Hne;
    apply settle_neq in Hne as (a & d' & H & _); cbn in H.
  - unfold create_vault_for_session, create_vault_internal in H. steps_in H. session_guard.
  - unfold rename_vault_for_session in H. steps_in H. session_guard.
  - unfold bind_managed_keyhash_for_session in H. step_in H. session_guard.
  - unfold delete_vault_for_session, delete_vault_internal in H. step_in H. session_guard.
  - unfold migrate_vault_for_session, migrate_vault_internal in H. step_in H. session_guard.
  - unfold invite_collaborator_for_session in H. step_in H. step_in H. session_guard.
  - unfold remove_collaborator_for_session in H. step_in H. session_guard.
  - unfold add_empty_revision_for_session, add_empty_revision_internal, add_revision in H. step_in H. step_in H.
    session_guard.
  - unfold add_file_revision_for_session, add_file_revision_internal in H. step_in H. step_in H. session_guard.
  - unfold restore_for_session, restore_internal in H. step_in H. session_guard.
  - unfold purge_for_session, purge_internal in H. step_in H. session_guard.
Qed.

Lemma exec_needs_owner now o d u h id :
  session_of o = Some (u, h) -> owner_target o = Some id -> exec pp th nl now o d <> d -> owns_vault d id u = true.
Proof using.
  intros Hs Ht Hne. destruct (owns_vault d id u) eqn:Eo; [done|]. exfalso. apply Hne.
  destruct o; try done; cbn in Hs, Ht; simplify_eq; cbn.
  - unfold rename_vault_for_session. destruct (authorize_account_mutation _ _ _ _); cbn; [|done].
    eapply not_owned_update; eauto.
  - unfold bind_managed_keyhash_for_session. destruct (authorize_account_mutation _ _ _ _); cbn; [|done].
    eapply not_owned_update; [done|]. cbn. intros v Hv. breflect. done.
  - unfold delete_vault_for_session, delete_vault_internal. destruct (authorize_account_mutation _ _ _ _); cbn; [|done].
    rewrite Eo. done.
  - unfold migrate_vault_for_session, migrate_vault_internal. destruct (authorize_account_mutation _ _ _ _); cbn; [|done].
    rewrite Eo. done.
  - unfold invite_collaborator_for_session. destruct (canonicalize_email _); [|done].
    destruct (authorize_account_mutation _ _ _ _); cbn; [|done]. rewrite Eo. done.
Qed.

Lemma exec_needs_access now o d u h id :
  session_of o = Some (u, h) -> member_target o = Some id -> exec pp th nl now o d <> d -> vault_access d u id <> None.
Proof using.
  intros Hs Ht Hne. destruct o; try done; cbn in Hs, Ht; simplify_eq; cbn in Hne;
    apply settle_neq in Hne as (a & d' & H & _).
  - unfold add_empty_revision_for_session, add_empty_revision_internal, add_revision in H. step_in H. step_in H.
    destruct value. apply authorize_mutation_spec in E0. apply E0.
  - unfold add_file_revision_for_session, add_file_revision_internal in H. step_in H. step_in H.
    destruct value. apply authorize_mutation_spec in E0. apply E0.
  - unfold restore_for_session, restore_internal in H. step_in H. destruct value. apply authorize_mutation_spec in E. apply E.
  - unfold purge_for_session, purge_internal in H. step_in H. destruct value. apply authorize_mutation_spec in E. apply E.
Qed.

End Authorised.


(** ** Access as a relation *)

(** Who may use a vault: its owner, and every user with an active membership. *)
Definition owner_of (d : db) (id : string) (u : Z) : Prop := In (id, u) (owners (vaults d)).
Definition member_of (d : db) (id : string) (u uid : Z) : Prop :=
  exists m, In m (memberships d) /\ m_vault_id m = id /\ m_user_id m = u /\ m_id m = uid /\ m_revoked_at m = None.

Lemma owner_unique cap d id u u' : db_inv cap d -> owner_of d id u -> owner_of d id u' -> u = u'.
Proof.
  intros Hd H1 H2. apply in_owners in H1 as (v & Hv & Hid & <-), H2 as (w & Hw & Hid' & <-).
  assert (v = w) as -> by (eapply (nodup_map_inj vid); [apply (ok_vaults _ d Hd)|..]; auto; congruence). done.
Qed.

Lemma member_unique d id u uid uid' :
  db_ok d -> member_of d id u uid -> member_of d id u uid' -> uid = uid'.
Proof.
  intros Hd (m & Hm & Hv & Hu & <- & Hr) (m' & Hm' & Hv' & Hu' & <- & Hr').
  assert (m = m') as ->; [|done].
  eapply (nodup_map_inj active_pair); [apply (ok_memberships _ d Hd)|..].
  - apply in_select. split; [done|]. unfold membership_active. rewrite Hr. done.
  - apply in_select. split; [done|]. unfold membership_active. rewrite Hr'. done.
  - unfold active_pair. congruence.
Qed.

Lemma member_not_owner d id u uid : db_ok d -> member_of d id u uid -> ~ owner_of d id u.
Proof.
  intros Hd (m & Hm & <- & <- & _) Ho. eapply (ms_not_owner _ _ _ _ (ok_memberships _ d Hd)); eauto.
Qed.

Lemma find_vault_owner d id v : find_vault_row d id = Some v -> owner_of d id (vr_owner_user_id v).
Proof. intros H. apply find_vault_row_in in H as [Hv <-]. apply in_owners. eauto. Qed.

Lemma vault_access_spec d u id a :
  db_ok d ->
  vault_access d u id = Some a <->
  (a = Owner u id /\ owner_of d id u) \/ (exists uid, a = Collaborator u id uid /\ member_of d id u uid).
Proof.
  intros Hd. unfold vault_access. destruct (find_vault_row d id) as [v|] eqn:Ev.
  2: { split; [done|]. intros [[_ Ho]|(uid & _ & m & Hm & <- & _)]; exfalso; apply find_vault_row_none in Ev; apply Ev.
       - apply in_owners in Ho as (v & Hv & <- & _). apply (in_map vid). done.
       - rewrite <- owners_fst. apply (ok_memberships _ d Hd). done. }
  pose proof (find_vault_owner _ _ _ Ev) as Ho. apply find_vault_row_in in Ev as [Hv <-].
  destruct (Z.eqb_spec (vr_owner_user_id v) u) as [<-|Hne].
  { split; [intros [= <-]; left; done|]. intros [[-> _]|(uid & -> & Hm)]; [done|].
    exfalso. eapply member_not_owner; eauto. }
  destruct (query_row _ (memberships d)) as [m|] eqn:Eq.
  - apply query_row_some in Eq as [Hm Hq]. unfold membership_active in Hq. breflect.
    assert (member_of d (v_id v) u (m_id m)) as Hmem.
    { exists m. split_and!; try done. destruct (m_revoked_at m); done. }
    split; [intros [= <-]; right; eauto|]. intros [[-> Ho']|(uid & -> & Hm')].
    + exfalso. apply Hne. eapply owner_unique; eauto.
    + do 2 f_equal. eapply member_unique; eauto.
  - split; [done|]. intros [[_ Ho']|(uid & _ & m & Hm & Hmv & Hmu & _ & Hr)]; exfalso.
    + apply Hne. eapply owner_unique; eauto.
    + pose proof (proj1 (query_row_none _ _) Eq m Hm) as Hn. cbn in Hn.
      rewrite Hmv, Hmu, String.eqb_refl, Z.eqb_refl in Hn. unfold membership_active in Hn. rewrite Hr in Hn. done.
Qed.

Lemma vault_access_none d u id :
  db_ok d -> vault_access d u id = None <-> ~ owner_of d id u /\ forall uid, ~ member_of d id u uid.
Proof.
  intros Hd. split.
  - intros H. split.
    + intros Ho. assert (vault_access d u id = Some (Owner u id)); [|congruence]. apply vault_access_spec; auto.
    + intros uid Hm. assert (vault_access d u id = Some (Collaborator u id uid)); [|congruence].
      apply vault_access_spec; eauto.
  - intros [Ho Hm]. destruct (vault_access d u id) as [a|] eqn:E; [|done]. exfalso.
    apply vault_access_spec in E as [[_ H]|(uid & _ & H)]; [apply Ho; done|eapply Hm; eauto|done].
Qed.

(** ** Invitation *)
Lemma in_prune_revoked vault ms m :
  increasing m_id ms -> In m ms -> m_revoked_at m = None -> In m (prune_revoked vault ms).
Proof.
  intros Hinc Hm Hr. unfold prune_revoked. apply in_delete. split; [done|].
  destruct (in_list (m_id m) _) eqn:E; [|done]. exfalso. apply in_list_spec in E.
  apply in_map_iff in E as (m' & Eid & Hin). unfold limit in Hin.
  assert (In m' (select (revoked_in vault) ms)) as Hsel.
  { apply (in_order_by revoked_order). destruct (_ <? 0); [done|].
    rewrite <- (take_drop (Z.to_nat (Z.max 0 (count (revoked_in vault) ms - MAX_REVOKED_MEMBERSHIPS_PER_VAULT + 1)))
      (order_by revoked_order (select (revoked_in vault) ms))). apply in_or_app. left. done. }
  apply in_select in Hsel as [Hm' Hrev]. assert (m' = m) as -> by (eapply (increasing_inj m_id ms); eauto).
  unfold revoked_in, membership_active in Hrev. rewrite Hr in Hrev. breflect. done.
Qed.

Lemma invite_spec now owner h vault email item d d' :
  db_ok d -> invite_collaborator_for_session now owner h vault email d = Ok (item, d') ->
  exists e target, canonicalize_email email = Ok e /\ In target (users d) /\
    u_email_canonical target = ce_canonical e /\ u_status target = "active"%string /\
    u_id target <> owner /\ owner_of d vault owner /\ item = share_item (vs_uid item) target /\
    (d' = d /\ member_of d vault (u_id target) (vs_uid item) \/
     (forall uid, ~ member_of d vault (u_id target) uid) /\
     users d' = users d /\ vaults d' = vaults d /\
     count (active_in vault) (memberships d) < MAX_ACTIVE_COLLABORATORS_PER_VAULT /\
     memberships d' = prune_revoked vault (memberships d) ++
       [{| m_id := vs_uid item; m_vault_id := vault; m_user_id := u_id target; m_invited_by_user_id := owner;
           m_accepted_at := now; m_created_at := now; m_revoked_at := None |}]).
Proof.
  unfold invite_collaborator_for_session. intros Hd H. step_in H. rename value into e. step_in H. step_in H.
  rename E1 into Hown. step_in H. rename u into target. step_in H. exists e, target.
  apply query_row_some in E1 as [Ht Htp]. apply owns_vault_in in Hown as (v & Hv & Hid & Ho). breflect.
  assert (owner_of d vault owner) as Howner by (apply in_owners; eauto).
  do 4 (split; [done|]). split; [done|]. split; [done|]. step_in H.
  - injection H as <- <-. split; [done|]. left. split; [done|].
    apply query_row_some in E1 as [Hm Hmp]. unfold active_in, membership_active in Hmp. breflect.
    exists m. split_and!; try done. destruct (m_revoked_at m); done.
  - cbn zeta in H. step_in H. step_in H. step_in H. step_in H. destruct value0 as [uid d2]. injection H as <- <-.
    split; [done|]. right. breflect.
    match goal with Hi : insert_membership _ _ = Ok _ |- _ => rename Hi into E7 end.
    pose proof (insert_membership_spec _ _ _ _
      (ok_with_memberships _ d Hd _ (memberships_ok_delete _ _ _ _ _ (ok_memberships _ d Hd))) E7) as (_ & Ems & _).
    split.
    { intros uid' (m & Hm & Hmv & Hmu & _ & Hr). pose proof (proj1 (query_row_none _ _) E1 m Hm) as Hn.
      cbn in Hn. unfold active_in, membership_active in Hn. rewrite Hmv, Hmu, Hr, String.eqb_refl, Z.eqb_refl in Hn. done. }
    split; [|split; [|split; [done|exact Ems]]]; unfold insert_membership in E7;
      destruct (next_rowid _ _); try done; cbn zeta in E7; steps_in E7; done.
Qed.

Lemma access_ext d d' u id :
  db_ok d -> db_ok d' -> (owner_of d' id u <-> owner_of d id u) ->
  (forall uid, member_of d' id u uid <-> member_of d id u uid) -> vault_access d' u id = vault_access d u id.
Proof.
  intros Hd Hd' Ho Hm. destruct (vault_access d u id) as [a|] eqn:E.
  - apply vault_access_spec in E; [|done]. apply vault_access_spec; [done|].
    destruct E as [[-> H]|(uid & -> & H)]; [left|right; exists uid]; (split; [done|]); [apply Ho|apply Hm]; done.
  - apply vault_access_none in E as [E1 E2]; [|done]. apply vault_access_none; [done|].
    split; [rewrite Ho; done|]. intros uid. rewrite Hm. auto.
Qed.

Lemma prune_revoked_sub vault ms m : In m (prune_revoked vault ms) -> In m ms.
Proof. unfold prune_revoked. intros H. apply in_delete in H as [H _]. done. Qed.

(** An accepted invitation makes the invited account a collaborator of exactly
    that vault, under the returned share id; nobody else's access to any vault changes,
    the vault stays within its collaborator limit, and repeating the invitation returns
    the same share and changes nothing. *)
Theorem invite_grants_access now owner h vault email item d d' :
  db_ok d -> invite_collaborator_for_session now owner h vault email d = Ok (item, d') ->
  exists target, In target (users d) /\ u_status target = "active"%string /\ vs_email item = u_email target /\
    vault_access d' (u_id target) vault = Some (Collaborator (u_id target) vault (vs_uid item)) /\
    (forall u id, (u, id) <> (u_id target, vault) -> vault_access d' u id = vault_access d u id) /\
    count (active_in vault) (memberships d') <= MAX_ACTIVE_COLLABORATORS_PER_VAULT /\
    (forall now2, live_session now2 h owner d' ->
       invite_collaborator_for_session now2 owner h vault email d' = Ok (item, d')).
Proof.
  intros Hd H. pose proof (invite_collaborator_ok _ _ _ _ _ _ _ _ Hd H) as Hd'.
  apply invite_spec in H as (e & target & He & Ht & Hem & Hst & Hno & Hown & Hitem & Hcase); [|done].
  exists target.
  assert (member_of d' vault (u_id target) (vs_uid item)) as Hmem.
  { destruct Hcase as [[-> H]|(_ & _ & _ & _ & Ems)]; [done|]. eexists. rewrite Ems.
    split; [apply in_or_app; right; left; reflexivity|done]. }
  assert (users d' = users d /\ vaults d' = vaults d) as [Hu Hv] by (destruct Hcase as [[-> _]|(_ & ? & ? & _)]; done).
  split_and!; try done.
  - rewrite Hitem. done.
  - apply vault_access_spec; eauto.
  - intros u id Hne. destruct Hcase as [[-> _]|(_ & _ & _ & _ & Ems)]; [done|].
    apply access_ext; [done|done|unfold owner_of; rewrite Hv; done|]. intros uid. unfold member_of. rewrite Ems. split.
    + intros (m & Hm & Hmv & Hmu & Hmi & Hr). exists m. split; [|done].
      apply in_app_or in Hm as [Hm|[<-|[]]]; [eapply prune_revoked_sub; eauto|]. cbn in *. congruence.
    + intros (m & Hm & Hmv & Hmu & Hmi & Hr). exists m. split; [|done]. apply in_or_app. left.
      apply in_prune_revoked; auto. apply (ok_memberships _ d Hd).
  - apply (ms_active _ _ _ _ (ok_memberships _ d' Hd') vault).
  - intros now2 Hlive. unfold invite_collaborator_for_session. rewrite He.
    rewrite (proj2 (authorize_spec now2 h owner d') Hlive).
    assert (owns_vault d' vault owner = true) as ->.
    { apply in_owners in Hown as (v & Hv0 & Hid & Ho). apply exists_row_spec. exists v. rewrite Hv.
      rewrite Hid, Ho, String.eqb_refl, Z.eqb_refl. done. }
    assert (query_row (fun u => String.eqb (u_email_canonical u) (ce_canonical e) && String.eqb (u_status u) "active")
              (users d') = Some target) as ->.
    { destruct (query_row _ (users d')) as [w|] eqn:Eq.
      - apply query_row_some in Eq as [Hw Hwp]. breflect. f_equal. rewrite Hu in Hw.
        eapply (nodup_map_inj u_email_canonical); [apply (ok_users _ d Hd)|..]; auto. congruence.
      - rewrite Hu in Eq. pose proof (proj1 (query_row_none _ _) Eq target Ht) as Hn. cbn beta in Hn.
        rewrite Hem, Hst, String.eqb_refl in Hn. done. }
    rewrite (proj2 (Z.eqb_neq _ _)) by done. cbn [negb].
    destruct (query_row _ (memberships d')) as [m|] eqn:Eq.
    + apply query_row_some in Eq as [Hm Hmp]. unfold active_in, membership_active in Hmp. breflect.
      assert (member_of d' vault (u_id target) (m_id m)) as Hm2.
      { exists m. split_and!; try done. destruct (m_revoked_at m); done. }
      rewrite (member_unique d' _ _ _ _ Hd' Hm2 Hmem), <- Hitem. done.
    + exfalso. destruct Hmem as (m & Hm & Hmv & Hmu & _ & Hr).
      pose proof (proj1 (query_row_none _ _) Eq m Hm) as Hn. cbn beta in Hn.
      unfold active_in, membership_active in Hn. rewrite Hmv, Hmu, Hr, String.eqb_refl, Z.eqb_refl in Hn. done.
Qed.

Lemma invite_grants_access_witness :
  exists item d', invite_collaborator_for_session 2000 1 token_a "vault-1" "bob@EXAMPLE.test" demo_db = Ok (item, d') /\
    count (active_in "vault-1") (memberships d') <= MAX_ACTIVE_COLLABORATORS_PER_VAULT.
Proof.
  destruct (invite_collaborator_for_session 2000 1 token_a "vault-1" "bob@EXAMPLE.test" demo_db)
    as [[item d']|] eqn:E; [|vm_compute in E; discriminate].
  exists item, d'. split; [reflexivity|].
  destruct (invite_grants_access _ _ _ _ _ _ _ _ demo_db_ok E) as (t & _ & _ & _ & _ & _ & H & _). exact H.
Defined.

(** ** Removal *)

(** ** Removal *)
Lemma remove_none now actor h vault uid d d' :
  db_ok d -> remove_collaborator_for_session now actor h vault uid d = Ok (None, d') -> d' = d.
Proof.
  intros Hd H. unfold remove_collaborator_for_session in H. step_in H.
  destruct (query_row (share_target uid vault) (memberships d)) as [m|] eqn:Em; [|simplify_eq; done].
  destruct (find_vault_row d vault) as [v|]; [|simplify_eq; done].
  destruct (_ && _); [simplify_eq; done|]. cbn zeta in H. apply query_row_some in Em as [Hm Hmt].
  rewrite (count_one m_id (share_target uid vault) _ m), Z.eqb_refl in H;
    [done|apply increasing_nodup, (ok_memberships _ d Hd)|done..|].
  intros y _ Hy. unfold share_target in *. breflect. congruence.
Qed.

(** A removal takes exactly the collaborator's own membership away. *)
Lemma remove_spec now actor h vault uid u d d' :
  db_ok d -> remove_collaborator_for_session now actor h vault uid d = Ok (Some u, d') ->
  member_of d vault u uid /\ (owner_of d vault actor \/ actor = u) /\ d' = with_memberships d (memberships d') /\
  forall w id x, member_of d' id w x <-> member_of d id w x /\ (w, id) <> (u, vault).
Proof.
  intros Hd H. unfold remove_collaborator_for_session in H. step_in H. clear E.
  destruct (query_row (share_target uid vault) (memberships d)) as [m|] eqn:Em; [|simplify_eq; done].
  destruct (find_vault_row d vault) as [v|] eqn:Ev; [|simplify_eq; done].
  destruct (_ && _) eqn:Eact; [simplify_eq; done|]. cbn zeta in H.
  apply query_row_some in Em as [Hm Hmt]. destruct (_ =? 1); [|done]. injection H as <- Ed'.
  pose proof Hmt as Hmt0. unfold share_target, membership_active in Hmt. breflect.
  assert (forall x, In x (memberships d) -> share_target uid vault x = true -> x = m) as Huniq.
  { intros x Hx Hxt. unfold share_target in Hxt. breflect.
    eapply (increasing_inj m_id); [apply (ok_memberships _ d Hd)|..]; auto. congruence. }
  split_and!.
  - exists m. split_and!; try done. destruct (m_revoked_at m); done.
  - apply andb_false_iff in Eact as [E|E]; breflect; [left|right; done]. subst actor. apply find_vault_owner. done.
  - rewrite <- Ed'. done.
  - intros w id x. unfold member_of. rewrite <- Ed'. cbn [memberships with_memberships]. setoid_rewrite in_update. split.
    + intros (y & (y0 & Hy0 & Ey) & Hv & Hu & Hi & Hr).
      destruct (share_target uid vault y0) eqn:Et; [subst y; done|]. subst y0. split; [exists y; done|].
      intros [= -> ->]. assert (y = m) as ->; [|congruence].
      eapply (nodup_map_inj active_pair); [apply (ms_unique _ _ _ _ (ok_memberships _ d Hd))|..].
      * apply in_select. split; [done|]. unfold membership_active. rewrite Hr. done.
      * apply in_select. split; [done|]. unfold membership_active. done.
      * unfold active_pair. congruence.
    + intros [(y & Hy & Hv & Hu & Hi & Hr) Hne]. exists y. split; [|done]. exists y. split; [done|].
      destruct (share_target uid vault y) eqn:Et; [|done]. rewrite (Huniq y Hy Et) in Hv, Hu. congruence.
Qed.

(** Without access to a vault no session of the user is valid for it. *)
Lemma no_access_no_session d u vault t hash s :
  db_ok d -> vault_access d u vault = None ->
  In s (sessions d) -> s_user_id s = u -> s_token_hash s = hash -> valid_session_for_vault t hash vault d = false.
Proof.
  intros Hd Hnone Hs Hsu Hsh. unfold valid_session_for_vault. destruct (_ || _); [done|].
  apply exists_row_false. intros s' Hs'. destruct (session_live t hash s') eqn:El; [|done].
  unfold session_live in El. breflect.
  assert (s' = s) as -> by (eapply (nodup_map_inj s_token_hash); [apply (ok_sessions _ d Hd)|..]; auto; congruence).
  rewrite Hsu. unfold vault_reachable. rewrite (proj2 (exists_row_false _ _)); [apply andb_false_r|].
  intros w Hw. apply andb_false_iff. destruct (String.eqb (v_id w) vault) eqn:Ew; [right|left; done]. breflect.
  apply vault_access_none in Hnone as [Ho Hm']; [|done]. apply orb_false_iff. split.
  - apply Z.eqb_neq. intros Eo. apply Ho. apply in_owners. eauto.
  - apply exists_row_false. intros x Hx. destruct (_ && membership_active x) eqn:Ex; [|done]. breflect.
    exfalso. apply (Hm' (m_id x)). exists x. unfold membership_active in *. split_and!; try congruence; try done.
    destruct (m_revoked_at x); done.
Qed.

(** C23: removing a share cuts the collaborator off at once: only the owner or the
    collaborator can do it, afterwards the collaborator has no access to the vault, no
    session of theirs is valid for it, and nobody else's access changes; a removal that
    answers with nothing changed nothing. *)
Theorem removal_revokes_access now actor h vault uid res d d' :
  db_ok d -> remove_collaborator_for_session now actor h vault uid d = Ok (res, d') ->
  match res with
  | None => d' = d
  | Some u =>
      member_of d vault u uid /\ (owner_of d vault actor \/ actor = u) /\
      vault_access d' u vault = None /\
      (forall t hash s, In s (sessions d') -> s_user_id s = u -> s_token_hash s = hash ->
         valid_session_for_vault t hash vault d' = false) /\
      (forall w id, (w, id) <> (u, vault) -> vault_access d' w id = vault_access d w id)
  end.
Proof.
  intros Hd H. pose proof (remove_collaborator_ok _ _ _ _ _ _ _ _ Hd H) as Hd'.
  destruct res as [u|]; [|by eapply remove_none]. destruct (remove_spec _ _ _ _ _ _ _ _ Hd H) as (Hm & Ha & Ed' & Hmem).
  assert (forall id w, owner_of d' id w <-> owner_of d id w) as Hown by (rewrite Ed'; done).
  assert (vault_access d' u vault = None) as Hnone.
  { apply vault_access_none; [done|]. rewrite Hown. split; [eapply member_not_owner; eauto|].
    intros x Hx. apply Hmem in Hx as [_ Hx]. done. }
  split_and!; try done.
  - intros t hash s. apply no_access_no_session; done.
  - intros w id Hne. apply access_ext; auto. intros x. rewrite Hmem. naive_solver.
Qed.

Lemma removal_revokes_access_witness :
  exists d', remove_collaborator_for_session 2000 1 token_a "vault-1" 1 demo_db = Ok (Some 2, d') /\
    vault_access demo_db 2 "vault-1" <> None /\ vault_access d' 2 "vault-1" = None.
Proof.
  destruct (remove_collaborator_for_session 2000 1 token_a "vault-1" 1 demo_db) as [[r d']|] eqn:E;
    [|vm_compute in E; discriminate].
  assert (r = Some 2) as -> by (vm_compute in E; congruence).
  exists d'. split; [reflexivity|]. split; [vm_compute; discriminate|].
  exact (proj1 (proj2 (proj2 (removal_revokes_access _ _ _ _ _ (Some 2) _ _ demo_db_ok E)))).
Defined.

(** ** Deletion *)
Lemma delete_vault_spec now u h id d d' :
  db_ok d -> delete_vault_internal now u h id d = Ok (true, d') ->
  owner_of d id u /\ exists rts, d' = with_retired (drop_vault d id) rts /\
    exists older, rts = older ++ [{| rt_id := id; rt_owner_user_id := u; rt_retired_at := now |}].
Proof.
  unfold delete_vault_internal. intros Hd H. step_in H. step_in H. step_in H. injection H as <-. breflect.
  apply owns_vault_in in E0 as (v & Hv & Hid & Ho).
  assert (find_vault_row d id = Some v) as Hfind by (rewrite <- Hid; apply find_vault_row_eq; [apply (ok_vaults _ d Hd)|done]).
  destruct (retire_vault_identity_spec _ _ _ _ _ Hfind E1) as (rts & -> & Erts & _).
  split; [apply in_owners; eauto|]. exists rts. split.
  - rewrite (delete_vaults_drop _ id u v); [done|apply (ok_vaults _ d Hd)|done..].
  - rewrite Ho in Erts. eauto.
Qed.

(** Deleting a vault removes it completely and marks its identity as retired:
    no revision, content or membership of it remains, its bytes leave the usage
    counter, its owner is told it is gone, and every other vault keeps its row,
    revisions, content and members. *)
Theorem delete_vault_complete now u h id d d' :
  db_ok d -> delete_vault_internal now u h id d = Ok (true, d') ->
  owner_of d id u /\ ~ In id (vault_ids d') /\ is_retired_vault_for_user u id d' = true /\
  (forall w, vault_access d' w id = None) /\
  (forall r, In r (revisions d') <-> In r (revisions d) /\ r_vault_id r <> id) /\
  (forall m, In m (memberships d') <-> In m (memberships d) /\ m_vault_id m <> id) /\
  (forall v, In v (vaults d') <-> In v (vaults d) /\ v_id v <> id) /\
  (forall r, In r (revisions d') -> stored_bytes d' r = stored_bytes d r) /\
  usage d' = usage d - total_size (select (in_vault id) (revisions d)).
Proof.
  intros Hd H. pose proof (delete_vault_ok _ _ _ _ _ _ _ Hd H) as Hd'.
  apply delete_vault_spec in H as (Hown & rts & Ed' & older & Erts); [|done].
  assert (forall v, In v (vaults d') <-> In v (vaults d) /\ v_id v <> id) as Hv.
  { intros v. rewrite Ed'. cbn. unfold remaining. rewrite in_delete, String.eqb_neq. done. }
  assert (forall r, In r (revisions d') <-> In r (revisions d) /\ r_vault_id r <> id) as Hr.
  { intros r. rewrite Ed'. cbn. rewrite in_delete. unfold in_vault. rewrite String.eqb_neq. done. }
  assert (forall m, In m (memberships d') <-> In m (memberships d) /\ m_vault_id m <> id) as Hm.
  { intros m. rewrite Ed'. cbn. rewrite in_delete, String.eqb_neq. done. }
  split_and!; try done.
  - intros Hin. apply in_map_iff in Hin as (v & E & Hin). apply Hv in Hin as [_ Hne]. done.
  - unfold is_retired_vault_for_user. apply exists_row_spec. eexists. rewrite Ed'. cbn. rewrite Erts.
    split; [apply in_or_app; right; left; reflexivity|]. cbn. rewrite String.eqb_refl, Z.eqb_refl. done.
  - intros w. apply vault_access_none; [done|]. split.
    + intros Ho. apply in_owners in Ho as (v & Hin & E & _). apply Hv in Hin as [_ Hne]. done.
    + intros uid (m & Hin & E & _). apply Hm in Hin as [_ Hne]. done.
  - intros r Hin. apply Hr in Hin as [Hin Hne]. unfold stored_bytes.
    change (external_content d (r_uid r)) with (content_of (contents d) (r_uid r)).
    change (external_content d' (r_uid r)) with (content_of (contents d') (r_uid r)).
    rewrite Ed'. cbn [contents with_retired drop_vault with_vaults with_memberships delete_revisions].
    rewrite content_of_delete; [done|]. intros c Hc Ec. apply exists_row_false. intros x Hx.
    apply in_select in Hx as [Hx Hxv]. apply Z.eqb_neq. intros Eu. unfold in_vault in Hxv. breflect.
    assert (x = r) as -> by (eapply (increasing_inj ruid); [apply (ok_revs _ d Hd)|..]; cbn; auto; lia). done.
  - rewrite Ed'. done.
Qed.

Lemma delete_vault_complete_witness :
  exists d', delete_vault_internal 2000 1 (Some token_a) "vault-1" demo_db = Ok (true, d') /\
    is_retired_vault_for_user 1 "vault-1" d' = true.
Proof.
  destruct (delete_vault_internal 2000 1 (Some token_a) "vault-1" demo_db) as [[b d']|] eqn:E;
    [|vm_compute in E; discriminate].
  assert (b = true) as -> by (vm_compute in E; congruence).
  exists d'. split; [reflexivity|].
  exact (proj1 (proj2 (proj2 (delete_vault_complete _ _ _ _ _ _ demo_db_ok E)))).
Defined.

(** ** Migration *)
Lemma migrate_vault_spec now u h src repl d d' :
  db_ok d -> migrate_vault_internal now u h src repl d = Ok (true, d') ->
  owner_of d src u /\ ~ In (v_id repl) (vault_ids d) /\ exists rts older,
    rts = older ++ [{| rt_id := src; rt_owner_user_id := u; rt_retired_at := now |}] /\
    d' = with_retired (drop_vault (with_memberships (with_vaults d (vaults d ++ [new_vault_row u repl]))
           (move_memberships src (v_id repl) (memberships d))) src) rts.
Proof.
  unfold migrate_vault_internal. intros Hd H. step_in H. step_in H. step_in H. cbn zeta in H. step_in H.
  injection H as <-. breflect. apply owns_vault_in in E0 as (v & Hv & Hid & Ho).
  pose proof (insert_vault_spec _ _ _ E1) as (-> & Hfresh & _). cbn in Hfresh.
  set (d1 := with_memberships _ _) in *.
  assert (NoDup (vault_ids d1)) as Hnd.
  { cbn. apply (nodup_map_snoc vid); [apply (ok_vaults _ d Hd)|done]. }
  assert (In v (vaults d1)) as Hv1 by (cbn; apply in_or_app; auto).
  assert (find_vault_row d1 src = Some v) as Hfind by (rewrite <- Hid; apply find_vault_row_eq; done).
  destruct (retire_vault_identity_spec _ _ _ _ _ Hfind E2) as (rts & -> & Erts & _).
  split; [apply in_owners; eauto|]. split; [done|]. rewrite Ho in Erts. eexists rts, _. split; [exact Erts|].
  rewrite (delete_vaults_drop _ src u v); done.
Qed.

(** The state [migrate_vault] leaves, and who can reach what in it. *)
Definition migrated (d : db) (u : Z) (src : string) (repl : Vault) (rts : list retired_row) : db :=
  with_retired (drop_vault (with_memberships (with_vaults d (vaults d ++ [new_vault_row u repl]))
    (move_memberships src (v_id repl) (memberships d))) src) rts.

Lemma migrated_owner d u src repl rts id w :
  src <> v_id repl ->
  owner_of (migrated d u src repl rts) id w <-> id <> src /\ (owner_of d id w \/ (id, w) = (v_id repl, u)).
Proof.
  intros Hne. unfold owner_of. rewrite !in_owners. cbn [vaults with_retired drop_vault with_vaults migrated].
  unfold remaining. setoid_rewrite in_delete. setoid_rewrite in_app_iff. split.
  - intros (v & [Hin Hx] & <- & <-). breflect. split; [done|]. destruct Hin as [Hin|[<-|[]]]; [left; eauto|right; done].
  - intros [Hx [(v & Hin & <- & <-)|[= -> ->]]].
    + exists v. split_and!; auto. apply String.eqb_neq. done.
    + exists (new_vault_row u repl). split_and!; auto; [right; left; done|]. apply String.eqb_neq. done.
Qed.

Lemma migrated_member d u src repl rts id w uid :
  src <> v_id repl ->
  member_of (migrated d u src repl rts) id w uid <->
  id <> src /\ (member_of d id w uid \/ id = v_id repl /\ member_of d src w uid).
Proof.
  intros Hne. unfold member_of. cbn [memberships with_retired drop_vault with_vaults with_memberships migrated].
  setoid_rewrite in_delete. unfold move_memberships. setoid_rewrite in_update. split.
  - intros (m & ((m0 & Hin & Em) & Hx) & <- & <- & <- & Hr). breflect. split; [done|].
    destruct (String.eqb (m_vault_id m0) src && membership_active m0) eqn:Et; subst m.
    + right. breflect. split; [done|]. exists m0. done.
    + left. exists m0. done.
  - intros [Hx [(m & Hin & <- & <- & <- & Hr)|(-> & m & Hin & Hv & <- & <- & Hr)]].
    + exists m. split; [|done]. split; [|apply String.eqb_neq; done]. exists m. split; [done|].
      rewrite (proj2 (String.eqb_neq _ _)); done.
    + exists (set_membership_vault (v_id repl) m). split; [|done]. split; [|apply String.eqb_neq; done].
      exists m. split; [done|]. rewrite Hv, String.eqb_refl. unfold membership_active. rewrite Hr. done.
Qed.

(** An identity that is not in the vault table has no owner and no members. *)
Lemma fresh_unreachable d id w : db_ok d -> ~ In id (vault_ids d) -> ~ owner_of d id w /\ forall uid, ~ member_of d id w uid.
Proof.
  intros Hd Hfresh. split.
  - intros Hw. apply Hfresh. rewrite <- owners_fst. apply (in_map fst _ (id, w)). exact Hw.
  - intros uid (m & Hin & E & _). exact (no_memberships_of _ d Hd _ m Hfresh Hin E).
Qed.

(** Migrating a vault to a new identity keeps its people and starts an empty
    log: the owner owns the replacement, every active collaborator keeps access to it
    under the same share id, nobody else has access, the replacement has no revisions,
    the source is gone and retired, and other vaults are untouched. *)
Theorem migrate_keeps_collaborators now u h src repl d d' :
  db_ok d -> ~ In (v_id repl) (map rt_id (retired d)) -> v_size repl = 0 ->
  migrate_vault_internal now u h src repl d = Ok (true, d') ->
  owner_of d src u /\ owner_of d' (v_id repl) u /\
  (forall w uid, member_of d' (v_id repl) w uid <-> member_of d src w uid) /\
  (forall w, vault_access d' w (v_id repl) =
     match vault_access d w src with
     | Some (Owner w _) => Some (Owner w (v_id repl))
     | Some (Collaborator w _ uid) => Some (Collaborator w (v_id repl) uid)
     | None => None
     end) /\
  (forall w, vault_access d' w src = None) /\ is_retired_vault_for_user u src d' = true /\
  (forall r, In r (revisions d') <-> In r (revisions d) /\ r_vault_id r <> src) /\
  current_version (v_id repl) d' = 0 /\ vault_size d' (v_id repl) = 0.
Proof.
  intros Hd Hret Hz H. pose proof (migrate_vault_ok _ _ _ _ _ _ _ _ Hd H Hret Hz) as Hd'.
  apply migrate_vault_spec in H as (Hown & Hfresh & rts & older & Erts & Ed'); [|done].
  assert (src <> v_id repl) as Hne.
  { intros E. apply Hfresh. rewrite <- E, <- owners_fst. apply (in_map fst _ (src, u)). exact Hown. }
  assert (forall id w, owner_of d' id w <-> id <> src /\ (owner_of d id w \/ (id, w) = (v_id repl, u))) as Ho
    by (intros; rewrite Ed'; apply migrated_owner; done).
  assert (forall id w uid, member_of d' id w uid <->
            id <> src /\ (member_of d id w uid \/ id = v_id repl /\ member_of d src w uid)) as Hm
    by (intros; rewrite Ed'; apply migrated_member; done).
  pose proof (fun w => fresh_unreachable d (v_id repl) w Hd Hfresh) as Hnew.
  assert (forall w uid, member_of d' (v_id repl) w uid <-> member_of d src w uid) as Hmem.
  { intros w uid. rewrite Hm. split; [intros [_ [Hx|[_ Hx]]]; [exfalso; eapply Hnew; eauto|done]|auto]. }
  assert (owner_of d' (v_id repl) u) as Ho' by (apply Ho; auto).
  split_and!; try done.
  - intros w. destruct (vault_access d w src) as [a|] eqn:Ea.
    + apply vault_access_spec in Ea; [|done]. destruct Ea as [[-> Hw]|(uid & -> & Hw)].
      * assert (w = u) as -> by exact (owner_unique _ d src w u Hd Hw Hown). apply vault_access_spec; [done|]. left. done.
      * apply vault_access_spec; [done|]. right. exists uid. rewrite Hmem. done.
    + apply vault_access_none in Ea as [E1 E2]; [|done]. apply vault_access_none; [done|]. split.
      * rewrite Ho. intros [_ [Hw|[= ->]]]; [exact (proj1 (Hnew w) Hw)|done].
      * intros uid. rewrite Hmem. auto.
  - intros w. apply vault_access_none; [done|]. split; [rewrite Ho; intros [? _]; done|].
    intros uid. rewrite Hm. intros [? _]; done.
  - unfold is_retired_vault_for_user. apply exists_row_spec. eexists. rewrite Ed'. cbn. rewrite Erts.
    split; [apply in_or_app; right; left; reflexivity|]. cbn. rewrite String.eqb_refl, Z.eqb_refl. done.
  - intros r. rewrite Ed'. cbn. rewrite in_delete. unfold in_vault. rewrite String.eqb_neq. done.
  - unfold current_version. assert (In (new_vault_row u repl) (vaults d')) as Hin.
    { rewrite Ed'. cbn. apply in_delete. split; [apply in_or_app; right; left; done|]. apply String.eqb_neq. done. }
    rewrite (find_vault_row_eq d' _ (vaults_nodup _ _ _ (ok_vaults _ d' Hd')) Hin : find_vault_row d' (v_id repl) = _). done.
  - unfold vault_size. rewrite live_size_local by apply (ok_revs _ d' Hd').
    rewrite (select_none (in_vault (v_id repl))); [done|]. intros r Hr. rewrite Ed' in Hr. cbn in Hr.
    apply in_delete in Hr as [Hr _]. apply String.eqb_neq. intros E. apply Hfresh. rewrite <- E.
    apply (ok_revs _ d Hd). done.
Qed.

Lemma migrate_keeps_collaborators_witness :
  exists d', migrate_vault_internal 2000 1 (Some token_a) "vault-1" (demo_vault "vault-2") demo_db = Ok (true, d') /\
    forall w uid, member_of d' "vault-2" w uid <-> member_of demo_db "vault-1" w uid.
Proof.
  destruct (migrate_vault_internal 2000 1 (Some token_a) "vault-1" (demo_vault "vault-2") demo_db) as [[b d']|] eqn:E;
    [|vm_compute in E; discriminate].
  assert (b = true) as -> by (vm_compute in E; congruence).
  exists d'. split; [reflexivity|].
  assert (~ In (v_id (demo_vault "vault-2")) (map rt_id (retired demo_db))) as Hret by (vm_compute; intros []).
  exact (proj1 (proj2 (proj2 (migrate_keeps_collaborators _ _ _ _ (demo_vault "vault-2") _ _ demo_db_ok
    Hret eq_refl E)))).
Defined.
