(* ===== verification/Tenants.v ===== *)
(** * Vaults as an abstract store, and the refinement of the database to it

    What the database layer promises, without tables: a finite map from vault ids to an
    owner, a set of collaborators, a log of revisions with their bytes and a version.
    [astep] is one change an actor may make to it.  [alpha] reads the abstract store off a
    database; every operation of the database changes it by at most one allowed step. *)

From Stdlib Require Import ZArith Lia List String Ascii Bool.
From stdpp Require Import base list strings gmap.
From S2P Require Import Prelude Sql Model Store Auth Accounts Vaults Sharing Revisions Invariant Heads Preservation.
From S2P Require Import Machine Scenario RevisionsSpec VaultsSpec Refine.

Local Open Scope Z_scope.

(** ** The abstract store *)
Definition entry : Type := Revision * option blob.

Record avault := {
  av_owner : Z;
  av_members : gset Z;
  av_log : list entry;
  av_version : Z;
}.

Notation astore := (gmap string avault).

Definition may (u : Z) (a : avault) : Prop := av_owner a = u \/ u ∈ av_members a.
Definition set_log (l : list entry) (v : Z) (a : avault) : avault :=
  {| av_owner := av_owner a; av_members := av_members a; av_log := l; av_version := v |}.
Definition set_members (m : gset Z) (a : avault) : avault :=
  {| av_owner := av_owner a; av_members := m; av_log := av_log a; av_version := av_version a |}.
Definition append (e : entry) (a : avault) : avault := set_log (av_log a ++ [e]) (r_uid (fst e)) a.

(** No revision of any vault has a uid as large. *)
Definition newest_uid (st : astore) (uid : Z) : Prop :=
  forall id a e, st !! id = Some a -> In e (av_log a) -> r_uid (fst e) < uid.

(** The newest entry of its path; a path whose newest entry is a deletion. *)
Definition is_newest (l : list entry) (e : entry) : bool :=
  forallb (fun e' => negb (String.eqb (r_path (fst e')) (r_path (fst e))) || (r_uid (fst e') <=? r_uid (fst e))) l.
Definition tombstoned (l : list entry) (path : string) : bool :=
  existsb (fun e => String.eqb (r_path (fst e)) path && r_deleted (fst e) && is_newest l e) l.

(** The entry an undo of [target] copies: itself, or for a deletion the newest live entry
    of its path before it. *)
Definition copies (l : list entry) (target source : entry) : Prop :=
  In source l /\ r_path (fst source) = r_path (fst target) /\ r_deleted (fst source) = false /\
  r_uid (fst source) <= r_uid (fst target) /\
  forall e, In e l -> r_path (fst e) = r_path (fst target) -> r_deleted (fst e) = false ->
    r_uid (fst e) < r_uid (fst target) -> r_deleted (fst target) = true -> r_uid (fst e) <= r_uid (fst source).

Inductive action :=
| ACreate (id : string)
| APush (n : NewRevision) (file : option blob)
| ARestore (id : string) (uid : Z)
| APurge (id : string)
| AForgetDeleted (id : string)
| ADelete (id : string)
| AMigrate (source target : string)
| AInvite (id : string)
| ARemove (id : string).

(** One change by [actor], a user or ([None]) the operator of the offline commands. *)
Inductive astep (st : astore) : option Z -> action -> astore -> Prop :=
| A_create u id :
    st !! id = None ->
    astep st (Some u) (ACreate id) (<[id := {| av_owner := u; av_members := ∅; av_log := []; av_version := 0 |}]> st)
| A_push u n file a uid ts :
    st !! n_vault_id n = Some a -> may u a -> newest_uid st uid ->
    (forall e, n_expected_version n = Some e -> av_version a = e) ->
    match file with Some b => blob_len b = n_size n | None => n_size n = 0 end ->
    n_user_id n = u ->
    astep st (Some u) (APush n file) (<[n_vault_id n := append (revision_of n ts uid, file) a]> st)
| A_restore u id uid a target source r :
    st !! id = Some a -> may u a -> newest_uid st (r_uid r) ->
    In target (av_log a) -> r_uid (fst target) = uid -> copies (av_log a) target source ->
    r_path r = r_path (fst target) -> r_deleted r = false -> r_folder r = r_folder (fst source) ->
    r_hash r = r_hash (fst source) -> r_size r = r_size (fst source) -> r_user_id r = u ->
    astep st (Some u) (ARestore id uid) (<[id := append (r, snd source) a]> st)
| A_purge u id a :
    st !! id = Some a -> may u a ->
    astep st (Some u) (APurge id) (<[id := set_log (select (is_newest (av_log a)) (av_log a)) (av_version a) a]> st)
| A_forget id a :
    st !! id = Some a ->
    astep st None (AForgetDeleted id)
      (<[id := set_log (select (fun e => is_newest (av_log a) e || negb (tombstoned (av_log a) (r_path (fst e)))) (av_log a))
                 (av_version a) a]> st)
| A_delete u id a :
    st !! id = Some a -> av_owner a = u -> astep st (Some u) (ADelete id) (delete id st)
| A_migrate u source target a :
    st !! source = Some a -> av_owner a = u -> st !! target = None ->
    astep st (Some u) (AMigrate source target)
      (<[target := {| av_owner := u; av_members := av_members a; av_log := []; av_version := 0 |}]> (delete source st))
| A_invite u id a x :
    st !! id = Some a -> av_owner a = u -> x <> u ->
    astep st (Some u) (AInvite id) (<[id := set_members ({[x]} ∪ av_members a) a]> st)
| A_remove u id a x :
    st !! id = Some a -> x ∈ av_members a -> av_owner a = u \/ u = x ->
    astep st (Some u) (ARemove id) (<[id := set_members (av_members a ∖ {[x]}) a]> st).

(** A user changes only vaults they own or collaborate on. *)
Lemma astep_outsider st u act st' id a :
  astep st (Some u) act st' -> st !! id = Some a -> ~ may u a -> st' !! id = Some a.
Proof.
  intros H Hid Hmay.
  assert (forall id' a', st !! id' = Some a' -> may u a' -> id' <> id) as Hne by (intros id' a' H1 H2 ->; simplify_eq; done).
  inversion H; subst; unfold may in Hne;
    rewrite ?lookup_insert_ne, ?lookup_delete_ne; try done; try (by intros ->; simplify_eq);
    eapply Hne; eauto; naive_solver.
Qed.

(** ** The abstract store of a database *)
Definition members_in (ms : list membership_row) (id : string) : gset Z :=
  list_to_set (map m_user_id (select (active_in id) ms)).
Definition entry_of (d : db) (r : revision_row) : entry := (rr_rev r, stored_bytes d r).
Definition log_in (d : db) (id : string) : list entry := map (entry_of d) (select (in_vault id) (revisions d)).
Definition view (d : db) (v : vault_row) : avault :=
  {| av_owner := vr_owner_user_id v; av_members := members_in (memberships d) (v_id v); av_log := log_in d (v_id v);
     av_version := vr_version v |}.
Definition alpha (d : db) : astore := list_to_map (map (fun v : vault_row => (v_id v, view d v)) (vaults d)).

Lemma alpha_lookup d id : alpha d !! id = view d <$> find_vault_row d id.
Proof.
  unfold alpha, find_vault_row, query_row, select. induction (vaults d) as [|v vs IH]; [done|]. cbn.
  destruct (String.eqb_spec (v_id v) id) as [<-|Hne]; [by rewrite lookup_insert_eq|].
  rewrite lookup_insert_ne by done. exact IH.
Qed.

(** The store depends on these columns only. *)
Definition vault_key (v : vault_row) : string * Z * Z := (v_id v, vr_owner_user_id v, vr_version v).
Lemma alpha_same d d' :
  map vault_key (vaults d') = map vault_key (vaults d) -> memberships d' = memberships d ->
  revisions d' = revisions d -> contents d' = contents d -> alpha d' = alpha d.
Proof.
  intros Hv Hm Hr Hc.
  assert (forall d, alpha d = list_to_map (map (fun k => (fst (fst k),
            {| av_owner := snd (fst k); av_members := members_in (memberships d) (fst (fst k));
               av_log := log_in d (fst (fst k)); av_version := snd k |})) (map vault_key (vaults d)))) as E.
  { intros x. unfold alpha. rewrite List.map_map. done. }
  rewrite !E, Hv. f_equal. apply map_ext. intros k. unfold log_in, entry_of, stored_bytes, external_content.
  rewrite Hm, Hr, Hc. done.
Qed.

Lemma in_members ms id x :
  x ∈ members_in ms id <-> exists m, In m ms /\ m_vault_id m = id /\ m_user_id m = x /\ m_revoked_at m = None.
Proof.
  unfold members_in. rewrite elem_of_list_to_set, list_elem_of_In, in_map_iff. setoid_rewrite in_select.
  unfold active_in. split.
  - intros (m & <- & Hm & H). breflect. exists m. unfold membership_active in *. destruct (m_revoked_at m); done.
  - intros (m & Hm & <- & <- & Hr). exists m. unfold membership_active. rewrite Hr, String.eqb_refl. done.
Qed.
Lemma members_iff ms ms' id id' :
  (forall x, (exists m, In m ms /\ m_vault_id m = id /\ m_user_id m = x /\ m_revoked_at m = None) <->
             (exists m, In m ms' /\ m_vault_id m = id' /\ m_user_id m = x /\ m_revoked_at m = None)) ->
  members_in ms id = members_in ms' id'.
Proof. intros H. apply set_eq. intros x. rewrite !in_members. apply H. Qed.

(** Access in the database is access in the store. *)
Lemma access_may d u id :
  db_ok d -> vault_access d u id <> None -> exists v, find_vault_row d id = Some v /\ may u (view d v).
Proof.
  intros Hd H. unfold vault_access in H. destruct (find_vault_row d id) as [v|] eqn:Ev; [|done].
  exists v. split; [done|]. unfold may. cbn. destruct (Z.eqb_spec (vr_owner_user_id v) u) as [|Hne]; [by left|].
  destruct (query_row _ (memberships d)) as [m|] eqn:Em; [|done]. right.
  apply query_row_some in Em as [Hm Em]. breflect. apply in_members. exists m. unfold membership_active in *.
  destruct (m_revoked_at m); done.
Qed.
Lemma authorised_may now th u id d :
  db_ok d -> authorize_mutation now th u id d = Ok tt -> exists v, find_vault_row d id = Some v /\ may u (view d v).
Proof.
  intros Hd H. apply access_may; [done|]. unfold authorize_mutation in H. step_in H. destruct (vault_access d u id); done.
Qed.
Lemma owner_view d id u : db_ok d -> owner_of d id u -> exists v, find_vault_row d id = Some v /\ av_owner (view d v) = u.
Proof.
  intros Hd H. apply in_owners in H as (v & Hv & <- & <-). exists v. split; [|done].
  apply find_vault_row_eq; [apply (ok_vaults _ d Hd)|done].
Qed.

Lemma newest_next d : db_ok d -> newest_uid (alpha d) (seq_revisions d + 1).
Proof.
  intros Hd id a e Ha He. rewrite alpha_lookup in Ha. destruct (find_vault_row d id); [|done]. injection Ha as <-.
  cbn in He. apply in_map_iff in He as (r & <- & Hr). apply in_select in Hr as [Hr _]. cbn.
  pose proof (revs_bounds _ _ _ _ (ok_revs _ d Hd) r Hr). lia.
Qed.

(** ** Appending a revision *)
Section Pushed.
Context (d : db) (row : revision_row) (cs : list content_row) (bytes : option blob) (v : vault_row).
Hypothesis Hd : db_ok d.
Hypothesis Hv : find_vault_row d (r_vault_id row) = Some v.
Hypothesis Huid : r_uid row = seq_revisions d + 1.
Hypothesis Hinline : rr_content row = None.
Hypothesis Hbytes :
  cs = [] /\ bytes = None \/ exists b, cs = [{| rc_uid := r_uid row; rc_content := b |}] /\ bytes = Some b.

Lemma pushed_content uid :
  content_of (contents d ++ cs) uid = if uid =? r_uid row then bytes else content_of (contents d) uid.
Proof using Hd Huid Hbytes.
  assert (content_of (contents d) (r_uid row) = None) as Hnone.
  { eapply content_of_fresh; [apply (ok_contents _ d Hd)|]. apply fresh_uid; done. }
  destruct Hbytes as [[-> ->]|(b & -> & ->)].
  - rewrite app_nil_r. destruct (Z.eqb_spec uid (r_uid row)) as [->|]; done.
  - rewrite content_of_snoc. cbn. rewrite (Z.eqb_sym (r_uid row)).
    destruct (Z.eqb_spec uid (r_uid row)) as [->|]; [by rewrite Hnone|]. destruct (content_of _ uid); done.
Qed.

Lemma pushed_bytes (r : revision_row) :
  stored_bytes (pushed d row cs) r
  = match (if r_uid r =? r_uid row then bytes else content_of (contents d) (r_uid r)), rr_content r with
    | Some b, None | None, Some b => Some b
    | _, _ => None
    end.
Proof using Hd Huid Hbytes.
  unfold stored_bytes.
  change (external_content (pushed d row cs) (r_uid r)) with (content_of (contents d ++ cs) (r_uid r)).
  rewrite pushed_content. done.
Qed.

Lemma log_pushed id :
  log_in (pushed d row cs) id
  = log_in d id ++ (if String.eqb (r_vault_id row) id then [(rr_rev row, bytes)] else []).
Proof using Hd Huid Hbytes Hinline.
  unfold log_in. cbn [revisions pushed refresh_vault with_vaults]. rewrite select_app, map_app. f_equal.
  - apply map_ext_in. intros r Hr. apply in_select in Hr as [Hr _]. unfold entry_of. f_equal. rewrite pushed_bytes.
    destruct (Z.eqb_spec (r_uid r) (r_uid row)) as [E|]; [|done].
    pose proof (revs_bounds _ _ _ _ (ok_revs _ d Hd) r Hr). lia.
  - unfold select, in_vault. cbn. destruct (String.eqb (r_vault_id row) id); [|done]. cbn. unfold entry_of.
    rewrite pushed_bytes, Z.eqb_refl, Hinline. destruct bytes; done.
Qed.

Lemma alpha_pushed :
  alpha (pushed d row cs) = <[r_vault_id row := append (rr_rev row, bytes) (view d v)]> (alpha d).
Proof using All.
  apply map_eq. intros id. rewrite alpha_lookup. unfold pushed at 2. rewrite find_refresh.
  change (find_vault_row {| users := _ |} id) with (find_vault_row d id).
  destruct (String.eqb_spec (r_vault_id row) id) as [<-|Hne].
  - rewrite lookup_insert_eq, Hv. cbn. apply find_vault_row_in in Hv as [_ Hid].
    rewrite Hid, String.eqb_refl. unfold view, append, set_log. cbn. f_equal. f_equal.
    rewrite log_pushed, Hid, String.eqb_refl. done.
  - rewrite lookup_insert_ne, alpha_lookup by done. destruct (find_vault_row d id) as [w|] eqn:Ew; [|done]. cbn.
    apply find_vault_row_in in Ew as [_ Hid]. rewrite Hid, (proj2 (String.eqb_neq id (r_vault_id row))) by congruence.
    unfold view. f_equal. f_equal. rewrite log_pushed, Hid, (proj2 (String.eqb_neq _ _)), app_nil_r by done. done.
Qed.
End Pushed.

(** ** Trimming a log *)
Lemma log_trimmed d P id (keep : entry -> bool) :
  increasing ruid (revisions d) ->
  (forall r, In r (revisions d) -> in_vault id r = true -> P r = negb (keep (entry_of d r))) ->
  log_in (delete_revisions d P) id = select keep (log_in d id).
Proof.
  intros Hinc HP. unfold log_in.
  rewrite select_map. cbn [revisions delete_revisions]. rewrite delete_where_select, !select_select.
  rewrite (select_ext _ (fun r => in_vault id r && keep (entry_of d r))).
  2: { intros r Hr. destruct (in_vault id r) eqn:Ei; [|by rewrite andb_false_r]. rewrite (HP r Hr Ei), negb_involutive, andb_true_r. done. }
  apply map_ext_in. intros r Hr. apply in_select in Hr as [Hr Hk]. breflect. unfold entry_of. f_equal.
  apply kept_bytes; [done..|]. rewrite (HP r Hr) by done. rewrite negb_false_iff. done.
Qed.
Lemma alpha_trimmed d P vault v (keep : entry -> bool) :
  db_ok d -> find_vault_row d vault = Some v ->
  (forall r, P r = true -> in_vault vault r = true) ->
  (forall r, In r (revisions d) -> in_vault vault r = true -> P r = negb (keep (entry_of d r))) ->
  alpha (refresh_vault (delete_revisions d P) vault (vr_version v))
  = <[vault := set_log (select keep (log_in d vault)) (vr_version v) (view d v)]> (alpha d).
Proof.
  intros Hd Hv Hsub HP. pose proof (revs_increasing _ _ _ _ (ok_revs _ d Hd)) as Hinc. apply map_eq. intros id. rewrite alpha_lookup, find_refresh.
  change (find_vault_row (delete_revisions d P) id) with (find_vault_row d id).
  change (view (refresh_vault (delete_revisions d P) vault (vr_version v))) with (view (delete_revisions d P)).
  destruct (String.eqb_spec vault id) as [<-|Hne].
  - rewrite lookup_insert_eq, Hv. cbn. apply find_vault_row_in in Hv as [_ Hid].
    rewrite Hid, String.eqb_refl. unfold view, set_log. cbn. rewrite Hid. do 2 f_equal. apply log_trimmed; done.
  - rewrite lookup_insert_ne, alpha_lookup by done. destruct (find_vault_row d id) as [w|] eqn:Ew; [|done]. cbn.
    apply find_vault_row_in in Ew as [_ Hid]. rewrite Hid, (proj2 (String.eqb_neq id vault)) by congruence.
    unfold view. do 2 f_equal. rewrite Hid, (log_trimmed d P id (fun _ => true) Hinc).
    + apply select_true. done.
    + intros r _ Hi. destruct (P r) eqn:Ep; [|done]. apply Hsub in Ep. unfold in_vault in *. breflect. congruence.
Qed.

(** Heads of the table are the newest entries of the log. *)
Lemma newest_head d vault (r : revision_row) :
  In r (revisions d) -> in_vault vault r = true ->
  is_newest (log_in d vault) (entry_of d r) = true <-> is_head (select (in_vault vault) (revisions d)) r.
Proof.
  intros Hr Hi. unfold is_newest, is_head, log_in. rewrite forallb_forall. split.
  - intros H. split; [by apply in_select|]. intros x Hx Ep. specialize (H (entry_of d x) (in_map _ _ _ Hx)). cbn in H.
    rewrite Ep, String.eqb_refl in H. cbn in H. breflect. done.
  - intros [_ H] e He. apply in_map_iff in He as (x & <- & Hx). cbn.
    destruct (String.eqb_spec (r_path x) (r_path r)) as [E|]; [|done]. cbn. apply Z.leb_le. auto.
Qed.

(** ** Each operation is a step *)
Lemma expected_version d (n : NewRevision) v e :
  find_vault_row d (n_vault_id n) = Some v -> check_expected_version d n = Ok tt -> n_expected_version n = Some e ->
  vr_version v = e.
Proof. intros Hv H He. unfold check_expected_version in H. rewrite He, Hv in H. steps_in H. breflect. done. Qed.

Lemma push_file_step now n th file q oq rev d d' :
  db_ok d -> add_file_revision_internal now n th file q oq d = Ok (rev, d') ->
  astep (alpha d) (Some (n_user_id n)) (APush n (Some file)) (alpha d').
Proof.
  intros Hd H. apply push_file_spec in H as (G & _ & _ & _ & _ & Hlen & _ & ->); [|done].
  destruct (authorised_may _ _ _ _ _ Hd (pg_auth _ _ _ _ _ _ G)) as (v & Hv & Hmay).
  rewrite (alpha_pushed d (new_row now n d) _ (Some file) v); [|by eauto..].
  apply A_push; try done; [by rewrite alpha_lookup, Hv|apply newest_next; done|].
  intros e He. eapply expected_version; eauto. apply G.
Qed.

Lemma push_empty_step now n th q oq rev d d' :
  db_ok d -> add_empty_revision_internal now n th q oq d = Ok (rev, d') ->
  astep (alpha d) (Some (n_user_id n)) (APush n None) (alpha d').
Proof.
  intros Hd H. apply push_empty_spec in H as (G & Hs & _ & _ & ->); [|done].
  destruct (authorised_may _ _ _ _ _ Hd (pg_auth _ _ _ _ _ _ G)) as (v & Hv & Hmay).
  rewrite (alpha_pushed d (new_row now n d) _ None v); [|by eauto..].
  apply A_push; try done; [by rewrite alpha_lookup, Hv|apply newest_next; done|].
  intros e He. eapply expected_version; eauto. apply G.
Qed.

Lemma restorable_copies d vault target source :
  In target (revisions d) -> restorable d vault target source ->
  copies (log_in d vault) (entry_of d target) (entry_of d source).
Proof.
  intros Ht (Hs & Hv & Hp & Hdel & Hle & Hmax). unfold log_in. split_and!; try done.
  - apply in_map, in_select. unfold in_vault. rewrite Hv, String.eqb_refl. done.
  - intros e He. apply in_map_iff in He as (x & <- & Hx). apply in_select in Hx as [Hx Hxv]. unfold in_vault in Hxv. breflect.
    apply Hmax; done.
Qed.

Lemma restore_step nl now u th vault uid dev gl ol rev d d' :
  db_ok d -> restore_internal nl now u th vault uid dev gl ol d = Ok (Some rev, d') ->
  astep (alpha d) (Some u) (ARestore vault uid) (alpha d').
Proof.
  intros Hd H. apply restore_spec in H as (target & source & cs & Ht & Hu & Htv & Hr & Ha & _ & _ & -> & Hcs); [|done].
  destruct (authorised_may _ _ _ _ _ Hd Ha) as (v & Hv & Hmay).
  assert (r_vault_id source = vault) as Hsv by apply Hr.
  set (row := restored_row source (r_path target) dev u now (seq_revisions d + 1)) in *.
  assert (r_vault_id row = vault) as Hrv by done.
  rewrite (alpha_pushed d row cs (stored_bytes d source) v); [|done|by rewrite Hrv|done|done|].
  - rewrite Hrv. eapply (A_restore _ u vault uid (view d v) (entry_of d target) (entry_of d source) row); try done.
    + by rewrite alpha_lookup, Hv.
    + apply newest_next; done.
    + cbn. apply find_vault_row_in in Hv as [_ ->]. apply in_map, in_select. unfold in_vault. rewrite Htv, String.eqb_refl. done.
    + cbn. apply find_vault_row_in in Hv as [_ ->]. apply restorable_copies; done.
  - destruct Hcs as [[Hs ->]|(_ & b & Hb & ->)]; [left|right; eauto]. split; [done|].
    destruct Hr as (Hin & _). pose proof (contents_placed _ _ (ok_contents _ d Hd) source Hin) as Hp.
    unfold content_placed in Hp. unfold stored_bytes.
    change (external_content d (r_uid source)) with (content_of (contents d) (r_uid source)).
    destruct (rr_content source), (content_of (contents d) (r_uid source)); try done; lia.
Qed.

Lemma purge_step now u th vault d d' :
  db_ok d -> purge_internal now u th vault d = Ok (tt, d') -> astep (alpha d) (Some u) (APurge vault) (alpha d').
Proof.
  intros Hd H. unfold purge_internal in H. steps_in H.
  destruct value, (authorised_may _ _ _ _ _ Hd E) as (w & Hw & Hmay).
  assert (w = v) as -> by (change (find_vault_row d vault = Some v) in E0; congruence).
  rewrite (alpha_trimmed d _ vault v (is_newest (log_in d vault))); [|done|done|by intros r Hr; breflect|].
  - pose proof Hw as Hid. apply find_vault_row_in in Hid as [_ <-].
    apply (A_purge (alpha d) u (v_id v) (view d v)); [by rewrite alpha_lookup, Hw|done].
  - intros r Hr Hi. rewrite Hi. cbn. f_equal.
    pose proof (in_head_uids (revisions d) vault r (revs_increasing _ _ _ _ (ok_revs _ d Hd)) Hr) as H1.
    pose proof (newest_head d vault r Hr Hi) as H2.
    destruct (in_list _ _), (is_newest _ _); try done; naive_solver.
Qed.

(** ** Vaults that come and go *)
Lemma member_elem d id x : x ∈ members_in (memberships d) id <-> exists uid, member_of d id x uid.
Proof. rewrite in_members. unfold member_of. naive_solver. Qed.
Lemma members_member d d' id id' :
  (forall x, (exists uid, member_of d id x uid) <-> (exists uid, member_of d' id' x uid)) ->
  members_in (memberships d) id = members_in (memberships d') id'.
Proof. intros H. apply set_eq. intros x. rewrite !member_elem. apply H. Qed.

Lemma log_dropped d id id' :
  increasing ruid (revisions d) -> id' <> id -> log_in (drop_vault d id) id' = log_in d id'.
Proof.
  intros Hinc Hne. change (log_in (drop_vault d id) id') with (log_in (delete_revisions d (in_vault id)) id').
  rewrite (log_trimmed _ _ _ (fun _ => true)); [apply select_true; done|done|].
  intros r _ Hr. unfold in_vault in *. breflect. apply String.eqb_neq. congruence.
Qed.
Lemma find_dropped d id id' :
  find_vault_row (drop_vault d id) id' = if String.eqb id' id then None else find_vault_row d id'.
Proof.
  unfold find_vault_row, query_row. cbn [vaults drop_vault with_vaults]. unfold remaining.
  destruct (String.eqb_spec id' id) as [->|Hne].
  - rewrite (select_none _ _); [done|]. intros v Hv. apply in_delete in Hv as [_ Hv]. done.
  - rewrite select_delete_none; [done|]. intros v _ Hv. breflect. apply String.eqb_neq. congruence.
Qed.
Lemma find_snoc d (w : vault_row) id :
  ~ In (v_id w) (vault_ids d) ->
  find_vault_row (with_vaults d (vaults d ++ [w])) id = if String.eqb id (v_id w) then Some w else find_vault_row d id.
Proof.
  intros Hn. apply find_vault_row_none in Hn. unfold find_vault_row in *. cbn [vaults with_vaults].
  rewrite query_row_app. destruct (String.eqb_spec id (v_id w)) as [->|Hne].
  - rewrite Hn. unfold query_row, select. cbn. rewrite String.eqb_refl. done.
  - destruct (query_row (fun v : vault_row => String.eqb (v_id v) id) (vaults d)); [done|]. unfold query_row, select. cbn.
    rewrite (proj2 (String.eqb_neq (v_id w) id)) by congruence. done.
Qed.
Lemma fresh_log_empty d id : db_ok d -> ~ In id (vault_ids d) -> log_in d id = [].
Proof. intros Hd Hn. unfold log_in. rewrite (no_revisions_of MAX_VAULTS d); done. Qed.
Lemma fresh_members_empty d id : db_ok d -> ~ In id (vault_ids d) -> members_in (memberships d) id = ∅.
Proof.
  intros Hd Hn. apply set_eq. intros x. rewrite in_members. split; [|set_solver].
  intros (m & Hm & Hid & _). exfalso. exact (no_memberships_of MAX_VAULTS d Hd id m Hn Hm Hid).
Qed.

Lemma astep_to st actor act st1 st2 : astep st actor act st1 -> st1 = st2 -> astep st actor act st2.
Proof. by intros ? ->. Qed.

Lemma create_step now u th v d d' :
  db_ok d -> create_vault_internal now u th v d = Ok (tt, d') -> astep (alpha d) (Some u) (ACreate (v_id v)) (alpha d').
Proof.
  intros Hd H. unfold create_vault_internal in H. steps_in H.
  match goal with E : insert_vault _ _ = _ |- _ => apply insert_vault_spec in E as (-> & Hn & _) end. cbn in Hn.
  eapply astep_to; [apply A_create; rewrite alpha_lookup, (proj2 (find_vault_row_none _ _)); done|].
  apply map_eq. intros id. rewrite (alpha_lookup (with_vaults _ _)), (find_snoc d (new_vault_row u v)) by done. cbn.
  destruct (String.eqb_spec id (v_id v)) as [->|Hne].
  - rewrite lookup_insert_eq. cbn. unfold view. cbn. f_equal. f_equal; symmetry.
    + exact (fresh_members_empty d (v_id v) Hd Hn).
    + exact (fresh_log_empty d (v_id v) Hd Hn).
  - rewrite lookup_insert_ne, alpha_lookup by done. done.
Qed.

Lemma delete_step now u th id d d' :
  db_ok d -> delete_vault_internal now u th id d = Ok (true, d') -> astep (alpha d) (Some u) (ADelete id) (alpha d').
Proof.
  intros Hd H. apply delete_vault_spec in H as (Ho & rts & -> & _); [|done].
  destruct (owner_view d id u Hd Ho) as (v & Hv & Hu).
  change (alpha (with_retired (drop_vault d id) rts)) with (alpha (drop_vault d id)).
  eapply astep_to; [eapply A_delete; [by rewrite alpha_lookup, Hv|done]|].
  apply map_eq. intros id'. rewrite (alpha_lookup (drop_vault d id)), find_dropped.
  destruct (String.eqb_spec id' id) as [->|Hne]; [apply lookup_delete_eq|].
  rewrite lookup_delete_ne, alpha_lookup by done. destruct (find_vault_row d id') as [w|] eqn:Ew; [|done]. cbn.
  apply find_vault_row_in in Ew as [_ <-]. unfold view. do 2 f_equal.
  - apply members_iff. intros x. cbn [memberships drop_vault with_vaults with_memberships]. setoid_rewrite in_delete.
    setoid_rewrite String.eqb_neq. naive_solver.
  - symmetry. apply log_dropped; [apply (ok_revs _ d Hd)|done].
Qed.

Lemma migrate_step now u th src repl d d' :
  db_ok d -> migrate_vault_internal now u th src repl d = Ok (true, d') ->
  astep (alpha d) (Some u) (AMigrate src (v_id repl)) (alpha d').
Proof.
  intros Hd H. apply migrate_vault_spec in H as (Ho & Hn & rts & _ & _ & Ed'); [|done].
  change (d' = migrated d u src repl rts) in Ed'. subst d'.
  destruct (owner_view d src u Hd Ho) as (v & Hv & Hu).
  assert (src <> v_id repl) as Hne by (intros ->; exact (proj1 (fresh_unreachable d _ u Hd Hn) Ho)).
  eapply astep_to; [eapply A_migrate; [by rewrite alpha_lookup, Hv|done|by rewrite alpha_lookup, (proj2 (find_vault_row_none _ _))]|].
  apply map_eq. intros id. rewrite (alpha_lookup (migrated _ _ _ _ _)). unfold migrated at 2.
  change (find_vault_row (with_retired ?x rts) id) with (find_vault_row x id). rewrite find_dropped.
  change (find_vault_row (with_memberships ?x ?m) id) with (find_vault_row x id).
  rewrite (find_snoc d (new_vault_row u repl)) by done. cbn [v_id vr_vault new_vault_row].
  assert (forall id', id' <> src -> log_in (migrated d u src repl rts) id' = log_in d id') as Hlog.
  { intros id' Hid. exact (log_dropped (with_memberships (with_vaults d _) _) src id' (revs_increasing _ _ _ _ (ok_revs _ d Hd)) Hid). }
  destruct (String.eqb_spec id (v_id repl)) as [->|Hr].
  - rewrite lookup_insert_eq, (proj2 (String.eqb_neq _ _)) by congruence. cbn. unfold view. cbn. f_equal. f_equal.
    + apply find_vault_row_in in Hv as [_ ->]. apply (members_member d (migrated d u src repl rts)). intros x. setoid_rewrite migrated_member; [|done..].
      split; [naive_solver|]. intros (uid & _ & [Hm|[_ Hm]]); [|eauto].
      exfalso. exact (proj2 (fresh_unreachable d _ x Hd Hn) uid Hm).
    + rewrite Hlog by done. symmetry. apply fresh_log_empty; done.
  - rewrite lookup_insert_ne by done. destruct (String.eqb_spec id src) as [->|Hs]; [apply lookup_delete_eq|].
    rewrite lookup_delete_ne, alpha_lookup by done. destruct (find_vault_row d id) as [w|] eqn:Ew; [|done]. cbn.
    apply find_vault_row_in in Ew as [_ <-]. unfold view. do 2 f_equal; [|by rewrite Hlog].
    apply (members_member d (migrated d u src repl rts)). intros x. setoid_rewrite migrated_member; [|done..]. naive_solver.
Qed.

(** ** Collaborators *)
Lemma alpha_members d d' id v (m : gset Z) :
  vaults d' = vaults d -> revisions d' = revisions d -> contents d' = contents d ->
  find_vault_row d id = Some v ->
  members_in (memberships d') id = m ->
  (forall id', id' <> id -> members_in (memberships d') id' = members_in (memberships d) id') ->
  alpha d' = <[id := set_members m (view d v)]> (alpha d).
Proof.
  intros Ev Er Ec Hv Hm Hother.
  assert (forall id', log_in d' id' = log_in d id') as Hlog.
  { intros id'. unfold log_in, entry_of, stored_bytes, external_content. rewrite Er, Ec. done. }
  apply map_eq. intros id'. rewrite alpha_lookup. unfold find_vault_row. rewrite Ev. fold (find_vault_row d id').
  destruct (decide (id' = id)) as [->|Hne].
  - rewrite lookup_insert_eq, Hv. cbn. apply find_vault_row_in in Hv as [_ Hid]. unfold view, set_members. cbn.
    rewrite Hid, Hm, Hlog. done.
  - rewrite lookup_insert_ne, alpha_lookup by done. destruct (find_vault_row d id') as [w|] eqn:Ew; [|done]. cbn.
    apply find_vault_row_in in Ew as [_ <-]. unfold view. rewrite Hother, Hlog by done. done.
Qed.

Lemma invite_keeps_log now owner h vault email item d d' :
  invite_collaborator_for_session now owner h vault email d = Ok (item, d') ->
  revisions d' = revisions d /\ contents d' = contents d.
Proof.
  intros H. unfold invite_collaborator_for_session in H. steps_in H; [done|].
  match goal with E : insert_membership _ _ = Ok _ |- _ => unfold insert_membership in E; inv_ok E end. done.
Qed.

(** An invitation adds one member, or finds it there. *)
Lemma invite_step now owner h vault email item d d' :
  db_ok d -> invite_collaborator_for_session now owner h vault email d = Ok (item, d') ->
  alpha d' = alpha d \/ astep (alpha d) (Some owner) (AInvite vault) (alpha d').
Proof.
  intros Hd H. pose proof (invite_keeps_log _ _ _ _ _ _ _ _ H) as [Er Ec].
  apply invite_spec in H as (e & target & _ & _ & _ & _ & Hno & Hown & _ & Hcase); [|done].
  destruct Hcase as [[-> _]|(_ & _ & Ev & _ & Ems)]; [by left|right].
  destruct (owner_view d vault owner Hd Hown) as (v & Hv & Hu).
  eapply astep_to; [eapply (A_invite _ owner vault (view d v) (u_id target)); [by rewrite alpha_lookup, Hv|done..]|].
  symmetry. apply (alpha_members d d' vault v); [done..| |].
  - apply find_vault_row_in in Hv as [_ Hid]. cbn. rewrite Hid. apply set_eq. intros x.
    rewrite elem_of_union, elem_of_singleton, !in_members, Ems. setoid_rewrite in_app_iff. split.
    + intros (m & [Hm|[<-|[]]] & Hmv & Hmx & Hr); [right|by left].
      exists m. split; [eapply prune_revoked_sub; eauto|done].
    + intros [->|(m & Hm & Hmv & Hmx & Hr)]; [eexists; split; [right; left; reflexivity|done]|].
      exists m. split; [left; apply in_prune_revoked; auto; apply (ok_memberships _ d Hd)|done].
  - intros id' Hne. apply members_iff. intros x. rewrite Ems. setoid_rewrite in_app_iff. split.
    + intros (m & [Hm|[<-|[]]] & Hmv & Hmx & Hr); [|cbn in Hmv; congruence].
      exists m. split; [eapply prune_revoked_sub; eauto|done].
    + intros (m & Hm & Hmv & Hmx & Hr). exists m.
      split; [left; apply in_prune_revoked; auto; apply (ok_memberships _ d Hd)|done].
Qed.

Lemma remove_step now actor h vault uid x d d' :
  db_ok d -> remove_collaborator_for_session now actor h vault uid d = Ok (Some x, d') ->
  astep (alpha d) (Some actor) (ARemove vault) (alpha d').
Proof.
  intros Hd H. apply remove_spec in H as (Hm & Hact & Ed' & Hmem); [|done].
  assert (exists v, find_vault_row d vault = Some v) as [v Hv].
  { destruct (find_vault_row d vault) as [v|] eqn:Ev; [eauto|]. apply find_vault_row_none in Ev.
    exfalso. exact (proj2 (fresh_unreachable d vault x Hd Ev) uid Hm). }
  pose proof Hv as Hid. apply find_vault_row_in in Hid as [_ Hid].
  assert (forall id, members_in (memberships d') id
            = if decide (id = vault) then members_in (memberships d) id ∖ {[x]} else members_in (memberships d) id) as Hms.
  { intros id. apply set_eq. intros w.
    assert (w ∈ members_in (memberships d') id <-> w ∈ members_in (memberships d) id /\ (w, id) <> (x, vault)) as E.
    { rewrite !member_elem. setoid_rewrite Hmem. naive_solver. }
    rewrite E. destruct (decide (id = vault)) as [->|]; [rewrite elem_of_difference, elem_of_singleton|]; naive_solver. }
  eapply astep_to; [eapply (A_remove _ actor vault (view d v) x); [by rewrite alpha_lookup, Hv|..]|].
  - cbn. rewrite Hid. apply member_elem. eauto.
  - destruct Hact as [Ho|]; [left|by right]. cbn. apply find_vault_owner in Hv. eapply (owner_unique MAX_VAULTS d vault); eauto.
  - symmetry. apply (alpha_members d d' vault v); try (rewrite Ed'; done); [done|..].
    + rewrite Hms, decide_True by done. cbn. rewrite Hid. done.
    + intros id' Hne. rewrite Hms, decide_False by done. done.
Qed.

(** ** The operator's purge *)
Lemma tombstoned_head d vault p :
  tombstoned (log_in d vault) p = true <->
  exists x, is_head (select (in_vault vault) (revisions d)) x /\ r_path x = p /\ r_deleted x = true.
Proof.
  unfold tombstoned. rewrite existsb_exists. split.
  - intros (e & He & H). apply in_map_iff in He as (x & <- & Hx). breflect. exists x. split; [|done].
    apply in_select in Hx as [Hx Hi]. apply newest_head; done.
  - intros (x & Hh & <- & Hdel). pose proof (proj1 Hh) as Hx. exists (entry_of d x). split; [by apply in_map|]. cbn.
    apply in_select in Hx as [Hx Hi]. rewrite String.eqb_refl, Hdel. apply (newest_head d vault x Hx Hi). done.
Qed.

Definition deleted_heads (vault : string) (d : db) : list (string * Z) :=
  select (fun h : string * Z => exists_row (fun r : revision_row => (r_uid r =? snd h) && r_deleted r) (revisions d))
    (group_max (fun r : revision_row => r_path r) by_uid (select (in_vault vault) (revisions d))).

Lemma in_deleted_heads vault d p uid :
  increasing ruid (revisions d) ->
  In (p, uid) (deleted_heads vault d) <->
  exists x, is_head (select (in_vault vault) (revisions d)) x /\ r_path x = p /\ r_uid x = uid /\ r_deleted x = true.
Proof.
  intros Hinc. unfold deleted_heads. rewrite in_select, in_group_max, exists_row_spec. unfold group_head, is_head. cbn. split.
  - intros (((x & Hx & <- & <-) & Hmax) & y & Hy & H). breflect. pose proof Hx as Hx'. apply in_select in Hx' as [Hx' _].
    assert (y = x) as -> by (eapply (increasing_inj ruid); eauto). exists x. split_and!; auto.
  - intros (x & (Hx & Hmax) & <- & <- & Hdel). split; [split; eauto|]. exists x. apply in_select in Hx as [Hx _].
    rewrite Hdel, Z.eqb_refl. done.
Qed.

Lemma forget_step vault n d d' :
  db_ok d -> purge_deleted_history vault d = Ok (n, d') -> astep (alpha d) None (AForgetDeleted vault) (alpha d').
Proof.
  intros Hd H. pose proof (revs_increasing _ _ _ _ (ok_revs _ d Hd)) as Hinc.
  unfold purge_deleted_history in H. fold (deleted_heads vault d) in H. cbn zeta in H. steps_in H.
  change (find_vault_row d vault = Some v) in E1. pose proof E1 as Hid. apply find_vault_row_in in Hid as [_ Hid].
  set (keep := fun e => is_newest (log_in d vault) e || negb (tombstoned (log_in d vault) (r_path (fst e)))).
  rewrite (alpha_trimmed d _ vault v keep); [|done|done|by intros r Hr; breflect|].
  - unfold keep. rewrite <- Hid. apply (A_forget (alpha d) (v_id v) (view d v)). by rewrite alpha_lookup, Hid, E1.
  - intros r Hr Hi. rewrite Hi. cbn [andb]. pose proof (newest_head d vault r Hr Hi) as Hnew.
    apply Bool.eq_iff_eq_true. unfold keep. rewrite negb_true_iff, orb_false_iff, negb_false_iff, tombstoned_head, exists_row_spec.
    split.
    + intros ([p uid] & Hh & H). cbn in H. breflect. apply in_deleted_heads in Hh as (x & Hx & Hp & <- & Hdel); [|done].
      split; [|exists x; cbn; split_and!; congruence]. apply not_true_is_false. rewrite Hnew. intros Hhr.
      assert (r_uid x = r_uid r); [|done]. apply Z.le_antisymm; [apply Hhr|apply Hx]; try congruence; [apply Hx|apply Hhr].
    + intros (Hn & x & Hx & Hp & Hdel). cbn in Hp. exists (r_path x, r_uid x). split; [apply in_deleted_heads; eauto|]. cbn.
      rewrite Hp, String.eqb_refl. cbn. rewrite negb_true_iff. apply Z.eqb_neq. intros Eu.
      assert (x = r) as -> by (eapply (increasing_inj ruid); eauto; destruct Hx as [Hx _]; apply in_select in Hx; apply Hx).
      apply Hnew in Hx. congruence.
Qed.

(** ** The refinement *)
Definition action_of (o : op) : option action :=
  match o with
  | OpCreateVault _ _ v => Some (ACreate (v_id v))
  | OpPushEmpty n _ _ _ => Some (APush n None)
  | OpPushFile n _ file _ _ => Some (APush n (Some file))
  | OpRestore _ _ vault uid _ _ => Some (ARestore vault uid)
  | OpPurge _ _ vault => Some (APurge vault)
  | OpPurgeDeletedHistory vault => Some (AForgetDeleted vault)
  | OpDeleteVault _ _ id => Some (ADelete id)
  | OpMigrateVault _ _ source v => Some (AMigrate source (v_id v))
  | OpInvite _ _ vault _ => Some (AInvite vault)
  | OpRemove _ _ vault _ => Some (ARemove vault)
  | _ => None
  end.
Definition actor_of (o : op) : option Z := option_map fst (session_of o).

(** The steps of the abstract store, labelled with the requests that cause them. *)
Definition store_step (o : op) (st st' : astore) : Prop :=
  exists act, action_of o = Some act /\ astep st (actor_of o) act st'.

Section Refinement.
Context (pp : string -> option PasswordHash) (th : string -> string) (nl : PushNotice -> Z).

Definition db_step (o : op) (d d' : db) : Prop := admissible d o /\ exists now, d' = exec pp th nl now o d.

(** An operation that answers [Ok] makes a step, or leaves the store as it is. *)
Lemma settle_refines {A} d (r : result (A * db)) (step : astore -> Prop) :
  (forall a d', r = Ok (a, d') -> alpha d' = alpha d \/ step (alpha d')) ->
  alpha (settle d r) = alpha d \/ step (alpha (settle d r)).
Proof. destruct r as [[a d']|e]; cbn; [eauto|by left]. Qed.
(** The two databases agree on everything the store is read off, and on the next uid. *)
Definition same_store (d d' : db) : Prop :=
  map vault_key (vaults d') = map vault_key (vaults d) /\ memberships d' = memberships d /\
  revisions d' = revisions d /\ contents d' = contents d /\ seq_revisions d' = seq_revisions d.
Lemma settle_same {A} d (r : result (A * db)) :
  (forall a d', r = Ok (a, d') -> same_store d d') -> same_store d (settle d r).
Proof. destruct r as [[a d']|e]; cbn; [eauto|done]. Qed.

(** Accounts, sessions and labels of vaults are not part of the store. *)
Lemma silent_same now o d : action_of o = None -> same_store d (exec pp th nl now o d).
Proof.
  destruct o; intros E; try discriminate E; cbn [exec];
    try (apply settle_same; intros a d' H).
  - unfold create_user, insert_user in H. inv_ok H. done.
  - unfold create_self_registered_user, insert_user in H. inv_ok H; try done. inv_ok E6. done.
  - unfold set_self_registration_enabled in H. steps_in H. done.
  - unfold set_user_password, update_user_and_revoke in H. steps_in H. done.
  - unfold set_user_email, update_user_and_revoke in H. steps_in H. inv_ok E1. done.
  - unfold set_user_name in H. steps_in H. done.
  - unfold set_user_status in H. steps_in H; done.
  - unfold set_user_role in H. steps_in H. done.
  - unfold revoke_user_sessions in H. steps_in H. done.
  - unfold issue_session_for_user, insert_session in H. inv_ok H. inv_ok E3. done.
  - unfold auth_context_with_renewal, auth_context_hash_with_renewal. repeat case_match; simplify_eq; done.
  - unfold renew_session_for_vault. repeat case_match; simplify_eq; done.
  - done.
  - done.
  - unfold rename_vault_for_session in H. steps_in H. split; [|done]. cbn. apply map_update. done.
  - unfold bind_managed_keyhash_for_session in H. steps_in H; (split; [|done]); cbn; apply map_update; done.
Qed.

Lemma silent_keeps now o d : action_of o = None -> alpha (exec pp th nl now o d) = alpha d.
Proof. intros E. destruct (silent_same now o d E) as (? & ? & ? & ? & _). apply alpha_same; done. Qed.

Lemma store_step_of o act u d d' :
  action_of o = Some act -> actor_of o = u -> astep (alpha d) u act (alpha d') -> store_step o (alpha d) (alpha d').
Proof. intros E <- H. exists act. done. Qed.

Lemma exec_refines now o d :
  db_ok d -> alpha (exec pp th nl now o d) = alpha d \/ store_step o (alpha d) (alpha (exec pp th nl now o d)).
Proof.
  intros Hd. destruct (action_of o) as [act|] eqn:Eact; [|left; by apply silent_keeps].
  destruct o; try discriminate Eact; injection Eact as <-; cbn [exec]; apply settle_refines; intros a d' H.
  - right. destruct a. eapply store_step_of; [done..|]. eapply create_step; eauto.
  - destruct a; [right; eapply store_step_of; [done..|]; eapply delete_step; eauto|left].
    unfold delete_vault_for_session, delete_vault_internal in H. steps_in H. done.
  - destruct a; [right; eapply store_step_of; [done..|]; eapply migrate_step; eauto|left].
    unfold migrate_vault_for_session, migrate_vault_internal in H. steps_in H. done.
  - destruct (invite_step _ _ _ _ _ _ _ _ Hd H); [by left|right]. eapply store_step_of; done.
  - destruct a; [right; eapply store_step_of; [done..|]; eapply remove_step; eauto|left].
    apply remove_none in H as ->; done.
  - right. eapply store_step_of; [done..|]. eapply push_empty_step; eauto.
  - right. eapply store_step_of; [done..|]. eapply push_file_step; eauto.
  - destruct a; [right; eapply store_step_of; [done..|]; eapply restore_step; eauto|left].
    unfold restore_for_session, restore_internal in H. steps_in H; done.
  - right. destruct a. eapply store_step_of; [done..|]. eapply purge_step; eauto.
  - right. eapply store_step_of; [done..|]. eapply forget_step; eauto.
Qed.

#[global] Instance database_refines : Refines db_ok db_step store_step alpha.
Proof.
  split; intros o d d' Hd (Ha & now & ->); [by apply exec_ok|by apply exec_refines].
Qed.

(** C2: The database implements the abstract store of vaults. For every run of its
    operations, of any length, from a consistent database, the abstract store (owner,
    collaborators, log with the stored bytes, and version of every vault) goes through a run
    of allowed steps of the requests themselves, in their order: each request makes the one
    step it is named after, as the user who sent it, or changes nothing. *)
Theorem database_refines_vaults d ls d' :
  db_ok d -> trace db_step d ls d' -> exists ls', sublist ls' ls /\ trace store_step (alpha d) ls' (alpha d').
Proof. intros Hd H. eapply refines_trace; done. Qed.

(** A request that cannot touch a vault: its sender is neither the owner nor a
    collaborator, and it is not the operator's history purge of this vault. *)
Definition foreign (id : string) (a : avault) (o : op) : Prop :=
  (forall u, actor_of o = Some u -> ~ may u a) /\ action_of o <> Some (AForgetDeleted id).

Lemma foreign_step id a o st st' : foreign id a o -> st !! id = Some a -> store_step o st st' -> st' !! id = Some a.
Proof.
  intros [Hu Hf] Hid (act & Eact & H). destruct (actor_of o) as [u|].
  - eapply astep_outsider; eauto.
  - inversion H; subst. rewrite lookup_insert_ne; [done|]. intros ->. done.
Qed.

(** C8: Vaults are isolated from the other users of the server. Whatever requests users who
    may not use a vault send, interleaved in any way with account and session operations and
    operator commands on other vaults, its owner, its collaborators, every revision with its
    stored bytes, and its version stay as they are. *)
Theorem tenant_isolation d ls d' id a :
  db_ok d -> trace db_step d ls d' -> alpha d !! id = Some a -> Forall (foreign id a) ls -> alpha d' !! id = Some a.
Proof.
  intros Hd Ht Hid Hall.
  exact (refines_stable (fun st => st !! id = Some a) (foreign id a) (fun o st st' => foreign_step id a o st st') d ls d' Ht Hd Hall Hid).
Qed.
End Refinement.

(** ** Concrete runs *)
Notation demo_step := (db_step demo_parse demo_token_hash demo_notice_len).

Lemma run_trace ops d : run_admissible ops d = true -> trace demo_step d (map snd ops) (run ops d).
Proof.
  revert d. induction ops as [|[now o] ops IH]; intros d H; cbn in *; [constructor|]. breflect.
  econstructor; [|apply IH; done]. split; [by apply admissibleb_spec|by exists now].
Qed.

(** The whole run of the scenario, from the initialised database. *)
Lemma database_refines_vaults_witness :
  exists ls', sublist ls' (map snd (demo_setup ++ demo_edits)) /\
    trace store_step (alpha (initial_db 500 demo_user)) ls' (alpha (run (demo_setup ++ demo_edits) (initial_db 500 demo_user))).
Proof.
  apply (database_refines_vaults demo_parse demo_token_hash demo_notice_len (initial_db 500 demo_user)
           (map snd (demo_setup ++ demo_edits))); [apply initial_db_ok|].
  apply run_trace. vm_compute. reflexivity.
Defined.

(** Carol signs in, makes a vault of her own, writes to it and tries to purge, take and
    read Ann's: hers exists afterwards, and Ann's is as it was. *)
Definition token_c : string := repeat_char "c"%char 64.
Definition carol_run : list (Z * op) :=
  [ (2000, OpCreateUser "carol@example.test" "Carol" "$argon2id$demo");
    (2100, OpIssueSession token_c 3 3600);
    (2200, OpCreateVault 3 token_c (demo_vault "vault-3"));
    (2300, OpPurge 3 token_c "vault-1");
    (2400, OpDeleteVault 3 token_c "vault-1");
    (2500, OpInvite 3 token_c "vault-1" "carol@example.test");
    (2600, OpPushFile (demo_revision "a.md" false false 4 3) token_c (demo_bytes 4) 1000 1000) ].

Lemma tenant_isolation_witness :
  alpha (run carol_run demo_db) !! "vault-1"%string = alpha demo_db !! "vault-1"%string /\
  alpha (run carol_run demo_db) !! "vault-3"%string <> None.
Proof.
  split; [|vm_compute; discriminate].
  destruct (alpha demo_db !! "vault-1"%string) as [a|] eqn:Ea; [|vm_compute in Ea; discriminate].
  apply (tenant_isolation demo_parse demo_token_hash demo_notice_len demo_db (map snd carol_run)).
  - apply demo_db_ok.
  - apply run_trace. vm_compute. reflexivity.
  - exact Ea.
  - assert (~ may 3 a) as Hc.
    { assert (av_owner a = 1 /\ bool_decide (3 ∈ av_members a) = false) as [Ho Hm].
      { assert ((fun a => (av_owner a, bool_decide (3 ∈ av_members a))) <$> (alpha demo_db !! "vault-1"%string) = Some (1, false)) as E
          by (vm_compute; reflexivity).
        rewrite Ea in E. injection E as H1 H2. split; [exact H1|exact H2]. }
      apply bool_decide_eq_false in Hm. intros [H|H]; [rewrite Ho in H; discriminate H|exact (Hm H)]. }
    assert (forall o, actor_of o = Some 3 -> action_of o <> Some (AForgetDeleted "vault-1") -> foreign "vault-1" a o) as Hf.
    { intros o Ho Hn. split; [|exact Hn]. intros u Hu. rewrite Ho in Hu. injection Hu as <-. exact Hc. }
    repeat (apply List.Forall_cons; [first [apply Hf; [reflexivity|discriminate] | split; [intros u Hu; discriminate Hu|discriminate]]|]).
    apply List.Forall_nil.
Defined.
