(* ===== verification/Verify.v ===== *)
(** * Validation of a database ([verify_connection] and its parts)

    The row checks the server runs on an existing database before it serves it,
    before and after a backup, a restore and every offline command:
    [verify_foreign_keys], [verify_logical_invariants] (for schema version 7),
    [verify_membership_invariants] and [verify_v7_invariants].  The comparison of
    the schema with the expected tables is in [Catalogue], the checks of older versions in
    [Migrations]; what an accepted schema and SQLite guarantee of the rows (typed columns,
    unique keys, rows in rowid order) is the predicate [sqlite_shape]. *)

From Stdlib Require Import ZArith Lia List String Ascii Bool.
From stdpp Require Import base list strings.
From S2P Require Import Prelude Sql Model Store Auth Accounts Vaults Sharing Revisions Invariant Heads Preservation.
From S2P Require Import Machine Scenario.

Local Open Scope Z_scope.

(** ** SQLite text functions *)

(** The bytes before the first NUL, all that [length] and [GLOB] look at. *)
Fixpoint before_nul (l : list ascii) : list ascii :=
  match l with
  | [] => []
  | c :: l => if code c =? 0 then [] else c :: before_nul l
  end.
(** UTF-8 continuation bytes do not start a character. *)
Definition starts_char (c : ascii) : bool := negb (in_range 128 191 (code c)).
Definition char_count (l : list ascii) : Z := Z.of_nat (length (List.filter starts_char l)).
(** [length(X)] of a TEXT: characters before the first NUL. *)
Definition sqlite_length (s : string) : Z := char_count (before_nul (bytes_of s)).
(** [X GLOB '*[^a-b]*']: some character before the first NUL is outside the set. *)
Definition glob_outside (inside : ascii -> bool) (s : string) : bool :=
  existsb (fun c => negb (inside c)) (before_nul (bytes_of s)).
(** [length(X)-length(replace(X,'@',''))]. *)
Definition count_at (s : string) : Z :=
  Z.of_nat (length (List.filter (Ascii.eqb "@"%char) (before_nul (bytes_of s)))).
(** [instr(X,'@')]: 1-based character position of the first one, 0 without. *)
Fixpoint instr_at_from (i : Z) (l : list ascii) : Z :=
  match l with
  | [] => 0
  | c :: l => if Ascii.eqb c "@"%char then i else instr_at_from (if starts_char c then i + 1 else i) l
  end.
Definition instr_at (s : string) : Z := instr_at_from 1 (bytes_of s).

Definition safe (z : Z) : bool := in_range 0 MAX_JS_SAFE_INTEGER z.
Definition safe_id (z : Z) : bool := in_range 1 MAX_JS_SAFE_INTEGER z.
Definition opt_all {A} (p : A -> bool) (o : option A) : bool := match o with Some a => p a | None => true end.

(** [reject_invalid_row]: the query selects the rows that are not [valid]. *)
Definition reject_invalid {A} (valid : A -> bool) (rows : list A) (invariant : string) : result unit :=
  ensure forallb valid rows orelse Bail ("database logical invariant failed (" ++ invariant ++ ")") in Ok tt.
Definition reject_unless (b : bool) (invariant : string) : result unit :=
  ensure b orelse Bail ("database logical invariant failed (" ++ invariant ++ ")") in Ok tt.

(** ** Rows *)
Definition user_valid (u : user_row) : bool :=
  safe_id (u_id u)
  && in_range 3 MAX_EMAIL_BYTES (sqlite_length (u_email_canonical u))
  && negb (glob_outside is_printable (u_email_canonical u))
  && (count_at (u_email_canonical u) =? 1)
  && negb ((instr_at (u_email_canonical u) =? 1)
           || (instr_at (u_email_canonical u) =? sqlite_length (u_email_canonical u)))
  && String.eqb (u_email_canonical u) (to_ascii_lowercase (u_email_canonical u))
  && in_range 3 MAX_EMAIL_BYTES (sqlite_length (u_email u))
  && negb (glob_outside is_printable (u_email u))
  && String.eqb (to_ascii_lowercase (u_email u)) (u_email_canonical u)
  && in_range 1 MAX_DISPLAY_NAME_BYTES (str_len (u_name u))
  && in_range 1 512 (sqlite_length (u_password_hash u))
  && (String.eqb (u_status u) "active" || String.eqb (u_status u) "disabled")
  && safe (u_created_at u)
  && in_range (u_created_at u) MAX_JS_SAFE_INTEGER (u_updated_at u).

Definition vault_fields_valid (v : vault_row) : bool :=
  in_range 1 64 (sqlite_length (v_id v))
  && in_range 1 256 (sqlite_length (v_name v))
  && in_range 1 255 (sqlite_length (v_host v))
  && in_range 1 256 (sqlite_length (v_region v))
  && in_range 0 3 (v_encryption_version v)
  && safe (v_size v) && safe (v_created v) && safe (vr_version v)
  && safe_id (vr_owner_user_id v).

Definition bounded_text (s : string) : bool := in_range 1 4096 (sqlite_length s).
Definition credential_shape_valid (v : vault_row) : bool :=
  match v_password v with
  | None => match v_keyhash v, v_salt v with
            | Some k, Some s => bounded_text k && bounded_text s
            | _, _ => false
            end
  | Some p => (sqlite_length p =? 64) && negb (glob_outside is_lower_hexdigit p)
              && match v_salt v with
                 | Some s => (sqlite_length s =? 32) && negb (glob_outside is_lower_hexdigit s)
                 | None => false
                 end
              && opt_all bounded_text (v_keyhash v)
  end.

Definition revision_metadata_valid (r : revision_row) : bool :=
  safe_id (r_uid r)
  && in_range 1 64 (sqlite_length (r_vault_id r))
  && in_range 1 16384 (sqlite_length (r_path r))
  && opt_all (fun p => sqlite_length p <=? 16384) (r_relatedpath r)
  && (sqlite_length (r_extension r) <=? 256)
  && (sqlite_length (r_hash r) <=? 4096)
  && safe (r_ctime r) && safe (r_mtime r) && safe (r_size r)
  && (0 <=? r_pieces r)
  && (r_pieces r =? (if r_size r =? 0 then 0 else (r_size r + (REVISION_PIECE_SIZE - 1)) / REVISION_PIECE_SIZE))
  && negb ((r_folder r || r_deleted r) && (negb (r_size r =? 0) || negb (r_pieces r =? 0)))
  && in_range 1 256 (sqlite_length (r_device r))
  && safe_id (r_user_id r) && safe (r_ts r).

(** [revisions r LEFT JOIN revision_content rc ON rc.uid=r.uid]. *)
Definition content_location_valid (d : db) (r : revision_row) : bool :=
  let external := external_content d (r_uid r) in
  negb ((r_size r =? 0) && (negb (is_null (rr_content r)) || negb (is_null external)))
  && negb ((0 <? r_size r) && Bool.eqb (is_null (rr_content r)) (is_null external))
  && opt_all (fun b => blob_len b =? r_size r) (rr_content r)
  && opt_all (fun b => blob_len b =? r_size r) external.

Definition version_valid (d : db) (v : vault_row) : bool :=
  (max_of by_uid (select (in_vault (v_id v)) (revisions d)) <=? vr_version v)
  && (vr_version v <=? seq_revisions d).

(** [SUM(size)] of the vault's own rows that are live file heads. *)
Definition head_size (d : db) (id : string) : Z :=
  sum_of (fun r : revision_row => r_size r)
    (select (fun r : revision_row => in_vault id r && in_list (r_uid r) (head_uids (revisions d) id)
               && negb (r_deleted r) && negb (r_folder r)) (revisions d)).

Definition session_valid (s : session_row) : bool :=
  safe_id (s_user_id s)
  && (sqlite_length (s_token_hash s) =? 64) && negb (glob_outside is_lower_hexdigit (s_token_hash s))
  && safe (s_created_at s) && safe_id (s_expires_at s) && (s_created_at s <? s_expires_at s)
  && opt_all (in_range (s_created_at s) MAX_JS_SAFE_INTEGER) (s_revoked_at s).

Definition retired_valid (r : retired_row) : bool :=
  safe_id (rt_owner_user_id r) && in_range 1 64 (sqlite_length (rt_id r)) && safe (rt_retired_at r).

(** [GROUP BY key HAVING COUNT( * ) > n]: some group is too large. *)
Definition group_over {A} (same : A -> A -> bool) (n : Z) (t : list A) : bool :=
  existsb (fun x => n <? count (same x) t) t.

(** ** The passes of [verify_logical_invariants] *)
Section Verify.
Context (parse_password_hash : string -> option PasswordHash).
Context (notice_len : PushNotice -> Z).

Definition verify_users (d : db) : result unit :=
  let? _ := reject_invalid user_valid (users d) "user field types and ranges" in
  let? _ := reject_unless (count_all (users d) <=? MAX_USERS) "user count limit" in
  reject_invalid (fun u => password_hash_is_production_grade parse_password_hash (u_password_hash u))
    (limit MAX_USERS (order_by (asc u_id) (users d))) "user password hash policy".

Definition verify_vaults (d : db) : result unit :=
  let? _ := reject_invalid vault_fields_valid (vaults d) "vault field types and ranges" in
  let? _ := reject_invalid credential_shape_valid (vaults d) "vault encryption credential shape" in
  reject_unless (count_all (vaults d) <=? MAX_VAULTS) "vault count limit".

Definition verify_revisions (d : db) : result unit :=
  let? _ := reject_invalid revision_metadata_valid (revisions d) "revision metadata" in
  ensure forallb (fun r : revision_row => notice_len (notice_of_revision r) <=? MAX_EVENT_BYTES) (revisions d)
    orelse Bail "revision notice exceeds the bounded wire size" in
  reject_invalid (content_location_valid d) (revisions d) "revision content location and byte length".

Definition verify_sequences (d : db) : result unit :=
  let? _ := reject_unless (safe (seq_revisions d) && safe (seq_users d)
                           && opt_all safe (seq_memberships d)) "AUTOINCREMENT sequence" in
  reject_unless (max_of u_id (users d) <=? seq_users d) "user sequence high-water mark".

Definition verify_summaries (d : db) : result unit :=
  let? _ := reject_invalid (version_valid d) (vaults d) "vault version is a valid revision high-water mark" in
  reject_invalid (fun v : vault_row => v_size v =? head_size d (v_id v)) (vaults d)
    "vault size equals current live file heads".

Definition verify_sessions (now : Z) (d : db) : result unit :=
  let? _ := reject_invalid session_valid (sessions d) "session token and timestamps" in
  let? _ := reject_unless (count_all (sessions d) <=? MAX_SESSIONS) "session count limit" in
  reject_unless (negb (group_over (fun x y => s_user_id y =? s_user_id x) MAX_SESSIONS_PER_USER
                   (select (fun s => is_null (s_revoked_at s) && (now <? s_expires_at s)) (sessions d))))
    "active session count per user".

Definition verify_retired (d : db) : result unit :=
  let? _ := reject_invalid retired_valid (retired d) "retired vault marker fields" in
  let? _ := reject_unless (negb (group_over (fun x y => rt_owner_user_id y =? rt_owner_user_id x)
                     MAX_RETIRED_VAULTS_PER_OWNER (retired d))) "retired vault marker count per owner" in
  let? _ := reject_unless (count_all (retired d) <=? MAX_RETIRED_VAULTS) "retired vault marker count" in
  reject_invalid (fun r => negb (exists_row (fun v : vault_row => String.eqb (v_id v) (rt_id r)) (vaults d)))
    (retired d) "active and retired vault identities are disjoint".

Definition verify_logical_invariants (now : Z) (d : db) : result unit :=
  let? _ := verify_users d in
  let? _ := verify_vaults d in
  let? _ := verify_revisions d in
  let? _ := verify_sequences d in
  let? _ := verify_summaries d in
  let? _ := verify_sessions now d in
  verify_retired d.
End Verify.

(** ** Memberships, roles and settings *)
Definition membership_valid (d : db) (m : membership_row) : bool :=
  safe_id (m_id m) && negb (sqlite_length (m_vault_id m) =? 0)
  && match vault_owner_user_id (m_vault_id m) d with Some o => negb (m_user_id m =? o) | None => true end.

Definition same_vault (x y : membership_row) : bool := String.eqb (m_vault_id y) (m_vault_id x).

Definition verify_membership_invariants (d : db) : result unit :=
  let ms := memberships d in
  ensure forallb (membership_valid d) ms orelse Bail "membership invariant violation" in
  ensure count_all ms <=? MAX_MEMBERSHIPS orelse Bail "membership row limit exceeded" in
  let over_active := group_over same_vault MAX_ACTIVE_COLLABORATORS_PER_VAULT (select membership_active ms) in
  let over_revoked := group_over same_vault MAX_REVOKED_MEMBERSHIPS_PER_VAULT
                        (select (fun m => negb (membership_active m)) ms) in
  ensure negb (over_active || over_revoked) orelse Bail "per-vault membership row limit exceeded" in
  ensure opt_all safe (seq_memberships d)
    orelse Bail "membership sequence exceeds the JavaScript safe integer range" in
  let max_id := max_of m_id ms in
  ensure max_id <=? default 0 (seq_memberships d) orelse Bail "membership sequence is below an issued share UID" in
  ensure negb ((0 <? max_id) && is_null (seq_memberships d)) orelse Bail "membership sequence shape is invalid" in
  Ok tt.

Definition verify_v7_invariants (d : db) : result unit :=
  let? _ := reject_invalid (fun u => String.eqb (u_role u) "admin" || String.eqb (u_role u) "user") (users d) "user role" in
  ensure 1 <=? count (fun u => String.eqb (u_role u) "admin") (users d)
    orelse Bail "database must retain at least one administrator" in
  ensure in_range 0 1 (ss_self_registration_enabled (settings d)) && safe (ss_updated_at (settings d))
    orelse Bail "server settings singleton invariant violation" in
  Ok tt.

(** [PRAGMA foreign_key_check]: every reference has its row. *)
Definition verify_foreign_keys (d : db) : result unit :=
  ensure forallb (fun v : vault_row => user_exists d (vr_owner_user_id v)) (vaults d)
         && forallb (fun r : revision_row => vault_exists d (r_vault_id r) && user_exists d (r_user_id r)) (revisions d)
         && forallb (fun c => exists_row (fun r : revision_row => r_uid r =? rc_uid c) (revisions d)) (contents d)
         && forallb (fun s => user_exists d (s_user_id s)) (sessions d)
         && forallb (fun r => user_exists d (rt_owner_user_id r)) (retired d)
         && forallb (fun m => vault_exists d (m_vault_id m) && user_exists d (m_user_id m)
                              && user_exists d (m_invited_by_user_id m)) (memberships d)
         && user_exists d (ss_updated_by (settings d))
    orelse Bail "SQLite foreign_key_check failed" in
  Ok tt.

(** The row checks of [verify_schema_at_version(c, 7)]. *)
Definition verify_database (parse_password_hash : string -> option PasswordHash) (notice_len : PushNotice -> Z)
    (now : Z) (d : db) : result unit :=
  let? _ := verify_foreign_keys d in
  let? _ := verify_logical_invariants parse_password_hash notice_len now d in
  let? _ := verify_membership_invariants d in
  verify_v7_invariants d.

(** The demo databases pass. *)
Example demo_verifies : verify_database demo_parse demo_notice_len 3000 demo_db = Ok tt.
Proof. vm_compute. reflexivity. Qed.

(** ** The validator establishes the invariant *)

(** What SQLite's storage and unique indexes guarantee of a well-formed file. *)
Record sqlite_shape (d : db) : Prop := {
  sh_users : increasing u_id (users d);
  sh_emails : NoDup (map u_email_canonical (users d));
  sh_vaults : NoDup (vault_ids d);
  sh_revisions : increasing ruid (revisions d);
  sh_contents : NoDup (map rc_uid (contents d));
  sh_sessions : NoDup (map s_token_hash (sessions d));
  sh_retired : NoDup (map rt_id (retired d));
  sh_memberships : increasing m_id (memberships d);
  sh_active_pairs : NoDup (map active_pair (select membership_active (memberships d)));
}.

Lemma group_over_false {A} (same : A -> A -> bool) n t :
  group_over same n t = false -> forall x, In x t -> count (same x) t <= n.
Proof.
  unfold group_over. intros H x Hx.
  destruct (Z.ltb_spec n (count (same x) t)) as [Hlt|]; [|lia]. exfalso.
  assert (existsb (fun x => n <? count (same x) t) t = true); [|congruence].
  apply existsb_exists. exists x. split; [done|]. apply Z.ltb_lt. done.
Qed.

(** A group bound holds of every key, inhabited or not. *)
Lemma group_bound {A} (same : A -> A -> bool) (P : A -> bool) n t :
  0 <= n -> group_over same n t = false ->
  (forall x y, In x t -> In y t -> P x = true -> P y = true -> same x y = true) -> count P t <= n.
Proof.
  intros Hn H Hsame. destruct (exists_row P t) eqn:E.
  - apply exists_row_spec in E as (x & Hx & HP). etransitivity; [|apply (group_over_false same n t H x Hx)].
    apply count_mono. intros y Hy HPy. auto.
  - pose proof (proj2 (count_zero P t) (proj1 (exists_row_false _ _) E)). lia.
Qed.

Lemma reject_invalid_ok {A} (valid : A -> bool) rows label :
  reject_invalid valid rows label = Ok tt <-> forall r, In r rows -> valid r = true.
Proof. unfold reject_invalid. rewrite <- forallb_forall. destruct (forallb valid rows); naive_solver. Qed.

Lemma reject_unless_ok b label : reject_unless b label = Ok tt <-> b = true.
Proof. unfold reject_unless. destruct b; naive_solver. Qed.

Lemma let_ok (x : result unit) (y : result unit) : (let? _ := x in y) = Ok tt <-> x = Ok tt /\ y = Ok tt.
Proof. destruct x as [[]|]; naive_solver. Qed.

Lemma ensure_ok (b : bool) e : (ensure b orelse e in Ok tt) = Ok tt <-> b = true.
Proof. destruct b; naive_solver. Qed.

Lemma foreign_keys_spec d :
  verify_foreign_keys d = Ok tt <->
  (forall v, In v (vaults d) -> In (vr_owner_user_id v) (user_ids d)) /\
  (forall r, In r (revisions d) -> In (r_vault_id r) (vault_ids d) /\ In (r_user_id r) (user_ids d)) /\
  (forall c, In c (contents d) -> In (rc_uid c) (map ruid (revisions d))) /\
  (forall s, In s (sessions d) -> In (s_user_id s) (user_ids d)) /\
  (forall r, In r (retired d) -> In (rt_owner_user_id r) (user_ids d)) /\
  (forall m, In m (memberships d) -> In (m_vault_id m) (vault_ids d) /\ In (m_user_id m) (user_ids d) /\
                                     In (m_invited_by_user_id m) (user_ids d)) /\
  In (ss_updated_by (settings d)) (user_ids d).
Proof.
  unfold verify_foreign_keys. rewrite ensure_ok, !andb_true_iff, !forallb_forall, user_exists_in.
  setoid_rewrite andb_true_iff. setoid_rewrite user_exists_in. setoid_rewrite vault_exists_in.
  assert (forall c, exists_row (fun r : revision_row => r_uid r =? rc_uid c) (revisions d) = true
                    <-> In (rc_uid c) (map ruid (revisions d))) as Hc.
  { intros c. rewrite exists_row_spec, in_map_iff. setoid_rewrite Z.eqb_eq. naive_solver. }
  setoid_rewrite Hc. setoid_rewrite andb_true_iff. setoid_rewrite user_exists_in. setoid_rewrite vault_exists_in.
  naive_solver.
Qed.

Lemma metadata_shape r : revision_metadata_valid r = true -> rev_shape r.
Proof.
  unfold revision_metadata_valid, rev_shape, pieces_shape, safe. intros H.
  repeat (apply andb_true_iff in H as [H ?]). breflect. split; [lia|]. split; [done|].
  intros Hf. match goal with Hn : _ && _ = false |- _ => rename Hn into Hn0 end.
  apply andb_false_iff in Hn0 as [Hn0|Hn0].
  - apply orb_false_iff in Hn0 as [? ?]. destruct Hf; congruence.
  - apply orb_false_iff in Hn0 as [Hz _]. breflect. done.
Qed.

Lemma content_location_placed d (r : revision_row) :
  0 <= r_size r -> content_location_valid d r = true <-> content_placed (contents d) r.
Proof.
  intros Hnn. unfold content_location_valid, content_placed.
  change (external_content d (r_uid r)) with (content_of (contents d) (r_uid r)).
  destruct (rr_content r) as [b|] eqn:Eb, (content_of (contents d) (r_uid r)) as [b'|] eqn:Ec; cbn.
  all: destruct (Z.eqb_spec (r_size r) 0), (Z.ltb_spec 0 (r_size r)); cbn;
    rewrite ?andb_true_iff, ?andb_true_r, ?Z.eqb_eq; try (split; intros; done || lia).
Qed.

Lemma head_size_live d id : increasing ruid (revisions d) -> head_size d id = live_size (revisions d) id.
Proof.
  intros Hinc. unfold head_size, live_size. f_equal. apply select_ext. intros r Hr.
  destruct (in_list (r_uid r) (head_uids (revisions d) id)) eqn:E; [|rewrite andb_false_r; done].
  apply in_head_uids in E as [Hin _]; [|done..]. apply in_select in Hin as [_ ->]. done.
Qed.

Lemma summaries_spec d :
  increasing ruid (revisions d) ->
  verify_summaries d = Ok tt <-> sizes_ok (vaults d) (revisions d) (seq_revisions d).
Proof.
  intros Hinc. unfold verify_summaries. rewrite let_ok, !reject_invalid_ok.
  unfold sizes_ok, summary_ok, version_valid. setoid_rewrite andb_true_iff. setoid_rewrite Z.leb_le.
  setoid_rewrite Z.eqb_eq. setoid_rewrite head_size_live; [|done..].
  change (fun r : revision_row => r_uid r) with by_uid. naive_solver.
Qed.

Section Sound.
Context (pp : string -> option PasswordHash) (nl : PushNotice -> Z) (now : Z) (d : db).
Hypothesis Hshape : sqlite_shape d.
Hypothesis Hver : verify_database pp nl now d = Ok tt.

Lemma verified_parts :
  verify_foreign_keys d = Ok tt /\ verify_users pp d = Ok tt /\ verify_vaults d = Ok tt /\
  verify_revisions nl d = Ok tt /\ verify_sequences d = Ok tt /\ verify_summaries d = Ok tt /\
  verify_sessions now d = Ok tt /\ verify_retired d = Ok tt /\ verify_membership_invariants d = Ok tt /\
  verify_v7_invariants d = Ok tt.
Proof using Hver.
  pose proof Hver as H. unfold verify_database, verify_logical_invariants in H. rewrite !let_ok in H. naive_solver.
Qed.

Lemma verified_users_ok : users_ok (users d) (seq_users d).
Proof using Hshape Hver.
  destruct verified_parts as (_ & Hu & _ & _ & Hs & _). unfold verify_users, verify_sequences in *.
  rewrite !let_ok, !reject_invalid_ok, !reject_unless_ok in *. destruct Hu as (Hu & Hc & _), Hs as (Hsafe & Hmax).
  unfold safe in Hsafe. breflect. constructor; try apply Hshape; try done.
  intros u Hin. specialize (Hu u Hin). unfold user_valid, safe_id in Hu.
  repeat (apply andb_true_iff in Hu as [Hu _]). breflect. pose proof (max_of_ge u_id _ _ Hin). lia.
Qed.

Lemma verified_revs_ok : revs_ok (user_ids d) (vault_ids d) (revisions d) (seq_revisions d).
Proof using Hshape Hver.
  destruct verified_parts as (Hfk & _ & _ & Hr & Hs & Hsum & _). apply foreign_keys_spec in Hfk as (_ & Hfr & _).
  apply summaries_spec in Hsum; [|apply Hshape].
  unfold verify_revisions, verify_sequences in *. rewrite !let_ok, !reject_invalid_ok, !reject_unless_ok in *.
  destruct Hr as (Hmeta & _), Hs as (Hsafe & _). unfold safe in Hsafe. breflect.
  constructor; try apply Hshape; try (intros r Hr; apply Hfr; done); try done.
  - intros r Hin. pose proof (Hmeta r Hin) as Hm. unfold revision_metadata_valid, safe_id in Hm.
    repeat (apply andb_true_iff in Hm as [Hm _]). breflect. split; [lia|].
    destruct (Hfr r Hin) as [Hv _]. apply in_map_iff in Hv as (v & Ev & Hv).
    destruct (Hsum v Hv) as [[Hlo Hhi] _].
    assert (r_uid r <= max_of ruid (select (in_vault (v_id v)) (revisions d))); [|lia].
    apply (max_of_ge ruid). apply in_select. split; [done|]. unfold in_vault. rewrite Ev. apply String.eqb_refl.
  - intros r Hin. apply metadata_shape, Hmeta. done.
Qed.

Lemma verified_memberships_ok : memberships_ok (user_ids d) (owners (vaults d)) (memberships d) (seq_memberships d).
Proof using Hshape Hver.
  destruct verified_parts as (Hfk & _ & _ & _ & _ & _ & _ & _ & Hm & _).
  apply foreign_keys_spec in Hfk as (_ & _ & _ & _ & _ & Hfm & _).
  unfold verify_membership_invariants in Hm. steps_in Hm.
  rewrite forallb_forall in E. breflect.
  assert (forall m, In m (memberships d) -> 1 <= m_id m /\ ~ In (m_vault_id m, m_user_id m) (owners (vaults d))) as Hrow.
  { intros m Hin. specialize (E m Hin). unfold membership_valid, safe_id, vault_owner_user_id in E.
    apply andb_true_iff in E as [E Hmatch]. breflect. split; [lia|].
    intros Ho. apply in_owners in Ho as (v & Hv & Ev & Eo).
    rewrite <- Ev, (find_vault_row_eq d v) in Hmatch by (apply Hshape || done). cbn in Hmatch. breflect. congruence. }
  constructor; try apply Hshape; try (intros m Hin; try apply Hfm; try apply Hrow; done).
  - intros m Hin. pose proof (max_of_ge m_id _ _ Hin). specialize (Hrow m Hin). lia.
  - intros m Hin. rewrite owners_fst. apply Hfm. done.
  - intros id. rewrite (count_ext _ (fun m => membership_active m && String.eqb (m_vault_id m) id)) by (intros; apply andb_comm).
    rewrite <- count_select. eapply (group_bound same_vault); [done|eassumption|].
    intros x y _ _ Hx Hy. unfold same_vault. breflect. apply String.eqb_eq. congruence.
  - done.
  - destruct (seq_memberships d); cbn in *; [|unfold MAX_JS_SAFE_INTEGER; lia]. unfold safe in *. breflect. lia.
Qed.
End Sound.

Lemma validated_ok pp nl now d :
  sqlite_shape d -> verify_database pp nl now d = Ok tt -> db_ok (initialize_runtime_storage_usage d).
Proof.
  intros Hshape Hver. pose proof (verified_parts pp nl now d Hver) as Hparts.
  destruct Hparts as (Hfk & _ & Hva & Hr & _ & Hsum & Hse & Hrt & _).
  apply foreign_keys_spec in Hfk as (Hfv & _ & Hfc & Hfs & Hft & _).
  apply summaries_spec in Hsum; [|apply Hshape].
  unfold verify_vaults, verify_revisions, verify_sessions, verify_retired in *.
  rewrite !let_ok, !reject_invalid_ok, !reject_unless_ok in *.
  destruct Hva as (_ & _ & Hvc), Hse as (_ & Hsc & _), Hrt as (_ & Hro & Hrc & Hrd). breflect.
  constructor; cbn.
  - apply (verified_users_ok pp nl now); done.
  - constructor; [apply Hshape|done|done].
  - apply (verified_revs_ok pp nl now); done.
  - constructor; [apply Hshape|done|]. intros r Hin. apply content_location_placed.
    + apply (verified_revs_ok pp nl now d Hshape Hver). done.
    + destruct Hr as (_ & Hr). destruct (forallb _ _) in Hr; [|done]. rewrite reject_invalid_ok in Hr. auto.
  - done.
  - done.
  - constructor; [apply Hshape|done|done].
  - apply (verified_memberships_ok pp nl now); done.
  - constructor; [apply Hshape|done| |done|].
    + intros o. eapply (group_bound (fun x y => rt_owner_user_id y =? rt_owner_user_id x)); [done|eassumption|].
      intros x y _ _ Hx Hy. breflect. apply Z.eqb_eq. congruence.
    + intros r Hin Hv. specialize (Hrd r Hin). breflect. rewrite exists_row_false in Hrd.
      apply in_map_iff in Hv as (v & Ev & Hv). specialize (Hrd v Hv). breflect. done.
Qed.


Lemma demo_shape : sqlite_shape demo_db.
Proof. destruct demo_db_ok as [[] [] [] [] _ _ [] [] []]. constructor; done. Qed.


(** The structural checks never fire on a database the server itself produced:
    references, content placement and lengths, version high-water marks, vault sizes,
    and the bounds on users, vaults, sessions, retired markers, all memberships and
    active collaborators pass in every reachable state. *)
Theorem reachable_structure_validates pp th nl d :
  reachable pp th nl d ->
  (forall v, In v (vaults d) -> user_exists d (vr_owner_user_id v) = true) /\
  (forall r, In r (revisions d) -> vault_exists d (r_vault_id r) = true /\ user_exists d (r_user_id r) = true /\
                                   content_location_valid d r = true /\ rev_shape r) /\
  verify_summaries d = Ok tt /\ verify_sequences d = Ok tt /\
  count_all (users d) <= MAX_USERS /\ count_all (vaults d) <= MAX_VAULTS /\ count_all (sessions d) <= MAX_SESSIONS /\
  count_all (retired d) <= MAX_RETIRED_VAULTS /\
  group_over (fun x y => rt_owner_user_id y =? rt_owner_user_id x) MAX_RETIRED_VAULTS_PER_OWNER (retired d) = false /\
  count_all (memberships d) <= MAX_MEMBERSHIPS /\
  group_over same_vault MAX_ACTIVE_COLLABORATORS_PER_VAULT (select membership_active (memberships d)) = false /\
  (forall r, In r (retired d) -> vault_exists d (rt_id r) = false).
Proof.
  intros Hr. assert (db_ok d) as Hd.
  { clear -Hr. induction Hr as [now e n h u _|d d' _ IH [now o Ha]]; [apply initial_db_ok|apply exec_ok; done]. }
  pose proof Hd as [[Hui Hub _ Huc Hus] [_ Hvo Hvc] Hrevs Hct Hsz _ [_ _ Hsc] Hms [_ _ Hrp Hrt Hrd]].
  destruct Hrevs as [Hinc Hb Hrv Hru Hrs Hseq]. destruct Hms as [_ Hmb _ _ _ _ _ Hact Htot Hmseq].
  assert (forall {A} (same : A -> A -> bool) n t, (forall x, In x t -> count (same x) t <= n) -> group_over same n t = false) as Hg.
  { intros A same n t H. unfold group_over. apply (exists_row_false (fun x => n <? count (same x) t)). intros x Hx.
    apply Z.ltb_ge. auto. }
  split_and!; auto.
  - intros v Hv. apply user_exists_in. auto.
  - intros r Hin. split_and!; [apply vault_exists_in; auto|apply user_exists_in; auto| |auto].
    apply content_location_placed; [apply Hrs; done|]. apply Hct. done.
  - apply summaries_spec; done.
  - unfold verify_sequences. rewrite let_ok, !reject_unless_ok. unfold safe. rewrite !andb_true_iff, !in_range_spec.
    split_and!; try lia.
    + destruct (seq_memberships d); cbn in *; [apply in_range_spec; lia|done].
    + apply Z.leb_le, max_of_le; [lia|]. intros u Hu. specialize (Hub u Hu). lia.
  - apply Hg. intros x Hx. rewrite count_select.
    rewrite (count_ext _ (fun m => String.eqb (m_vault_id m) (m_vault_id x) && membership_active m)); [apply Hact|].
    intros; apply andb_comm.
  - intros r Hin. destruct (vault_exists d (rt_id r)) eqn:E; [|done]. apply vault_exists_in in E.
    exfalso. eapply Hrd; eauto.
Qed.

Lemma reachable_structure_validates_witness : verify_summaries demo_db = Ok tt.
Proof.
  exact (proj1 (proj2 (proj2 (reachable_structure_validates demo_parse demo_token_hash demo_notice_len demo_db
    demo_db_reachable)))).
Defined.

(** ** A run the validator rejects *)

(** Bob's share of vault-1 is removed and granted again, over and over. *)
Fixpoint churn (n : nat) (now uid : Z) : list (Z * op) :=
  match n with
  | O => []
  | S n => (now, OpRemove 1 token_a "vault-1" uid)
           :: (now + 1, OpInvite 1 token_a "vault-1" "bob@example.test") :: churn n (now + 2) (uid + 1)
  end.

(** Carol joins as share 2; Bob is cycled 63 times (his share becomes 65); then
    both are removed. *)
Definition churn_run : list (Z * op) :=
  [ (2000, OpCreateUser "carol@example.test" "Carol" "$argon2id$demo");
    (2001, OpInvite 1 token_a "vault-1" "carol@example.test");
    (2002, OpRemove 1 token_a "vault-1" 1);
    (2003, OpInvite 1 token_a "vault-1" "bob@example.test") ]
  ++ churn 62 2100 3
  ++ [ (3000, OpRemove 1 token_a "vault-1" 65); (3001, OpRemove 1 token_a "vault-1" 2) ].

