(* ===== verification/Recovery.v ===== *)
(** * Restore, stale-backup recovery and data-host rebinding

    The database transformations of [restore_database], [recover_stale_backup]
    and [rebind_data_host].  Copying a database file is the identity on its rows.
    [uuids] is the supply of candidates [Uuid::new_v4] draws from. *)

From Stdlib Require Import ZArith Lia List String Ascii Bool Permutation.
From stdpp Require Import base list strings.
From S2P Require Import Prelude Sql Model Store Auth Accounts Vaults Sharing Revisions Invariant Heads Preservation.
From S2P Require Import Machine Scenario AccountsSpec Verify.

Local Open Scope Z_scope.

(** ** Rotation of the recovery epoch *)

(** [loop { candidate; if reserved.insert(candidate) { break candidate } }]. *)
Fixpoint draw (uuids : list string) (reserved : list string) : option (string * list string) :=
  match uuids with
  | [] => None
  | u :: us => if existsb (String.eqb u) reserved then draw us reserved else Some (u, us)
  end.

Fixpoint draw_all (owned : list (string * Z)) (uuids reserved : list string)
    : option (list (string * string * Z)) :=
  match owned with
  | [] => Some []
  | (old_id, owner) :: rest =>
      match draw uuids reserved with
      | None => None
      | Some (new_id, uuids) =>
          option_map (cons (old_id, new_id, owner)) (draw_all rest uuids (new_id :: reserved))
      end
  end.

Definition set_vault_id (id : string) (v : vault_row) : vault_row := {|
  vr_vault := {| v_id := id; v_name := v_name v; v_keyhash := v_keyhash v; v_salt := v_salt v;
                 v_host := v_host v; v_region := v_region v;
                 v_encryption_version := v_encryption_version v; v_size := v_size v;
                 v_created := v_created v; v_password := v_password v |};
  vr_version := vr_version v; vr_owner_user_id := vr_owner_user_id v |}.

Definition set_revision_vault (id : string) (r : revision_row) : revision_row := {|
  rr_rev := {| r_uid := r_uid r; r_vault_id := id; r_path := r_path r; r_relatedpath := r_relatedpath r;
               r_extension := r_extension r; r_hash := r_hash r; r_ctime := r_ctime r; r_mtime := r_mtime r;
               r_folder := r_folder r; r_deleted := r_deleted r; r_size := r_size r; r_pieces := r_pieces r;
               r_device := r_device r; r_user_id := r_user_id r; r_ts := r_ts r |};
  rr_content := rr_content r |}.

Definition with_revisions (d : db) x := {| users := users d; seq_users := seq_users d; vaults := vaults d; revisions := x; seq_revisions := seq_revisions d; contents := contents d; sessions := sessions d; retired := retired d; memberships := memberships d; seq_memberships := seq_memberships d; settings := settings d; usage := usage d |}.

(** Retire the old identity, copy the vault row, move its revisions, delete the
    old row (its memberships cascade). *)
Definition rotate_one (now : Z) (d : db) (x : string * string * Z) : result db :=
  let '(old_id, new_id, owner) := x in
  let? d := replace_retired d {| rt_id := old_id; rt_owner_user_id := owner; rt_retired_at := now |} in
  let? d := match find_vault_row d old_id with
            | Some v => insert_vault d (set_vault_id new_id v)
            | None => Ok d
            end in
  let d := with_revisions d (update (in_vault old_id) (set_revision_vault new_id) (revisions d)) in
  Ok (delete_vaults d (fun v : vault_row => String.eqb (v_id v) old_id)).

Fixpoint rotate_each (now : Z) (d : db) (xs : list (string * string * Z)) : result db :=
  match xs with
  | [] => Ok d
  | x :: xs => let? d := rotate_one now d x in rotate_each now d xs
  end.

(** Make room for one marker per rotated vault of each owner. *)
Fixpoint make_room (owners_left : list Z) (xs : list (string * string * Z)) (d : db) : result db :=
  match owners_left with
  | [] => Ok d
  | o :: rest =>
      let n := count (fun x : string * string * Z => snd x =? o) xs in
      ensure negb (MAX_RETIRED_VAULTS_PER_OWNER <? n)
        orelse Bail "owner recovery set exceeds retired vault marker limit" in
      make_room rest xs (with_retired d (prune_retired o (MAX_RETIRED_VAULTS_PER_OWNER - n) (retired d)))
  end.

Definition rotate_recovery_epoch (now : Z) (uuids : list string) (d : db) : result (Z * db) :=
  let owned := map (fun v : vault_row => (v_id v, vr_owner_user_id v))
                 (order_by (fun x y : vault_row => string_leb (v_id x) (v_id y)) (vaults d)) in
  let reserved := map (fun v : vault_row => v_id v) (vaults d) ++ map rt_id (retired d) in
  match draw_all owned uuids reserved with
  | None => Err (Bail "no candidate")
  | Some xs =>
      let? d := make_room (nodup Z.eq_dec (map snd xs)) xs d in
      ensure count_all (retired d) + count_all xs <=? MAX_RETIRED_VAULTS
        orelse Bail "recovery would exceed the global retired vault marker limit" in
      let? d := rotate_each now d xs in
      Ok (count_all xs, with_sessions d [])
  end.

(** ** The commands *)
Section Commands.
Context (parse_password_hash : string -> option PasswordHash) (notice_len : PushNotice -> Z).
Notation verify := (verify_database parse_password_hash notice_len).

Definition restore_database (now : Z) (uuids : list string) (source : db) : result db :=
  let? _ := verify now source in
  let? (_, target) := rotate_recovery_epoch now uuids source in
  let? _ := verify now target in
  Ok target.

Definition disable_user (now : Z) (u : user_row) : user_row := {|
  u_id := u_id u; u_email_canonical := u_email_canonical u; u_email := u_email u; u_name := u_name u;
  u_password_hash := u_password_hash u; u_status := "disabled"; u_created_at := u_created_at u;
  u_updated_at := Z.max (u_updated_at u) now; u_role := u_role u |}.

(** Clear the sessions, disable every account, switch self-registration off. *)
Definition lock_down (now : Z) (target : db) : db :=
  let target := with_sessions target [] in
  let target := with_users target (map (disable_user now) (users target)) in
  with_settings target {| ss_self_registration_enabled := 0;
                          ss_updated_at := Z.max (ss_updated_at (settings target)) now;
                          ss_updated_by := ss_updated_by (settings target) |}.

Definition recover_stale_backup (now : Z) (uuids : list string) (source : db) : result db :=
  let? _ := verify now source in
  let? (_, target) := rotate_recovery_epoch now uuids source in
  let target := lock_down now target in
  let? _ := verify now target in
  Ok target.

Definition set_host (host : string) (v : vault_row) : vault_row := {|
  vr_vault := {| v_id := v_id v; v_name := v_name v; v_keyhash := v_keyhash v; v_salt := v_salt v;
                 v_host := host; v_region := v_region v;
                 v_encryption_version := v_encryption_version v; v_size := v_size v;
                 v_created := v_created v; v_password := v_password v |};
  vr_version := vr_version v; vr_owner_user_id := vr_owner_user_id v |}.

(** [valid_host] is [config::validate_public_data_host]; the pre-rebind backup
    copies and validates the same database. *)
Definition rebind_data_host (valid_host : string -> result unit) (now : Z) (new_host : string) (d : db)
    : result (Z * db) :=
  let? _ := valid_host new_host in
  let? _ := verify now d in
  let other (v : vault_row) := negb (String.eqb (v_host v) new_host) in
  let d' := with_vaults d (update other (set_host new_host) (vaults d)) in
  let? _ := verify now d' in
  Ok (count other (vaults d), d').
End Commands.

(** ** What a rotation does *)

(** [xs] as a renaming of vault identities. *)
Definition renaming (xs : list (string * string * Z)) (id : string) : option string :=
  option_map (fun x => snd (fst x)) (query_row (fun x => String.eqb (fst (fst x)) id) xs).
Definition rename_revision (xs : list (string * string * Z)) (r : revision_row) : revision_row :=
  match renaming xs (r_vault_id r) with Some id => set_revision_vault id r | None => r end.

Lemma draw_spec uuids reserved id rest :
  draw uuids reserved = Some (id, rest) -> ~ In id reserved.
Proof.
  induction uuids as [|u us IH]; cbn; [done|]. destruct (existsb (String.eqb u) reserved) eqn:E; [done|].
  intros [= <- <-] Hin. assert (existsb (String.eqb u) reserved = true); [|congruence].
  apply existsb_exists. exists u. split; [done|apply String.eqb_refl].
Qed.

Notation olds xs := (map (fun x : string * string * Z => fst (fst x)) xs).
Notation news xs := (map (fun x : string * string * Z => snd (fst x)) xs).

Lemma draw_all_spec owned uuids reserved xs :
  draw_all owned uuids reserved = Some xs ->
  map (fun x : string * string * Z => (fst (fst x), snd x)) xs = owned /\
  NoDup (news xs) /\ (forall id, In id (news xs) -> ~ In id reserved).
Proof.
  revert uuids reserved xs. induction owned as [|[old o] owned IH]; intros uuids reserved xs; cbn.
  { intros [= <-]. split_and!; [done|constructor|done]. }
  destruct (draw uuids reserved) as [[id rest]|] eqn:Ed; [|done].
  destruct (draw_all owned rest (id :: reserved)) as [ys|] eqn:Ea; [|done]. intros [= <-].
  apply draw_spec in Ed. apply IH in Ea as (E & Hnd & Hres). cbn. rewrite E. split; [done|].
  split.
  - apply NoDup_cons. split; [|done]. rewrite list_elem_of_In. intros Hin. apply Hres in Hin. apply Hin. left. done.
  - intros x [<-|Hx]; [done|]. apply Hres in Hx. intros Hr. apply Hx. right. done.
Qed.

(** One rotation, for a vault that exists and a new identity nobody uses. *)
Lemma rotate_one_spec now d old new owner d' :
  NoDup (vault_ids d) -> In old (vault_ids d) -> old <> new ->
  rotate_one now d (old, new, owner) = Ok d' ->
  exists v, In v (vaults d) /\ v_id v = old /\ ~ In new (vault_ids d) /\
    vaults d' = remaining old (vaults d) ++ [set_vault_id new v] /\
    revisions d' = update (in_vault old) (set_revision_vault new) (revisions d) /\
    contents d' = contents d /\ memberships d' = delete_where (fun m => String.eqb (m_vault_id m) old) (memberships d) /\
    retired d' = delete_where (fun r => String.eqb (rt_id r) old) (retired d)
                 ++ [{| rt_id := old; rt_owner_user_id := owner; rt_retired_at := now |}] /\
    users d' = users d /\ settings d' = settings d /\ seq_revisions d' = seq_revisions d.
Proof.
  intros Hnd Hin Hne H. apply in_map_iff in Hin as (v & Hid & Hv). exists v.
  unfold rotate_one, replace_retired in H. destruct (user_exists _ _); [|done]. cbn beta iota zeta in H.
  change (find_vault_row (with_retired d ?x) old) with (find_vault_row d old) in H.
  assert (find_vault_row d old = Some v) as Hf by (rewrite <- Hid; apply find_vault_row_eq; done). rewrite Hf in H.
  destruct (insert_vault _ _) as [d1|] eqn:Ei; [|done].
  apply insert_vault_spec in Ei as (-> & Hfresh & _). cbn in Hfresh. injection H as <-.
  set (rs := update (in_vault old) (set_revision_vault new) (revisions d)).
  set (gone := fun w : vault_row => String.eqb (v_id w) old).
  assert (forall x, exists_row (fun w : vault_row => String.eqb (v_id w) x)
            (select gone (vaults d ++ [set_vault_id new v])) = String.eqb x old) as Hgone.
  { intros x. apply eq_true_iff_eq. rewrite exists_row_spec, String.eqb_eq. split.
    - intros (w & Hw & E). apply in_select in Hw as [_ Hw]. unfold gone in Hw. breflect. congruence.
    - intros ->. exists v. rewrite in_select. unfold gone. rewrite Hid, String.eqb_refl.
      split; [|done]. split; [apply in_or_app; auto|done]. }
  assert (forall r, In r rs -> String.eqb (r_vault_id r) old = false) as Hnone.
  { intros r Hr. apply in_update in Hr as (r0 & _ & ->). destruct (in_vault old r0) eqn:E; [|done].
    cbn. apply String.eqb_neq. done. }
  split; [done|]. split; [done|]. split; [done|].
  cbn [vaults revisions contents memberships retired users settings seq_revisions delete_vaults delete_revisions
       with_vaults with_memberships with_revisions with_retired]. fold rs gone.
  split_and!; try done.
  - unfold remaining, delete_where. rewrite List.filter_app. f_equal. unfold gone. cbn.
    rewrite (proj2 (String.eqb_neq new old)) by done. done.
  - apply delete_none. intros r Hr. rewrite Hgone. auto.
  - apply delete_none. intros c _. apply exists_row_false. intros r Hr. apply in_select in Hr as [Hr Hg].
    rewrite Hgone, Hnone in Hg; done.
  - apply delete_where_ext. intros m _. apply Hgone.
Qed.

Definition rename_vault_row (xs : list (string * string * Z)) (v : vault_row) : vault_row :=
  match renaming xs (v_id v) with Some id => set_vault_id id v | None => v end.

Lemma renaming_cons old new owner xs id :
  renaming ((old, new, owner) :: xs) id = if String.eqb old id then Some new else renaming xs id.
Proof. unfold renaming, query_row, select. cbn. destruct (String.eqb old id); done. Qed.

Lemma renaming_none xs id : ~ In id (olds xs) -> renaming xs id = None.
Proof.
  intros Hn. unfold renaming. rewrite (proj2 (query_row_none _ _)); [done|].
  intros x Hx. apply String.eqb_neq. intros E. apply Hn. rewrite <- E. apply (in_map (fun x => fst (fst x))). done.
Qed.

Lemma renaming_some xs id : In id (olds xs) -> exists new, renaming xs id = Some new /\ In new (news xs).
Proof.
  intros Hin. unfold renaming. destruct (query_row _ xs) as [x|] eqn:E.
  - apply query_row_some in E as [Hx _]. eexists. split; [done|]. apply (in_map (fun x => snd (fst x))). done.
  - exfalso. apply in_map_iff in Hin as (x & <- & Hx). pose proof (proj1 (query_row_none _ _) E x Hx) as Hn.
    cbn in Hn. rewrite String.eqb_refl in Hn. done.
Qed.

(** Effect of the whole loop. *)
Record rotated (now : Z) (d : db) (xs : list (string * string * Z)) (d' : db) : Prop := {
  ro_revisions : revisions d' = map (rename_revision xs) (revisions d);
  ro_contents : contents d' = contents d;
  ro_users : users d' = users d;
  ro_settings : settings d' = settings d;
  ro_vaults : forall w, In w (vaults d') <-> exists v, In v (vaults d) /\ w = rename_vault_row xs v;
  ro_memberships : forall m, In m (memberships d') <-> In m (memberships d) /\ ~ In (m_vault_id m) (olds xs);
  ro_retired : forall x, In x xs -> exists r, In r (retired d') /\ rt_id r = fst (fst x) /\ rt_owner_user_id r = snd x
                                            /\ rt_retired_at r = now;
  ro_retired_keep : forall r, In r (retired d) -> ~ In (rt_id r) (olds xs) -> In r (retired d');
  ro_nodup : NoDup (vault_ids d');
  ro_retired_nodup : NoDup (map rt_id (retired d)) -> NoDup (map rt_id (retired d'));
}.

Lemma rotate_each_spec now xs d d' :
  NoDup (vault_ids d) -> NoDup (olds xs) -> (forall id, In id (olds xs) -> In id (vault_ids d)) ->
  NoDup (news xs) -> (forall id, In id (news xs) -> ~ In id (vault_ids d)) ->
  rotate_each now d xs = Ok d' -> rotated now d xs d'.
Proof.
  revert d. induction xs as [|[[old new] owner] xs IH]; intros d Hnd Holds Hin Hnews Hfresh H.
  { cbn in H. injection H as <-. constructor; try done.
    - symmetry. apply map_id.
    - intros w. split; [intros Hw; exists w; split; done|intros (v & Hv & ->); done].
    - intros m. split; [intros Hm; split; [done|cbn; tauto]|intros [Hm _]; done]. }
  cbn [rotate_each] in H. destruct (rotate_one now d (old, new, owner)) as [d1|] eqn:E1; [|done].
  cbn [map fst snd] in Holds, Hnews, Hin, Hfresh.
  apply NoDup_cons in Holds as [Hold Holds], Hnews as [Hnew Hnews]. rewrite list_elem_of_In in Hold, Hnew.
  assert (old <> new) as Hne by (intros ->; apply (Hfresh new); [left; done|]; apply Hin; left; done).
  apply rotate_one_spec in E1 as (v & Hv & Hid & Hnf & Ev & Er & Ec & Em & Et & Eu & Es & _); [|done| |done].
  2: { apply Hin. left. done. }
  assert (forall id, In id (vault_ids d1) <-> (In id (vault_ids d) /\ id <> old) \/ id = new) as Hids.
  { intros id. rewrite Ev, map_app, in_app_iff. cbn. unfold remaining. rewrite !in_map_iff.
    setoid_rewrite in_delete. setoid_rewrite String.eqb_neq. naive_solver. }
  apply IH in H; [|..|done|].
  - destruct H as [Hr Hc Hu Hs Hvs Hm Hrt Hrk Hndv Hrnd]. constructor; try congruence; try done.
    + rewrite Hr, Er. unfold update. rewrite map_map. apply map_ext. intros r. unfold rename_revision at 2.
      rewrite renaming_cons. unfold in_vault. rewrite (String.eqb_sym old). destruct (String.eqb_spec (r_vault_id r) old) as [Eo|Eo].
      * unfold rename_revision. cbn. rewrite renaming_none; [done|]. intros Hi. apply (Hfresh new); [left; done|auto].
        apply Hin. right. done.
      * done.
    + intros w. rewrite Hvs. setoid_rewrite Ev. setoid_rewrite in_app_iff. unfold remaining. setoid_rewrite in_delete.
      setoid_rewrite String.eqb_neq. assert (renaming xs new = None) as Hrn.
      { apply renaming_none. intros Hi. apply (Hfresh new); [left; done|]. apply Hin. right. done. }
      split.
      * intros (y & [[Hy Hyo]|[<-|[]]] & ->).
        -- exists y. split; [done|]. unfold rename_vault_row. rewrite renaming_cons, (proj2 (String.eqb_neq _ _)); done.
        -- exists v. split; [done|]. unfold rename_vault_row. cbn. rewrite Hrn, renaming_cons, Hid, String.eqb_refl. done.
      * intros (y & Hy & ->). destruct (String.eqb_spec (v_id y) old) as [Eo|Eo].
        -- assert (y = v) as -> by (apply (nodup_map_inj vid (vaults d)); [done..|cbn; congruence]).
           exists (set_vault_id new v). split; [right; left; done|]. unfold rename_vault_row. cbn.
           rewrite Hrn, renaming_cons, Hid, String.eqb_refl. done.
        -- exists y. split; [left; done|]. unfold rename_vault_row. rewrite renaming_cons, (proj2 (String.eqb_neq _ _)); done.
    + intros m. rewrite Hm, Em, in_delete, String.eqb_neq. cbn. naive_solver.
    + intros x [<-|Hx]; [|auto]. exists {| rt_id := old; rt_owner_user_id := owner; rt_retired_at := now |}.
      split; [|done]. apply Hrk; [|done]. rewrite Et. apply in_or_app. right. left. done.
    + intros r Hin0 Hno. apply Hrk; [|cbn in Hno; tauto]. rewrite Et. apply in_or_app. left. apply in_delete.
      split; [done|]. apply String.eqb_neq. cbn in Hno. intros E. apply Hno. left. done.
    + intros Hn0. apply Hrnd. rewrite Et. apply nodup_map_snoc; [apply nodup_map_select; done|]. cbn.
      rewrite in_map_iff. intros (r & E & Hi). apply in_delete in Hi as [_ Hi]. breflect. done.
  - rewrite Ev. apply (nodup_map_snoc vid); [apply nodup_map_select; done|]. cbn. intros Hi.
    apply in_map_iff in Hi as (y & Ey & Hy). apply in_delete in Hy as [Hy _]. apply Hnf. rewrite <- Ey. apply (in_map vid). done.
  - done.
  - intros id Hi. apply Hids. left. split; [apply Hin; right; done|]. intros ->. done.
  - intros id Hi Hx. apply Hids in Hx as [[Hx _]| ->]; [|done]. apply (Hfresh id); [right; done|done].
Qed.

Lemma make_room_spec os xs d d' :
  make_room os xs d = Ok d' -> exists rts, d' = with_retired d rts /\
    (forall r, In r rts -> In r (retired d)) /\ (NoDup (map rt_id (retired d)) -> NoDup (map rt_id rts)).
Proof.
  revert d. induction os as [|o os IH]; intros d H; cbn [make_room] in H.
  - injection H as <-. exists (retired d). split; [destruct d; done|done].
  - cbn zeta in H. step_in H. apply IH in H as (rts & -> & Hsub & Hnd). exists rts. split; [done|]. split.
    + intros r Hr. eapply prune_retired_sub, Hsub, Hr.
    + intros Hn. apply Hnd. cbn. apply nodup_map_select. done.
Qed.

Lemma rotate_spec now uuids d n d' :
  NoDup (vault_ids d) -> rotate_recovery_epoch now uuids d = Ok (n, d') ->
  exists xs rts d1, rotated now (with_retired d rts) xs d1 /\ d' = with_sessions d1 [] /\
    (forall id, In id (olds xs) <-> In id (vault_ids d)) /\
    (forall id, In id (news xs) -> ~ In id (vault_ids d) /\ ~ In id (map rt_id (retired d))) /\
    (forall v, In v (vaults d) -> exists x, In x xs /\ fst (fst x) = v_id v /\ snd x = vr_owner_user_id v) /\
    (NoDup (map rt_id (retired d)) -> NoDup (map rt_id rts)).
Proof.
  intros Hnd H. unfold rotate_recovery_epoch in H.
  set (owned := map (fun v : vault_row => (v_id v, vr_owner_user_id v)) (order_by _ _)) in H. cbn zeta in H.
  destruct (draw_all owned uuids _) as [xs|] eqn:Ed; [|done]. apply draw_all_spec in Ed as (Eo & Hnn & Hres).
  destruct (make_room _ xs d) as [d0|] eqn:Em; [|done]. apply make_room_spec in Em as (rts & -> & _ & Hrts).
  step_in H. destruct (rotate_each now _ xs) as [d1|] eqn:Er; [|done]. injection H as <- <-.
  assert (forall id, In id (olds xs) <-> In id (vault_ids d)) as Hids.
  { intros id. replace (olds xs) with (map fst owned) by (rewrite <- Eo, map_map; done).
    unfold owned. rewrite map_map. cbn. rewrite !in_map_iff. setoid_rewrite in_order_by. done. }
  assert (NoDup (olds xs)) as Hno.
  { replace (olds xs) with (map fst owned) by (rewrite <- Eo, map_map; done). unfold owned. rewrite map_map. cbn.
    rewrite <- (order_by_perm _ (vaults d)). done. }
  exists xs, rts, d1. split_and!; auto.
  - apply rotate_each_spec; auto; cbn.
    + intros id Hi. apply Hids. done.
    + intros id Hi Hv. apply (Hres id Hi). apply in_or_app. left. done.
  - intros id Hi. specialize (Hres id Hi). rewrite in_app_iff in Hres. tauto.
  - intros v Hv. assert (In (v_id v, vr_owner_user_id v) owned) as Hin.
    { unfold owned. apply in_map_iff. exists v. split; [done|]. apply in_order_by. done. }
    rewrite <- Eo in Hin. apply in_map_iff in Hin as (x & Ex & Hx). exists x. simplify_eq. done.
Qed.

(** The new identity of a vault. *)
Definition new_identity (xs : list (string * string * Z)) (id : string) : string := default id (renaming xs id).

(** A rotation keeps the data and replaces every identity. *)
Record new_epoch (d d' : db) (rho : string -> string) : Prop := {
  ne_sessions : sessions d' = [];
  ne_memberships : memberships d' = [];
  ne_users : users d' = users d;
  ne_ids : forall id, In id (vault_ids d') -> ~ In id (vault_ids d) /\ ~ In id (map rt_id (retired d));
  ne_revisions : revisions d' = map (fun r : revision_row => set_revision_vault (rho (r_vault_id r)) r) (revisions d);
  ne_contents : contents d' = contents d;
  ne_vaults : forall v, In v (vaults d) ->
    In (set_vault_id (rho (v_id v)) v) (vaults d') /\ is_retired_vault_for_user (vr_owner_user_id v) (v_id v) d' = true;
}.

Lemma rotate_new_epoch now uuids d n d' :
  db_ok (initialize_runtime_storage_usage d) -> rotate_recovery_epoch now uuids d = Ok (n, d') ->
  sqlite_shape d' /\ settings d' = settings d /\ exists rho, new_epoch d d' rho.
Proof.
  intros Hd H. apply rotate_spec in H as (xs & rts & d1 & Hro & Ed' & Hids & Hnew & Hown & Hrts);
    [|apply (ok_vaults _ _ Hd)].
  destruct Hro as [Hr Hc Hu Hs Hvs Hm Hrt _ Hndv Hrnd]. cbn in Hr, Hc, Hu, Hs, Hvs, Hm.
  assert (memberships d1 = []) as Hm0.
  { destruct (memberships d1) as [|m l] eqn:E; [done|]. exfalso.
    destruct (proj1 (Hm m) (or_introl eq_refl)) as [Hin Hno]. apply Hno, Hids. rewrite <- owners_fst.
    apply (ok_memberships _ _ Hd). done. }
  assert (forall r, In r (revisions d) -> rename_revision xs r = set_revision_vault (new_identity xs (r_vault_id r)) r) as Hrev.
  { intros r Hin. unfold rename_revision, new_identity.
    destruct (renaming_some xs (r_vault_id r)) as (new & -> & _); [|done]. apply Hids, (ok_revs _ _ Hd). done. }
  assert (forall v, In v (vaults d) -> rename_vault_row xs v = set_vault_id (new_identity xs (v_id v)) v
                                       /\ In (new_identity xs (v_id v)) (news xs)) as Hvr.
  { intros v Hin. unfold rename_vault_row, new_identity.
    destruct (renaming_some xs (v_id v)) as (new & -> & Hn); [|done]. apply Hids. apply (in_map vid). done. }
  rewrite (map_ext_in _ _ _ Hrev) in Hr. split; [|split; [subst d'; done|]].
  - destruct Hd as [[] [] Hrevs [] _ _ _ _ []]. constructor; subst d'; cbn; rewrite ?Hr, ?Hc, ?Hu, ?Hm0; auto.
    + rewrite increasing_map, map_map. cbn. rewrite <- (increasing_map ruid). apply Hrevs.
    + constructor.
    + constructor.
    + constructor.
  - exists (new_identity xs). constructor; subst d'; cbn; auto.
    + intros id Hin. apply in_map_iff in Hin as (w & <- & Hw). apply Hvs in Hw as (v & Hv & ->).
      destruct (Hvr v Hv) as [-> Hn]. apply Hnew. done.
    + intros v Hv. split.
      * apply Hvs. exists v. split; [done|]. symmetry. apply Hvr. done.
      * destruct (Hown v Hv) as (x & Hx & E1 & E2). destruct (Hrt x Hx) as (r & Hin & E3 & E4 & _).
        apply exists_row_spec. exists r. split; [done|]. rewrite E3, E1, E4, E2, String.eqb_refl, Z.eqb_refl. done.
Qed.

(** C34: a restore starts a new epoch: every revision and every byte of the backup is
    kept, but under vault identities that neither the backup nor its retired markers
    ever used, with every old identity retired for its owner, no session and no
    membership; the result satisfies the database invariant. *)
Theorem restore_starts_new_epoch pp nl now uuids source target :
  sqlite_shape source -> restore_database pp nl now uuids source = Ok target ->
  db_ok (initialize_runtime_storage_usage target) /\ exists rho, new_epoch source target rho.
Proof.
  intros Hshape H. unfold restore_database in H.
  destruct (verify_database pp nl now source) as [[]|] eqn:Ev; [|done].
  destruct (rotate_recovery_epoch now uuids source) as [[n t]|] eqn:Er; [|done].
  destruct (verify_database pp nl now t) as [[]|] eqn:Ev2; [|done]. injection H as <-.
  assert (db_ok (initialize_runtime_storage_usage source)) as Hok by (eapply validated_ok; eauto).
  apply rotate_new_epoch in Er as (Hsh & _ & Hne); [|done]. split; [|done]. eapply validated_ok; eauto.
Qed.

Definition demo_uuids : list string := ["vault-1"; "uuid-a"; "uuid-b"]%string.

Lemma restore_starts_new_epoch_witness :
  exists target, restore_database demo_parse demo_notice_len 5000 demo_uuids demo_db = Ok target /\
    vault_ids target = ["uuid-a"]%string /\ db_ok (initialize_runtime_storage_usage target).
Proof.
  destruct (restore_database demo_parse demo_notice_len 5000 demo_uuids demo_db) as [target|] eqn:E;
    [|vm_compute in E; discriminate].
  exists target. split; [reflexivity|]. split; [vm_compute in E; injection E as <-; vm_compute; reflexivity|].
  exact (proj1 (restore_starts_new_epoch _ _ _ _ _ _ demo_shape E)).
Defined.

(** Recovery from a possibly stale backup locks the server down: the data is kept
    under new identities, and no account is active, no session exists, no token
    authenticates, self-registration is off and every mutation is refused until an
    operator re-enables an account offline. *)
Theorem stale_recovery_locks_down pp nl th now uuids source target :
  sqlite_shape source -> recover_stale_backup pp nl now uuids source = Ok target ->
  (exists rotated, (exists rho, new_epoch source rotated rho) /\
     vaults target = vaults rotated /\ revisions target = revisions rotated /\ contents target = contents rotated) /\
  (forall u, user_active target u = false) /\ sessions target = [] /\ self_registration_enabled target = false /\
  (forall t token, auth_context th t token target = None) /\
  (forall t h u, authorize_account_mutation t (Some h) u target
                 = Err (Bail "mutation authorization expired or was revoked")) /\
  (forall t token u ttl, issue_session_for_user th t token u ttl target = Err (Bail "user is unavailable")).
Proof.
  intros Hshape H. unfold recover_stale_backup in H.
  destruct (verify_database pp nl now source) as [[]|] eqn:Ev; [|done].
  destruct (rotate_recovery_epoch now uuids source) as [[n t]|] eqn:Er; [|done]. cbn zeta in H.
  destruct (verify_database pp nl now _) as [[]|] eqn:Ev2 in H; [|done]. injection H as <-.
  assert (db_ok (initialize_runtime_storage_usage source)) as Hok by (eapply validated_ok; eauto).
  apply rotate_new_epoch in Er as (_ & _ & Hne); [|done].
  split; [exists t; done|].
  assert (forall u, exists_row (fun w => (u_id w =? u) && String.eqb (u_status w) "active")
            (map (disable_user now) (users t)) = false) as Hdis.
  { intros u. apply exists_row_false. intros w Hw. apply in_map_iff in Hw as (w0 & <- & _). apply andb_false_r. }
  split_and!; try done.
  - intros t0 token. unfold auth_context, auth_context_hash. destruct (negb _); [done|]. destruct (negb _); done.
  - intros t0 token u ttl. unfold issue_session_for_user, user_active. cbn [sessions users with_sessions with_users with_settings].
    rewrite Hdis. done.
Qed.

Lemma stale_recovery_locks_down_witness :
  exists target, recover_stale_backup demo_parse demo_notice_len 5000 demo_uuids demo_db = Ok target /\
    sessions target = [].
Proof.
  destruct (recover_stale_backup demo_parse demo_notice_len 5000 demo_uuids demo_db) as [target|] eqn:E;
    [|vm_compute in E; discriminate].
  exists target. split; [reflexivity|].
  exact (proj1 (proj2 (proj2 (stale_recovery_locks_down _ _ demo_token_hash _ _ _ _ demo_shape E)))).
Defined.

(** The guard on demoting the last administrator only looks at active ones: after a
    stale-backup recovery, where every account is disabled, demoting the only
    administrator is accepted and leaves a database that the validator refuses to
    open. *)
Theorem disabled_admin_demotion_bricks :
  exists target d', recover_stale_backup demo_parse demo_notice_len 5000 demo_uuids demo_db = Ok target /\
    count (fun u => String.eqb (u_role u) "admin") (users target) = 1 /\
    set_user_role 5001 1 "user" target = Ok (tt, d') /\
    verify_database demo_parse demo_notice_len 5002 d' = Err (Bail "database must retain at least one administrator").
Proof.
  destruct (recover_stale_backup demo_parse demo_notice_len 5000 demo_uuids demo_db) as [target|] eqn:E;
    [|vm_compute in E; discriminate].
  destruct (set_user_role 5001 1 "user" target) as [[[] d']|] eqn:E2;
    [|vm_compute in E; injection E as <-; vm_compute in E2; discriminate].
  exists target, d'. vm_compute in E. injection E as <-. vm_compute in E2. injection E2 as <-.
  split; [reflexivity|]. split; [vm_compute; reflexivity|]. split; vm_compute; reflexivity.
Qed.

(** ** Rebinding *)

(** Rebinding moves every vault to the new data host and changes nothing else;
    the reported number is the number of vaults that were bound elsewhere. *)
Theorem rebind_moves_all pp nl valid_host now host d n d' :
  rebind_data_host pp nl valid_host now host d = Ok (n, d') ->
  mismatched_data_hosts host d' = [] /\ d' = with_vaults d (vaults d') /\
  vaults d' = map (set_host host) (vaults d) /\
  n = count (fun v : vault_row => negb (String.eqb (v_host v) host)) (vaults d).
Proof.
  unfold rebind_data_host. intros H. cbn zeta in H. steps_in H.
  assert (forall v : vault_row, String.eqb (v_host v) host = true -> set_host host v = v) as Hsame.
  { intros v Hv. breflect. subst host. destruct v as [[] ? ?]. done. }
  assert (update (fun v : vault_row => negb (String.eqb (v_host v) host)) (set_host host) (vaults d)
          = map (set_host host) (vaults d)) as Eq.
  { unfold update. apply map_ext. intros v. destruct (String.eqb (v_host v) host) eqn:E2; cbn; [|done].
    symmetry. apply Hsame. done. }
  split_and!; try done. unfold mismatched_data_hosts. cbn [vaults with_vaults]. rewrite Eq, select_none; [done|].
  intros v Hv. apply in_map_iff in Hv as (w & <- & _). cbn. rewrite String.eqb_refl. done.
Qed.

Lemma rebind_moves_all_witness :
  exists d', rebind_data_host demo_parse demo_notice_len (fun _ => Ok tt) 5000 "new.example.test" demo_db = Ok (1, d') /\
    mismatched_data_hosts "new.example.test" d' = [].
Proof.
  destruct (rebind_data_host demo_parse demo_notice_len (fun _ => Ok tt) 5000 "new.example.test" demo_db)
    as [[n d']|] eqn:E; [|vm_compute in E; discriminate].
  assert (n = 1) as -> by (vm_compute in E; congruence).
  exists d'. split; [reflexivity|]. exact (proj1 (rebind_moves_all _ _ _ _ _ _ _ _ E)).
Defined.
