(* ===== verification/Io.v ===== *)
(** * Interactive programs

    An asynchronous handler is a tree of commands: each [await] point that touches
    shared state or the network is a command, and between two commands every other task
    may run.  [answers] says what a command may return; nothing else is assumed of the
    interference.  [wp] follows every run of a handler with a monitor of its trace. *)

From Stdlib Require Import List.
From stdpp Require Import base list.
From S2P Require Import Prelude.

Inductive io (E : Type -> Type) (A : Type) : Type :=
| Ret (a : A)
| Vis (X : Type) (c : E X) (k : X -> io E A).
Arguments Ret {E A} a.
Arguments Vis {E A X} c k.

Fixpoint io_bind {E A B} (p : io E A) (f : A -> io E B) : io E B :=
  match p with
  | Ret a => f a
  | Vis c k => Vis c (fun x => io_bind (k x) f)
  end.

Definition trigger {E X} (c : E X) : io E X := Vis c Ret.

(** One command with its answer. *)
Record event (E : Type -> Type) := Ev { ev_type : Type; ev_cmd : E ev_type; ev_answer : ev_type }.
Arguments Ev {E ev_type} _ _.

Section Runs.
Context {E : Type -> Type} (answers : forall X, E X -> X -> Prop).

(** Every trace and result of a program under any interference. *)
Inductive runs {A} : io E A -> list (event E) -> A -> Prop :=
| runs_ret a : runs (Ret a) [] a
| runs_vis X (c : E X) k x tr a : answers X c x -> runs (k x) tr a -> runs (Vis c k) (Ev c x :: tr) a.

(** A monitor: which commands its state allows, and how an answer moves it. *)
Context {St : Type} (allowed : forall X, St -> E X -> Prop) (next : forall X, St -> E X -> X -> St).

Fixpoint accepts (st : St) (tr : list (event E)) : Prop :=
  match tr with
  | [] => True
  | Ev c x :: tr => allowed _ st c /\ accepts (next _ st c x) tr
  end.
Fixpoint after (st : St) (tr : list (event E)) : St :=
  match tr with
  | [] => st
  | Ev c x :: tr => after (next _ st c x) tr
  end.

Fixpoint wp {A} (p : io E A) (Q : St -> A -> Prop) (st : St) : Prop :=
  match p with
  | Ret a => Q st a
  | Vis c k => allowed _ st c /\ forall x, answers _ c x -> wp (k x) Q (next _ st c x)
  end.

Lemma wp_bind {A B} (p : io E A) (f : A -> io E B) Q st :
  wp p (fun st a => wp (f a) Q st) st -> wp (io_bind p f) Q st.
Proof.
  revert st. induction p as [a|X c k IH]; intros st; cbn; [done|].
  intros [Ha H]. split; [done|]. intros x Hx. apply IH, H, Hx.
Qed.

Lemma wp_mono {A} (p : io E A) (Q Q' : St -> A -> Prop) st :
  (forall st a, Q st a -> Q' st a) -> wp p Q st -> wp p Q' st.
Proof.
  intros HQ. revert st. induction p as [a|X c k IH]; intros st; cbn; [apply HQ|].
  intros [Ha H]. split; [done|]. intros x Hx. apply IH, H, Hx.
Qed.

Lemma wp_sound {A} (p : io E A) Q st tr a :
  wp p Q st -> runs p tr a -> accepts st tr /\ Q (after st tr) a.
Proof.
  intros Hw Hr. revert st Hw. induction Hr as [a|X c k x tr a Hx _ IH]; intros st; cbn; [done|].
  intros [Ha H]. destruct (IH _ (H x Hx)). done.
Qed.
End Runs.

(** The monitor that keeps the whole trace. *)
Definition record {E} (X : Type) (st : list (event E)) (c : E X) (x : X) : list (event E) := st ++ [Ev c x].
Lemma after_record {E} (st : list (event E)) tr : after record st tr = st ++ tr.
Proof.
  revert st. induction tr as [|[X c x] tr IH]; intros st; cbn [after]; [by rewrite app_nil_r|].
  rewrite IH. unfold record. by rewrite <- app_assoc.
Qed.
Lemma accepts_all {E St} (next : forall X, St -> E X -> X -> St) st tr : accepts (fun _ _ _ => True) next st tr.
Proof. revert st. induction tr as [|[X c x] tr IH]; intros st; cbn; auto. Qed.

(** The run a fixed choice of answers determines. *)
Fixpoint run_with {E A} (choose : forall X, E X -> X) (p : io E A) : list (event E) * A :=
  match p with
  | Ret a => ([], a)
  | Vis c k => let (tr, a) := run_with choose (k (choose _ c)) in (Ev c (choose _ c) :: tr, a)
  end.

Lemma run_with_runs {E A} (answers : forall X, E X -> X -> Prop) choose (p : io E A) :
  (forall X (c : E X), answers X c (choose X c)) ->
  runs answers p (fst (run_with choose p)) (snd (run_with choose p)).
Proof.
  intros H. induction p as [a|X c k IH]; cbn; [constructor|].
  specialize (IH (choose X c)). destruct (run_with choose (k (choose X c))) as [tr a]. constructor; [apply H|exact IH].
Qed.

(** A monitor simulated by another, under fewer answers. *)
Lemma wp_sim {E} (ans1 ans2 : forall X, E X -> X -> Prop) {St1 St2}
    (allowed1 : forall X, St1 -> E X -> Prop) next1 (allowed2 : forall X, St2 -> E X -> Prop) next2
    (R : St1 -> St2 -> Prop) {A} (p : io E A) Q st1 st2 :
  (forall X (c : E X) x, ans2 X c x -> ans1 X c x) ->
  (forall X (c : E X) st1 st2, R st1 st2 -> allowed1 X st1 c ->
     allowed2 X st2 c /\ forall x, R (next1 X st1 c x) (next2 X st2 c x)) ->
  wp ans1 allowed1 next1 p Q st1 -> R st1 st2 ->
  wp ans2 allowed2 next2 p (fun st2 a => exists st1, R st1 st2 /\ Q st1 a) st2.
Proof.
  intros Hans Hsim. revert st1 st2. induction p as [a|X c k IH]; intros st1 st2 Hw HR; cbn in *; [eauto|].
  destruct Hw as [Ha Hw], (Hsim X c st1 st2 HR Ha) as [Ha2 Hn]. split; [done|].
  intros x Hx. eapply IH; [apply Hw, Hans, Hx|apply Hn].
Qed.

(** ** Stateful handlers that may fail

    The state keeps its changes when the handler returns an error. *)
Definition M (E : Type -> Type) (S A : Type) : Type := S -> io E (S * result A).

Section Monad.
Context {E : Type -> Type} {S : Type}.
Definition ret {A} (a : A) : M E S A := fun s => Ret (s, Ok a).
Definition fail {A} (e : error) : M E S A := fun s => Ret (s, Err e).
Definition bind {A B} (m : M E S A) (f : A -> M E S B) : M E S B := fun s =>
  io_bind (m s) (fun sr => match sr with (s, Ok a) => f a s | (s, Err e) => Ret (s, Err e) end).
Definition perform {X} (c : E X) : M E S X := fun s => Vis c (fun x => Ret (s, Ok x)).
Definition get : M E S S := fun s => Ret (s, Ok s).
Definition put (s : S) : M E S unit := fun _ => Ret (s, Ok tt).
Definition lift {A} (r : result A) : M E S A := fun s => Ret (s, r).
(** A command that may fail, with [?]. *)
Definition task {X} (c : E (result X)) : M E S X := bind (perform c) lift.
End Monad.

(** Proof rules of the handlers: a postcondition sees the monitor, the state and the result. *)
Section Rules.
Context {E : Type -> Type} (answers : forall X, E X -> X -> Prop).
Context {St : Type} (allowed : forall X, St -> E X -> Prop) (next : forall X, St -> E X -> X -> St).
Context {S : Type}.

Definition mwp {A} (m : M E S A) (Q : St -> S -> result A -> Prop) (st : St) (s : S) : Prop :=
  wp answers allowed next (m s) (fun st sr => Q st (fst sr) (snd sr)) st.

(** Nothing is asked of the commands, and nothing known of the result is used. *)
Lemma mwp_any {A} (m : M E S A) (Q : St -> S -> result A -> Prop) st s :
  (forall X st (c : E X), allowed X st c) -> (forall st s r, Q st s r) -> mwp m Q st s.
Proof. intros Ha HQ. unfold mwp. revert st. induction (m s) as [a|X c k IH]; intros st; cbn; [apply HQ|]. split; [apply Ha|]. intros x _. apply IH. Qed.
Lemma mwp_ret {A} (a : A) (Q : St -> S -> result A -> Prop) st s : Q st s (Ok a) -> mwp (ret a) Q st s.
Proof. done. Qed.
Lemma mwp_fail {A} e (Q : St -> S -> result A -> Prop) st s : Q st s (Err e) -> mwp (fail e) Q st s.
Proof. done. Qed.
Lemma mwp_bind {A B} (m : M E S A) (f : A -> M E S B) Q st s :
  mwp m (fun st s r => match r with Ok a => mwp (f a) Q st s | Err e => Q st s (Err e) end) st s ->
  mwp (bind m f) Q st s.
Proof.
  intros H. unfold mwp, bind. apply wp_bind. eapply wp_mono; [|exact H]. intros st' [s' [a|e]]; cbn; done.
Qed.
Lemma mwp_perform {X} (c : E X) (Q : St -> S -> result X -> Prop) st s :
  allowed _ st c -> (forall x, answers _ c x -> Q (next _ st c x) s (Ok x)) -> mwp (perform c) Q st s.
Proof. done. Qed.
Lemma mwp_task {X} (c : E (result X)) (Q : St -> S -> result X -> Prop) st s :
  allowed _ st c -> (forall x, answers _ c x -> Q (next _ st c x) s x) -> mwp (task c) Q st s.
Proof. done. Qed.
Lemma mwp_get (Q : St -> S -> result S -> Prop) st s : Q st s (Ok s) -> mwp get Q st s.
Proof. done. Qed.
Lemma mwp_put s' (Q : St -> S -> result unit -> Prop) st s : Q st s' (Ok tt) -> mwp (put s') Q st s.
Proof. done. Qed.
Lemma mwp_lift {A} (r : result A) (Q : St -> S -> result A -> Prop) st s : Q st s r -> mwp (lift r) Q st s.
Proof. done. Qed.
Lemma mwp_mono {A} (m : M E S A) (Q Q' : St -> S -> result A -> Prop) st s :
  (forall st s r, Q st s r -> Q' st s r) -> mwp m Q st s -> mwp m Q' st s.
Proof. intros HQ. unfold mwp. apply wp_mono. auto. Qed.
End Rules.
