(* ===== verification/Pools.v ===== *)
(** * The bounded pools the handlers wait for ([run]: the semaphores of [AppState])

    A handler of the data socket or of the control API waits for permits of six pools: the
    password check, pull frames, large responses, bulk memory, the commit-order lock and the
    database workers ([db_task]).  Tokio's semaphores are fair: requests are served in the
    order they arrive, and one that asks for several permits blocks those behind it.

    [lane_of] keeps of a handler what it takes from the pools and gives back; [system] runs
    any number of lanes against the pools. *)

From Stdlib Require Import ZArith Lia List String Bool.
From stdpp Require Import base list strings gmap.
From S2P Require Import Prelude Sql Io.

Local Open Scope Z_scope.

Definition MAX_CONCURRENT_PASSWORD_CHECKS : Z := 1.
Definition MAX_CONCURRENT_PULLS : Z := 2.
Definition BULK_MEMORY_PERMITS : Z := 4.
Definition ARGON2_MEMORY_PERMITS : Z := 3.
Definition MAX_DB_WORKERS : Z := 2.

Inductive pool := AuthChecks | Pulls | LargeResponses | BulkMemory | CommitOrder | DbWorkers.
#[export] Instance pool_eq_dec : EqDecision pool.
Proof. solve_decision. Defined.

(** The number of permits each pool starts with. *)
Definition capacity (p : pool) : Z :=
  match p with
  | AuthChecks => MAX_CONCURRENT_PASSWORD_CHECKS
  | Pulls => MAX_CONCURRENT_PULLS
  | LargeResponses => 1
  | BulkMemory => BULK_MEMORY_PERMITS
  | CommitOrder => 1
  | DbWorkers => MAX_DB_WORKERS
  end.
(** The order in which a handler takes permits. *)
Definition rank (p : pool) : Z :=
  match p with AuthChecks | Pulls | LargeResponses => 0 | BulkMemory => 1 | CommitOrder => 2 | DbWorkers => 3 end.

(** ** What a command asks of the pools *)
Inductive use := Local | Database | Take (p : pool) (n : Z) | Give (p : pool) (n : Z).

(** The interface of the handlers' command types: the use of each command, and which
    answers to a [Take] are permits. *)
Class Pooled (E : Type -> Type) := {
  use_of : forall {X}, E X -> use;
  granted : forall {X}, E X -> X -> bool;
  answerable : forall {X} (c : E X), exists x, granted c x = true;
}.

Inductive lane :=
| Done
| Do (u : use) (X : Type) (grant : X -> bool) (k : X -> lane).
Fixpoint lane_of {E A} `{Pooled E} (p : io E A) : lane :=
  match p with
  | Ret _ => Done
  | @Vis _ _ X c k => Do (use_of c) X (granted c) (fun x => lane_of (k x))
  end.

Notation permits := (list (pool * Z)).
Definition below (p : pool) (h : permits) : Prop := Forall (fun q => rank (fst q) < rank p) h.

(** Remove one permit. *)
Fixpoint give_back (q : pool * Z) (h : permits) : permits :=
  match h with
  | [] => []
  | q' :: h => if bool_decide (q' = q) then h else q' :: give_back q h
  end.

(** A lane takes permits in the order of the ranks, returns only what it holds, and
    ends with nothing. *)
Fixpoint ordered (h : permits) (l : lane) : Prop :=
  match l with
  | Done => h = []
  | Do u X grant k =>
      (exists x, grant x = true) /\
      match u with
      | Local | Database => below DbWorkers h /\ forall x, ordered h (k x)
      | Take p n => 1 <= n <= capacity p /\ p <> DbWorkers /\ below p h /\
                    forall x, ordered (if grant x then (p, n) :: h else h) (k x)
      | Give p n => In (p, n) h /\ forall x, ordered (give_back (p, n) h) (k x)
      end
  end.

(** ** Tasks and pools *)
Record task := { held : permits; working : bool; rest : lane }.
Record system := { avail : pool -> Z; queue : pool -> list nat; tasks : gmap nat task }.
Definition idle : system := {| avail := capacity; queue := fun _ => []; tasks := ∅ |}.

Definition set_at {A} (f : pool -> A) (p : pool) (a : A) : pool -> A := fun q => if decide (q = p) then a else f q.
(** A waiter that gives up leaves every queue. *)
Definition unqueue (i : nat) (f : pool -> list nat) : pool -> list nat := fun p => List.filter (fun j => negb (Nat.eqb i j)) (f p).

(** What a task waits for before it can go on. *)
Definition needs (t : task) : option (pool * Z) :=
  match rest t with
  | Do (Take p n) _ _ _ => Some (p, n)
  | Do Database _ _ _ => if working t then None else Some (DbWorkers, 1)
  | _ => None
  end.

(** [i] changes from [t]: what it does when it need not wait, or is granted its permits. *)
Inductive runs_on : task -> (pool -> Z) -> task -> (pool -> Z) -> Prop :=
| run_local h w X g k x av : runs_on {| held := h; working := w; rest := Do Local X g k |} av
                                     {| held := h; working := w; rest := k x |} av
| run_give h w p n X g k x av : runs_on {| held := h; working := w; rest := Do (Give p n) X g k |} av
                                        {| held := give_back (p, n) h; working := w; rest := k x |} (set_at av p (av p + n))
| run_worker h X g k x av : runs_on {| held := h; working := true; rest := Do Database X g k |} av
                                    {| held := h; working := false; rest := k x |} (set_at av DbWorkers (av DbWorkers + 1)).
Inductive granted_to : task -> (pool -> Z) -> task -> (pool -> Z) -> Prop :=
| grant_take h w p n X (g : X -> bool) k x av : g x = true -> n <= av p ->
    granted_to {| held := h; working := w; rest := Do (Take p n) X g k |} av
               {| held := (p, n) :: h; working := w; rest := k x |} (set_at av p (av p - n))
| grant_worker h X g k av : 1 <= av DbWorkers ->
    granted_to {| held := h; working := false; rest := Do Database X g k |} av
               {| held := h; working := true; rest := Do Database X g k |} (set_at av DbWorkers (av DbWorkers - 1)).
(** A shutdown or a deadline answers a waiter without permits. *)
Inductive refused : task -> task -> Prop :=
| refuse_take h w p n X (g : X -> bool) k x : g x = false ->
    refused {| held := h; working := w; rest := Do (Take p n) X g k |} {| held := h; working := w; rest := k x |}
| refuse_worker h X g k x :
    refused {| held := h; working := false; rest := Do Database X g k |} {| held := h; working := false; rest := k x |}.

Definition update_task (i : nat) (t : task) (s : system) : system :=
  {| avail := avail s; queue := queue s; tasks := <[i := t]> (tasks s) |}.

(** The handlers that make progress, and what comes from outside.  A dropped handler
    ([cancel]) goes on as any lane that returns what it holds: the closures given to
    [spawn_blocking] keep their permits until they end, the others are dropped at once. *)
Inductive work : system -> system -> Prop :=
| work_request s i t p n : tasks s !! i = Some t -> needs t = Some (p, n) -> ~ In i (queue s p) ->
    work s {| avail := avail s; queue := set_at (queue s) p (queue s p ++ [i]); tasks := tasks s |}
| work_grant s i t t' p n q av : tasks s !! i = Some t -> needs t = Some (p, n) -> queue s p = i :: q ->
    granted_to t (avail s) t' av ->
    work s {| avail := av; queue := set_at (queue s) p q; tasks := <[i := t']> (tasks s) |}
| work_run s i t t' av : tasks s !! i = Some t -> runs_on t (avail s) t' av ->
    work s {| avail := av; queue := queue s; tasks := <[i := t']> (tasks s) |}
| work_end s i h : tasks s !! i = Some {| held := h; working := false; rest := Done |} ->
    work s {| avail := avail s; queue := queue s; tasks := delete i (tasks s) |}.
Inductive step (arrives : lane -> Prop) : system -> system -> Prop :=
| step_work s s' : work s s' -> step arrives s s'
| step_arrive s i l : tasks s !! i = None -> arrives l ->
    step arrives s (update_task i {| held := []; working := false; rest := l |} s)
| step_refuse s i t t' : tasks s !! i = Some t -> refused t t' ->
    step arrives s {| avail := avail s; queue := unqueue i (queue s); tasks := <[i := t']> (tasks s) |}
| step_cancel s i t l : tasks s !! i = Some t -> ordered (held t) l ->
    (working t = true -> exists X g k, l = Do Database X g k) ->
    step arrives s {| avail := avail s; queue := unqueue i (queue s);
                      tasks := <[i := {| held := held t; working := working t; rest := l |}]> (tasks s) |}.
