(* ===== verification/PoolsSpec.v ===== *)
(** * The pools never deadlock

    Under the discipline of [ordered] the permits are conserved, some task can always go on
    without waiting for a deadline, and the tasks in the system finish. *)

From Stdlib Require Import ZArith Lia List String Bool.
From stdpp Require Import base list strings gmap.
From S2P Require Import Prelude Sql Totals Io Pools.

Local Open Scope Z_scope.

(** ** Permits of a task *)
Definition amount (p : pool) (q : pool * Z) : Z := if decide (fst q = p) then snd q else 0.
Definition holding (p : pool) (h : permits) : Z := sum_of (amount p) h.
Definition weight (p : pool) (t : task) : Z :=
  holding p (held t) + (if working t then if decide (p = DbWorkers) then 1 else 0 else 0).
Notation taken p ts := (total (weight p) ts).

Lemma holding_cons p q h : holding p (q :: h) = amount p q + holding p h.
Proof. reflexivity. Qed.
Lemma holding_give p q h : In q h -> holding p (give_back q h) = holding p h - amount p q.
Proof.
  induction h as [|q' h IH]; [done|]. intros Hin. cbn [give_back]. case_bool_decide as E; [subst; rewrite holding_cons; lia|].
  destruct Hin as [->|Hin]; [done|]. rewrite !holding_cons, IH by done. lia.
Qed.
Lemma give_subset q h x : In x (give_back q h) -> In x h.
Proof.
  induction h as [|q' h IH]; [done|]. cbn [give_back]. case_bool_decide; [by right|]. intros [->|Hin]; [by left|right; auto].
Qed.

Definition positive (h : permits) : Prop := forall q, In q h -> 1 <= snd q.
Lemma holding_nonneg p h : positive h -> 0 <= holding p h.
Proof.
  induction h as [|q h IH]; intros H; [done|]. rewrite holding_cons. assert (0 <= holding p h) by (apply IH; intros x Hx; apply H; by right).
  specialize (H q (or_introl eq_refl)). unfold amount. case_decide; lia.
Qed.
Lemma holding_in p h : 0 < holding p h -> exists n, In (p, n) h.
Proof.
  induction h as [|[q n] h IH]; [done|]. rewrite holding_cons. unfold amount. cbn [fst snd]. case_decide as E.
  - subst. intros _. exists n. by left.
  - intros H. destruct IH as [m Hm]; [lia|]. exists m. by right.
Qed.

Lemma weight_none p t : held t = [] -> working t = false -> weight p t = 0.
Proof. unfold weight. by intros -> ->. Qed.

(** ** The invariant *)
Record task_ok (t : task) : Prop := {
  tk_ordered : ordered (held t) (rest t);
  tk_working : working t = true -> exists X g k, rest t = Do Database X g k;
  tk_positive : positive (held t);
}.
Record sound (s : system) : Prop := {
  so_tasks : forall i t, tasks s !! i = Some t -> task_ok t;
  so_queue : forall p i, In i (queue s p) -> exists t n, tasks s !! i = Some t /\ needs t = Some (p, n);
  so_nodup : forall p, NoDup (queue s p);
  so_avail : forall p, avail s p = capacity p - taken p (tasks s);
  so_nonneg : forall p, 0 <= avail s p;
}.

Lemma set_at_eq {A} (f : pool -> A) p a : set_at f p a p = a.
Proof. unfold set_at. by rewrite decide_True. Qed.
Lemma set_at_ne {A} (f : pool -> A) p q a : q <> p -> set_at f p a q = f q.
Proof. intros. unfold set_at. by rewrite decide_False. Qed.

(** What the changes of one task do to it and to the permits left. *)
Definition trades (t : task) (av : pool -> Z) (t' : task) (av' : pool -> Z) : Prop :=
  task_ok t' /\ (forall p, av' p = av p + weight p t - weight p t') /\ ((forall p, 0 <= av p) -> forall p, 0 <= av' p).

Lemma runs_on_trades t av t' av' : task_ok t -> runs_on t av t' av' -> trades t av t' av'.
Proof.
  intros [Ho Hw Hp] H. destruct H as [h w X g k x av|h w p n X g k x av|h X g k x av]; cbn in Ho, Hw, Hp.
  - destruct w; [destruct (Hw eq_refl) as (? & ? & ? & ?); done|]. split_and!; [|intros p; unfold weight; cbn; lia|done].
    constructor; [apply Ho|done|done].
  - destruct w; [destruct (Hw eq_refl) as (? & ? & ? & ?); done|]. destruct Ho as (_ & Hin & Ho). split_and!.
    + constructor; cbn; [apply Ho|done|]. intros q Hq. apply Hp. by eapply give_subset.
    + intros q. unfold weight. cbn. rewrite holding_give by done. unfold set_at, amount. cbn [fst snd].
      repeat case_decide; subst; congruence || lia.
    + intros Hnn q. specialize (Hnn q). specialize (Hp _ Hin). cbn in Hp. unfold set_at. case_decide; subst; lia.
  - split_and!; [constructor; [apply Ho|done|done]| |].
    + intros q. unfold weight, set_at. cbn. case_decide; subst; lia.
    + intros Hnn q. specialize (Hnn q). unfold set_at. case_decide; subst; lia.
Qed.
Lemma granted_trades t av t' av' : task_ok t -> granted_to t av t' av' -> trades t av t' av'.
Proof.
  intros [Ho Hw Hp] H. destruct H as [h w p n X g k x av Hg Hn|h X g k av Hn]; cbn in Ho, Hw, Hp.
  - destruct w; [destruct (Hw eq_refl) as (? & ? & ? & ?); done|]. destruct Ho as (_ & Hr & _ & _ & Ho). specialize (Ho x). rewrite Hg in Ho.
    split_and!.
    + constructor; [exact Ho|done|]. intros q [<-|Hq]; [cbn; lia|auto].
    + intros q. unfold weight. cbn [held working]. rewrite holding_cons. unfold set_at, amount. cbn [fst snd].
      repeat case_decide; subst; congruence || lia.
    + intros Hnn q. specialize (Hnn q). unfold set_at. case_decide; subst; lia.
  - split_and!; [constructor; cbn; [exact Ho|eauto|done]| |].
    + intros q. unfold weight, set_at. cbn. case_decide; subst; lia.
    + intros Hnn q. specialize (Hnn q). unfold set_at. case_decide; subst; lia.
Qed.
Lemma refused_trades t t' av : task_ok t -> refused t t' -> trades t av t' av.
Proof.
  intros [Ho Hw Hp] H. destruct H as [h w p n X g k x Hg|h X g k x]; cbn in Ho, Hw, Hp.
  - destruct w; [destruct (Hw eq_refl) as (? & ? & ? & ?); done|]. destruct Ho as (_ & _ & _ & _ & Ho). specialize (Ho x). rewrite Hg in Ho.
    split_and!; [|intros q; unfold weight; cbn; lia|done]. constructor; done.
  - split_and!; [|intros q; unfold weight; cbn; lia|done]. constructor; [apply Ho|done|done].
Qed.

Lemma in_unqueue i j f p : In j (unqueue i f p) <-> In j (f p) /\ j <> i.
Proof. unfold unqueue. rewrite List.filter_In, negb_true_iff, Nat.eqb_neq. naive_solver. Qed.
Lemma nodup_unqueue i f p : NoDup (f p) -> NoDup (unqueue i f p).
Proof. unfold unqueue. rewrite !NoDup_ListNoDup. apply List.NoDup_filter. Qed.

(** Replacing one task, with queues that still hold only waiters. *)
Lemma sound_trade s i t t' av q :
  sound s -> tasks s !! i = Some t -> trades t (avail s) t' av ->
  (forall p j, In j (q p) -> In j (queue s p) /\ j <> i) -> (forall p, NoDup (q p)) ->
  sound {| avail := av; queue := q; tasks := <[i := t']> (tasks s) |}.
Proof.
  intros [H1 H2 H3 H4 H5] Ht (Hok & Hav & Hnn) Hq Hnd. constructor; cbn [tasks queue avail].
  - intros j u. rewrite lookup_insert_Some. intros [[<- <-]|[_ Hu]]; eauto.
  - intros p j Hj. destruct (Hq p j Hj) as [Hin Hne]. destruct (H2 p j Hin) as (u & n & Hu & Hn). exists u, n.
    rewrite lookup_insert_ne by done. done.
  - exact Hnd.
  - intros p. rewrite Hav, H4, (total_update (weight p) _ i t t' Ht). lia.
  - by apply Hnn.
Qed.

Lemma not_waiting s i t p n : sound s -> tasks s !! i = Some t -> needs t = Some (p, n) -> forall q, In i (queue s q) -> q = p.
Proof. intros H Ht Hn q Hin. destruct (so_queue s H q i Hin) as (u & m & Hu & Hm). congruence. Qed.
Lemma idle_unqueued s i t : sound s -> tasks s !! i = Some t -> needs t = None -> forall q, ~ In i (queue s q).
Proof. intros H Ht Hn q Hin. destruct (so_queue s H q i Hin) as (u & m & Hu & Hm). congruence. Qed.

Lemma runs_on_needs t av t' av' : task_ok t -> runs_on t av t' av' -> needs t = None.
Proof. intros _ H. by destruct H. Qed.

Lemma work_sound s s' : sound s -> work s s' -> sound s'.
Proof.
  intros Hs H. destruct H as [s i t p n Ht Hn Hin|s i t t' p n q av Ht Hn Hq Hg|s i t t' av Ht Hr|s i h Ht].
  - destruct Hs as [H1 H2 H3 H4 H5]. constructor; cbn [tasks queue avail]; [done| |intros q|done|done].
    + intros q j. unfold set_at. case_decide as E; [subst|apply H2]. rewrite in_app_iff. intros [Hj|[<-|[]]]; eauto.
    + unfold set_at. case_decide; [|done]. subst. apply NoDup_app. split_and!; [done| |apply NoDup_singleton].
      intros j Hj. rewrite list_elem_of_singleton. intros ->. by apply Hin, list_elem_of_In.
  - pose proof (so_nodup s Hs p) as Hnd. rewrite Hq in Hnd. apply NoDup_cons in Hnd as [Hni Hnd].
    eapply sound_trade; [done|exact Ht|by eapply granted_trades; [eapply so_tasks|]| |].
    + intros r j. unfold set_at. case_decide as E.
      * subst. intros Hj. rewrite Hq. split; [by right|]. intros ->. by apply Hni, list_elem_of_In.
      * intros Hj. split; [done|]. intros ->. by apply E, (not_waiting s i t p n Hs Ht Hn).
    + intros r. unfold set_at. case_decide; [done|]. by apply so_nodup.
  - pose proof (so_tasks s Hs i t Ht) as Hok.
    eapply sound_trade; [done|exact Ht|by eapply runs_on_trades| |by apply so_nodup].
    intros r j Hj. split; [done|]. intros ->. eapply idle_unqueued; [done|exact Ht|by eapply runs_on_needs|exact Hj].
  - pose proof (idle_unqueued s i _ Hs Ht eq_refl) as Hidle. pose proof (tk_ordered _ (so_tasks s Hs i _ Ht)) as Hh. cbn in Hh.
    destruct Hs as [H1 H2 H3 H4 H5]. constructor; cbn [tasks queue avail]; [|intros p j Hj|done|intros p|done].
    + intros j u [_ Hu]%lookup_delete_Some. eauto.
    + destruct (H2 p j Hj) as (u & n & Hu & Hn). exists u, n. rewrite lookup_delete_ne; [done|]. intros <-. by apply (Hidle p).
    + rewrite H4, (total_delete (weight p) _ i _ Ht), weight_none by done. lia.
Qed.

Lemma step_sound arrives s s' : (forall l, arrives l -> ordered [] l) -> sound s -> step arrives s s' -> sound s'.
Proof.
  intros Ha Hs H. destruct H as [s s' Hw|s i l Hi Hl|s i t t' Ht Hr|s i t l Ht Hl Hwk].
  - by eapply work_sound.
  - destruct Hs as [H1 H2 H3 H4 H5]. constructor; cbn [tasks queue avail update_task]; [|intros p j Hj|done|intros p|done].
    + intros j u. rewrite lookup_insert_Some. intros [[<- <-]|[_ Hu]]; [|eauto]. constructor; [by apply Ha|done|by intros q []].
    + destruct (H2 p j Hj) as (u & n & Hu & Hn). exists u, n. rewrite lookup_insert_ne; [done|]. intros <-. congruence.
    + rewrite H4, total_insert, weight_none by done. lia.
  - eapply sound_trade; [done|exact Ht|by eapply refused_trades; [eapply so_tasks|]| |intros; by apply nodup_unqueue, so_nodup].
    intros p j. by rewrite in_unqueue.
  - destruct (so_tasks s Hs i t Ht) as [_ _ Hp].
    eapply sound_trade; [done|exact Ht| | |intros; by apply nodup_unqueue, so_nodup].
    + split_and!; [constructor; done| |done]. intros p. unfold weight. cbn. lia.
    + intros p j. by rewrite in_unqueue.
Qed.

Lemma idle_sound : sound idle.
Proof. constructor; cbn; [done|done|intros; constructor|intros; rewrite total_empty; lia|by intros []]. Qed.

(** ** Progress *)
Lemma below_forall p h : below p h <-> forall q, In q h -> rank (fst q) < rank p.
Proof. unfold below. apply List.Forall_forall. Qed.
Lemma needs_spec t p n :
  task_ok t -> needs t = Some (p, n) -> 1 <= n <= capacity p /\ working t = false /\ below p (held t).
Proof.
  intros [Ho Hw _] Hn. destruct t as [h w l]; cbn in *. unfold needs in Hn. cbn in Hn.
  destruct l as [|[| |q m|q m] X g k]; try done.
  - destruct w; [done|]. injection Hn as <- <-. split_and!; [done..|]. apply Ho.
  - injection Hn as <- <-. destruct Ho as (_ & Hr & _ & Hb & _). split_and!; [lia..| |done].
    destruct w; [|done]. destruct (Hw eq_refl) as (? & ? & ? & ?). done.
Qed.
Lemma grantable t av p n : task_ok t -> needs t = Some (p, n) -> n <= av p -> exists t' av', granted_to t av t' av'.
Proof.
  intros [Ho _ _] Hn Hle. destruct t as [h w l]; cbn in *. unfold needs in Hn. cbn in Hn.
  destruct l as [|[| |q m|q m] X g k]; try done.
  - destruct w; [done|]. injection Hn as <- <-. do 2 eexists. by apply grant_worker.
  - injection Hn as <- <-. destruct Ho as ([x Hx] & _). do 2 eexists. by eapply (grant_take _ _ _ _ _ _ _ x).
Qed.
Lemma runnable s i t : sound s -> tasks s !! i = Some t -> needs t = None -> exists s', work s s'.
Proof.
  intros Hs Ht Hn. destruct (so_tasks s Hs i t Ht) as [Ho Hw _]. destruct t as [h w l]; cbn in *. unfold needs in Hn. cbn in Hn.
  destruct l as [|u X g k].
  - destruct w; [destruct (Hw eq_refl) as (? & ? & ? & ?); done|]. eexists. by eapply work_end.
  - assert (exists x, g x = true) as [x _] by apply Ho. destruct u; try done.
    + eexists. eapply work_run; [exact Ht|]. exact (run_local _ _ _ _ _ x _).
    + destruct w; [|done]. eexists. eapply work_run; [exact Ht|]. exact (run_worker _ _ _ _ x _).
    + eexists. eapply work_run; [exact Ht|]. exact (run_give _ _ _ _ _ _ _ x _).
Qed.

(** A task that waits can be granted, or somebody it waits for can go on. *)
Lemma waiter_progress (r : nat) s i t p n :
  sound s -> tasks s !! i = Some t -> needs t = Some (p, n) -> 3 - rank p <= Z.of_nat r -> exists s', work s s'.
Proof.
  intros Hs. revert i t p n. induction r as [|r IH]; intros i t p n Ht Hn Hr.
  all: destruct (in_dec Nat.eq_dec i (queue s p)) as [Hin|Hout]; [|eexists; by eapply work_request].
  all: destruct (queue s p) as [|j q] eqn:Eq; [done|].
  all: destruct (so_queue s Hs p j) as (tj & m & Hj & Hnj); [rewrite Eq; by left|].
  all: pose proof (so_tasks s Hs j tj Hj) as Hokj; destruct (needs_spec tj p m Hokj Hnj) as (Hm & _ & _).
  all: destruct (decide (m <= avail s p)) as [Hle|Hgt];
    [destruct (grantable tj (avail s) p m Hokj Hnj Hle) as (t' & av & Hg); eexists; by eapply work_grant|].
  all: destruct (total_positive (weight p) (tasks s)) as (k & tk & Hk & Hwk); [pose proof (so_avail s Hs p); lia|].
  all: destruct (needs tk) as [[p' n']|] eqn:Enk; [|by eapply runnable].
  all: destruct (needs_spec tk p' n' (so_tasks s Hs k tk Hk) Enk) as (_ & Ew & Hb).
  all: unfold weight in Hwk; rewrite Ew, Z.add_0_r in Hwk; destruct (holding_in p _ Hwk) as [m' Hin'].
  all: rewrite below_forall in Hb; specialize (Hb _ Hin'); cbn in Hb.
  - destruct p, p'; cbn in *; lia.
  - eapply IH; [exact Hk|exact Enk|lia].
Qed.

Lemma pools_progress s : sound s -> tasks s <> ∅ -> exists s', work s s'.
Proof.
  intros Hs (i & t & Ht)%map_choose. destruct (needs t) as [[p n]|] eqn:En; [|by eapply runnable].
  eapply (waiter_progress 3); [done|exact Ht|exact En|]. destruct p; cbn; lia.
Qed.

(** ** The tasks in the system finish *)
Inductive dec {A} (R : A -> A -> Prop) : list A -> list A -> Prop :=
| dec_here x y l : R x y -> dec R (x :: l) (y :: l)
| dec_there x l l' : dec R l l' -> dec R (x :: l) (x :: l').
Lemma dec_wf {A} (R : A -> A -> Prop) : well_founded R -> well_founded (dec R).
Proof.
  intros HR l. induction l as [|x l Hl]; [constructor; intros l' H; inversion H|].
  revert l Hl. induction (HR x) as [x _ IHx]. intros l Hl. induction Hl as [l Hl' IHl].
  constructor. intros y H. inversion H; subst; [by apply IHx; [|constructor]|by apply IHl].
Qed.
Lemma dec_map {A B} (R : B -> B -> Prop) (f g : A -> B) (D : list A) i :
  NoDup D -> In i D -> R (f i) (g i) -> (forall j, j <> i -> f j = g j) -> dec R (map f D) (map g D).
Proof.
  intros Hnd Hin HR Hsame. induction Hnd as [|j D Hj Hnd IH]; [done|]. cbn. destruct Hin as [->|Hin].
  - rewrite (map_ext_in f g D); [by constructor|]. intros k Hk. apply Hsame. intros ->. by apply Hj, list_elem_of_In.
  - rewrite (Hsame j); [constructor; by apply IH|]. intros ->. by apply Hj, list_elem_of_In.
Qed.

(** A task shrinks to a later point of its lane, or waits at the same point. *)
Definition child (l' l : lane) : Prop := match l with Done => False | Do u X g k => exists x, l' = k x end.
Definition closer (a b : option (lane * nat)) : Prop :=
  match a, b with
  | None, Some _ => True
  | Some (l, n), Some (l', n') => child l l' \/ (l = l' /\ (n < n')%nat)
  | _, None => False
  end.
Lemma closer_wf : well_founded closer.
Proof.
  assert (Acc closer None) as Hnone by (constructor; intros [[]|] []).
  assert (forall l n, Acc closer (Some (l, n))) as Hsome; [|intros [[l n]|]; auto].
  induction l as [|u X g k IH]; intros n; induction n as [n IHn] using lt_wf_ind; constructor; intros [[l' n']|] Hc; cbn in Hc; try exact Hnone.
  - destruct Hc as [[]|[-> Hlt]]. auto.
  - destruct Hc as [[x ->]|[-> Hlt]]; auto.
Qed.

Definition pools : list pool := [AuthChecks; Pulls; LargeResponses; BulkMemory; CommitOrder; DbWorkers].
Definition waits (s : system) (i : nat) : bool := existsb (fun p => existsb (Nat.eqb i) (queue s p)) pools.
Definition point (s : system) (i : nat) : option (lane * nat) :=
  match tasks s !! i with
  | None => None
  | Some t => Some (rest t, if working t then 0 else if waits s i then 1 else 2)%nat
  end.

Lemma waits_spec s i : waits s i = true <-> exists p, In i (queue s p).
Proof.
  unfold waits. rewrite existsb_exists. split.
  - intros (p & _ & (j & Hj & ->%Nat.eqb_eq)%existsb_exists). eauto.
  - intros [p Hp]. exists p. split; [destruct p; cbn; tauto|]. apply existsb_exists. exists i. by rewrite Nat.eqb_refl.
Qed.
Lemma waits_same s s' i : (forall p, In i (queue s' p) <-> In i (queue s p)) -> waits s' i = waits s i.
Proof. intros H. apply eq_true_iff_eq. rewrite !waits_spec. split; intros [p Hp]; exists p; by apply H. Qed.
Lemma point_same s s' i : tasks s' !! i = tasks s !! i -> (forall p, In i (queue s' p) <-> In i (queue s p)) -> point s' i = point s i.
Proof. intros Ht Hq. unfold point. by rewrite Ht, (waits_same s s' i Hq). Qed.

Lemma runs_child t av t' av' : runs_on t av t' av' -> child (rest t') (rest t).
Proof. intros []; cbn; eauto. Qed.

(** Each step moves one task and leaves the others where they are. *)
Lemma work_moves s s' : sound s -> work s s' ->
  exists i, tasks s !! i <> None /\ closer (point s' i) (point s i) /\ forall j, j <> i -> point s' j = point s j.
Proof.
  intros Hs H. destruct H as [s i t p n Ht Hn Hin|s i t t' p n q av Ht Hn Hq Hg|s i t t' av Ht Hr|s i h Ht]; exists i.
  - destruct (needs_spec t p n (so_tasks s Hs i t Ht) Hn) as (_ & Hw & _). split_and!; [congruence| |].
    + unfold point at 1 2. cbn [tasks]. rewrite Ht, Hw. right. split; [done|].
      rewrite (proj2 (waits_spec _ i)) by (exists p; cbn; rewrite set_at_eq, in_app_iff; right; by left).
      destruct (waits s i) eqn:E; [|lia]. apply waits_spec in E as [p' Hp']. by rewrite (not_waiting s i t p n Hs Ht Hn p' Hp') in Hp'.
    + intros j Hj. apply point_same; [done|]. intros p'. cbn. unfold set_at. case_decide; [subst|done].
      rewrite in_app_iff. cbn. naive_solver.
  - split_and!; [congruence| |].
    + assert (waits s i = true) as Hwt by (apply waits_spec; exists p; rewrite Hq; by left).
      unfold point. cbn [tasks]. rewrite lookup_insert_eq, Ht, Hwt. destruct Hg as [h w p' n' X g k x av Hx Hle|h X g k av Hle]; cbn.
      * left. eauto.
      * right. split; [done|lia].
    + intros j Hj. apply point_same; cbn; [by rewrite lookup_insert_ne|]. intros p'. unfold set_at. case_decide; [subst|done].
      rewrite Hq. cbn. naive_solver.
  - split_and!; [congruence| |].
    + unfold point. cbn [tasks]. rewrite lookup_insert_eq, Ht. left. by eapply runs_child.
    + intros j Hj. apply point_same; cbn; [by rewrite lookup_insert_ne|done].
  - split_and!; [congruence| |].
    + unfold point. cbn [tasks]. rewrite lookup_delete_eq, Ht. done.
    + intros j Hj. apply point_same; cbn; [by rewrite lookup_delete_ne|done].
Qed.

Lemma work_domain s s' i : work s s' -> tasks s' !! i <> None -> tasks s !! i <> None.
Proof.
  intros [] Hi; cbn in Hi; try done; destruct (decide (i = i0)) as [->|]; rewrite ?lookup_insert_ne, ?lookup_delete_ne in Hi by done; congruence.
Qed.

Lemma work_terminates s : sound s -> Acc (fun s2 s1 => work s1 s2) s.
Proof.
  intros Hs. set (D := (map_to_list (tasks s)).*1). assert (NoDup D) as HD by apply NoDup_fst_map_to_list.
  assert (forall i, tasks s !! i <> None -> In i D) as Hdom.
  { intros i Hi. destruct (tasks s !! i) as [t|] eqn:E; [|done]. apply list_elem_of_In, list_elem_of_fmap.
    exists (i, t). split; [done|]. by apply elem_of_map_to_list. }
  clearbody D. remember (map (point s) D) as v eqn:Ev. revert s Hs Hdom Ev.
  induction (dec_wf _ closer_wf v) as [v _ IH]. intros s Hs Hdom ->. constructor. intros s' Hw.
  destruct (work_moves s s' Hs Hw) as (i & Hi & Hc & Hsame).
  eapply (IH (map (point s') D)); [|by eapply work_sound|intros j Hj; apply Hdom; by eapply work_domain|done].
  eapply dec_map; [done|by apply Hdom|done|done].
Qed.

(** ** Password checks leave a permit of bulk memory to the sockets *)
Definition argon (q : pool * Z) : bool := bool_decide (q = (BulkMemory, ARGON2_MEMORY_PERMITS)).
Definition password_checks (ts : gmap nat task) : Z := total (fun t => count argon (held t)) ts.

Lemma argon_holding h : positive h -> ARGON2_MEMORY_PERMITS * count argon h <= holding BulkMemory h.
Proof.
  induction h as [|q h IH]; intros Hp; [done|]. rewrite holding_cons. assert (positive h) as Hp' by (intros x Hx; apply Hp; by right).
  specialize (IH Hp'). specialize (Hp q (or_introl eq_refl)). unfold count, select in *. cbn [List.filter]. unfold argon at 1.
  case_bool_decide as E; [subst; cbn [length]; unfold amount; cbn [fst snd]; rewrite decide_True by done; lia|].
  unfold amount. case_decide; lia.
Qed.
Lemma argon_taken ts :
  (forall i t, ts !! i = Some t -> positive (held t)) -> ARGON2_MEMORY_PERMITS * password_checks ts <= taken BulkMemory ts.
Proof.
  intros Hp. unfold password_checks. rewrite <- total_scale. apply total_le. intros i t Ht. unfold weight.
  pose proof (argon_holding (held t) (Hp i t Ht)). destruct (working t); [rewrite decide_False by done|]; lia.
Qed.
Lemma one_password_check s : sound s -> password_checks (tasks s) <= 1.
Proof.
  intros [Ht _ _ Ha Hn]. pose proof (argon_taken (tasks s) (fun i t H => tk_positive t (Ht i t H))) as H.
  specialize (Ha BulkMemory). specialize (Hn BulkMemory). cbv [ARGON2_MEMORY_PERMITS capacity BULK_MEMORY_PERMITS] in *. lia.
Qed.

(** Every maximal run of the tasks ends with all of them finished. *)
Lemma work_ends s : sound s -> (forall s', ~ work s s') -> tasks s = ∅ /\ forall p, avail s p = capacity p.
Proof.
  intros Hs Hn. assert (tasks s = ∅) as E.
  { destruct (decide (tasks s = ∅)) as [|Hne]; [done|]. destruct (pools_progress s Hs Hne) as [s' H]. by destruct (Hn s'). }
  split; [done|]. intros p. rewrite (so_avail s Hs), E. rewrite total_empty. lia.
Qed.
