(* ===== verification/Text.v ===== *)
(** * Text of the standard library the program parses

    Unicode white space over UTF-8, [str::split], [str::split_once],
    [str::parse] of integers and of IP addresses, and their [Display] forms. *)

From Stdlib Require Import ZArith Lia List String Ascii Bool.
From stdpp Require Import base list strings pretty.
From S2P Require Import Prelude Model Auth.

Local Open Scope Z_scope.

(** ** Characters *)

(** A UTF-8 string as its characters, each the list of its bytes: a byte outside
    0x80..0xBF starts a character. *)
Definition continues (c : ascii) : bool := in_range 128 191 (code c).
Fixpoint chars (l : list ascii) : list (list ascii) :=
  match l with
  | [] => []
  | c :: l' =>
      match chars l' with
      | (d :: ch) :: rest => if continues d then (c :: d :: ch) :: rest else [c] :: (d :: ch) :: rest
      | rest => [c] :: rest
      end
  end.

(** The scalar value of a character. *)
Definition scalar (ch : list ascii) : Z :=
  match map code ch with
  | [a] => a
  | [a; b] => (a - 192) * 64 + (b - 128)
  | [a; b; c] => (a - 224) * 4096 + (b - 128) * 64 + (c - 128)
  | [a; b; c; d] => (a - 240) * 262144 + (b - 128) * 4096 + (c - 128) * 64 + (d - 128)
  | _ => 65533
  end.

(** [char::is_whitespace]: the White_Space property. *)
Definition is_whitespace (ch : list ascii) : bool :=
  let c := scalar ch in
  in_range 9 13 c || existsb (Z.eqb c) [32; 133; 160; 5760; 8232; 8233; 8239; 8287; 12288] || in_range 8192 8202 c.
(** [char::is_control]: the Cc category. *)
Definition is_control (ch : list ascii) : bool := let c := scalar ch in in_range 0 31 c || in_range 127 159 c.

Definition chars_of (s : string) : list (list ascii) := chars (bytes_of s).
Definition string_of_chars (l : list (list ascii)) : string := string_of_list_ascii (List.concat l).

Fixpoint drop_chars (p : list ascii -> bool) (l : list (list ascii)) : list (list ascii) :=
  match l with
  | [] => []
  | c :: l' => if p c then drop_chars p l' else l
  end.
(** [str::trim]. *)
Definition trim (s : string) : string :=
  string_of_chars (rev (drop_chars is_whitespace (rev (drop_chars is_whitespace (chars_of s))))).

(** ** Splitting *)
Fixpoint split_bytes (c : ascii) (l : list ascii) : list (list ascii) :=
  match l with
  | [] => [[]]
  | x :: l' =>
      if Ascii.eqb x c then [] :: split_bytes c l'
      else match split_bytes c l' with p :: ps => (x :: p) :: ps | [] => [[x]] end
  end.
(** [str::split] on an ASCII character. *)
Definition split (c : ascii) (s : string) : list string := map string_of_list_ascii (split_bytes c (bytes_of s)).

Definition contains_char (c : ascii) (s : string) : bool := existsb (Ascii.eqb c) (bytes_of s).
Definition matches_count (c : ascii) (s : string) : Z := Z.of_nat (length (List.filter (Ascii.eqb c) (bytes_of s))).

(** [str::split_once] on a character. *)
Fixpoint split_once_bytes (c : ascii) (l : list ascii) : option (list ascii * list ascii) :=
  match l with
  | [] => None
  | x :: l' => if Ascii.eqb x c then Some ([], l')
               else match split_once_bytes c l' with Some (a, b) => Some (x :: a, b) | None => None end
  end.
Definition split_once (c : ascii) (s : string) : option (string * string) :=
  option_map (fun p => (string_of_list_ascii (fst p), string_of_list_ascii (snd p))) (split_once_bytes c (bytes_of s)).
(** [str::rsplit_once] on a character. *)
Definition rsplit_once (c : ascii) (s : string) : option (string * string) :=
  option_map (fun p => (string_of_list_ascii (rev (snd p)), string_of_list_ascii (rev (fst p))))
    (split_once_bytes c (rev (bytes_of s))).

Definition starts_with (p s : string) : bool := String.prefix p s.
Definition strip_prefix (p s : string) : option string :=
  if String.prefix p s then Some (String.substring (String.length p) (String.length s - String.length p) s) else None.
Definition ends_with_char (c : ascii) (s : string) : bool :=
  match rev (bytes_of s) with x :: _ => Ascii.eqb x c | [] => false end.

(** [str::split_once("://")]. *)
Fixpoint split_scheme_bytes (l : list ascii) : option (list ascii * list ascii) :=
  match l with
  | [] => None
  | x :: l' =>
      match l with
      | ":"%char :: "/"%char :: "/"%char :: rest => Some ([], rest)
      | _ => match split_scheme_bytes l' with Some (a, b) => Some (x :: a, b) | None => None end
      end
  end.
Definition split_scheme (s : string) : option (string * string) :=
  option_map (fun p => (string_of_list_ascii (fst p), string_of_list_ascii (snd p))) (split_scheme_bytes (bytes_of s)).

Definition is_ascii_alphabetic (c : ascii) : bool := is_ascii_uppercase c || is_ascii_lowercase c.
Definition is_ascii_alphanumeric (c : ascii) : bool := is_ascii_alphabetic c || is_ascii_digit c.
Definition is_ascii (s : string) : bool := all_bytes (fun c => code c <? 128) s.

(** ** Integers *)
Fixpoint digits_value (acc : Z) (l : list ascii) : option Z :=
  match l with
  | [] => Some acc
  | c :: l' => if is_ascii_digit c then digits_value (acc * 10 + (code c - 48)) l' else None
  end.
(** [str::parse] of an integer type with the range [lo..=hi]: an optional sign (["-"]
    only for signed types) and at least one digit. *)
Definition parse_int (lo hi : Z) (s : string) : option Z :=
  let check z := if in_range lo hi z then Some z else None in
  match bytes_of s with
  | [] => None
  | "+"%char :: [] => None
  | "+"%char :: l => match digits_value 0 l with Some z => check z | None => None end
  | "-"%char :: [] => None
  | "-"%char :: l => if lo <? 0 then match digits_value 0 l with Some z => check (- z) | None => None end else None
  | l => match digits_value 0 l with Some z => check z | None => None end
  end.
Definition parse_u16 : string -> option Z := parse_int 0 65535.
Definition parse_u64 : string -> option Z := parse_int 0 u64_max.
Definition parse_i64 : string -> option Z := parse_int i64_min i64_max.

(** ** IP addresses *)
Inductive IpAddr :=
| V4 (octets : list Z)
| V6 (segments : list Z).

Definition zs_eqb (a b : list Z) : bool := bool_decide (a = b).
Definition ip_eqb (a b : IpAddr) : bool :=
  match a, b with V4 x, V4 y | V6 x, V6 y => zs_eqb x y | _, _ => false end.

Definition hex_value (c : ascii) : option Z :=
  if is_ascii_digit c then Some (code c - 48)
  else if in_range 97 102 (code c) then Some (code c - 87)
  else if in_range 65 70 (code c) then Some (code c - 55) else None.
Definition radix_digit (radix : Z) (c : ascii) : option Z :=
  match hex_value c with Some d => if d <? radix then Some d else None | None => None end.

(** [Parser::read_number]: the longest run of at most [max_digits] digits; one digit
    more, a value over [hi], or (unless allowed) a leading zero fails. *)
Fixpoint take_digits (radix : Z) (l : list ascii) : list Z * list ascii :=
  match l with
  | [] => ([], [])
  | c :: l' => match radix_digit radix c with
               | Some d => let (ds, rest) := take_digits radix l' in (d :: ds, rest)
               | None => ([], l)
               end
  end.
Definition read_number (radix hi : Z) (max_digits : nat) (zero_prefix : bool) (l : list ascii) : option (Z * list ascii) :=
  let (ds, rest) := take_digits radix l in
  let n := fold_left (fun acc d => acc * radix + d) ds 0 in
  if (length ds =? 0)%nat || (max_digits <? length ds)%nat || (hi <? n)
     || (negb zero_prefix && (1 <? length ds)%nat && match ds with 0 :: _ => true | _ => false end)
  then None else Some (n, rest).

Definition read_char (c : ascii) (l : list ascii) : option (list ascii) :=
  match l with x :: l' => if Ascii.eqb x c then Some l' else None | [] => None end.

(** [read_ipv4_addr]: four octets separated by dots. *)
Fixpoint read_octets (n : nat) (first : bool) (l : list ascii) : option (list Z * list ascii) :=
  match n with
  | O => Some ([], l)
  | S n =>
      match (if first then Some l else read_char "." l) with
      | None => None
      | Some l =>
          match read_number 10 255 3 false l with
          | None => None
          | Some (o, l) => match read_octets n false l with Some (os, l) => Some (o :: os, l) | None => None end
          end
      end
  end.
Definition read_ipv4 (l : list ascii) : option (list Z * list ascii) := read_octets 4 true l.

(** [read_groups]: up to [limit] groups; the flag tells a trailing embedded IPv4 address.
    [first] holds at the start of the slice. *)
Fixpoint read_groups (limit : nat) (first : bool) (l : list ascii) : list Z * bool * list ascii :=
  match limit with
  | O => ([], false, l)
  | S limit' =>
      let at_ := if first then Some l else read_char ":" l in
      let v4 := match limit', at_ with S _, Some l => read_ipv4 l | _, _ => None end in
      match v4 with
      | Some ([a; b; c; d], rest) => ([a * 256 + b; c * 256 + d], true, rest)
      | _ =>
          match at_ with
          | None => ([], false, l)
          | Some l1 =>
              match read_number 16 65535 4 true l1 with
              | None => ([], false, l)
              | Some (g, rest) => let '(gs, v4, rest) := read_groups limit' false rest in (g :: gs, v4, rest)
              end
          end
      end
  end.
Definition read_ipv6 (l : list ascii) : option (list Z * list ascii) :=
  let '(head, head_v4, l1) := read_groups 8 true l in
  if (length head =? 8)%nat then Some (head, l1)
  else if head_v4 then None else
  match read_char ":" l1 with
  | None => None
  | Some l2 =>
      match read_char ":" l2 with
      | None => None
      | Some l3 =>
          let '(tail, _, l4) := read_groups (8 - (length head + 1)) true l3 in
          Some (head ++ repeat 0 (8 - length head - length tail) ++ tail, l4)
      end
  end.

Definition finish {A} (o : option (A * list ascii)) : option A :=
  match o with Some (a, []) => Some a | _ => None end.
Definition parse_ipv4 (s : string) : option (list Z) := if 15 <? str_len s then None else finish (read_ipv4 (bytes_of s)).
Definition parse_ipv6 (s : string) : option (list Z) := finish (read_ipv6 (bytes_of s)).
Definition parse_ip (s : string) : option IpAddr :=
  match read_ipv4 (bytes_of s) with
  | Some r => option_map V4 (finish (Some r))
  | None => option_map V6 (parse_ipv6 s)
  end.

Definition show_ipv4 (o : list Z) : string := String.concat "." (map pretty o).

Definition hex_digit (d : Z) : ascii := ascii_of_N (Z.to_N (if d <? 10 then d + 48 else d + 87)).
Fixpoint show_hex (fuel : nat) (n : Z) (acc : string) : string :=
  match fuel with
  | O => acc
  | S fuel => let acc := String (hex_digit (n mod 16)) acc in if n <? 16 then acc else show_hex fuel (n / 16) acc
  end.
Definition show_group (n : Z) : string := show_hex 4 n "".
Definition show_groups (l : list Z) : string := String.concat ":" (map show_group l).

(** The first longest run of zero groups: its start and length. *)
Fixpoint longest_zeros (i : nat) (cur longest : nat * nat) (l : list Z) : nat * nat :=
  match l with
  | [] => longest
  | g :: l' =>
      if g =? 0 then
        let cur := (if (snd cur =? 0)%nat then i else fst cur, S (snd cur)) in
        longest_zeros (S i) cur (if (snd longest <? snd cur)%nat then cur else longest) l'
      else longest_zeros (S i) (0%nat, 0%nat) longest l'
  end.
Definition show_ipv6 (g : list Z) : string :=
  match g with
  | [0; 0; 0; 0; 0; 65535; a; b] => "::ffff:" +:+ show_ipv4 [a / 256; a mod 256; b / 256; b mod 256]
  | _ =>
      let (start, len) := longest_zeros 0 (0%nat, 0%nat) (0%nat, 0%nat) g in
      if (1 <? len)%nat
      then show_groups (take start g) +:+ "::" +:+ show_groups (drop (start + len) g)
      else show_groups g
  end.

(** [IpAddr::is_loopback], [is_unspecified], [Ipv4Addr::is_private] and the like. *)
Definition v4_loopback (o : list Z) : bool := match o with a :: _ => a =? 127 | [] => false end.
Definition v4_private (o : list Z) : bool :=
  match o with
  | a :: b :: _ => (a =? 10) || ((a =? 172) && in_range 16 31 b) || ((a =? 192) && (b =? 168))
  | _ => false
  end.
Definition v4_multicast (o : list Z) : bool := match o with a :: _ => in_range 224 239 a | [] => false end.
Definition v4_broadcast (o : list Z) : bool := zs_eqb o [255; 255; 255; 255].
Definition v4_unspecified (o : list Z) : bool := zs_eqb o [0; 0; 0; 0].
Definition v6_loopback (g : list Z) : bool := zs_eqb g [0; 0; 0; 0; 0; 0; 0; 1].
Definition v6_unspecified (g : list Z) : bool := zs_eqb g [0; 0; 0; 0; 0; 0; 0; 0].
Definition v6_multicast (g : list Z) : bool := match g with a :: _ => Z.shiftr a 8 =? 255 | [] => false end.
Definition is_loopback (a : IpAddr) : bool := match a with V4 o => v4_loopback o | V6 g => v6_loopback g end.
Definition is_unspecified (a : IpAddr) : bool := match a with V4 o => v4_unspecified o | V6 g => v6_unspecified g end.
Definition LOCALHOST : list Z := [127; 0; 0; 1].

(** ** Concatenation *)
Lemma prefix_app p s : String.prefix p (p +:+ s) = true.
Proof. induction p as [|c p IH]; [by destruct s|]. change (String c p +:+ s) with (String c (p +:+ s)).
  cbn [String.prefix]. destruct (ascii_dec c c); [exact IH|done].
Qed.
Lemma substring_app p s n : n = String.length s -> String.substring (String.length p) n (p +:+ s) = s.
Proof.
  intros ->. induction p as [|c p IH]; [|exact IH]. change ("" +:+ s) with s. cbn [String.length].
  induction s as [|c s IHs]; [done|]. cbn. f_equal. exact IHs.
Qed.
Lemma strip_prefix_app p s : strip_prefix p (p +:+ s) = Some s.
Proof.
  unfold strip_prefix. rewrite prefix_app, substring_app; [done|].
  assert (String.length (p +:+ s) = (String.length p + String.length s)%nat) as -> by (clear; induction p as [|c p IH]; [done|]; change (String c p +:+ s) with (String c (p +:+ s)); cbn; lia). lia.
Qed.
Lemma append_assoc a b c : (a +:+ b) +:+ c = a +:+ b +:+ c.
Proof. induction a as [|x a IH]; [done|]. change (String x ((a +:+ b) +:+ c) = String x (a +:+ b +:+ c)). by rewrite IH. Qed.
Lemma bytes_app a b : bytes_of (a +:+ b) = bytes_of a ++ bytes_of b.
Proof. induction a as [|c a IH]; [done|]. change (c :: bytes_of (a +:+ b) = c :: bytes_of a ++ bytes_of b). by rewrite IH. Qed.

Example ipv6_forms :
  map (fun s => option_map show_ipv6 (parse_ipv6 s)) ["2001:DB8:0:0:1::0:1"; "::ffff:1.2.3.4"; "1::2::3"; "::"; "1:2:3:4:5:6:7:8"; "1:2:3:4:5:6:7::"]%string
  = [Some "2001:db8::1:0:0:1"; Some "::ffff:1.2.3.4"; None; Some "::"; Some "1:2:3:4:5:6:7:8"; Some "1:2:3:4:5:6:7:0"]%string.
Proof. vm_compute. reflexivity. Qed.

Example ipv4_forms :
  map (fun s => option_map show_ipv4 (parse_ipv4 s)) ["127.0.0.1"; "1.2.3"; "01.2.3.4"; "1.2.3.256"; "1.2.3.4."]%string
  = [Some "127.0.0.1"; None; None; None; None]%string.
Proof. vm_compute. reflexivity. Qed.

Example trim_forms : trim (string_of_list_ascii (map ascii_of_N [227;128;128;32;97;32;98;194;160]%N)) = "a b"%string.
Proof. vm_compute. reflexivity. Qed.
