(* ===== verification/Catalogue.v ===== *)
(** * The database catalogue and its exact verification (db.rs)

    [catalogue] is what SQLite reports of a database file: the rows of [sqlite_schema] and,
    for each table, its creation text and the rows of the [table_xinfo], [index_list],
    [index_xinfo] and [foreign_key_list] pragmas.  The [verify_*_schema] functions compare
    it with the schema each version of the program expects. *)

From Stdlib Require Import ZArith Lia List String Ascii Bool.
From stdpp Require Import base list strings.
From S2P Require Import Prelude Sql Auth Vaults.

Local Open Scope Z_scope.

(** ** What SQLite reports *)
Record ColumnDefinition := {
  cd_name : string;
  cd_declared_type : string;
  cd_not_null : bool;
  cd_default_value : option string;
  cd_primary_key : Z;
  cd_hidden : Z;
}.

(** A row of [index_xinfo]: column, descending, collation, and whether it is a key column. *)
Record index_column := { ix_name : option string; ix_descending : bool; ix_collation : string; ix_key : bool }.
Record index_info := {
  ii_name : string;
  ii_unique : bool;
  ii_origin : string;
  ii_partial : bool;
  ii_columns : list index_column;
}.

Record ForeignKeyDefinition := {
  fk_id : Z;
  fk_sequence : Z;
  fk_parent : string;
  fk_from : string;
  fk_to : string;
  fk_on_update : string;
  fk_on_delete : string;
  fk_match_clause : string;
}.

Record table_info := {
  ti_name : string;
  ti_sql : string;
  ti_columns : list ColumnDefinition;
  ti_indexes : list index_info;
  ti_foreign_keys : list ForeignKeyDefinition;
}.

(** [(type,name,tbl_name)] *)
Notation schema_object := (string * string * string)%type.
Record catalogue := { objects : list schema_object; tables : list table_info }.

#[global] Instance column_eq_dec : EqDecision ColumnDefinition.
Proof. solve_decision. Defined.
#[global] Instance foreign_key_eq_dec : EqDecision ForeignKeyDefinition.
Proof. solve_decision. Defined.

(** Rust's order on triples of strings. *)
Definition object_order (x y : schema_object) : bool :=
  match String.compare (fst (fst x)) (fst (fst y)) with
  | Lt => true
  | Gt => false
  | Eq => match String.compare (snd (fst x)) (snd (fst y)) with
          | Lt => true
          | Gt => false
          | Eq => string_leb (snd x) (snd y)
          end
  end.
(** [ORDER BY type,name] *)
Definition by_type_name (x y : schema_object) : bool :=
  match String.compare (fst (fst x)) (fst (fst y)) with
  | Lt => true
  | Gt => false
  | Eq => string_leb (snd (fst x)) (snd (fst y))
  end.

Definition table_exists (c : catalogue) (table : string) : bool :=
  exists_row (fun o => String.eqb (fst (fst o)) "table" && String.eqb (snd (fst o)) table) (objects c).
Definition find_table (c : catalogue) (table : string) : option table_info :=
  query_row (fun t => String.eqb (ti_name t) table) (tables c).

(** ** Expected columns *)
Notation ExpectedColumn := (string * string * bool * option string * Z)%type.

Definition SCHEMA_MIGRATION_COLUMNS : list ExpectedColumn :=
  [("version", "INTEGER", false, None, 1);
   ("applied_at", "INTEGER", true, None, 0)]%string.
Definition VAULT_COLUMNS : list ExpectedColumn :=
  [("id", "TEXT", false, None, 1);
   ("name", "TEXT", true, None, 0);
   ("keyhash", "TEXT", false, None, 0);
   ("salt", "TEXT", false, None, 0);
   ("host", "TEXT", true, None, 0);
   ("region", "TEXT", true, None, 0);
   ("encryption_version", "INTEGER", true, None, 0);
   ("size", "INTEGER", true, Some "0", 0);
   ("created", "INTEGER", true, None, 0);
   ("password", "TEXT", false, None, 0);
   ("version", "INTEGER", true, Some "0", 0)]%string.
Definition USER_COLUMNS : list ExpectedColumn :=
  [("id", "INTEGER", false, None, 1);
   ("email_canonical", "TEXT", true, None, 0);
   ("email", "TEXT", true, None, 0);
   ("name", "TEXT", true, None, 0);
   ("password_hash", "TEXT", true, None, 0);
   ("status", "TEXT", true, None, 0);
   ("created_at", "INTEGER", true, None, 0);
   ("updated_at", "INTEGER", true, None, 0)]%string.
Definition USER_V7_COLUMNS : list ExpectedColumn :=
  [("id", "INTEGER", false, None, 1);
   ("email_canonical", "TEXT", true, None, 0);
   ("email", "TEXT", true, None, 0);
   ("name", "TEXT", true, None, 0);
   ("password_hash", "TEXT", true, None, 0);
   ("status", "TEXT", true, None, 0);
   ("created_at", "INTEGER", true, None, 0);
   ("updated_at", "INTEGER", true, None, 0);
   ("role", "TEXT", true, Some "'user'", 0)]%string.
Definition SERVER_SETTINGS_COLUMNS : list ExpectedColumn :=
  [("id", "INTEGER", false, None, 1);
   ("self_registration_enabled", "INTEGER", true, Some "0", 0);
   ("updated_at", "INTEGER", true, None, 0);
   ("updated_by", "INTEGER", true, None, 0)]%string.
Definition VAULT_V5_COLUMNS : list ExpectedColumn :=
  [("id", "TEXT", false, None, 1);
   ("name", "TEXT", true, None, 0);
   ("keyhash", "TEXT", false, None, 0);
   ("salt", "TEXT", false, None, 0);
   ("host", "TEXT", true, None, 0);
   ("region", "TEXT", true, None, 0);
   ("encryption_version", "INTEGER", true, None, 0);
   ("size", "INTEGER", true, Some "0", 0);
   ("created", "INTEGER", true, None, 0);
   ("password", "TEXT", false, None, 0);
   ("version", "INTEGER", true, Some "0", 0);
   ("owner_user_id", "INTEGER", true, None, 0)]%string.
Definition REVISION_TABLE_COLUMNS : list ExpectedColumn :=
  [("uid", "INTEGER", false, None, 1);
   ("vault_id", "TEXT", true, None, 0);
   ("path", "TEXT", true, None, 0);
   ("relatedpath", "TEXT", false, None, 0);
   ("extension", "TEXT", true, None, 0);
   ("hash", "TEXT", true, None, 0);
   ("ctime", "INTEGER", true, None, 0);
   ("mtime", "INTEGER", true, None, 0);
   ("folder", "INTEGER", true, None, 0);
   ("deleted", "INTEGER", true, None, 0);
   ("size", "INTEGER", true, None, 0);
   ("pieces", "INTEGER", true, None, 0);
   ("content", "BLOB", false, None, 0);
   ("device", "TEXT", true, None, 0);
   ("user_id", "INTEGER", true, None, 0);
   ("ts", "INTEGER", true, Some "0", 0)]%string.
Definition REVISION_CONTENT_COLUMNS : list ExpectedColumn :=
  [("uid", "INTEGER", false, None, 1);
   ("content", "BLOB", true, None, 0)]%string.
Definition SESSION_COLUMNS : list ExpectedColumn :=
  [("token_hash", "TEXT", false, None, 1);
   ("created_at", "INTEGER", true, None, 0);
   ("expires_at", "INTEGER", true, None, 0);
   ("revoked_at", "INTEGER", false, None, 0)]%string.
Definition SESSION_V5_COLUMNS : list ExpectedColumn :=
  [("token_hash", "TEXT", false, None, 1);
   ("user_id", "INTEGER", true, None, 0);
   ("created_at", "INTEGER", true, None, 0);
   ("expires_at", "INTEGER", true, None, 0);
   ("revoked_at", "INTEGER", false, None, 0)]%string.
Definition RETIRED_VAULT_COLUMNS : list ExpectedColumn :=
  [("id", "TEXT", false, None, 1);
   ("retired_at", "INTEGER", true, None, 0)]%string.
Definition RETIRED_VAULT_V5_COLUMNS : list ExpectedColumn :=
  [("id", "TEXT", false, None, 1);
   ("owner_user_id", "INTEGER", true, None, 0);
   ("retired_at", "INTEGER", true, None, 0)]%string.
Definition MEMBERSHIP_COLUMNS : list ExpectedColumn :=
  [("id", "INTEGER", false, None, 1);
   ("vault_id", "TEXT", true, None, 0);
   ("user_id", "INTEGER", true, None, 0);
   ("invited_by_user_id", "INTEGER", true, None, 0);
   ("accepted_at", "INTEGER", true, None, 0);
   ("created_at", "INTEGER", true, None, 0);
   ("revoked_at", "INTEGER", false, None, 0)]%string.
Definition SQLITE_SEQUENCE_COLUMNS : list ExpectedColumn :=
  [("name", "", false, None, 0); ("seq", "", false, None, 0)]%string.

(** ** The generic checks *)
Definition verify_schema_objects (c : catalogue) (expected : list schema_object) (label : string) : result unit :=
  ensure bool_decide (order_by by_type_name (objects c) = expected)
    orelse Bail ("unexpected " +:+ label +:+ " schema objects") in
  Ok tt.

(** [str::contains] *)
Fixpoint contains_text (needle s : string) : bool :=
  String.prefix needle s || match s with String _ s => contains_text needle s | EmptyString => false end.

Definition to_ascii_uppercase (s : string) : string :=
  string_of_list_ascii (map (fun c => if is_ascii_lowercase c then ascii_of_N (N_of_ascii c - 32) else c) (bytes_of s)).
Definition UNSUPPORTED : list string := ["CHECK"; "COLLATE"; "DEFERRABLE"; "WITHOUT ROWID"; "STRICT"]%string.

Definition expected_definition (e : ExpectedColumn) : ColumnDefinition :=
  match e with (name, ty, nn, dflt, pk) =>
    {| cd_name := name; cd_declared_type := ty; cd_not_null := nn; cd_default_value := dflt; cd_primary_key := pk; cd_hidden := 0 |}
  end.

Fixpoint check_columns (actual : list ColumnDefinition) (expected : list ExpectedColumn) (msg : string) : result unit :=
  match actual, expected with
  | a :: actual, e :: expected =>
      ensure bool_decide (a = expected_definition e) orelse Bail msg in check_columns actual expected msg
  | _, _ => Ok tt
  end.

Definition verify_exact_table (c : catalogue) (table : string) (expected : list ExpectedColumn) (label : string) : result unit :=
  ensure table_exists c table orelse Bail ("not a " +:+ label +:+ " database: missing required table " +:+ table) in
  let? t := ok_or (find_table c table) (SqliteError "Query returned no rows") in
  let normalized_sql := to_ascii_uppercase (ti_sql t) in
  ensure negb (existsb (fun u => contains_text u normalized_sql) UNSUPPORTED)
    orelse Bail ("invalid " +:+ label +:+ " table " +:+ table +:+ ": unsupported schema clause") in
  ensure Nat.eqb (length (ti_columns t)) (length expected)
    orelse Bail ("invalid " +:+ label +:+ " table " +:+ table +:+ ": column count") in
  check_columns (ti_columns t) expected ("invalid " +:+ label +:+ " table " +:+ table +:+ " column").

Record IndexExpectation := {
  ie_name : string;
  ie_unique : bool;
  ie_origin : string;
  ie_partial : bool;
  ie_columns : list string;
}.
Definition ordinary (name : string) (columns : list string) : IndexExpectation :=
  {| ie_name := name; ie_unique := false; ie_origin := "c"; ie_partial := false; ie_columns := columns |}.
Definition primary_key (name : string) (columns : list string) : IndexExpectation :=
  {| ie_name := name; ie_unique := true; ie_origin := "pk"; ie_partial := false; ie_columns := columns |}.
Definition unique (name : string) (columns : list string) : IndexExpectation :=
  {| ie_name := name; ie_unique := true; ie_origin := "u"; ie_partial := false; ie_columns := columns |}.
Definition partial_unique (name : string) (columns : list string) : IndexExpectation :=
  {| ie_name := name; ie_unique := true; ie_origin := "c"; ie_partial := true; ie_columns := columns |}.

Record IndexColumnDefinition := { ic_name : option string; ic_descending : bool; ic_collation : string }.
Record IndexDefinition := {
  id_name : string;
  id_unique : bool;
  id_origin : string;
  id_partial : bool;
  id_columns : list IndexColumnDefinition;
}.
#[global] Instance index_column_eq_dec : EqDecision IndexColumnDefinition.
Proof. solve_decision. Defined.
#[global] Instance index_eq_dec : EqDecision IndexDefinition.
Proof. solve_decision. Defined.

Definition index_definition (i : index_info) : IndexDefinition := {|
  id_name := ii_name i; id_unique := ii_unique i; id_origin := ii_origin i; id_partial := ii_partial i;
  id_columns := map (fun c => {| ic_name := ix_name c; ic_descending := ix_descending c; ic_collation := ix_collation c |})
                  (List.filter ix_key (ii_columns i)) |}.
Definition expected_index (i : IndexExpectation) : IndexDefinition := {|
  id_name := ie_name i; id_unique := ie_unique i; id_origin := ie_origin i; id_partial := ie_partial i;
  id_columns := map (fun c => {| ic_name := Some c; ic_descending := false; ic_collation := "BINARY" |}) (ie_columns i) |}.
Definition by_index_name (x y : IndexDefinition) : bool := string_leb (id_name x) (id_name y).

(** A pragma on a table that does not exist returns no row. *)
Definition indexes_of (c : catalogue) (table : string) : list index_info :=
  match find_table c table with Some t => ti_indexes t | None => [] end.
Definition foreign_keys_of (c : catalogue) (table : string) : list ForeignKeyDefinition :=
  match find_table c table with Some t => ti_foreign_keys t | None => [] end.

Definition verify_exact_indexes (c : catalogue) (table : string) (expected : list IndexExpectation) (label : string) : result unit :=
  let actual := order_by by_index_name (map index_definition (indexes_of c table)) in
  let expected := order_by by_index_name (map expected_index expected) in
  ensure bool_decide (actual = expected) orelse Bail ("invalid " +:+ label +:+ " indexes for " +:+ table) in
  Ok tt.

Record ForeignKeyExpectation := {
  fe_parent : string;
  fe_from : string;
  fe_to : string;
  fe_on_update : string;
  fe_on_delete : string;
  fe_match_clause : string;
}.
Definition cascade (parent from to : string) : ForeignKeyExpectation :=
  {| fe_parent := parent; fe_from := from; fe_to := to; fe_on_update := "NO ACTION"; fe_on_delete := "CASCADE";
     fe_match_clause := "NONE" |}.
Definition no_action (parent from to : string) : ForeignKeyExpectation :=
  {| fe_parent := parent; fe_from := from; fe_to := to; fe_on_update := "NO ACTION"; fe_on_delete := "NO ACTION";
     fe_match_clause := "NONE" |}.
Definition expected_foreign_key (id : nat) (f : ForeignKeyExpectation) : ForeignKeyDefinition := {|
  fk_id := Z.of_nat id; fk_sequence := 0; fk_parent := fe_parent f; fk_from := fe_from f; fk_to := fe_to f;
  fk_on_update := fe_on_update f; fk_on_delete := fe_on_delete f; fk_match_clause := fe_match_clause f |}.

Definition verify_exact_foreign_keys (c : catalogue) (table : string) (expected : list ForeignKeyExpectation) (label : string)
    : result unit :=
  ensure bool_decide (foreign_keys_of c table = imap expected_foreign_key expected)
    orelse Bail ("invalid " +:+ label +:+ " foreign keys for " +:+ table) in
  Ok tt.

(** ** The schemas, version by version *)
Definition revision_indexes : list IndexExpectation :=
  [ordinary "revisions_vault_path" ["vault_id"; "path"; "uid"]; ordinary "revisions_vault_uid" ["vault_id"; "uid"]]%string.

Definition verify_v1_schema (c : catalogue) : result unit :=
  let label := "Blackglass v1"%string in
  let? _ := verify_schema_objects c
    [("index", "revisions_vault_path", "revisions");
     ("index", "revisions_vault_uid", "revisions");
     ("index", "sqlite_autoindex_vaults_1", "vaults");
     ("table", "revisions", "revisions");
     ("table", "schema_migrations", "schema_migrations");
     ("table", "sqlite_sequence", "sqlite_sequence");
     ("table", "vaults", "vaults")]%string label in
  let? _ := verify_exact_table c "schema_migrations" SCHEMA_MIGRATION_COLUMNS label in
  let? _ := verify_exact_table c "vaults" VAULT_COLUMNS label in
  let? _ := verify_exact_table c "revisions" REVISION_TABLE_COLUMNS label in
  let? _ := verify_exact_table c "sqlite_sequence" SQLITE_SEQUENCE_COLUMNS label in
  let? _ := verify_exact_indexes c "schema_migrations" [] label in
  let? _ := verify_exact_indexes c "vaults" [primary_key "sqlite_autoindex_vaults_1" ["id"%string]] label in
  let? _ := verify_exact_indexes c "revisions" revision_indexes label in
  let? _ := verify_exact_indexes c "sqlite_sequence" [] label in
  let? _ := verify_exact_foreign_keys c "schema_migrations" [] label in
  let? _ := verify_exact_foreign_keys c "vaults" [] label in
  let? _ := verify_exact_foreign_keys c "revisions" [cascade "vaults" "vault_id" "id"] label in
  let? _ := verify_exact_foreign_keys c "sqlite_sequence" [] label in
  Ok tt.

Definition when_ (b : bool) (check : result unit) : result unit := if b then check else Ok tt.

Definition verify_blackglass_schema_with_recovery_epoch (c : catalogue) (recovery_epoch : bool) : result unit :=
  let label := "Blackglass"%string in
  let base :=
    [("index", "revisions_vault_path", "revisions");
     ("index", "revisions_vault_uid", "revisions");
     ("index", "sessions_expiry", "sessions");
     ("index", "sqlite_autoindex_sessions_1", "sessions");
     ("index", "sqlite_autoindex_vaults_1", "vaults");
     ("table", "revision_content", "revision_content");
     ("table", "revisions", "revisions");
     ("table", "schema_migrations", "schema_migrations");
     ("table", "sessions", "sessions");
     ("table", "sqlite_sequence", "sqlite_sequence");
     ("table", "vaults", "vaults")]%string in
  let objects := if recovery_epoch
    then order_by object_order (base ++ [("index", "sqlite_autoindex_retired_vaults_1", "retired_vaults");
                                         ("table", "retired_vaults", "retired_vaults")]%string)
    else base in
  let? _ := verify_schema_objects c objects label in
  let? _ := verify_exact_table c "schema_migrations" SCHEMA_MIGRATION_COLUMNS label in
  let? _ := verify_exact_table c "vaults" VAULT_COLUMNS label in
  let? _ := verify_exact_table c "revisions" REVISION_TABLE_COLUMNS label in
  let? _ := verify_exact_table c "revision_content" REVISION_CONTENT_COLUMNS label in
  let? _ := verify_exact_table c "sessions" SESSION_COLUMNS label in
  let? _ := when_ recovery_epoch (verify_exact_table c "retired_vaults" RETIRED_VAULT_COLUMNS label) in
  let? _ := verify_exact_table c "sqlite_sequence" SQLITE_SEQUENCE_COLUMNS label in
  let? _ := verify_exact_indexes c "schema_migrations" [] label in
  let? _ := verify_exact_indexes c "vaults" [primary_key "sqlite_autoindex_vaults_1" ["id"%string]] label in
  let? _ := verify_exact_indexes c "revisions" revision_indexes label in
  let? _ := verify_exact_indexes c "revision_content" [] label in
  let? _ := verify_exact_indexes c "sessions"
    [ordinary "sessions_expiry" ["expires_at"]; primary_key "sqlite_autoindex_sessions_1" ["token_hash"]]%string label in
  let? _ := when_ recovery_epoch (verify_exact_indexes c "retired_vaults"
    [primary_key "sqlite_autoindex_retired_vaults_1" ["id"%string]] label) in
  let? _ := verify_exact_indexes c "sqlite_sequence" [] label in
  let? _ := verify_exact_foreign_keys c "schema_migrations" [] label in
  let? _ := verify_exact_foreign_keys c "vaults" [] label in
  let? _ := verify_exact_foreign_keys c "revisions" [cascade "vaults" "vault_id" "id"] label in
  let? _ := verify_exact_foreign_keys c "revision_content" [cascade "revisions" "uid" "uid"] label in
  let? _ := verify_exact_foreign_keys c "sessions" [] label in
  let? _ := when_ recovery_epoch (verify_exact_foreign_keys c "retired_vaults" [] label) in
  let? _ := verify_exact_foreign_keys c "sqlite_sequence" [] label in
  Ok tt.

Definition v5_objects : list schema_object :=
  [("index", "retired_vaults_owner", "retired_vaults");
   ("index", "revisions_vault_path", "revisions");
   ("index", "revisions_vault_uid", "revisions");
   ("index", "sessions_expiry", "sessions");
   ("index", "sessions_user", "sessions");
   ("index", "sqlite_autoindex_retired_vaults_1", "retired_vaults");
   ("index", "sqlite_autoindex_sessions_1", "sessions");
   ("index", "sqlite_autoindex_users_1", "users");
   ("index", "sqlite_autoindex_vaults_1", "vaults");
   ("index", "vaults_owner", "vaults");
   ("table", "retired_vaults", "retired_vaults");
   ("table", "revision_content", "revision_content");
   ("table", "revisions", "revisions");
   ("table", "schema_migrations", "schema_migrations");
   ("table", "sessions", "sessions");
   ("table", "sqlite_sequence", "sqlite_sequence");
   ("table", "users", "users");
   ("table", "vaults", "vaults")]%string.
Definition membership_objects : list schema_object :=
  [("index", "memberships_active_vault_user", "memberships");
   ("index", "memberships_user_vault", "memberships");
   ("index", "memberships_vault_state", "memberships");
   ("table", "memberships", "memberships")]%string.
Definition expected_objects (memberships account_management : bool) : list schema_object :=
  let objects := if memberships then order_by object_order (v5_objects ++ membership_objects) else v5_objects in
  if account_management then order_by object_order (objects ++ [("table", "server_settings", "server_settings")]%string)
  else objects.

Definition verify_v5_v6_or_v7_schema (c : catalogue) (memberships account_management : bool) : result unit :=
  let label := "Blackglass"%string in
  let? _ := verify_schema_objects c (expected_objects memberships account_management) label in
  let? _ := verify_exact_table c "schema_migrations" SCHEMA_MIGRATION_COLUMNS label in
  let? _ := verify_exact_table c "users" (if account_management then USER_V7_COLUMNS else USER_COLUMNS) label in
  let? _ := verify_exact_table c "vaults" VAULT_V5_COLUMNS label in
  let? _ := verify_exact_table c "revisions" REVISION_TABLE_COLUMNS label in
  let? _ := verify_exact_table c "revision_content" REVISION_CONTENT_COLUMNS label in
  let? _ := verify_exact_table c "sessions" SESSION_V5_COLUMNS label in
  let? _ := verify_exact_table c "retired_vaults" RETIRED_VAULT_V5_COLUMNS label in
  let? _ := when_ memberships (verify_exact_table c "memberships" MEMBERSHIP_COLUMNS label) in
  let? _ := when_ account_management (verify_exact_table c "server_settings" SERVER_SETTINGS_COLUMNS label) in
  let? _ := verify_exact_table c "sqlite_sequence" SQLITE_SEQUENCE_COLUMNS label in
  let? _ := verify_exact_indexes c "schema_migrations" [] label in
  let? _ := verify_exact_indexes c "users" [unique "sqlite_autoindex_users_1" ["email_canonical"%string]] label in
  let? _ := verify_exact_indexes c "vaults"
    [primary_key "sqlite_autoindex_vaults_1" ["id"]; ordinary "vaults_owner" ["owner_user_id"; "created"; "id"]]%string label in
  let? _ := verify_exact_indexes c "revisions" revision_indexes label in
  let? _ := verify_exact_indexes c "revision_content" [] label in
  let? _ := verify_exact_indexes c "sessions"
    [ordinary "sessions_expiry" ["expires_at"]; ordinary "sessions_user" ["user_id"; "expires_at"];
     primary_key "sqlite_autoindex_sessions_1" ["token_hash"]]%string label in
  let? _ := verify_exact_indexes c "retired_vaults"
    [ordinary "retired_vaults_owner" ["owner_user_id"; "retired_at"; "id"];
     primary_key "sqlite_autoindex_retired_vaults_1" ["id"]]%string label in
  let? _ := verify_exact_indexes c "sqlite_sequence" [] label in
  let? _ := when_ memberships (verify_exact_indexes c "memberships"
    [partial_unique "memberships_active_vault_user" ["vault_id"; "user_id"];
     ordinary "memberships_user_vault" ["user_id"; "vault_id"; "id"];
     ordinary "memberships_vault_state" ["vault_id"; "revoked_at"; "id"]]%string label) in
  let? _ := when_ account_management (verify_exact_indexes c "server_settings" [] label) in
  let? _ := verify_exact_foreign_keys c "schema_migrations" [] label in
  let? _ := verify_exact_foreign_keys c "users" [] label in
  let? _ := verify_exact_foreign_keys c "vaults" [no_action "users" "owner_user_id" "id"] label in
  let? _ := verify_exact_foreign_keys c "revisions"
    [no_action "users" "user_id" "id"; cascade "vaults" "vault_id" "id"] label in
  let? _ := verify_exact_foreign_keys c "revision_content" [cascade "revisions" "uid" "uid"] label in
  let? _ := verify_exact_foreign_keys c "sessions" [cascade "users" "user_id" "id"] label in
  let? _ := verify_exact_foreign_keys c "retired_vaults" [no_action "users" "owner_user_id" "id"] label in
  let? _ := verify_exact_foreign_keys c "sqlite_sequence" [] label in
  let? _ := when_ memberships (verify_exact_foreign_keys c "memberships"
    [no_action "users" "invited_by_user_id" "id"; no_action "users" "user_id" "id"; cascade "vaults" "vault_id" "id"] label) in
  let? _ := when_ account_management (verify_exact_foreign_keys c "server_settings" [no_action "users" "updated_by" "id"] label) in
  Ok tt.

Definition verify_blackglass_schema (c : catalogue) : result unit := verify_blackglass_schema_with_recovery_epoch c false.
Definition verify_v4_schema (c : catalogue) : result unit := verify_blackglass_schema_with_recovery_epoch c true.
Definition verify_v5_or_v6_schema (c : catalogue) (memberships : bool) : result unit := verify_v5_v6_or_v7_schema c memberships false.
Definition verify_v5_schema (c : catalogue) : result unit := verify_v5_or_v6_schema c false.
Definition verify_v6_schema (c : catalogue) : result unit := verify_v5_v6_or_v7_schema c true false.
Definition verify_v7_schema (c : catalogue) : result unit := verify_v5_v6_or_v7_schema c true true.

(** The schema part of [verify_legacy_connection]. *)
Definition verify_legacy_schema (c : catalogue) : result unit :=
  let label := "legacy Blackglass"%string in
  ensure negb (table_exists c "schema_migrations")
    orelse Bail "legacy migration source already has Blackglass migration metadata; use backup and restore" in
  let? _ := verify_schema_objects c
    [("index", "revisions_vault_path", "revisions");
     ("index", "revisions_vault_uid", "revisions");
     ("index", "sqlite_autoindex_vaults_1", "vaults");
     ("table", "revisions", "revisions");
     ("table", "sqlite_sequence", "sqlite_sequence");
     ("table", "vaults", "vaults")]%string label in
  let? _ := verify_exact_table c "vaults" VAULT_COLUMNS label in
  let? _ := verify_exact_table c "revisions" REVISION_TABLE_COLUMNS label in
  let? _ := verify_exact_table c "sqlite_sequence" SQLITE_SEQUENCE_COLUMNS label in
  let? _ := verify_exact_indexes c "vaults" [primary_key "sqlite_autoindex_vaults_1" ["id"%string]] label in
  let? _ := verify_exact_indexes c "revisions" revision_indexes label in
  let? _ := verify_exact_indexes c "sqlite_sequence" [] label in
  let? _ := verify_exact_foreign_keys c "vaults" [] label in
  let? _ := verify_exact_foreign_keys c "revisions" [cascade "vaults" "vault_id" "id"] label in
  let? _ := verify_exact_foreign_keys c "sqlite_sequence" [] label in
  Ok tt.

(** The schema part of [verify_schema_at_version]. *)
Definition verify_catalogue_at_version (c : catalogue) (version : Z) : result unit :=
  match version with
  | 1 => verify_v1_schema c
  | 2 | 3 => verify_blackglass_schema c
  | 4 => verify_v4_schema c
  | 5 => verify_v5_schema c
  | 6 => verify_v6_schema c
  | 7 => verify_v7_schema c
  | _ => Err (Bail "no validator for database schema version")
  end.
