(* ===== verification/Ddl.v ===== *)
(** * The migrations as schema definitions (db.rs)

    The data-definition statements of the migrations, and what SQLite's catalogue shows
    after each: a declared primary key that is not an INTEGER and every UNIQUE column get an
    automatic index, foreign keys are listed from the last declared to the first, dropping a
    table drops its indexes, and renaming one renames its automatic indexes and the
    references to it.  The theorems tie the migration texts to the expected schemas of
    [Catalogue]. *)

From Stdlib Require Import ZArith Lia List String Ascii Bool.
From stdpp Require Import base list strings pretty.
From S2P Require Import Prelude Sql Model Auth Vaults Text Catalogue.

Local Open Scope Z_scope.

(** ** Statements *)
Inductive on_delete := Cascade | NoAction.

Record column := {
  c_name : string;
  c_type : string;
  c_primary_key : bool;
  c_autoincrement : bool;
  c_not_null : bool;
  c_unique : bool;
  c_default : option string;
  c_references : option (string * string * on_delete);
}.

Inductive statement :=
| CreateTable (if_not_exists : bool) (name : string) (columns : list column)
| CreateIndex (if_not_exists is_unique : bool) (name table : string) (columns : list string) (filter : option string)
| AddColumn (table : string) (c : column)
| DropTable (name : string)
| RenameTable (name to : string).

Definition plain_column (name ty : string) : column := {|
  c_name := name; c_type := ty; c_primary_key := false; c_autoincrement := false; c_not_null := false; c_unique := false;
  c_default := None; c_references := None |}.
Definition text (name : string) : column := plain_column name "TEXT".
Definition integer (name : string) : column := plain_column name "INTEGER".
Definition blob_ (name : string) : column := plain_column name "BLOB".
Definition not_null (c : column) : column := {|
  c_name := c_name c; c_type := c_type c; c_primary_key := c_primary_key c; c_autoincrement := c_autoincrement c;
  c_not_null := true; c_unique := c_unique c; c_default := c_default c; c_references := c_references c |}.
Definition key (autoincrement : bool) (c : column) : column := {|
  c_name := c_name c; c_type := c_type c; c_primary_key := true; c_autoincrement := autoincrement;
  c_not_null := c_not_null c; c_unique := c_unique c; c_default := c_default c; c_references := c_references c |}.
Definition unique_ (c : column) : column := {|
  c_name := c_name c; c_type := c_type c; c_primary_key := c_primary_key c; c_autoincrement := c_autoincrement c;
  c_not_null := c_not_null c; c_unique := true; c_default := c_default c; c_references := c_references c |}.
Definition default_ (v : string) (c : column) : column := {|
  c_name := c_name c; c_type := c_type c; c_primary_key := c_primary_key c; c_autoincrement := c_autoincrement c;
  c_not_null := c_not_null c; c_unique := c_unique c; c_default := Some v; c_references := c_references c |}.
Definition references (table col : string) (d : on_delete) (c : column) : column := {|
  c_name := c_name c; c_type := c_type c; c_primary_key := c_primary_key c; c_autoincrement := c_autoincrement c;
  c_not_null := c_not_null c; c_unique := c_unique c; c_default := c_default c; c_references := Some (table, col, d) |}.

(** ** The catalogue after a statement *)
Definition words (l : list string) : string := String.concat " " (List.filter (fun w => negb (is_empty w)) l).
Definition delete_clause (d : on_delete) : string := match d with Cascade => "CASCADE" | NoAction => "NO ACTION" end.
Definition render_column (c : column) : string :=
  words [c_name c; c_type c; if c_primary_key c then "PRIMARY KEY" else ""; if c_autoincrement c then "AUTOINCREMENT" else "";
         if c_not_null c then "NOT NULL" else ""; if c_unique c then "UNIQUE" else "";
         match c_default c with Some v => "DEFAULT " +:+ v | None => "" end;
         match c_references c with
         | Some (t, col, d) => "REFERENCES " +:+ t +:+ "(" +:+ col +:+ ") ON DELETE " +:+ delete_clause d
         | None => ""
         end]%string.
Definition render_table (name : string) (columns : list column) : string :=
  "CREATE TABLE " +:+ name +:+ "(" +:+ String.concat "," (map render_column columns) +:+ ")".

Definition column_definition (c : column) : ColumnDefinition := {|
  cd_name := c_name c; cd_declared_type := c_type c; cd_not_null := c_not_null c; cd_default_value := c_default c;
  cd_primary_key := if c_primary_key c then 1 else 0; cd_hidden := 0 |}.

Definition key_column (name : string) : index_column :=
  {| ix_name := Some name; ix_descending := false; ix_collation := "BINARY"; ix_key := true |}.
(** Every index also stores the row's key. *)
Definition row_column : index_column :=
  {| ix_name := None; ix_descending := false; ix_collation := "BINARY"; ix_key := false |}.
Definition make_index (name origin : string) (is_unique partial : bool) (columns : list string) : index_info :=
  {| ii_name := name; ii_unique := is_unique; ii_origin := origin; ii_partial := partial;
     ii_columns := map key_column columns ++ [row_column] |}.

Definition autoindex_name (table : string) (n : nat) : string := "sqlite_autoindex_" +:+ table +:+ "_" +:+ pretty (Z.of_nat n).
Definition rowid_alias (c : column) : bool := c_primary_key c && String.eqb (c_type c) "INTEGER".
(** The automatic indexes of a table, numbered in the order of their columns. *)
Fixpoint autoindexes (table : string) (n : nat) (columns : list column) : list index_info :=
  match columns with
  | [] => []
  | c :: columns =>
      if c_primary_key c && negb (rowid_alias c) then
        make_index (autoindex_name table n) "pk" true false [c_name c] :: autoindexes table (S n) columns
      else if c_unique c then
        make_index (autoindex_name table n) "u" true false [c_name c] :: autoindexes table (S n) columns
      else autoindexes table n columns
  end.

Definition references_of (columns : list column) : list (string * (string * string * on_delete)) :=
  omap (fun c => option_map (fun r => (c_name c, r)) (c_references c)) columns.
Definition foreign_key (id : nat) (f : string * (string * string * on_delete)) : ForeignKeyDefinition :=
  match f with (from, (parent, to, d)) =>
    {| fk_id := Z.of_nat id; fk_sequence := 0; fk_parent := parent; fk_from := from; fk_to := to; fk_on_update := "NO ACTION";
       fk_on_delete := delete_clause d; fk_match_clause := "NONE" |}
  end.

Definition make_table (name : string) (columns : list column) : table_info := {|
  ti_name := name; ti_sql := render_table name columns; ti_columns := map column_definition columns;
  ti_indexes := autoindexes name 1 columns;
  ti_foreign_keys := imap foreign_key (rev (references_of columns)) |}.
Definition sequence_table : table_info :=
  {| ti_name := "sqlite_sequence"; ti_sql := "CREATE TABLE sqlite_sequence(name,seq)";
     ti_columns := map (fun n => {| cd_name := n; cd_declared_type := ""; cd_not_null := false; cd_default_value := None;
                                    cd_primary_key := 0; cd_hidden := 0 |}) ["name"; "seq"]%string;
     ti_indexes := []; ti_foreign_keys := [] |}.

Definition table_objects (t : table_info) : list schema_object :=
  ("table"%string, ti_name t, ti_name t) :: map (fun i => ("index"%string, ii_name i, ti_name t)) (ti_indexes t).
Definition from_tables (ts : list table_info) : catalogue := {| objects := flat_map table_objects ts; tables := ts |}.

Definition has_table (name : string) (ts : list table_info) : bool := exists_row (fun t => String.eqb (ti_name t) name) ts.
Definition has_index (name : string) (ts : list table_info) : bool :=
  exists_row (fun t => exists_row (fun i => String.eqb (ii_name i) name) (ti_indexes t)) ts.
Definition set_indexes (l : list index_info) (t : table_info) : table_info :=
  {| ti_name := ti_name t; ti_sql := ti_sql t; ti_columns := ti_columns t; ti_indexes := l; ti_foreign_keys := ti_foreign_keys t |}.
Definition add_column (c : column) (t : table_info) : table_info :=
  {| ti_name := ti_name t; ti_sql := ti_sql t +:+ ", " +:+ render_column c; ti_columns := ti_columns t ++ [column_definition c];
     ti_indexes := ti_indexes t; ti_foreign_keys := ti_foreign_keys t |}.

(** An automatic index takes the new name of its table. *)
Definition rename_index (name to : string) (i : index_info) : index_info :=
  match strip_prefix ("sqlite_autoindex_" +:+ name) (ii_name i) with
  | Some rest => {| ii_name := "sqlite_autoindex_" +:+ to +:+ rest; ii_unique := ii_unique i; ii_origin := ii_origin i;
                    ii_partial := ii_partial i; ii_columns := ii_columns i |}
  | None => i
  end.
Definition rename_parent (name to : string) (f : ForeignKeyDefinition) : ForeignKeyDefinition :=
  if String.eqb (fk_parent f) name then
    {| fk_id := fk_id f; fk_sequence := fk_sequence f; fk_parent := to; fk_from := fk_from f; fk_to := fk_to f;
       fk_on_update := fk_on_update f; fk_on_delete := fk_on_delete f; fk_match_clause := fk_match_clause f |}
  else f.
Definition rename_in (name to : string) (t : table_info) : table_info :=
  let fks := map (rename_parent name to) (ti_foreign_keys t) in
  if String.eqb (ti_name t) name then
    {| ti_name := to; ti_sql := ti_sql t; ti_columns := ti_columns t; ti_indexes := map (rename_index name to) (ti_indexes t);
       ti_foreign_keys := fks |}
  else
    {| ti_name := ti_name t; ti_sql := ti_sql t; ti_columns := ti_columns t; ti_indexes := ti_indexes t; ti_foreign_keys := fks |}.

Definition table_error (what name : string) : error := SqliteError (what +:+ ": " +:+ name).

Definition run_statement (s : statement) (ts : list table_info) : result (list table_info) :=
  match s with
  | CreateTable ine name columns =>
      if has_table name ts then if ine then Ok ts else Err (table_error "table already exists" name) else
      let sequence := if existsb c_autoincrement columns && negb (has_table "sqlite_sequence" ts) then [sequence_table] else [] in
      Ok (ts ++ make_table name columns :: sequence)
  | CreateIndex ine is_unique name table columns filter_ =>
      if has_index name ts then if ine then Ok ts else Err (table_error "index already exists" name) else
      ensure has_table table ts orelse table_error "no such table" table in
      let partial := match filter_ with Some _ => true | None => false end in
      Ok (update (fun t => String.eqb (ti_name t) table)
            (fun t => set_indexes (make_index name "c" is_unique partial columns :: ti_indexes t) t) ts)
  | AddColumn table c =>
      ensure has_table table ts orelse table_error "no such table" table in
      Ok (update (fun t => String.eqb (ti_name t) table) (add_column c) ts)
  | DropTable name =>
      ensure has_table name ts orelse table_error "no such table" name in
      Ok (delete_where (fun t => String.eqb (ti_name t) name) ts)
  | RenameTable name to =>
      ensure has_table name ts orelse table_error "no such table" name in
      ensure negb (has_table to ts) orelse table_error "there is already another table or index with this name" to in
      Ok (map (rename_in name to) ts)
  end.

Fixpoint run_statements (l : list statement) (ts : list table_info) : result (list table_info) :=
  match l with
  | [] => Ok ts
  | s :: l => let? ts := run_statement s ts in run_statements l ts
  end.

(** ** The migrations *)
Definition vault_columns : list column :=
  [key false (text "id"); not_null (text "name"); text "keyhash"; text "salt"; not_null (text "host"); not_null (text "region");
   not_null (integer "encryption_version"); default_ "0" (not_null (integer "size")); not_null (integer "created");
   text "password"; default_ "0" (not_null (integer "version"))].
Definition revision_columns (vaults : string) (user_id : column) : list column :=
  [key true (integer "uid"); references vaults "id" Cascade (not_null (text "vault_id")); not_null (text "path");
   text "relatedpath"; not_null (text "extension"); not_null (text "hash"); not_null (integer "ctime");
   not_null (integer "mtime"); not_null (integer "folder"); not_null (integer "deleted"); not_null (integer "size");
   not_null (integer "pieces"); blob_ "content"; not_null (text "device"); user_id; default_ "0" (not_null (integer "ts"))].

Definition MIGRATION_1 : list statement :=
  [CreateTable true "schema_migrations" [key false (integer "version"); not_null (integer "applied_at")];
   CreateTable true "vaults" vault_columns;
   CreateTable true "revisions" (revision_columns "vaults" (not_null (integer "user_id")));
   CreateIndex true false "revisions_vault_uid" "revisions" ["vault_id"; "uid"] None;
   CreateIndex true false "revisions_vault_path" "revisions" ["vault_id"; "path"; "uid"] None]%string.
Definition MIGRATION_2 : list statement :=
  [CreateTable false "revision_content"
     [references "revisions" "uid" Cascade (key false (integer "uid")); not_null (blob_ "content")];
   CreateTable false "sessions"
     [key false (text "token_hash"); not_null (integer "created_at"); not_null (integer "expires_at"); integer "revoked_at"];
   CreateIndex false false "sessions_expiry" "sessions" ["expires_at"] None]%string.
Definition MIGRATION_3 : list statement := [].
Definition MIGRATION_4 : list statement :=
  [CreateTable false "retired_vaults" [key false (text "id"); not_null (integer "retired_at")]].

Definition users_table : statement :=
  CreateTable false "users"
    [key true (integer "id"); unique_ (not_null (text "email_canonical")); not_null (text "email"); not_null (text "name");
     not_null (text "password_hash"); not_null (text "status"); not_null (integer "created_at"); not_null (integer "updated_at")].
Definition user_reference (name : string) (d : on_delete) : column := references "users" "id" d (not_null (integer name)).
Definition MIGRATION_5_AFTER_USER : list statement :=
  [CreateTable false "vaults_v5" (vault_columns ++ [user_reference "owner_user_id" NoAction]);
   CreateTable false "revisions_v5" (revision_columns "vaults_v5" (user_reference "user_id" NoAction));
   CreateTable false "sessions_v5"
     [key false (text "token_hash"); user_reference "user_id" Cascade; not_null (integer "created_at");
      not_null (integer "expires_at"); integer "revoked_at"];
   CreateTable false "retired_vaults_v5"
     [key false (text "id"); user_reference "owner_user_id" NoAction; not_null (integer "retired_at")];
   DropTable "sessions"; DropTable "revisions"; DropTable "vaults"; DropTable "retired_vaults";
   RenameTable "vaults_v5" "vaults"; RenameTable "revisions_v5" "revisions"; RenameTable "sessions_v5" "sessions";
   RenameTable "retired_vaults_v5" "retired_vaults";
   CreateIndex false false "vaults_owner" "vaults" ["owner_user_id"; "created"; "id"] None;
   CreateIndex false false "revisions_vault_uid" "revisions" ["vault_id"; "uid"] None;
   CreateIndex false false "revisions_vault_path" "revisions" ["vault_id"; "path"; "uid"] None;
   CreateIndex false false "sessions_expiry" "sessions" ["expires_at"] None;
   CreateIndex false false "sessions_user" "sessions" ["user_id"; "expires_at"] None;
   CreateIndex false false "retired_vaults_owner" "retired_vaults" ["owner_user_id"; "retired_at"; "id"] None]%string.
Definition MIGRATION_5 : list statement := users_table :: MIGRATION_5_AFTER_USER.
Definition MIGRATION_6 : list statement :=
  [CreateTable false "memberships"
     [key true (integer "id"); references "vaults" "id" Cascade (not_null (text "vault_id"));
      user_reference "user_id" NoAction; user_reference "invited_by_user_id" NoAction; not_null (integer "accepted_at");
      not_null (integer "created_at"); integer "revoked_at"];
   CreateIndex false true "memberships_active_vault_user" "memberships" ["vault_id"; "user_id"] (Some "revoked_at IS NULL");
   CreateIndex false false "memberships_user_vault" "memberships" ["user_id"; "vault_id"; "id"] None;
   CreateIndex false false "memberships_vault_state" "memberships" ["vault_id"; "revoked_at"; "id"] None]%string.
Definition MIGRATION_7 : list statement :=
  [AddColumn "users" (default_ "'user'" (not_null (text "role")));
   CreateTable false "server_settings"
     [key false (integer "id"); default_ "0" (not_null (integer "self_registration_enabled")); not_null (integer "updated_at");
      user_reference "updated_by" NoAction]].

Definition migration (version : Z) : list statement :=
  match version with
  | 1 => MIGRATION_1 | 2 => MIGRATION_2 | 3 => MIGRATION_3 | 4 => MIGRATION_4 | 5 => MIGRATION_5 | 6 => MIGRATION_6
  | 7 => MIGRATION_7 | _ => []
  end.

(** Each migration is followed by the check of its version, in its transaction. *)
Definition apply_schema_migration (version : Z) (ts : list table_info) : result (list table_info) :=
  let? ts := run_statements (migration version) ts in
  let? _ := verify_catalogue_at_version (from_tables ts) version in
  Ok ts.
Fixpoint apply_schema_migrations (versions : list Z) (ts : list table_info) : result (list table_info) :=
  match versions with
  | [] => Ok ts
  | v :: versions => let? ts := apply_schema_migration v ts in apply_schema_migrations versions ts
  end.
