(* ===== verification/CatalogueSpec.v ===== *)
(** * The migrations create what the verification accepts, and nothing else passes *)

From Stdlib Require Import ZArith Lia List String Ascii Bool.
From stdpp Require Import base list strings.
From S2P Require Import Prelude Sql Model Auth Vaults Verify Text Catalogue Ddl.

Local Open Scope Z_scope.

(** ** The schema of a version *)
Definition created (version : nat) : result (list table_info) :=
  apply_schema_migrations (take version SUPPORTED_MIGRATIONS) [].
Definition migrated_tables (version : nat) : list table_info :=
  match created version with Ok ts => ts | Err _ => [] end.
Definition migrated_catalogue (version : nat) : catalogue := from_tables (migrated_tables version).

(** The tables of the unversioned database: what the first migration finds in place. *)
Definition legacy_tables : list table_info :=
  match run_statements (drop 1 MIGRATION_1) [] with Ok ts => ts | Err _ => [] end.

Lemma apply_migrations_app l1 l2 ts :
  apply_schema_migrations (l1 ++ l2) ts = (let? ts := apply_schema_migrations l1 ts in apply_schema_migrations l2 ts).
Proof. revert ts. induction l1 as [|v l1 IH]; intros ts; cbn; [done|]. destruct (apply_schema_migration v ts); cbn; auto. Qed.

(** Every database the program can create or upgrade ends with the schema it demands.
    From an empty file, from the tables of the unversioned database, and from the schema of
    any earlier version, the remaining migrations run without an error, each result passes
    the verification of its version, and all paths arrive at a catalogue that passes the
    verification of the current version. *)
Theorem migrations_reach_current_schema version :
  (version <= 7)%nat ->
  exists tables final,
    created version = Ok tables /\
    (forall v, (1 <= v <= version)%nat ->
       exists ts, created v = Ok ts /\ verify_catalogue_at_version (from_tables ts) (Z.of_nat v) = Ok tt) /\
    apply_schema_migrations (drop version SUPPORTED_MIGRATIONS) tables = Ok final /\
    verify_v7_schema (from_tables final) = Ok tt /\
    verify_legacy_schema (from_tables legacy_tables) = Ok tt /\
    exists upgraded, apply_schema_migrations SUPPORTED_MIGRATIONS legacy_tables = Ok upgraded /\
      verify_v7_schema (from_tables upgraded) = Ok tt.
Proof.
  intros Hv.
  assert (forall v, (v <= 7)%nat -> exists ts, created v = Ok ts /\
            (v = 0%nat \/ verify_catalogue_at_version (from_tables ts) (Z.of_nat v) = Ok tt)) as Hcreated.
  { intros v Hle. do 8 (destruct v as [|v]; [eexists; split; [vm_compute; reflexivity|first [by left|right; vm_compute; reflexivity]]|]). lia. }
  destruct (Hcreated version Hv) as (ts & Hts & _). destruct (Hcreated 7%nat ltac:(lia)) as (final & Hfinal & Hok).
  exists ts, final. split; [done|]. split.
  { intros v Hle. destruct (Hcreated v ltac:(lia)) as (tv & Htv & [->|Hver]); [lia|eauto]. }
  split.
  { unfold created in Hts, Hfinal. change (take 7 SUPPORTED_MIGRATIONS) with SUPPORTED_MIGRATIONS in Hfinal.
    rewrite <- (take_drop version SUPPORTED_MIGRATIONS), apply_migrations_app, Hts in Hfinal. exact Hfinal. }
  split; [by destruct Hok|]. split; [vm_compute; reflexivity|].
  exists (match apply_schema_migrations SUPPORTED_MIGRATIONS legacy_tables with Ok ts => ts | Err _ => [] end). split; vm_compute; reflexivity.
Qed.

Lemma migrations_reach_current_schema_witness :
  exists tables final, created 4 = Ok tables /\ apply_schema_migrations [5; 6; 7] tables = Ok final /\
    verify_v7_schema (from_tables final) = Ok tt.
Proof.
  destruct (migrations_reach_current_schema 4 ltac:(lia)) as (ts & final & H1 & _ & H2 & H3 & _).
  exists ts, final. split; [exact H1|]. split; [exact H2|exact H3].
Defined.

(** ** What passes *)
Definition clean (t : table_info) : Prop :=
  existsb (fun u => contains_text u (to_ascii_uppercase (ti_sql t))) UNSUPPORTED = false.
Definition table_ok (c : catalogue) (n : string) (cols : list ColumnDefinition) : Prop :=
  exists t, find_table c n = Some t /\ clean t /\ ti_columns t = cols.
Definition sorted_indexes (l : list index_info) : list IndexDefinition := order_by by_index_name (map index_definition l).
Definition indexes_ok (c : catalogue) (n : string) (l : list IndexDefinition) : Prop := sorted_indexes (indexes_of c n) = l.
Definition foreign_keys_ok (c : catalogue) (n : string) (l : list ForeignKeyDefinition) : Prop := foreign_keys_of c n = l.
Definition sorted_objects (c : catalogue) : list schema_object := order_by by_type_name (objects c).

(** The catalogue has the objects and tables of another: the same columns, the same
    indexes on the same key columns, the same foreign keys. *)
Definition same_schema (c m : catalogue) : Prop :=
  sorted_objects c = sorted_objects m /\
  Forall (fun t => table_ok c (ti_name t) (ti_columns t) /\ indexes_ok c (ti_name t) (sorted_indexes (ti_indexes t)) /\
                   foreign_keys_ok c (ti_name t) (ti_foreign_keys t)) (tables m).

Lemma schema_objects_ok c e label : verify_schema_objects c e label = Ok tt <-> sorted_objects c = e.
Proof. unfold verify_schema_objects. rewrite ensure_ok. apply bool_decide_eq_true. Qed.

Lemma check_columns_ok actual expected msg :
  length actual = length expected ->
  check_columns actual expected msg = Ok tt <-> actual = map expected_definition expected.
Proof.
  revert expected. induction actual as [|a actual IH]; intros [|e expected] Hl; try discriminate Hl; [done|].
  injection Hl as Hl. cbn [check_columns map]. destruct (bool_decide (a = expected_definition e)) eqn:E.
  - apply bool_decide_eq_true in E as ->. rewrite IH by done. split; [by intros ->|congruence].
  - apply bool_decide_eq_false in E. split; [done|congruence].
Qed.

Lemma exact_table_ok c n e label :
  verify_exact_table c n e label = Ok tt <-> table_exists c n = true /\ table_ok c n (map expected_definition e).
Proof.
  unfold verify_exact_table, table_ok, clean. destruct (table_exists c n); [|naive_solver].
  destruct (find_table c n) as [t|]; cbn [ok_or]; [|naive_solver]. cbn zeta.
  destruct (existsb _ UNSUPPORTED) eqn:Eu; cbn [negb].
  { split; [done|]. intros (_ & t' & [= <-] & E & _). congruence. }
  destruct (Nat.eqb_spec (length (ti_columns t)) (length e)) as [Hl|Hl].
  - rewrite check_columns_ok by done. naive_solver.
  - split; [done|]. intros (_ & t' & [= <-] & _ & E). exfalso. apply Hl. rewrite E. apply length_map.
Qed.

Lemma exact_indexes_ok c n e label :
  verify_exact_indexes c n e label = Ok tt <-> indexes_ok c n (order_by by_index_name (map expected_index e)).
Proof. unfold verify_exact_indexes. cbn zeta. rewrite ensure_ok. apply bool_decide_eq_true. Qed.
Lemma exact_foreign_keys_ok c n e label :
  verify_exact_foreign_keys c n e label = Ok tt <-> foreign_keys_ok c n (imap expected_foreign_key e).
Proof. unfold verify_exact_foreign_keys. rewrite ensure_ok. apply bool_decide_eq_true. Qed.

Lemma table_exists_sorted c n :
  table_exists c n = exists_row (fun o => String.eqb (fst (fst o)) "table" && String.eqb (snd (fst o)) n) (sorted_objects c).
Proof.
  unfold table_exists, sorted_objects. apply Bool.eq_iff_eq_true. rewrite !exists_row_spec. setoid_rewrite in_order_by. done.
Qed.

(** ** The checks of a version as data *)
Inductive check :=
| CTable (n : string) (e : list ExpectedColumn)
| CIndexes (n : string) (e : list IndexExpectation)
| CForeignKeys (n : string) (e : list ForeignKeyExpectation).
Definition run_check (c : catalogue) (label : string) (k : check) : result unit :=
  match k with
  | CTable n e => verify_exact_table c n e label
  | CIndexes n e => verify_exact_indexes c n e label
  | CForeignKeys n e => verify_exact_foreign_keys c n e label
  end.
Fixpoint run_checks (c : catalogue) (label : string) (l : list check) : result unit :=
  match l with [] => Ok tt | k :: l => let? _ := run_check c label k in run_checks c label l end.

Inductive fact :=
| FTable (n : string) (cols : list ColumnDefinition)
| FIndexes (n : string) (l : list IndexDefinition)
| FForeignKeys (n : string) (l : list ForeignKeyDefinition).
#[local] Instance fact_eq_dec : EqDecision fact.
Proof. solve_decision. Defined.
Definition holds (c : catalogue) (f : fact) : Prop :=
  match f with
  | FTable n cols => table_ok c n cols
  | FIndexes n l => indexes_ok c n l
  | FForeignKeys n l => foreign_keys_ok c n l
  end.
Definition fact_of (k : check) : fact :=
  match k with
  | CTable n e => FTable n (map expected_definition e)
  | CIndexes n e => FIndexes n (order_by by_index_name (map expected_index e))
  | CForeignKeys n e => FForeignKeys n (imap expected_foreign_key e)
  end.
Definition table_facts (t : table_info) : list fact :=
  [FTable (ti_name t) (ti_columns t); FIndexes (ti_name t) (sorted_indexes (ti_indexes t));
   FForeignKeys (ti_name t) (ti_foreign_keys t)].

Lemma same_schema_facts c m :
  same_schema c m <-> sorted_objects c = sorted_objects m /\ Forall (holds c) (flat_map table_facts (tables m)).
Proof.
  unfold same_schema. apply and_iff_compat_l. induction (tables m) as [|t ts IH]; [split; constructor|].
  cbn [flat_map]. rewrite Forall_app, (Forall_cons _ t), IH. assert (table_facts t = [FTable (ti_name t) (ti_columns t); FIndexes (ti_name t) (sorted_indexes (ti_indexes t)); FForeignKeys (ti_name t) (ti_foreign_keys t)]) as -> by done.
  rewrite !Forall_cons, Forall_nil. cbn [holds]. tauto.
Qed.

(** The tables named by the checks are among the objects. *)
Definition lists_table (e : list schema_object) (k : check) : bool :=
  match k with
  | CTable n _ => exists_row (fun o => String.eqb (fst (fst o)) "table" && String.eqb (snd (fst o)) n) e
  | _ => true
  end.
Lemma run_checks_ok c label e l :
  sorted_objects c = e -> forallb (lists_table e) l = true ->
  run_checks c label l = Ok tt <-> Forall (holds c) (map fact_of l).
Proof.
  intros He. induction l as [|k l IH]; cbn [run_checks map forallb]; [split; [constructor|done]|].
  intros [Hk Hl]%andb_true_iff. rewrite let_ok, Forall_cons, IH by done. apply and_iff_compat_r.
  destruct k as [n cols|n i|n f]; cbn [run_check fact_of holds].
  - rewrite exact_table_ok, table_exists_sorted, He. cbn in Hk. tauto.
  - apply exact_indexes_ok.
  - apply exact_foreign_keys_ok.
Qed.

Definition same_facts (l m : list fact) : bool :=
  forallb (fun f => bool_decide (f ∈ m)) l && forallb (fun f => bool_decide (f ∈ l)) m.
Lemma same_facts_spec c l m : same_facts l m = true -> Forall (holds c) l <-> Forall (holds c) m.
Proof.
  unfold same_facts. rewrite andb_true_iff, !forallb_forall. intros [H1 H2]. rewrite !Forall_forall.
  split; intros H f Hf; apply H; apply list_elem_of_In in Hf; [apply H2 in Hf|apply H1 in Hf]; by apply bool_decide_eq_true in Hf.
Qed.

(** A verification that checks the objects [e] and then the list [l] accepts exactly the
    catalogues with the schema of [m]. *)
Lemma exact_verification c label e l m r :
  r = (let? _ := verify_schema_objects c e label in run_checks c label l) ->
  e = sorted_objects m -> forallb (lists_table e) l = true ->
  same_facts (map fact_of l) (flat_map table_facts (tables m)) = true ->
  r = Ok tt <-> same_schema c m.
Proof.
  intros -> He Hl Hf. rewrite let_ok, schema_objects_ok, same_schema_facts. split.
  - intros [E H]. split; [congruence|]. apply (same_facts_spec c _ _ Hf). by eapply run_checks_ok.
  - intros [E H]. assert (sorted_objects c = e) as E' by congruence. split; [done|].
    eapply run_checks_ok; [done..|]. by apply (same_facts_spec c _ _ Hf).
Qed.

(** ** The checks of each version, in the order of the code *)
Definition vault_key : list IndexExpectation := [primary_key "sqlite_autoindex_vaults_1" ["id"%string]].
Definition v1_checks : list check :=
  [CTable "schema_migrations" SCHEMA_MIGRATION_COLUMNS; CTable "vaults" VAULT_COLUMNS; CTable "revisions" REVISION_TABLE_COLUMNS;
   CTable "sqlite_sequence" SQLITE_SEQUENCE_COLUMNS;
   CIndexes "schema_migrations" []; CIndexes "vaults" vault_key; CIndexes "revisions" revision_indexes; CIndexes "sqlite_sequence" [];
   CForeignKeys "schema_migrations" []; CForeignKeys "vaults" []; CForeignKeys "revisions" [cascade "vaults" "vault_id" "id"];
   CForeignKeys "sqlite_sequence" []].
Definition v2_checks (epoch : bool) : list check :=
  [CTable "schema_migrations" SCHEMA_MIGRATION_COLUMNS; CTable "vaults" VAULT_COLUMNS; CTable "revisions" REVISION_TABLE_COLUMNS;
   CTable "revision_content" REVISION_CONTENT_COLUMNS; CTable "sessions" SESSION_COLUMNS]
  ++ (if epoch then [CTable "retired_vaults" RETIRED_VAULT_COLUMNS] else [])
  ++ [CTable "sqlite_sequence" SQLITE_SEQUENCE_COLUMNS;
      CIndexes "schema_migrations" []; CIndexes "vaults" vault_key; CIndexes "revisions" revision_indexes;
      CIndexes "revision_content" [];
      CIndexes "sessions" [ordinary "sessions_expiry" ["expires_at"]; primary_key "sqlite_autoindex_sessions_1" ["token_hash"]]%string]
  ++ (if epoch then [CIndexes "retired_vaults" [primary_key "sqlite_autoindex_retired_vaults_1" ["id"%string]]] else [])
  ++ [CIndexes "sqlite_sequence" [];
      CForeignKeys "schema_migrations" []; CForeignKeys "vaults" []; CForeignKeys "revisions" [cascade "vaults" "vault_id" "id"];
      CForeignKeys "revision_content" [cascade "revisions" "uid" "uid"]; CForeignKeys "sessions" []]
  ++ (if epoch then [CForeignKeys "retired_vaults" []] else [])
  ++ [CForeignKeys "sqlite_sequence" []].
Definition v5_checks (members accounts : bool) : list check :=
  [CTable "schema_migrations" SCHEMA_MIGRATION_COLUMNS; CTable "users" (if accounts then USER_V7_COLUMNS else USER_COLUMNS);
   CTable "vaults" VAULT_V5_COLUMNS; CTable "revisions" REVISION_TABLE_COLUMNS; CTable "revision_content" REVISION_CONTENT_COLUMNS;
   CTable "sessions" SESSION_V5_COLUMNS; CTable "retired_vaults" RETIRED_VAULT_V5_COLUMNS]
  ++ (if members then [CTable "memberships" MEMBERSHIP_COLUMNS] else [])
  ++ (if accounts then [CTable "server_settings" SERVER_SETTINGS_COLUMNS] else [])
  ++ [CTable "sqlite_sequence" SQLITE_SEQUENCE_COLUMNS;
      CIndexes "schema_migrations" []; CIndexes "users" [unique "sqlite_autoindex_users_1" ["email_canonical"%string]];
      CIndexes "vaults" [primary_key "sqlite_autoindex_vaults_1" ["id"]; ordinary "vaults_owner" ["owner_user_id"; "created"; "id"]]%string;
      CIndexes "revisions" revision_indexes; CIndexes "revision_content" [];
      CIndexes "sessions" [ordinary "sessions_expiry" ["expires_at"]; ordinary "sessions_user" ["user_id"; "expires_at"];
                           primary_key "sqlite_autoindex_sessions_1" ["token_hash"]]%string;
      CIndexes "retired_vaults" [ordinary "retired_vaults_owner" ["owner_user_id"; "retired_at"; "id"];
                                 primary_key "sqlite_autoindex_retired_vaults_1" ["id"]]%string;
      CIndexes "sqlite_sequence" []]
  ++ (if members then [CIndexes "memberships"
        [partial_unique "memberships_active_vault_user" ["vault_id"; "user_id"];
         ordinary "memberships_user_vault" ["user_id"; "vault_id"; "id"];
         ordinary "memberships_vault_state" ["vault_id"; "revoked_at"; "id"]]%string] else [])
  ++ (if accounts then [CIndexes "server_settings" []] else [])
  ++ [CForeignKeys "schema_migrations" []; CForeignKeys "users" [];
      CForeignKeys "vaults" [no_action "users" "owner_user_id" "id"];
      CForeignKeys "revisions" [no_action "users" "user_id" "id"; cascade "vaults" "vault_id" "id"];
      CForeignKeys "revision_content" [cascade "revisions" "uid" "uid"];
      CForeignKeys "sessions" [cascade "users" "user_id" "id"];
      CForeignKeys "retired_vaults" [no_action "users" "owner_user_id" "id"];
      CForeignKeys "sqlite_sequence" []]
  ++ (if members then [CForeignKeys "memberships"
        [no_action "users" "invited_by_user_id" "id"; no_action "users" "user_id" "id"; cascade "vaults" "vault_id" "id"]] else [])
  ++ (if accounts then [CForeignKeys "server_settings" [no_action "users" "updated_by" "id"]] else []).

Ltac by_checks l := eapply (exact_verification _ _ _ l); [reflexivity|vm_compute; reflexivity..].

(** C14: The verification of a schema is exact. For every supported version, a database
    passes it if and only if its catalogue is the one the migrations of this program create:
    the same tables, indexes and other schema objects and nothing else (no trigger, view or
    extra table), column by column the same names, types, NOT NULL, defaults and keys, the
    same indexes over the same columns, and the same foreign keys, with no unsupported clause
    in any creation text. *)
Theorem schema_verification_exact version c :
  (1 <= version <= 7)%nat ->
  verify_catalogue_at_version c (Z.of_nat version) = Ok tt <-> same_schema c (migrated_catalogue version).
Proof.
  intros Hv. destruct version as [|[|[|[|[|[|[|[|version]]]]]]]]; try lia; cbn [Z.of_nat Pos.of_succ_nat Pos.succ].
  - by_checks v1_checks.
  - by_checks (v2_checks false).
  - by_checks (v2_checks false).
  - by_checks (v2_checks true).
  - by_checks (v5_checks false false).
  - by_checks (v5_checks true false).
  - by_checks (v5_checks true true).
Qed.

Lemma schema_verification_exact_witness :
  verify_catalogue_at_version (migrated_catalogue 7) 7 = Ok tt <-> same_schema (migrated_catalogue 7) (migrated_catalogue 7).
Proof. exact (schema_verification_exact 7 (migrated_catalogue 7) ltac:(lia)). Defined.

(** The pragmas the verification reads do not show the condition of a partial index: a
    unique index over the wrong memberships passes as well. *)
Lemma partial_condition_unverified condition ts :
  created 5 = Ok ts ->
  run_statements (map (fun s => match s with CreateIndex i u n t cs (Some _) => CreateIndex i u n t cs (Some condition) | s => s end)
                    MIGRATION_6) ts
  = run_statements MIGRATION_6 ts.
Proof. intros E. vm_compute in E. injection E as <-. vm_compute. reflexivity. Qed.
