(* ===== verification/Migrations.v ===== *)
(** * Migrations of existing databases ([migrate] and the offline commands)

    A database image is its schema (the tables of [Ddl]), its migration history and
    its rows.  Versions 1 to 4 have a single implicit user: their rows are an
    [old_db]; versions 5 to 7 have the tables of [Store.db], of which version 5 lacks
    [memberships] and version 6 [users.role] and [server_settings].  Each migration runs
    its statements on the schema and on the rows, records itself and verifies the
    result in one transaction; a failed transaction leaves the error.  The clock is
    read once per command. *)

From Stdlib Require Import ZArith Lia List String Ascii Bool.
From stdpp Require Import base list strings.
From S2P Require Import Prelude Sql Model Store Auth Accounts Vaults Sharing Revisions Invariant Heads Preservation.
From S2P Require Import Machine Scenario Verify Recovery Catalogue Ddl CatalogueSpec.

Local Open Scope Z_scope.

(** ** Rows of versions 1 to 4 *)
Record old_vault := { ov_vault :> Vault; ov_version : Z }.
Record old_session := {
  os_token_hash : string;
  os_created_at : Z;
  os_expires_at : Z;
  os_revoked_at : option Z;
}.
Record old_retired := { or_id : string; or_retired_at : Z }.

(** [o_seq] is the row of [sqlite_sequence]: absent before the first revision.
    A table the version lacks has no rows. *)
Record old_db := {
  o_vaults : list old_vault;
  o_revisions : list revision_row;
  o_seq : option Z;
  o_contents : list content_row;
  o_sessions : list old_session;
  o_retired : list old_retired;
}.

Inductive rows := Single (o : old_db) | Multi (d : db).
Record image := {
  im_tables : list table_info;
  im_history : list (Z * Z);
  im_rows : rows;
}.
Definition schema (im : image) : catalogue := from_tables (im_tables im).
Definition empty_rows : old_db :=
  {| o_vaults := []; o_revisions := []; o_seq := None; o_contents := []; o_sessions := []; o_retired := [] |}.
Definition empty_image : image := {| im_tables := []; im_history := []; im_rows := Single empty_rows |}.

(** The columns version 5 adds, with the value it gives them. *)
Definition owned (v : old_vault) : vault_row :=
  {| vr_vault := v; vr_version := ov_version v; vr_owner_user_id := 1 |}.
Definition set_author (r : revision_row) : revision_row := {|
  rr_rev := {| r_uid := r_uid r; r_vault_id := r_vault_id r; r_path := r_path r; r_relatedpath := r_relatedpath r;
               r_extension := r_extension r; r_hash := r_hash r; r_ctime := r_ctime r; r_mtime := r_mtime r;
               r_folder := r_folder r; r_deleted := r_deleted r; r_size := r_size r; r_pieces := r_pieces r;
               r_device := r_device r; r_user_id := 1; r_ts := r_ts r |};
  rr_content := rr_content r |}.
Definition session_of (s : old_session) : session_row := {|
  s_token_hash := os_token_hash s; s_user_id := 1; s_created_at := os_created_at s;
  s_expires_at := os_expires_at s; s_revoked_at := os_revoked_at s |}.
Definition retired_of (r : old_retired) : retired_row :=
  {| rt_id := or_id r; rt_owner_user_id := 1; rt_retired_at := or_retired_at r |}.

(** The rows of an old version in the columns of the current one: what the queries the
    versions share read. *)
Definition single (o : old_db) : db := {|
  users := []; seq_users := 0; vaults := map owned (o_vaults o); revisions := o_revisions o;
  seq_revisions := default 0 (o_seq o); contents := o_contents o; sessions := map session_of (o_sessions o);
  retired := map retired_of (o_retired o); memberships := []; seq_memberships := None;
  settings := {| ss_self_registration_enabled := 0; ss_updated_at := 0; ss_updated_by := 0 |};
  usage := 0 |}.

(** ** Verification at a version *)
Definition migration_versions (im : image) : list Z := map fst (order_by (asc fst) (im_history im)).

Definition reject_newer_migrations (versions : list Z) : result unit :=
  match find (fun v => CURRENT_SCHEMA_VERSION <? v) versions with
  | Some _ => Err (Bail "database schema version is newer than this server supports")
  | None => Ok tt
  end.

(** [SUPPORTED_MIGRATIONS.starts_with(&versions)]. *)
Fixpoint starts_with (l versions : list Z) : bool :=
  match versions, l with
  | [], _ => true
  | v :: versions, x :: l => (v =? x) && starts_with l versions
  | _ :: _, [] => false
  end.

Definition verify_metadata (im : image) : result unit :=
  when_ (table_exists (schema im) "schema_migrations")
    (reject_invalid (fun m => safe (snd m)) (im_history im) "migration metadata").

(** The content of a revision before [revision_content] existed. *)
Definition inline_content_valid (r : revision_row) : bool :=
  negb ((r_size r =? 0) && negb (is_null (rr_content r)))
  && negb ((0 <? r_size r) && match rr_content r with Some b => negb (blob_len b =? r_size r) | None => true end).

Section Versions.
Context (parse_password_hash : string -> option PasswordHash) (notice_len : PushNotice -> Z) (now : Z).

Definition verify_old_revisions (external_content : bool) (o : old_db) : result unit :=
  let? _ := reject_invalid (fun r : revision_row => revision_metadata_valid r && (r_user_id r =? 1)) (o_revisions o)
              "revision metadata" in
  ensure forallb (fun r : revision_row => notice_len (notice_of_revision r) <=? MAX_EVENT_BYTES) (o_revisions o)
    orelse Bail "revision notice exceeds the bounded wire size" in
  if external_content
  then reject_invalid (content_location_valid (single o)) (o_revisions o) "revision content location and byte length"
  else reject_invalid inline_content_valid (o_revisions o) "legacy revision content and byte length".

Definition verify_old_sessions (o : old_db) : result unit :=
  let? _ := reject_invalid session_valid (map session_of (o_sessions o)) "session token and timestamps" in
  reject_unless (count_all (o_sessions o) <=? MAX_SESSIONS) "session count limit".

Definition verify_old_retired (o : old_db) : result unit :=
  let? _ := reject_invalid retired_valid (map retired_of (o_retired o)) "retired vault marker fields" in
  let? _ := reject_unless (count_all (o_retired o) <=? MAX_RETIRED_VAULTS) "retired vault marker count" in
  reject_invalid (fun r => negb (exists_row (fun v : old_vault => String.eqb (v_id v) (or_id r)) (o_vaults o)))
    (o_retired o) "active and retired vault identities are disjoint".

(** [verify_logical_invariants(c, external_content, false)]. *)
Definition verify_old_invariants (external_content : bool) (im : image) (o : old_db) : result unit :=
  let? _ := verify_vaults (single o) in
  let? _ := verify_old_revisions external_content o in
  let? _ := reject_unless (opt_all safe (o_seq o)) "AUTOINCREMENT sequence" in
  let? _ := verify_summaries (single o) in
  let? _ := verify_metadata im in
  let? _ := when_ (table_exists (schema im) "sessions") (verify_old_sessions o) in
  when_ (table_exists (schema im) "retired_vaults") (verify_old_retired o).

(** [verify_logical_invariants(c, true, true)]. *)
Definition verify_user_invariants (im : image) (d : db) : result unit :=
  let? _ := verify_users parse_password_hash d in
  let? _ := verify_vaults d in
  let? _ := verify_revisions notice_len d in
  let? _ := verify_sequences d in
  let? _ := verify_summaries d in
  let? _ := verify_metadata im in
  let? _ := verify_sessions now d in
  verify_retired d.

(** [PRAGMA foreign_key_check] on the tables of versions 1 to 4, and 5 and 6. *)
Definition verify_old_foreign_keys (o : old_db) : result unit :=
  ensure forallb (fun r : revision_row => exists_row (fun v : old_vault => String.eqb (v_id v) (r_vault_id r)) (o_vaults o))
           (o_revisions o)
         && forallb (fun c => exists_row (fun r : revision_row => r_uid r =? rc_uid c) (o_revisions o)) (o_contents o)
    orelse Bail "SQLite foreign_key_check failed" in
  Ok tt.
Definition verify_foreign_keys_before_settings (d : db) : result unit :=
  ensure forallb (fun v : vault_row => user_exists d (vr_owner_user_id v)) (vaults d)
         && forallb (fun r : revision_row => vault_exists d (r_vault_id r) && user_exists d (r_user_id r)) (revisions d)
         && forallb (fun c => exists_row (fun r : revision_row => r_uid r =? rc_uid c) (revisions d)) (contents d)
         && forallb (fun s => user_exists d (s_user_id s)) (sessions d)
         && forallb (fun r => user_exists d (rt_owner_user_id r)) (retired d)
         && forallb (fun m => vault_exists d (m_vault_id m) && user_exists d (m_user_id m)
                              && user_exists d (m_invited_by_user_id m)) (memberships d)
    orelse Bail "SQLite foreign_key_check failed" in
  Ok tt.

Definition verify_rows (version : Z) (im : image) : result unit :=
  match im_rows im with
  | Single o =>
      ensure version <=? 4 orelse SqliteError "no such table: users" in
      let? _ := verify_old_foreign_keys o in
      verify_old_invariants (2 <=? version) im o
  | Multi d =>
      ensure 5 <=? version orelse SqliteError "no such column" in
      let? _ := if 7 <=? version then verify_foreign_keys d else verify_foreign_keys_before_settings d in
      let? _ := verify_user_invariants im d in
      let? _ := when_ (6 <=? version) (verify_membership_invariants d) in
      when_ (7 <=? version) (verify_v7_invariants d)
  end.

Definition verify_schema_at_version (im : image) (version : Z) : result unit :=
  let? _ := verify_catalogue_at_version (schema im) version in
  verify_rows version im.

Definition verify_recorded_schema (im : image) : result Z :=
  ensure table_exists (schema im) "schema_migrations" orelse Bail "database has no Blackglass migration metadata" in
  let versions := migration_versions im in
  let? _ := reject_newer_migrations versions in
  ensure negb (match versions with [] => true | _ => false end) && starts_with SUPPORTED_MIGRATIONS versions
    orelse Bail "unsupported Blackglass migration history: expected a non-empty prefix" in
  let version := List.last versions 0 in
  let? _ := verify_schema_at_version im version in
  Ok version.

Definition verify_connection (im : image) : result unit :=
  let? version := verify_recorded_schema im in
  ensure version =? CURRENT_SCHEMA_VERSION orelse Bail "database schema version requires offline migration" in
  Ok tt.

Definition validate_migration_history_for_upgrade (im : image) : result unit :=
  if negb (table_exists (schema im) "schema_migrations") then Ok tt else
  let versions := migration_versions im in
  let? _ := reject_newer_migrations versions in
  ensure starts_with SUPPORTED_MIGRATIONS versions orelse Bail "unsupported Blackglass migration history" in
  Ok tt.

Definition verify_legacy_connection (im : image) : result unit :=
  if table_exists (schema im) "schema_migrations" then
    let? _ := reject_newer_migrations (migration_versions im) in
    Err (Bail "legacy migration source already has Blackglass migration metadata; use backup and restore")
  else
    let? _ := verify_legacy_schema (schema im) in
    match im_rows im with
    | Single o => let? _ := verify_old_foreign_keys o in verify_old_invariants false im o
    | Multi _ => Err (SqliteError "no such column")
    end.

(** ** The migrations *)

(** [UPDATE revisions SET ts=CASE WHEN mtime>0 THEN mtime ELSE unixepoch()*1000 END WHERE ts=0]. *)
Definition set_ts (ts : Z) (r : revision_row) : revision_row := {|
  rr_rev := {| r_uid := r_uid r; r_vault_id := r_vault_id r; r_path := r_path r; r_relatedpath := r_relatedpath r;
               r_extension := r_extension r; r_hash := r_hash r; r_ctime := r_ctime r; r_mtime := r_mtime r;
               r_folder := r_folder r; r_deleted := r_deleted r; r_size := r_size r; r_pieces := r_pieces r;
               r_device := r_device r; r_user_id := r_user_id r; r_ts := ts |};
  rr_content := rr_content r |}.
Definition unixepoch_ms : Z := now / 1000 * 1000.
Definition stamp (rs : list revision_row) : list revision_row :=
  update (fun r : revision_row => r_ts r =? 0)
    (fun r => set_ts (if 0 <? r_mtime r then r_mtime r else unixepoch_ms) r) rs.

(** [SELECT MAX(uid) FROM revisions WHERE vault_id=id]: NULL without rows. *)
Definition max_uid (rs : list revision_row) (id : string) : option Z :=
  match select (in_vault id) rs with [] => None | own => Some (max_of (fun r : revision_row => r_uid r) own) end.
Definition set_version (rs : list revision_row) (v : old_vault) : old_vault :=
  {| ov_vault := v; ov_version := default (ov_version v) (max_uid rs (v_id v)) |}.
Definition number (rs : list revision_row) (vs : list old_vault) : list old_vault :=
  update (fun v => ov_version v =? 0) (set_version rs) vs.

Definition migration_1_rows (o : old_db) : old_db := {|
  o_vaults := number (stamp (o_revisions o)) (o_vaults o); o_revisions := stamp (o_revisions o); o_seq := o_seq o;
  o_contents := o_contents o; o_sessions := o_sessions o; o_retired := o_retired o |}.
Definition migration_2_rows (o : old_db) : old_db := {|
  o_vaults := o_vaults o; o_revisions := o_revisions o; o_seq := o_seq o;
  o_contents := []; o_sessions := []; o_retired := o_retired o |}.
Definition migration_4_rows (o : old_db) : old_db := {|
  o_vaults := o_vaults o; o_revisions := o_revisions o; o_seq := o_seq o;
  o_contents := o_contents o; o_sessions := o_sessions o; o_retired := [] |}.

(** [apply_v5_migration]: the initial user takes id 1 and owns every row; the sequence of
    the revisions restarts at the greatest uid. *)
Definition first_user (u : InitialUser) : user_row := {|
  u_id := 1; u_email_canonical := iu_email_canonical u; u_email := iu_email u; u_name := iu_name u;
  u_password_hash := iu_password_hash u; u_status := "active"; u_created_at := now; u_updated_at := now;
  u_role := "user" |}.
Definition migration_5_rows (u : InitialUser) (o : old_db) : db := {|
  users := [first_user u]; seq_users := 1;
  vaults := map owned (o_vaults o);
  revisions := map set_author (o_revisions o);
  seq_revisions := max_of (fun r : revision_row => r_uid r) (map set_author (o_revisions o));
  contents := o_contents o;
  sessions := map session_of (o_sessions o);
  retired := map retired_of (o_retired o);
  memberships := []; seq_memberships := None;
  settings := {| ss_self_registration_enabled := 0; ss_updated_at := 0; ss_updated_by := 0 |};
  usage := 0 |}.
Definition migration_6_rows (d : db) : db := {|
  users := users d; seq_users := seq_users d; vaults := vaults d; revisions := revisions d;
  seq_revisions := seq_revisions d; contents := contents d; sessions := []; retired := retired d;
  memberships := []; seq_memberships := None; settings := settings d; usage := usage d |}.

(** [SELECT MIN(id) FROM users]. *)
Definition min_id (us : list user_row) : option Z := option_map u_id (head (order_by (asc u_id) us)).
Definition set_role (role : string) (u : user_row) : user_row := {|
  u_id := u_id u; u_email_canonical := u_email_canonical u; u_email := u_email u; u_name := u_name u;
  u_password_hash := u_password_hash u; u_status := u_status u; u_created_at := u_created_at u;
  u_updated_at := u_updated_at u; u_role := role |}.
Definition migration_7_rows (d : db) : db :=
  let us := map (set_role "user") (users d) in
  match min_id us with
  | None => with_sessions (with_users d us) []
  | Some first =>
      let d := with_users d (update (fun u => u_id u =? first) (set_role "admin") us) in
      with_sessions (with_settings d {| ss_self_registration_enabled := 0; ss_updated_at := unixepoch_ms;
                                        ss_updated_by := first |}) []
  end.

(** The rows after the statements of a migration. *)
Definition migrate_rows (initial_user : option InitialUser) (version : Z) (r : rows) : result rows :=
  match version, r with
  | 1, Single o => Ok (Single (migration_1_rows o))
  | 2, Single o => Ok (Single (migration_2_rows o))
  | 3, _ => Ok r
  | 4, Single o => Ok (Single (migration_4_rows o))
  | 5, Single o =>
      let? u := ok_or initial_user (Bail "schema v5 migration requires an initial owner") in
      Ok (Multi (migration_5_rows u o))
  | 6, Multi d => Ok (Multi (migration_6_rows d))
  | 7, Multi d => Ok (Multi (migration_7_rows d))
  | _, _ => Err (Bail "no implementation for database migration")
  end.

(** [INSERT INTO schema_migrations(version,applied_at)]. *)
Definition record_migration (version : Z) (history : list (Z * Z)) : result (list (Z * Z)) :=
  ensure negb (exists_row (fun m => fst m =? version) history)
    orelse SqliteError "UNIQUE constraint failed: schema_migrations.version" in
  Ok (history ++ [(version, now)]).

Definition apply_migration (initial_user : option InitialUser) (version : Z) (im : image) : result image :=
  let? tables := run_statements (migration version) (im_tables im) in
  let? rows := migrate_rows initial_user version (im_rows im) in
  let? history := record_migration version (im_history im) in
  let im := {| im_tables := tables; im_history := history; im_rows := rows |} in
  let? _ := verify_schema_at_version im version in
  Ok im.

Fixpoint apply_migrations (initial_user : option InitialUser) (versions : list Z) (im : image) : result image :=
  match versions with
  | [] => Ok im
  | v :: versions => let? im := apply_migration initial_user v im in apply_migrations initial_user versions im
  end.

Definition migrate (initial_user : option InitialUser) (im : image) : result image :=
  let versions := if table_exists (schema im) "schema_migrations" then migration_versions im else [] in
  let? _ := reject_newer_migrations versions in
  ensure starts_with SUPPORTED_MIGRATIONS versions
    orelse Bail "unsupported Blackglass migration history: expected a prefix" in
  apply_migrations initial_user (drop (length versions) SUPPORTED_MIGRATIONS) im.

(** ** The offline commands *)
Definition rotate_image (uuids : list string) (im : image) : result image :=
  match im_rows im with
  | Multi d =>
      let? (_, d) := rotate_recovery_epoch now uuids d in
      Ok {| im_tables := im_tables im; im_history := im_history im; im_rows := Multi d |}
  | Single _ => Err (SqliteError "no such column: owner_user_id")
  end.

(** [migrate_versioned_database_under_lock]: the source is only read. *)
Definition migrate_versioned_database (initial_user : option InitialUser) (uuids : list string) (source : image)
    : result image :=
  let? source_version := verify_recorded_schema source in
  ensure negb (source_version =? CURRENT_SCHEMA_VERSION) orelse Bail "database is already at the current schema version" in
  let? _ := verify_recorded_schema source in
  let? target := migrate initial_user source in
  let? target := if source_version <? 3 then rotate_image uuids target else Ok target in
  let? _ := verify_connection target in
  Ok target.

Definition migrate_legacy_database (initial_user : InitialUser) (uuids : list string) (source : image) : result image :=
  let? _ := verify_legacy_connection source in
  let? _ := verify_legacy_connection source in
  let? _ := validate_migration_history_for_upgrade source in
  let? target := migrate (Some initial_user) source in
  let? target := rotate_image uuids target in
  let? _ := verify_connection target in
  Ok target.
End Versions.
