(* ===== verification/MigrationsSpec.v ===== *)
(** * Upgrading keeps every vault: what the migrations do to the rows *)

From Stdlib Require Import ZArith Lia List String Ascii Bool.
From stdpp Require Import base list strings.
From S2P Require Import Prelude Sql Model Store Auth Accounts Vaults Sharing Revisions Invariant Heads Preservation.
From S2P Require Import Machine Scenario Verify Recovery Catalogue Ddl CatalogueSpec Migrations.

Local Open Scope Z_scope.

(** ** Images of a version *)

(** The versions a database went through, applied at the given times. *)
Definition history_of (version : nat) (times : list Z) : list (Z * Z) :=
  zip (take version SUPPORTED_MIGRATIONS) times.
Definition origin (legacy : bool) : list table_info := if legacy then legacy_tables else [].
(** The schema of a version, reached from an empty file or from the unversioned database. *)
Definition tables_from (legacy : bool) (version : nat) : list table_info :=
  match apply_schema_migrations (take version SUPPORTED_MIGRATIONS) (origin legacy) with Ok ts => ts | Err _ => [] end.
Definition image_at (legacy : bool) (version : nat) (times : list Z) (r : rows) : image :=
  {| im_tables := tables_from legacy version; im_history := history_of version times; im_rows := r |}.

(** A table the version lacks has no rows. *)
Definition consistent (version : nat) (o : old_db) : Prop :=
  ((version < 2)%nat -> o_contents o = [] /\ o_sessions o = []) /\ ((version < 4)%nat -> o_retired o = []).

(** The checks of version 4. *)
Record old_valid (nl : PushNotice -> Z) (o : old_db) : Prop := {
  old_keys : verify_old_foreign_keys o = Ok tt;
  old_vaults_valid : verify_vaults (single o) = Ok tt;
  old_revisions_valid : verify_old_revisions nl true o = Ok tt;
  old_sequence : opt_all safe (o_seq o) = true;
  old_summaries : verify_summaries (single o) = Ok tt;
  old_sessions_valid : verify_old_sessions o = Ok tt;
  old_retired_valid : verify_old_retired o = Ok tt;
}.
Definition times_ok (times : list Z) : Prop := Forall (fun t => safe t = true) times.

Lemma when_ok (b : bool) (r : result unit) : when_ b r = Ok tt <-> (b = true -> r = Ok tt).
Proof. destruct b; cbn; naive_solver. Qed.

Lemma max_of_map {A} (f : A -> Z) t : max_of f t = foldr Z.max 0 (map f t).
Proof. induction t as [|x t IH]; [done|]. cbn [map foldr]. rewrite <- IH. done. Qed.
Lemma foldr_map_add {A} (f : A -> Z) t : foldr Z.add 0 (map f t) = foldr (fun r acc => f r + acc) 0 t.
Proof. induction t as [|x t IH]; [done|]. cbn [map foldr]. rewrite <- IH. done. Qed.
Lemma forallb_ext {A} (f g : A -> bool) l : (forall x, f x = g x) -> forallb f l = forallb g l.
Proof. intros E. induction l as [|x l IH]; [done|]. cbn [forallb]. rewrite E, IH. done. Qed.

Lemma and_iff_if (P Q R : Prop) : (P -> Q <-> R) -> P /\ Q <-> P /\ R.
Proof. tauto. Qed.

Lemma inline_location (o : old_db) (r : revision_row) :
  o_contents o = [] -> 0 <= r_size r -> inline_content_valid r = content_location_valid (single o) r.
Proof.
  intros Ho Hs. unfold inline_content_valid, content_location_valid, external_content.
  change (contents (single o)) with (o_contents o). rewrite Ho. cbn [query_row select List.filter head option_map fmap].
  destruct (rr_content r) as [b|]; cbn [is_null opt_all Bool.eqb negb orb andb];
    destruct (Z.eqb_spec (r_size r) 0), (Z.ltb_spec 0 (r_size r)); cbn; rewrite ?andb_true_r; try lia; try done.
  rewrite negb_involutive. done.
Qed.

Lemma old_revisions_inline nl o :
  o_contents o = [] -> verify_old_revisions nl false o = Ok tt <-> verify_old_revisions nl true o = Ok tt.
Proof.
  intros Ho. unfold verify_old_revisions. rewrite !let_ok.
  apply and_iff_if. rewrite reject_invalid_ok. intros Hm. destruct (forallb _ _); [|done]. rewrite !reject_invalid_ok.
  assert (forall r, In r (o_revisions o) -> inline_content_valid r = content_location_valid (single o) r) as E.
  { intros r Hr. apply inline_location; [done|]. specialize (Hm r Hr). apply andb_true_iff in Hm as [Hm _].
    apply metadata_shape in Hm. apply Hm. }
  split; intros H r Hr; specialize (H r Hr); [rewrite <- E|rewrite E]; done.
Qed.

(** ** The checks of versions 1 to 4 agree *)
Lemma old_tables legacy version :
  (1 <= version <= 4)%nat ->
  table_exists (from_tables (tables_from legacy version)) "schema_migrations" = true /\
  table_exists (from_tables (tables_from legacy version)) "sessions" = (2 <=? version)%nat /\
  table_exists (from_tables (tables_from legacy version)) "retired_vaults" = (4 <=? version)%nat /\
  verify_catalogue_at_version (from_tables (tables_from legacy version)) (Z.of_nat version) = Ok tt.
Proof. intros H. do 5 (destruct version as [|version]; [try lia; destruct legacy; vm_compute; done|]). lia. Qed.

Lemma no_tables_yet legacy :
  table_exists (from_tables (tables_from legacy 0)) "schema_migrations" = false /\
  table_exists (from_tables (tables_from legacy 0)) "sessions" = false /\
  table_exists (from_tables (tables_from legacy 0)) "retired_vaults" = false.
Proof. destruct legacy; vm_compute; done. Qed.

Lemma has_history legacy version :
  (1 <= version <= 7)%nat -> table_exists (from_tables (tables_from legacy version)) "schema_migrations" = true.
Proof. intros Hv. do 8 (destruct version as [|version]; [try lia; destruct legacy; vm_compute; done|]). lia. Qed.

Lemma metadata_ok (im : image) :
  table_exists (schema im) "schema_migrations" = true ->
  verify_metadata im = Ok tt <-> Forall (fun m => safe (snd m) = true) (im_history im).
Proof. intros E. unfold verify_metadata. rewrite E. cbn [when_]. rewrite reject_invalid_ok, Forall_forall. split; intros H m Hm; apply H; by apply list_elem_of_In. Qed.

Lemma history_safe version times : times_ok times -> Forall (fun m => safe (snd m) = true) (history_of version times).
Proof.
  intros H. apply Forall_forall. intros [v t] Hin. apply elem_of_zip_r in Hin. cbn [snd].
  by apply (proj1 (Forall_forall _ _) H).
Qed.

(** A group of rows that all share the key is the whole table. *)
Lemma group_over_single {A} (same : A -> A -> bool) n (t : list A) :
  (forall x y, In x t -> In y t -> same x y = true) -> 0 <= n -> group_over same n t = (n <? count_all t).
Proof.
  intros Hs Hn. unfold group_over. destruct t as [|x t]; [symmetry; apply Z.ltb_ge; done|].
  assert (forall y, In y (x :: t) -> count (same y) (x :: t) = count_all (x :: t)) as E.
  { intros y Hy. unfold count, count_all. rewrite select_true; [done|]. auto. }
  apply Bool.eq_iff_eq_true. rewrite existsb_exists. split.
  - intros (y & Hy & Hlt). rewrite E in Hlt; done.
  - intros Hlt. exists x. split; [by left|]. rewrite E; [done|by left].
Qed.

Section Upgrade.
Context (pp : string -> option PasswordHash) (nl : PushNotice -> Z) (now : Z) (legacy : bool).

Lemma old_invariants_ok (b : bool) (im : image) (o : old_db) (version : nat) :
  consistent version o -> b = (2 <=? version)%nat ->
  table_exists (schema im) "sessions" = (2 <=? version)%nat ->
  table_exists (schema im) "retired_vaults" = (4 <=? version)%nat ->
  verify_old_foreign_keys o = Ok tt /\ verify_old_invariants nl b im o = Ok tt <->
  old_valid nl o /\ verify_metadata im = Ok tt.
Proof using.
  intros [H2 H4] -> Es Er. unfold verify_old_invariants. rewrite !let_ok, !when_ok, reject_unless_ok, Es, Er.
  assert (verify_old_revisions nl (2 <=? version)%nat o = Ok tt <-> verify_old_revisions nl true o = Ok tt) as ->.
  { destruct (Nat.leb_spec 2 version); [done|]. apply old_revisions_inline, H2. done. }
  assert (((2 <=? version)%nat = true -> verify_old_sessions o = Ok tt) <-> verify_old_sessions o = Ok tt) as ->.
  { destruct (Nat.leb_spec 2 version); [naive_solver|]. destruct (H2 ltac:(lia)) as [_ E].
    unfold verify_old_sessions. rewrite E. done. }
  assert (((4 <=? version)%nat = true -> verify_old_retired o = Ok tt) <-> verify_old_retired o = Ok tt) as ->.
  { destruct (Nat.leb_spec 4 version); [naive_solver|]. unfold verify_old_retired. rewrite H4 by lia. done. }
  split; [intros (? & ? & ? & ? & ? & ? & ? & ?); split; [constructor; done|done]|].
  intros [[] ?]. split_and!; done.
Qed.

Lemma image_verifies version times o :
  (1 <= version <= 4)%nat -> consistent version o ->
  verify_schema_at_version pp nl now (image_at legacy version times (Single o)) (Z.of_nat version) = Ok tt <->
  old_valid nl o /\ Forall (fun m => safe (snd m) = true) (history_of version times).
Proof using.
  intros Hv Hc. destruct (old_tables legacy version Hv) as (Em & Es & Er & Ev).
  unfold verify_schema_at_version, verify_rows, schema. cbn [im_tables im_rows image_at]. rewrite let_ok.
  rewrite (proj2 (Z.leb_le (Z.of_nat version) 4)) by lia. rewrite let_ok.
  rewrite old_invariants_ok; [|done| |done|done].
  - rewrite metadata_ok by done. naive_solver.
  - apply Bool.eq_iff_eq_true. rewrite Z.leb_le, Nat.leb_le. lia.
Qed.

(** ** One migration at a time *)
Lemma history_snoc version times :
  length times = version -> (version < 7)%nat ->
  record_migration now (Z.of_nat (S version)) (history_of version times) = Ok (history_of (S version) (times ++ [now])).
Proof using.
  intros Hl Hv. unfold history_of.
  assert (take (S version) SUPPORTED_MIGRATIONS = take version SUPPORTED_MIGRATIONS ++ [Z.of_nat (S version)]) as E.
  { do 7 (destruct version as [|version]; [done|]). lia. }
  assert (length (take version SUPPORTED_MIGRATIONS) = length times) as El.
  { rewrite length_take, Hl. change (length SUPPORTED_MIGRATIONS) with 7%nat. lia. }
  rewrite E, zip_with_app by done. unfold record_migration.
  assert (exists_row (fun m => fst m =? Z.of_nat (S version)) (zip (take version SUPPORTED_MIGRATIONS) times) = false) as ->; [|done].
  apply exists_row_false. intros [v t] Hin. apply list_elem_of_In, elem_of_zip_l, list_elem_of_In in Hin. cbn [fst]. apply Z.eqb_neq. intros ->.
  revert Hin. clear -Hv. do 7 (destruct version as [|version]; [cbn; lia|]). lia.
Qed.

Lemma next_tables version :
  (version < 7)%nat ->
  run_statements (migration (Z.of_nat (S version))) (tables_from legacy version) = Ok (tables_from legacy (S version)) /\
  verify_catalogue_at_version (from_tables (tables_from legacy (S version))) (Z.of_nat (S version)) = Ok tt.
Proof using. intros H. do 7 (destruct version as [|version]; [destruct legacy; vm_compute; done|]). lia. Qed.

(** A migration succeeds exactly when its rows pass the checks of its version. *)
Lemma apply_migration_spec (initial : option InitialUser) version times r r' :
  (version < 7)%nat -> length times = version ->
  migrate_rows now initial (Z.of_nat (S version)) r = Ok r' ->
  apply_migration pp nl now initial (Z.of_nat (S version)) (image_at legacy version times r) =
  (let? _ := verify_rows pp nl now (Z.of_nat (S version)) (image_at legacy (S version) (times ++ [now]) r') in
   Ok (image_at legacy (S version) (times ++ [now]) r')).
Proof using.
  intros Hv Hl Hr. destruct (next_tables version Hv) as [Et Ev]. unfold apply_migration.
  cbn [im_tables im_rows im_history image_at]. rewrite Et, Hr, history_snoc by done.
  unfold verify_schema_at_version, schema. cbn [im_tables]. rewrite Ev. done.
Qed.

(** The versions up to 4 add empty tables: the rows stay. *)
Lemma old_step initial version times o :
  (1 <= version <= 3)%nat -> length times = version -> consistent version o -> old_valid nl o ->
  times_ok times -> safe now = true ->
  apply_migration pp nl now initial (Z.of_nat (S version)) (image_at legacy version times (Single o)) =
  Ok (image_at legacy (S version) (times ++ [now]) (Single o)).
Proof using.
  intros Hv Hl Hc Ho Ht Hn.
  assert (migrate_rows now initial (Z.of_nat (S version)) (Single o) = Ok (Single o)) as Hr.
  { destruct Hc as [H2 H4]. destruct version as [|[|[|[|version]]]]; try lia; cbn; [| |]; f_equal; f_equal.
    - destruct (H2 ltac:(lia)) as [E1 E2]. destruct o; cbn in *; subst. done.
    - specialize (H4 ltac:(lia)). destruct o; cbn in *; subst. done. }
  rewrite (apply_migration_spec initial version times _ _ ltac:(lia) Hl Hr).
  assert (verify_schema_at_version pp nl now (image_at legacy (S version) (times ++ [now]) (Single o)) (Z.of_nat (S version)) = Ok tt) as Hok.
  { apply image_verifies; [lia| |].
    - destruct Hc. split; intros ?; auto with lia.
    - split; [done|]. apply history_safe. apply Forall_app. split; [done|]. by constructor. }
  apply let_ok in Hok as [_ ->]. done.
Qed.

(** ** The move to accounts *)

(** What version 5 demands beyond version 4, with one account. *)
Definition live_old_sessions (o : old_db) : Z :=
  count (fun s => is_null (os_revoked_at s) && (now <? os_expires_at s)) (o_sessions o).
Definition greatest_uid (rs : list revision_row) : Z := max_of (fun r : revision_row => r_uid r) rs.
Definition fits_one_account (o : old_db) : bool :=
  (live_old_sessions o <=? MAX_SESSIONS_PER_USER)
  && (count_all (o_retired o) <=? MAX_RETIRED_VAULTS_PER_OWNER)
  && forallb (fun v => ov_version v <=? greatest_uid (o_revisions o)) (o_vaults o).

(** The initial account passes the checks on users. *)
Definition account_valid (u : InitialUser) : Prop :=
  user_valid (first_user now u) = true /\ password_hash_is_production_grade pp (iu_password_hash u) = true.

Lemma set_author_same o :
  verify_old_revisions nl true o = Ok tt -> map set_author (o_revisions o) = o_revisions o.
Proof using.
  intros H. apply let_ok in H as [Hm _]. rewrite reject_invalid_ok in Hm.
  transitivity (map id (o_revisions o)); [|apply map_id]. apply map_ext_in. intros r Hr.
  specialize (Hm r Hr). apply andb_true_iff in Hm as [_ Hu]. apply Z.eqb_eq in Hu.
  destruct r as [[] c]; cbn in *. subst. done.
Qed.

Lemma v5_keys u o :
  verify_old_foreign_keys o = Ok tt -> map set_author (o_revisions o) = o_revisions o ->
  verify_foreign_keys_before_settings (migration_5_rows now u o) = Ok tt.
Proof using.
  unfold verify_old_foreign_keys, verify_foreign_keys_before_settings. rewrite !ensure_ok, !andb_true_iff, !forallb_forall.
  intros [Hr Hc] E. cbn [vaults revisions contents sessions retired memberships migration_5_rows]. rewrite E.
  split_and!; try done.
  - intros v Hv. apply in_map_iff in Hv as (v0 & <- & _). done.
  - intros r Hin. rewrite andb_true_iff. split.
    + specialize (Hr r Hin). rewrite exists_row_spec in Hr. destruct Hr as (v & Hv & Ev). apply vault_exists_in.
      apply String.eqb_eq in Ev. rewrite <- Ev. apply (in_map (fun v : vault_row => v_id v) _ (owned v)), in_map. done.
    + rewrite <- E in Hin. apply in_map_iff in Hin as (r0 & <- & _). done.
  - intros s Hs. apply in_map_iff in Hs as (s0 & <- & _). done.
  - intros s Hs. apply in_map_iff in Hs as (s0 & <- & _). done.
Qed.

Lemma v5_revisions u o :
  verify_old_revisions nl true o = Ok tt -> verify_revisions nl (migration_5_rows now u o) = Ok tt.
Proof using.
  intros H. pose proof (set_author_same o H) as E. unfold verify_revisions. cbn [revisions migration_5_rows]. rewrite E.
  unfold verify_old_revisions in H. apply let_ok in H as [Hm Hrest]. rewrite let_ok. split.
  - rewrite reject_invalid_ok in Hm |- *. intros r Hr. specialize (Hm r Hr). by apply andb_true_iff in Hm as [? _].
  - destruct (forallb _ _); [|done]. exact Hrest.
Qed.

Lemma greatest_uid_safe o : verify_old_revisions nl true o = Ok tt -> safe (greatest_uid (o_revisions o)) = true.
Proof using.
  intros H. apply let_ok in H as [Hm _]. rewrite reject_invalid_ok in Hm. unfold safe. apply in_range_spec.
  split; [apply max_of_nonneg|]. apply max_of_le; [done|]. intros r Hr. specialize (Hm r Hr).
  unfold revision_metadata_valid, safe_id in Hm. rewrite !andb_true_iff, in_range_spec in Hm. lia.
Qed.

Lemma v5_summaries u o :
  verify_old_revisions nl true o = Ok tt -> verify_summaries (single o) = Ok tt ->
  verify_summaries (migration_5_rows now u o) = Ok tt <->
  forallb (fun v => ov_version v <=? greatest_uid (o_revisions o)) (o_vaults o) = true.
Proof using.
  intros Hr H. pose proof (set_author_same o Hr) as E. unfold verify_summaries, version_valid, head_size, head_uids in *.
  cbn [vaults revisions seq_revisions migration_5_rows single] in *. rewrite E.
  rewrite !let_ok, !reject_invalid_ok in *. destruct H as [Hv Hs]. rewrite forallb_forall. split.
  - intros [Hv' _] v Hin. specialize (Hv' (owned v) (in_map owned _ _ Hin)). apply andb_true_iff in Hv' as [_ Hv']. done.
  - intros Hle. split; [|done]. intros v Hin. specialize (Hv v Hin). apply andb_true_iff in Hv as [Hv _].
    rewrite Hv. apply in_map_iff in Hin as (v0 & <- & Hin). apply (Hle v0 Hin).
Qed.

Lemma v5_sessions u o :
  verify_old_sessions o = Ok tt ->
  verify_sessions now (migration_5_rows now u o) = Ok tt <-> (live_old_sessions o <=? MAX_SESSIONS_PER_USER) = true.
Proof using.
  intros H. unfold verify_old_sessions in H. apply let_ok in H as [Hv Hc]. rewrite reject_unless_ok in Hc.
  unfold verify_sessions. cbn [sessions migration_5_rows]. rewrite !let_ok, !reject_unless_ok, Hv.
  assert (count_all (map session_of (o_sessions o)) = count_all (o_sessions o)) as -> by (unfold count_all; by rewrite length_map).
  rewrite Hc, group_over_single; [| |done].
  - rewrite select_map. unfold live_old_sessions, count, count_all. rewrite length_map, negb_true_iff, Z.ltb_ge, Z.leb_le. naive_solver.
  - intros x y Hx Hy. rewrite select_map in *. apply in_map_iff in Hx as (x0 & <- & _), Hy as (y0 & <- & _). done.
Qed.

Lemma v5_retired u o :
  verify_old_retired o = Ok tt ->
  verify_retired (migration_5_rows now u o) = Ok tt <-> (count_all (o_retired o) <=? MAX_RETIRED_VAULTS_PER_OWNER) = true.
Proof using.
  intros H. unfold verify_old_retired in H. apply let_ok in H as [Hv H]. apply let_ok in H as [Hc Hd].
  rewrite reject_unless_ok in Hc. rewrite reject_invalid_ok in Hd.
  unfold verify_retired. cbn [vaults retired migration_5_rows]. rewrite !let_ok, !reject_unless_ok, Hv.
  assert (count_all (map retired_of (o_retired o)) = count_all (o_retired o)) as Ec by (unfold count_all; by rewrite length_map).
  rewrite group_over_single, Ec, Hc, negb_true_iff, Z.ltb_ge, Z.leb_le; [| |done].
  - split; [naive_solver|]. intros Hle. split_and!; try done. rewrite reject_invalid_ok. intros r Hr.
    apply in_map_iff in Hr as (r0 & <- & Hr). specialize (Hd r0 Hr). cbn beta in Hd. apply negb_true_iff in Hd. apply negb_true_iff.
    apply exists_row_false. pose proof (proj1 (exists_row_false _ _) Hd) as Hd'. intros v Hin. apply in_map_iff in Hin as (v0 & <- & Hin). apply (Hd' v0 Hin).
  - intros x y Hx Hy. apply in_map_iff in Hx as (x0 & <- & _), Hy as (y0 & <- & _). done.
Qed.

Lemma schema_metadata version times r :
  (1 <= version <= 7)%nat -> times_ok times -> verify_metadata (image_at legacy version times r) = Ok tt.
Proof using.
  intros Hv Ht. apply metadata_ok; [|by apply history_safe].
  by apply has_history.
Qed.

Lemma v5_exact u o times :
  account_valid u -> old_valid nl o -> times_ok times ->
  verify_rows pp nl now 5 (image_at legacy 5 times (Multi (migration_5_rows now u o))) = Ok tt <-> fits_one_account o = true.
Proof using.
  intros [Hu Hg] Ho Ht. pose proof (set_author_same o (old_revisions_valid _ _ Ho)) as E.
  unfold verify_rows. cbn [im_rows image_at]. change (5 <=? 5) with true. change (7 <=? 5) with false.
  change (6 <=? 5) with false. cbn [when_]. unfold verify_user_invariants. rewrite !let_ok.
  rewrite (v5_keys u o (old_keys _ _ Ho) E), (v5_revisions u o (old_revisions_valid _ _ Ho)), schema_metadata by (done || lia).
  rewrite (v5_summaries u o (old_revisions_valid _ _ Ho) (old_summaries _ _ Ho)),
    (v5_sessions u o (old_sessions_valid _ _ Ho)), (v5_retired u o (old_retired_valid _ _ Ho)).
  assert (verify_users pp (migration_5_rows now u o) = Ok tt) as ->.
  { unfold verify_users. rewrite !let_ok, !reject_invalid_ok, reject_unless_ok. cbn [users migration_5_rows].
    split_and!; [intros r [<-|[]]; done|done|]. intros r [<-|[]]. done. }
  assert (verify_vaults (migration_5_rows now u o) = Ok tt) as -> by exact (old_vaults_valid _ _ Ho).
  assert (verify_sequences (migration_5_rows now u o) = Ok tt) as ->.
  { unfold verify_sequences. rewrite let_ok, !reject_unless_ok. cbn [seq_revisions seq_users seq_memberships users migration_5_rows].
    rewrite E. change (max_of _ (o_revisions o)) with (greatest_uid (o_revisions o)).
    rewrite (greatest_uid_safe o (old_revisions_valid _ _ Ho)). done. }
  unfold fits_one_account. rewrite !andb_true_iff. naive_solver.
Qed.

(** ** Memberships, then roles *)
Lemma v6_ok d times times' :
  verify_rows pp nl now 5 (image_at legacy 5 times (Multi d)) = Ok tt -> times_ok times' ->
  verify_rows pp nl now 6 (image_at legacy 6 times' (Multi (migration_6_rows d))) = Ok tt.
Proof using.
  unfold verify_rows, verify_user_invariants. cbn [im_rows image_at]. change (5 <=? 5) with true. change (5 <=? 6) with true.
  change (7 <=? 5) with false. change (7 <=? 6) with false. change (6 <=? 5) with false. change (6 <=? 6) with true.
  cbn [when_]. rewrite !let_ok. intros (Hk & (Hu & Hv & Hr & Hq & Hs & _ & _ & Ht) & _) Htimes.
  rewrite schema_metadata by (done || lia). split_and!; try done.
  - unfold verify_foreign_keys_before_settings in *. rewrite !ensure_ok, !andb_true_iff in *. naive_solver.
  - unfold verify_sequences in *. rewrite !let_ok, !reject_unless_ok in *. cbn [opt_all seq_memberships migration_6_rows].
    rewrite !andb_true_iff in *. naive_solver.
Qed.

Lemma verify_users_spec d :
  verify_users pp d = Ok tt <->
  (forall u, In u (users d) -> user_valid u = true /\ password_hash_is_production_grade pp (u_password_hash u) = true) /\
  count_all (users d) <= MAX_USERS.
Proof using.
  unfold verify_users. rewrite !let_ok, !reject_invalid_ok, reject_unless_ok, Z.leb_le.
  assert (count_all (users d) <= MAX_USERS -> limit MAX_USERS (order_by (asc u_id) (users d)) = order_by (asc u_id) (users d)) as E.
  { intros H. unfold limit. cbn [Z.ltb]. rewrite firstn_all2; [done|]. rewrite length_order_by. unfold count_all in H. lia. }
  split.
  - intros (Hv & Hc & Hg). rewrite E in Hg by done. setoid_rewrite in_order_by in Hg. naive_solver.
  - intros [Hv Hc]. rewrite E by done. setoid_rewrite in_order_by. naive_solver.
Qed.

Lemma min_id_some us : us <> [] -> exists first, min_id us = Some first /\ In first (map u_id us).
Proof using.
  intros Hne. unfold min_id. destruct (order_by (asc u_id) us) as [|x l] eqn:E.
  - exfalso. apply Hne. destruct us as [|y us]; [done|]. exfalso.
    assert (In y (order_by (asc u_id) (y :: us))) as Hin by (apply in_order_by; by left). rewrite E in Hin. done.
  - exists (u_id x). split; [done|]. apply in_map. apply (in_order_by (asc u_id)). rewrite E. by left.
Qed.

Definition promoted (first : Z) (us : list user_row) : list user_row :=
  update (fun u => u_id u =? first) (set_role "admin") (map (set_role "user") us).
Lemma migration_7_some d first :
  min_id (map (set_role "user") (users d)) = Some first ->
  migration_7_rows now d =
  with_sessions (with_settings (with_users d (promoted first (users d)))
    {| ss_self_registration_enabled := 0; ss_updated_at := unixepoch_ms now; ss_updated_by := first |}) [].
Proof using. intros E. unfold migration_7_rows. rewrite E. done. Qed.

Lemma promoted_ids first us : map u_id (promoted first us) = map u_id us.
Proof using. unfold promoted. rewrite map_update by done. rewrite map_map. done. Qed.
Lemma in_promoted first us u :
  In u (promoted first us) -> exists u0, In u0 us /\ (u = set_role "admin" u0 \/ u = set_role "user" u0).
Proof using.
  unfold promoted. rewrite in_update. intros (x & Hx & ->). apply in_map_iff in Hx as (u0 & <- & Hu0).
  exists u0. split; [done|]. destruct (_ =? _); [by left|by right].
Qed.

Lemma v7_users first d :
  verify_users pp d = Ok tt -> verify_users pp (with_users d (promoted first (users d))) = Ok tt.
Proof using.
  rewrite !verify_users_spec. cbn [users with_users]. intros [Hv Hc]. split.
  - intros u Hu. apply in_promoted in Hu as (u0 & Hu0 & [-> | ->]); exact (Hv u0 Hu0).
  - unfold count_all in *. rewrite <- (length_map u_id), promoted_ids, length_map. done.
Qed.

Lemma v7_roles first us :
  In first (map u_id us) ->
  (forall u, In u (promoted first us) -> String.eqb (u_role u) "admin" || String.eqb (u_role u) "user" = true) /\
  1 <= count (fun u => String.eqb (u_role u) "admin") (promoted first us).
Proof using.
  intros Hf. split.
  - intros u Hu. apply in_promoted in Hu as (u0 & _ & [-> | ->]); done.
  - apply in_map_iff in Hf as (u & Eu & Hu).
    assert (0 < count (fun u => String.eqb (u_role u) "admin") (promoted first us)); [|lia].
    apply count_pos. exists (set_role "admin" (set_role "user" u)). split; [|done].
    apply in_update. exists (set_role "user" u). split; [by apply in_map|]. cbn. rewrite (proj2 (Z.eqb_eq _ _) Eu). done.
Qed.

Lemma v7_keys first d st :
  verify_foreign_keys_before_settings d = Ok tt -> In first (map u_id (users d)) -> ss_updated_by st = first ->
  verify_foreign_keys (with_sessions (with_settings (with_users d (promoted first (users d))) st) []) = Ok tt.
Proof using.
  intros H Hf Est. set (d' := with_sessions _ []).
  assert (forall id, user_exists d' id = user_exists d id) as Hex.
  { intros id. apply Bool.eq_iff_eq_true. rewrite !user_exists_in. unfold d'. cbn [users with_sessions with_settings with_users].
    rewrite promoted_ids. done. }
  unfold verify_foreign_keys, verify_foreign_keys_before_settings in *. rewrite !ensure_ok, !andb_true_iff, !forallb_forall in *.
  setoid_rewrite Hex. destruct H as (((((Hv & Hr) & Hc) & _) & Ht) & Hm). split_and!; try done.
  apply user_exists_in. unfold d'. cbn [settings with_sessions with_settings]. rewrite Est. done.
Qed.

Lemma v7_ok d times times' :
  verify_rows pp nl now 6 (image_at legacy 6 times (Multi d)) = Ok tt -> users d <> [] -> times_ok times' -> safe now = true ->
  verify_rows pp nl now 7 (image_at legacy 7 times' (Multi (migration_7_rows now d))) = Ok tt.
Proof using.
  unfold verify_rows, verify_user_invariants. cbn [im_rows image_at]. change (5 <=? 7) with true. change (5 <=? 6) with true.
  change (7 <=? 6) with false. change (7 <=? 7) with true. change (6 <=? 7) with true. change (6 <=? 6) with true.
  cbn [when_]. rewrite !let_ok. intros (Hk & (Hu & Hv & Hr & Hq & Hs & _ & Hse & Ht) & Hm & _) Hne Htimes Hnow.
  destruct (min_id_some (map (set_role "user") (users d))) as (first & Ef & Hin).
  { intros E. apply Hne. by apply map_eq_nil in E. }
  rewrite map_map in Hin. change (In first (map u_id (users d))) in Hin. rewrite (migration_7_some d first Ef).
  rewrite schema_metadata by (done || lia). destruct (v7_roles first (users d) Hin) as [Hrole Hadmin].
  split_and!; try done.
  - by apply v7_keys.
  - by apply v7_users.
  - unfold verify_sequences in *. rewrite !let_ok, !reject_unless_ok in *. split; [apply Hq|].
    cbn [users seq_users with_sessions with_settings with_users]. destruct Hq as [_ Hq]. rewrite <- Hq. f_equal.
    rewrite !(max_of_map u_id), promoted_ids. done.
  - unfold verify_v7_invariants. rewrite let_ok, reject_invalid_ok. split; [exact Hrole|].
    cbn [users settings with_sessions with_settings with_users ss_self_registration_enabled ss_updated_at].
    rewrite (proj2 (Z.leb_le _ _) Hadmin). unfold safe, unixepoch_ms in *. rewrite in_range_spec in Hnow.
    rewrite (proj2 (in_range_spec 0 MAX_JS_SAFE_INTEGER (now / 1000 * 1000))); [done|].
    pose proof (Z.mul_div_le now 1000 ltac:(lia)). pose proof (Z.div_pos now 1000 ltac:(lia) ltac:(lia)). lia.
Qed.
End Upgrade.

(** ** The initial account *)
Section Text.
Implicit Types (s : string) (l : list ascii).

Lemma printable_plain c : is_printable c = true -> (code c =? 0) = false /\ starts_char c = true.
Proof using. destruct c as [[] [] [] [] [] [] [] []]; vm_compute; done. Qed.

Lemma before_nul_printable l : forallb is_printable l = true -> before_nul l = l.
Proof using.
  induction l as [|c l IH]; cbn [forallb before_nul]; [done|]. rewrite andb_true_iff. intros [Hc Hl].
  rewrite (proj1 (printable_plain c Hc)), IH; done.
Qed.

Lemma sqlite_length_le s : sqlite_length s <= str_len s.
Proof using.
  unfold sqlite_length, char_count. rewrite str_len_bytes. apply Nat2Z.inj_le.
  etransitivity; [apply (length_select starts_char)|].
  induction (bytes_of s) as [|c l IH]; cbn [before_nul length]; [done|]. destruct (code c =? 0); cbn [length]; lia.
Qed.

Lemma sqlite_length_printable s : all_bytes is_printable s = true -> sqlite_length s = str_len s.
Proof using.
  intros H. unfold sqlite_length, char_count. unfold all_bytes in H. rewrite before_nul_printable by done.
  rewrite str_len_bytes. f_equal. f_equal. apply (select_true starts_char). intros c Hc.
  rewrite forallb_forall in H. by apply printable_plain, H.
Qed.

Lemma not_outside_printable s : all_bytes is_printable s = true -> glob_outside is_printable s = false.
Proof using.
  intros H. unfold glob_outside. unfold all_bytes in H. rewrite before_nul_printable by done.
  apply (exists_row_false (fun c => negb (is_printable c))). intros c Hc. rewrite forallb_forall in H. by rewrite H.
Qed.

Lemma positions_count i l : length (positions_from i "@"%char l) = length (List.filter (Ascii.eqb "@"%char) l).
Proof using.
  revert i. induction l as [|c l IH]; intros i; [done|]. cbn [positions_from List.filter]. rewrite Ascii.eqb_sym.
  destruct (Ascii.eqb "@" c); cbn [length]; rewrite IH; done.
Qed.

Lemma positions_range i l p : In p (positions_from i "@"%char l) -> i <= p < i + Z.of_nat (length l).
Proof using.
  revert i. induction l as [|c l IH]; intros i; cbn [positions_from length]; [done|].
  destruct (Ascii.eqb c "@"); [intros [<-|H]; [lia|]|intros H]; apply IH in H; lia.
Qed.

Lemma instr_position i j l p rest :
  forallb is_printable l = true -> positions_from i "@"%char l = p :: rest -> instr_at_from j l = j + (p - i).
Proof using.
  revert i j. induction l as [|c l IH]; intros i j; cbn [positions_from instr_at_from forallb]; [done|].
  rewrite andb_true_iff. intros [Hc Hl]. destruct (Ascii.eqb c "@"); [intros [= <- _]; lia|]. intros H.
  rewrite (proj2 (printable_plain c Hc)). rewrite (IH (i + 1) (j + 1)) by done. lia.
Qed.
End Text.

(** What an accepted address satisfies, in the terms of the validation queries. *)
Lemma canonical_email_valid v e s :
  canonicalize_email v = Ok e -> s = ce_display e \/ s = ce_canonical e ->
  in_range 3 MAX_EMAIL_BYTES (sqlite_length s) = true /\ glob_outside is_printable s = false /\ count_at s = 1 /\
  negb ((instr_at s =? 1) || (instr_at s =? sqlite_length s)) = true.
Proof.
  intros He Hs. destruct (canonicalize_email_display v e He) as (Ed & Ec & Hp & Hfix).
  assert (exists e', canonicalize_email s = Ok e' /\ ce_display e' = s) as (e' & He' & Es).
  { destruct Hs as [-> | ->]; [by exists e|]. rewrite Ec. exists {| ce_display := to_ascii_lowercase (ce_display e); ce_canonical := ce_canonical e |}.
    split; [|done]. rewrite canonicalize_email_lower, Hfix. done. }
  clear He Hs Ed Ec Hfix. destruct (canonicalize_email_display s e' He') as (Ed' & _ & Hp' & Hfix). rewrite Es in *.
  unfold canonicalize_email in He'. rewrite <- Ed' in He'. cbn zeta in He'.
  destruct (negb _) eqn:E1 in He'; [|done]. rewrite Hp' in He'.
  destruct (positions_from 0 "@" (bytes_of s)) as [|sep others] eqn:Epos; [done|].
  destruct (negb _) eqn:E2 in He'; [|done]. apply negb_true_iff in E1, E2. rewrite !orb_false_iff in *.
  destruct E1 as [_ Hlen], E2 as [[H0 H1] Hone]. apply Z.ltb_ge in Hlen. apply Z.eqb_neq in H0, H1.
  destruct others as [|? ?]; [|done].
  pose proof (positions_range 0 (bytes_of s) sep ltac:(rewrite Epos; by left)) as Hr.
  rewrite sqlite_length_printable, not_outside_printable by done. rewrite <- str_len_bytes in Hr.
  split_and!; [apply in_range_spec; lia|done| |].
  - unfold count_at. rewrite before_nul_printable by done. rewrite <- (positions_count 0), Epos. done.
  - unfold instr_at. rewrite (instr_position 0 1 _ sep []) by done. apply negb_true_iff, orb_false_iff.
    rewrite !Z.eqb_neq. lia.
Qed.

Lemma initial_account_valid pp now email name hash u :
  new_initial_user pp email name hash = Ok u -> 1 <= sqlite_length hash -> safe now = true -> account_valid pp now u.
Proof.
  unfold new_initial_user. intros H Hh Hn.
  destruct (canonicalize_email email) as [e|] eqn:Ee; [|done]. destruct (normalize_display_name name) as [n|] eqn:En; [|done].
  destruct (password_hash_is_production_grade pp hash) eqn:Eg; [|done]. injection H as <-. split; [|exact Eg].
  destruct (canonical_email_valid email e _ Ee (or_intror eq_refl)) as (Hc1 & Hc2 & Hc3 & Hc4).
  destruct (canonical_email_valid email e _ Ee (or_introl eq_refl)) as (Hd1 & Hd2 & _ & _).
  destruct (canonicalize_email_display email e Ee) as (_ & Ec & _).
  unfold user_valid, first_user. cbn [u_id u_email_canonical u_email u_name u_password_hash u_status u_created_at u_updated_at
    iu_email_canonical iu_email iu_name iu_password_hash].
  rewrite Hc1, Hc2, Hc3, Hc4, Hd1, Hd2, Hn. change (safe_id 1) with true. change (1 =? 1) with true.
  assert (String.eqb (ce_canonical e) (to_ascii_lowercase (ce_canonical e)) = true) as -> by (rewrite Ec, lower_idem; apply String.eqb_refl).
  assert (String.eqb (to_ascii_lowercase (ce_display e)) (ce_canonical e) = true) as -> by (rewrite Ec; apply String.eqb_refl).
  assert (in_range 1 MAX_DISPLAY_NAME_BYTES (str_len n) = true) as ->.
  { unfold normalize_display_name in En. cbn zeta in En. destruct (negb _) eqn:E1 in En; [|done]. destruct (negb _) in En; [|done].
    injection En as <-. apply negb_true_iff, orb_false_iff in E1 as [Hne Hle]. apply Z.ltb_ge in Hle. apply in_range_spec.
    rewrite is_empty_bytes in Hne. rewrite str_len_bytes in *. destruct (bytes_of _); [done|]. cbn [length] in *. lia. }
  assert (in_range 1 512 (sqlite_length hash) = true) as ->.
  { apply in_range_spec. split; [done|]. unfold password_hash_is_production_grade, accepted_password_hash in Eg.
    destruct (Z.ltb_spec MAX_PASSWORD_HASH_LENGTH (str_len hash)); [done|]. pose proof (sqlite_length_le hash).
    change MAX_PASSWORD_HASH_LENGTH with 512 in *. lia. }
  unfold safe in Hn. rewrite in_range_spec in Hn. cbn. apply in_range_spec. lia.
Qed.

(** ** Whole upgrades *)
Section Whole.
Context (pp : string -> option PasswordHash) (nl : PushNotice -> Z) (now : Z) (legacy : bool).
Notation run := (apply_migrations pp nl now).

(** The times recorded by migrations that run now. *)
Definition stamped (n : nat) (times : list Z) : list Z := times ++ repeat now n.

Lemma stamped_snoc n times : stamped n (times ++ [now]) = stamped (S n) times.
Proof using. unfold stamped. rewrite <- app_assoc. done. Qed.
Lemma stamped_ok n times : times_ok times -> safe now = true -> times_ok (stamped n times).
Proof using. intros Ht Hn. apply Forall_app. split; [done|]. induction n; cbn; constructor; done. Qed.

Lemma stamped_add m n times : stamped n (stamped m times) = stamped (m + n) times.
Proof using. unfold stamped. rewrite repeat_app, app_assoc. done. Qed.

Lemma recorded_versions version times r :
  (version <= 7)%nat -> length times = version -> migration_versions (image_at legacy version times r) = take version SUPPORTED_MIGRATIONS.
Proof using.
  intros Hv Hl. unfold migration_versions. cbn [im_history image_at]. unfold history_of.
  rewrite order_by_id.
  - clear -Hv Hl. assert (length (take version SUPPORTED_MIGRATIONS) = length times) as E.
    { rewrite length_take, Hl. change (length SUPPORTED_MIGRATIONS) with 7%nat. lia. }
    apply fst_zip. lia.
  - do 8 (destruct version as [|version]; [repeat (destruct times as [|? times]; try discriminate Hl); vm_compute; repeat constructor|]). lia.
Qed.

Lemma supported_prefix version :
  (1 <= version <= 7)%nat ->
  let versions := take version SUPPORTED_MIGRATIONS in
  reject_newer_migrations versions = Ok tt /\ starts_with SUPPORTED_MIGRATIONS versions = true /\
  length versions = version /\ List.last versions 0 = Z.of_nat version /\
  negb (match versions with [] => true | _ => false end) = true.
Proof using. intros Hv. do 8 (destruct version as [|version]; [try lia; vm_compute; done|]). lia. Qed.

Lemma migrate_image initial version times r :
  (1 <= version <= 7)%nat -> length times = version ->
  migrate pp nl now initial (image_at legacy version times r) = run initial (drop version SUPPORTED_MIGRATIONS) (image_at legacy version times r).
Proof using.
  intros Hv Hl. unfold migrate, schema. cbn [im_tables image_at].
  rewrite has_history, recorded_versions by (done || lia).
  destruct (supported_prefix version Hv) as (-> & -> & -> & _). done.
Qed.

Lemma recorded_schema_ok version times r :
  (1 <= version <= 7)%nat -> length times = version ->
  verify_recorded_schema pp nl now (image_at legacy version times r) =
  (let? _ := verify_schema_at_version pp nl now (image_at legacy version times r) (Z.of_nat version) in Ok (Z.of_nat version)).
Proof using.
  intros Hv Hl. unfold verify_recorded_schema. rewrite recorded_versions by (done || lia). unfold schema.
  cbn [im_tables image_at]. rewrite has_history by done.
  destruct (supported_prefix version Hv) as (-> & -> & _ & -> & ->). done.
Qed.

Lemma connection_ok times d :
  length times = 7%nat -> verify_rows pp nl now 7 (image_at legacy 7 times (Multi d)) = Ok tt ->
  verify_connection pp nl now (image_at legacy 7 times (Multi d)) = Ok tt.
Proof using.
  intros Hl Hok. unfold verify_connection. rewrite recorded_schema_ok by (done || lia).
  unfold verify_schema_at_version, schema. cbn [im_tables image_at].
  rewrite (proj2 (next_tables legacy 6 ltac:(lia))). change (Z.of_nat 7) with 7. rewrite Hok. done.
Qed.

(** The rows of a single-user database after the last migration. *)
Definition upgraded (u : InitialUser) (o : old_db) : db :=
  migration_7_rows now (migration_6_rows (migration_5_rows now u o)).

Lemma apply_cons initial v vs im : run initial (v :: vs) im = (let? im := apply_migration pp nl now initial v im in run initial vs im).
Proof using. done. Qed.

Lemma run_next initial version times r r' vs :
  (version < 7)%nat -> length times = version -> migrate_rows now initial (Z.of_nat (S version)) r = Ok r' ->
  verify_rows pp nl now (Z.of_nat (S version)) (image_at legacy (S version) (times ++ [now]) r') = Ok tt ->
  run initial (Z.of_nat (S version) :: vs) (image_at legacy version times r) = run initial vs (image_at legacy (S version) (times ++ [now]) r').
Proof using. intros Hv Hl Hr Hok. rewrite apply_cons, (apply_migration_spec _ _ _ _ _ _ _ _ r') by done. rewrite Hok. done. Qed.

Lemma accounts_chain u o times :
  account_valid pp now u -> old_valid nl o -> times_ok times -> length times = 4%nat -> safe now = true ->
  if fits_one_account now o
  then run (Some u) [5; 6; 7] (image_at legacy 4 times (Single o)) = Ok (image_at legacy 7 (stamped 3 times) (Multi (upgraded u o))) /\
       verify_rows pp nl now 7 (image_at legacy 7 (stamped 3 times) (Multi (upgraded u o))) = Ok tt
  else exists e, run (Some u) [5; 6; 7] (image_at legacy 4 times (Single o)) = Err e.
Proof using.
  intros Hu Ho Ht Hl Hn. pose proof (v5_exact pp nl now legacy u o (stamped 1 times) Hu Ho (stamped_ok 1 times Ht Hn)) as H5.
  assert (forall n, length (stamped n times) = (n + 4)%nat) as Hlen by (intros n; unfold stamped; rewrite length_app, repeat_length; lia).
  assert (forall n, stamped n times ++ [now] = stamped (S n) times) as Hsnoc.
  { intros n. unfold stamped. rewrite <- app_assoc. f_equal. clear. induction n; cbn in *; congruence. }
  destruct (fits_one_account now o).
  - pose proof (proj2 H5 eq_refl) as H5'. pose proof (v6_ok pp nl now legacy _ _ (stamped 2 times) H5' (stamped_ok 2 times Ht Hn)) as H6.
    pose proof (v7_ok pp nl now legacy _ _ (stamped 3 times) H6 ltac:(done) (stamped_ok 3 times Ht Hn) Hn) as H7. split; [|exact H7].
    etransitivity; [exact (run_next (Some u) 4 times (Single o) _ [6; 7] ltac:(lia) Hl eq_refl H5')|].
    change (times ++ [now]) with (stamped 1 times). rewrite <- Hsnoc in H6, H7.
    etransitivity; [exact (run_next (Some u) 5 (stamped 1 times) (Multi _) _ [7] ltac:(lia) (Hlen _) eq_refl H6)|]. rewrite Hsnoc.
    etransitivity; [exact (run_next (Some u) 6 (stamped 2 times) (Multi _) _ [] ltac:(lia) (Hlen _) eq_refl H7)|]. rewrite Hsnoc. done.
  - rewrite apply_cons. change 5 with (Z.of_nat 5).
    rewrite (apply_migration_spec pp nl now legacy (Some u) 4 times (Single o) _ ltac:(lia) Hl eq_refl).
    destruct (verify_rows _ _ _ (Z.of_nat 5) _) as [[]|e] eqn:E; [|by exists e]. exfalso. apply proj1 in H5. specialize (H5 E). done.
Qed.

Lemma old_chain initial version times o :
  (1 <= version <= 4)%nat -> length times = version -> consistent version o -> old_valid nl o -> times_ok times -> safe now = true ->
  run initial (drop version SUPPORTED_MIGRATIONS) (image_at legacy version times (Single o)) =
  run initial [5; 6; 7] (image_at legacy 4 (stamped (4 - version) times) (Single o)).
Proof using.
  intros Hv Hl Hc Ho Ht Hn. remember (4 - version)%nat as k eqn:Ek. revert version times Hv Hl Hc Ht Ek.
  induction k as [|k IH]; intros version times Hv Hl Hc Ht Ek.
  - assert (version = 4%nat) as -> by lia. unfold stamped. rewrite app_nil_r. done.
  - assert (drop version SUPPORTED_MIGRATIONS = Z.of_nat (S version) :: drop (S version) SUPPORTED_MIGRATIONS) as ->.
    { do 5 (destruct version as [|version]; [done|]). lia. }
    rewrite apply_cons, old_step by (done || lia). cbn match. rewrite IH, stamped_snoc; [done|lia| | | |lia].
    + rewrite length_app. cbn. lia.
    + destruct Hc. split; intros ?; auto with lia.
    + apply Forall_app. split; [done|]. by constructor.
Qed.
End Whole.

(** ** The migrated database *)

(** What the keys of the old tables guarantee. *)
Record old_shape (o : old_db) : Prop := {
  osh_vaults : NoDup (map (fun v : old_vault => v_id v) (o_vaults o));
  osh_revisions : increasing ruid (o_revisions o);
  osh_contents : NoDup (map rc_uid (o_contents o));
  osh_retired : NoDup (map or_id (o_retired o));
}.

(** Everything of the old database, owned by the initial user, who is the administrator;
    no session and no share. *)
Definition adopted (now : Z) (u : InitialUser) (o : old_db) : db := {|
  users := users (initial_db now u); seq_users := 1;
  vaults := map owned (o_vaults o); revisions := o_revisions o; seq_revisions := greatest_uid (o_revisions o);
  contents := o_contents o; sessions := []; retired := map retired_of (o_retired o);
  memberships := []; seq_memberships := None; settings := settings (initial_db now u); usage := 0 |}.

Lemma upgraded_adopted nl now u o : old_valid nl o -> upgraded now u o = adopted now u o.
Proof.
  intros Ho. unfold upgraded, migration_6_rows, migration_5_rows. rewrite (set_author_same nl o (old_revisions_valid _ _ Ho)). done.
Qed.

Lemma adopted_shape now u o : old_shape o -> sqlite_shape (adopted now u o).
Proof.
  intros [Hv Hr Hc Ht]. constructor; cbn; rewrite ?map_map; try done; try apply NoDup_singleton; repeat constructor.
Qed.

Lemma rows7_verified pp nl now im d :
  im_rows im = Multi d -> verify_rows pp nl now 7 im = Ok tt -> verify_database pp nl now d = Ok tt.
Proof.
  intros E. unfold verify_rows, verify_user_invariants, verify_database, verify_logical_invariants. rewrite E.
  change (5 <=? 7) with true. change (7 <=? 7) with true. change (6 <=? 7) with true. cbn [when_]. rewrite !let_ok. naive_solver.
Qed.

Lemma old_upgrade pp nl now u legacy version times o :
  account_valid pp now u -> safe now = true ->
  (1 <= version <= 4)%nat -> length times = version -> times_ok times -> consistent version o ->
  verify_recorded_schema pp nl now (image_at legacy version times (Single o)) = Ok (Z.of_nat version) ->
  let final := image_at legacy 7 (stamped now (7 - version) times) (Multi (adopted now u o)) in
  if fits_one_account now o
  then migrate pp nl now (Some u) (image_at legacy version times (Single o)) = Ok final /\ verify_rows pp nl now 7 final = Ok tt
  else exists e, migrate pp nl now (Some u) (image_at legacy version times (Single o)) = Err e.
Proof.
  intros Hacc Hn Hv Hl Ht Hc Hver. rewrite recorded_schema_ok in Hver by (done || lia).
  destruct (verify_schema_at_version _ _ _ _ _) as [[]|] eqn:Eok in Hver; [|done].
  apply image_verifies in Eok as [Ho _]; [|done..]. rewrite migrate_image, old_chain by (done || lia).
  pose proof (accounts_chain pp nl now legacy u o (stamped now (4 - version) times) Hacc Ho (stamped_ok now _ _ Ht Hn)) as H.
  specialize (H ltac:(unfold stamped; rewrite length_app, repeat_length; lia) Hn).
  destruct (fits_one_account now o); [|done]. destruct H as [Hrun Hok].
  rewrite (upgraded_adopted nl) in Hrun, Hok by done. rewrite stamped_add in Hrun, Hok.
  replace (4 - version + 3)%nat with (7 - version)%nat in * by lia. split; done.
Qed.


(** ** The unversioned database and the empty file *)
Lemma number_same nl o (rs : list revision_row) :
  old_valid nl o -> map (fun r : revision_row => (r_uid r, r_vault_id r)) rs = map (fun r : revision_row => (r_uid r, r_vault_id r)) (o_revisions o) ->
  number rs (o_vaults o) = o_vaults o.
Proof.
  intros Ho Hrs. unfold number, update. transitivity (map id (o_vaults o)); [|apply map_id]. apply map_ext_in. intros v Hv.
  destruct (Z.eqb_spec (ov_version v) 0) as [E|]; [|done]. unfold set_version, max_uid.
  assert (select (in_vault (v_id v)) rs = []) as ->; [|by destruct v].
  apply select_none. intros r Hr. destruct (in_vault (v_id v) r) eqn:Ein; [|done]. exfalso.
  assert (In (r_uid r, r_vault_id r) (map (fun r : revision_row => (r_uid r, r_vault_id r)) (o_revisions o))) as Hin.
  { rewrite <- Hrs. apply (in_map (fun r : revision_row => (r_uid r, r_vault_id r))). done. }
  apply in_map_iff in Hin as (r0 & [= Eu Ev] & Hr0).
  pose proof (old_revisions_valid _ _ Ho) as Hm. apply let_ok in Hm as [Hm _]. rewrite reject_invalid_ok in Hm.
  specialize (Hm r0 Hr0). unfold revision_metadata_valid, safe_id in Hm. rewrite !andb_true_iff, in_range_spec in Hm.
  pose proof (old_summaries _ _ Ho) as Hsum. apply let_ok in Hsum as [Hsum _]. rewrite reject_invalid_ok in Hsum.
  specialize (Hsum (owned v) (in_map owned _ _ Hv)). unfold version_valid in Hsum. rewrite andb_true_iff, Z.leb_le in Hsum.
  destruct Hsum as [Hsum _]. cbn [vr_version owned revisions single] in Hsum. rewrite E in Hsum.
  assert (r_uid r0 <= max_of by_uid (select (in_vault (v_id v)) (o_revisions o))); [|cbn in *; lia].
  apply (max_of_ge by_uid). apply in_select. split; [done|]. unfold in_vault in *. rewrite Ev. done.
Qed.

(** ** Retiming revisions *)
Section Retime.
Context (g : revision_row -> revision_row).
Hypothesis Hg : forall r, exists ts, g r = set_ts ts r.

Lemma retime_select (P : revision_row -> bool) rs :
  (forall ts r, P (set_ts ts r) = P r) -> select P (map g rs) = map g (select P rs).
Proof using Hg. intros HP. rewrite select_map. f_equal. apply select_ext. intros r _. destruct (Hg r) as [ts ->]. apply HP. Qed.

Lemma retime_map {B} (f : revision_row -> B) rs : (forall ts r, f (set_ts ts r) = f r) -> map f (map g rs) = map f rs.
Proof using Hg. intros Hf. rewrite map_map. apply map_ext. intros r. destruct (Hg r) as [ts ->]. apply Hf. Qed.

Lemma retime_forallb (P : revision_row -> bool) rs : (forall ts r, P (set_ts ts r) = P r) -> forallb P (map g rs) = forallb P rs.
Proof using Hg.
  intros HP. induction rs as [|r rs IH]; [done|]. cbn [map forallb]. rewrite IH. destruct (Hg r) as [ts ->]. by rewrite HP.
Qed.

Lemma retime_heads rs id : head_uids (map g rs) id = head_uids rs id.
Proof using Hg.
  unfold head_uids, group_max. rewrite retime_select by done. rewrite retime_map by done. f_equal. apply map_ext. intros k.
  rewrite retime_select by done. rewrite retime_map by done. done.
Qed.

Lemma retime_max rs (P : revision_row -> bool) :
  (forall ts r, P (set_ts ts r) = P r) -> max_of by_uid (select P (map g rs)) = max_of by_uid (select P rs).
Proof using Hg. intros HP. rewrite !max_of_map, retime_select by done. by rewrite retime_map. Qed.

Lemma retime_summaries d rs :
  revisions d = rs -> verify_summaries (with_revisions d (map g rs)) = verify_summaries d.
Proof using Hg.
  intros <-. unfold verify_summaries, reject_invalid. cbn [vaults with_revisions].
  assert (forall v, version_valid (with_revisions d (map g (revisions d))) v = version_valid d v) as E1.
  { intros v. unfold version_valid. cbn [revisions seq_revisions with_revisions]. rewrite retime_max; done. }
  assert (forall id, head_size (with_revisions d (map g (revisions d))) id = head_size d id) as E2.
  { intros id. unfold head_size. cbn [revisions with_revisions]. rewrite retime_select by done.
    rewrite retime_heads. unfold sum_of. rewrite <- !(foldr_map_add (fun r : revision_row => r_size r)). by rewrite retime_map. }
  rewrite (forallb_ext _ _ _ E1).
  rewrite (forallb_ext (fun v : vault_row => v_size v =? head_size (with_revisions d (map g (revisions d))) (v_id v))
             (fun v : vault_row => v_size v =? head_size d (v_id v))) by (intros v; by rewrite E2). done.
Qed.
End Retime.

Definition retime (now : Z) (r : revision_row) : revision_row :=
  if r_ts r =? 0 then set_ts (if 0 <? r_mtime r then r_mtime r else unixepoch_ms now) r else r.
Lemma stamp_retime now rs : stamp now rs = map (retime now) rs.
Proof. done. Qed.
Lemma retime_set now r : exists ts, retime now r = set_ts ts r.
Proof. unfold retime. destruct (r_ts r =? 0); [by eexists|]. exists (r_ts r). by destruct r as [[] ?]. Qed.

Lemma retime_metadata now r :
  safe now = true -> revision_metadata_valid r = true -> revision_metadata_valid (retime now r) = true.
Proof.
  intros Hn H. unfold retime. destruct (r_ts r =? 0); [|done].
  assert (safe (unixepoch_ms now) = true) as He.
  { unfold safe, unixepoch_ms in *. rewrite in_range_spec in *.
    pose proof (Z.mul_div_le now 1000 ltac:(lia)). pose proof (Z.div_pos now 1000 ltac:(lia) ltac:(lia)). lia. }
  unfold revision_metadata_valid in *.
  cbn [rr_rev set_ts r_uid r_vault_id r_path r_relatedpath r_extension r_hash r_ctime r_mtime r_size r_pieces r_folder r_deleted r_device r_user_id r_ts].
  rewrite !andb_true_iff in *. split; [tauto|]. destruct (0 <? r_mtime r); tauto.
Qed.

(** The rows the first migration leaves: revisions without a timestamp get one, nothing
    else changes. *)
Lemma migration_1_vaults nl now o : old_valid nl o -> o_vaults (migration_1_rows now o) = o_vaults o.
Proof.
  intros Ho. apply (number_same nl); [done|]. rewrite stamp_retime. apply retime_map; [apply retime_set|done].
Qed.

Lemma migration_1_valid nl now o :
  old_valid nl o -> safe now = true ->
  old_valid nl (migration_1_rows now o) <->
  forallb (fun r : revision_row => nl (notice_of_revision r) <=? MAX_EVENT_BYTES) (stamp now (o_revisions o)) = true.
Proof.
  intros Ho Hn. pose proof (migration_1_vaults nl now o Ho) as Ev. pose proof (retime_set now) as Hg.
  assert (single (migration_1_rows now o) = with_revisions (single o) (map (retime now) (o_revisions o))) as Es.
  { unfold single at 1. rewrite Ev. done. }
  unfold migration_1_rows in Ev. cbn [o_vaults] in Ev. destruct Ho as [Hk Hv Hr Hq Hsum Hse Hrt].
  unfold verify_old_revisions in Hr. apply let_ok in Hr as [Hm Hc]. rewrite reject_invalid_ok in Hm. destruct (forallb _ _) in Hc; [|done].
  split.
  - intros [_ _ H _ _ _ _]. apply let_ok in H as [_ H]. cbn [o_revisions migration_1_rows] in H. destruct (forallb _ _) in H |- *; done.
  - intros Hnotice. constructor.
    + unfold verify_old_foreign_keys in *. rewrite ensure_ok in *. cbn [o_vaults o_revisions o_contents migration_1_rows].
      rewrite Ev, stamp_retime, retime_forallb by done. rewrite andb_true_iff in *. destruct Hk as [Hk1 Hk2]. split; [done|].
      rewrite forallb_forall in *. intros c Hin. specialize (Hk2 c Hin). rewrite exists_row_spec in Hk2. destruct Hk2 as (r & Hr & Er).
      apply exists_row_spec. exists (retime now r). split; [by apply in_map|]. destruct (Hg r) as [ts ->]. done.
    + rewrite Es. exact Hv.
    + unfold verify_old_revisions. cbn [o_revisions migration_1_rows]. rewrite Hnotice, let_ok, !reject_invalid_ok. split.
      * intros r Hr. rewrite stamp_retime in Hr. apply in_map_iff in Hr as (r0 & <- & Hr0). specialize (Hm r0 Hr0).
        rewrite andb_true_iff in *. destruct Hm as [Hm Hu]. split; [by apply retime_metadata|].
        destruct (Hg r0) as [ts ->]. done.
      * rewrite Es. intros r Hr. rewrite stamp_retime in Hr. apply in_map_iff in Hr as (r0 & <- & Hr0).
        rewrite reject_invalid_ok in Hc. rewrite <- (Hc r0 Hr0). destruct (Hg r0) as [ts ->]. done.
    + done.
    + rewrite Es, retime_summaries; done.
    + done.
    + unfold verify_old_retired in *. cbn [o_retired o_vaults migration_1_rows]. rewrite Ev. done.
Qed.

Definition notices_fit (nl : PushNotice -> Z) (rs : list revision_row) : bool :=
  forallb (fun r : revision_row => nl (notice_of_revision r) <=? MAX_EVENT_BYTES) rs.

Lemma first_migration pp nl now legacy u o :
  account_valid pp now u -> safe now = true -> consistent 0 o -> old_valid nl o ->
  let o1 := migration_1_rows now o in
  if notices_fit nl (stamp now (o_revisions o)) && fits_one_account now o1
  then migrate pp nl now (Some u) (image_at legacy 0 [] (Single o)) = Ok (image_at legacy 7 (repeat now 7) (Multi (adopted now u o1))) /\
       verify_rows pp nl now 7 (image_at legacy 7 (repeat now 7) (Multi (adopted now u o1))) = Ok tt
  else exists e, migrate pp nl now (Some u) (image_at legacy 0 [] (Single o)) = Err e.
Proof.
  intros Hu Hn Hc Ho o1. assert (consistent 1 o1) as Hc1 by (destruct Hc as [H2 H4]; split; intros _; [apply H2; lia|apply H4; lia]).
  assert (migrate pp nl now (Some u) (image_at legacy 0 [] (Single o)) =
          apply_migrations pp nl now (Some u) SUPPORTED_MIGRATIONS (image_at legacy 0 [] (Single o))) as Em by (by destruct legacy).
  pose proof (migration_1_valid nl now o Ho Hn) as Hiff. fold o1 in Hiff. fold (notices_fit nl (stamp now (o_revisions o))) in Hiff.
  pose proof (apply_migration_spec pp nl now legacy (Some u) 0 [] (Single o) (Single o1) ltac:(lia) eq_refl eq_refl) as E1.
  cbn [app] in E1. pose proof (image_verifies pp nl now legacy 1 [now] o1 ltac:(lia) Hc1) as Hver.
  unfold verify_schema_at_version in Hver. rewrite let_ok in Hver.
  assert (times_ok [now]) as Ht by (by constructor). pose proof (history_safe 1 _ Ht) as Hsafe.
  pose proof (proj2 (next_tables legacy 0 ltac:(lia))) as Hcat.
  rewrite Em. unfold SUPPORTED_MIGRATIONS. rewrite apply_cons. change (Z.of_nat 1) with 1 in *. rewrite E1.
  destruct (verify_rows pp nl now 1 _) as [[]|e] eqn:Ev.
  - assert (old_valid nl o1) as Ho1 by (apply Hver; done). rewrite (proj1 Hiff Ho1). cbn [andb].
    pose proof (old_chain pp nl now legacy (Some u) 1 [now] o1 ltac:(lia) eq_refl Hc1 Ho1 Ht Hn) as Echain.
    cbn [drop SUPPORTED_MIGRATIONS] in Echain. rewrite Echain.
    pose proof (accounts_chain pp nl now legacy u o1 (stamped now 3 [now]) Hu Ho1 (stamped_ok now 3 _ Ht Hn) eq_refl Hn) as Hacc.
    rewrite (upgraded_adopted nl) in Hacc by done. exact Hacc.
  - destruct (notices_fit nl (stamp now (o_revisions o))); [|by exists e]. exfalso.
    assert (Err e = Ok tt); [|done]. apply Hver. split; [by apply Hiff|done].
Qed.

(** A database of version 4 with an inline and an external revision. *)
Definition old_revision (uid : Z) (path : string) (size : Z) (ts : Z) (content : option blob) : revision_row := {|
  rr_rev := {| r_uid := uid; r_vault_id := "vault-1"; r_path := path; r_relatedpath := None; r_extension := "md";
               r_hash := "hash"; r_ctime := 1; r_mtime := 2; r_folder := false; r_deleted := false; r_size := size;
               r_pieces := 1; r_device := "laptop"; r_user_id := 1; r_ts := ts |};
  rr_content := content |}.
Definition old_demo_vault (size version : Z) : old_vault := {|
  ov_vault := {| v_id := "vault-1"; v_name := "Notes"; v_keyhash := Some "key"%string; v_salt := Some "salt"%string;
                 v_host := "sync.example.test"; v_region := "Self-hosted"; v_encryption_version := 3; v_size := size;
                 v_created := 100; v_password := None |};
  ov_version := version |}.
Definition old_demo_session (token : string) : old_session :=
  {| os_token_hash := token; os_created_at := 10; os_expires_at := 9000; os_revoked_at := None |}.
Definition old_demo : old_db := {|
  o_vaults := [old_demo_vault 8 2];
  o_revisions := [old_revision 1 "a.md" 3 5 (Some (demo_bytes 3)); old_revision 2 "b.md" 5 6 None];
  o_seq := Some 2; o_contents := [{| rc_uid := 2; rc_content := demo_bytes 5 |}];
  o_sessions := [old_demo_session token_a]; o_retired := [{| or_id := "vault-0"; or_retired_at := 7 |}] |}.

Lemma old_demo_shape : old_shape old_demo.
Proof. constructor; repeat constructor; cbn; try lia; rewrite ?elem_of_cons, ?elem_of_nil; naive_solver. Qed.
Lemma old_demo_consistent : consistent 4 old_demo.
Proof. split; lia. Qed.
Lemma demo_account : new_initial_user demo_parse "Ann@Example.test" "Ann" "$argon2id$demo" = Ok demo_user.
Proof. vm_compute. reflexivity. Qed.


(** Importing the unversioned database is exact.  A database without migration metadata
    that passes its verification migrates to version 7 if and only if the change notices of
    its revisions, once each has a timestamp, fit the wire limit and no vault version is
    above the greatest revision uid; vaults and stored bytes are unchanged, a revision
    changes only in a missing timestamp (its modification time, or the time of the
    migration), all is owned by the initial administrator, and the server's invariant holds. *)
Theorem legacy_database_migrates_exactly pp nl now email name hash u o :
  new_initial_user pp email name hash = Ok u -> 1 <= sqlite_length hash -> safe now = true ->
  consistent 0 o -> old_shape o ->
  verify_legacy_connection nl (image_at true 0 [] (Single o)) = Ok tt ->
  let versions_fit := forallb (fun v => ov_version v <=? greatest_uid (o_revisions o)) (o_vaults o) in
  if notices_fit nl (stamp now (o_revisions o)) && versions_fit
  then exists d, migrate pp nl now (Some u) (image_at true 0 [] (Single o)) = Ok (image_at true 7 (repeat now 7) (Multi d)) /\
       verify_connection pp nl now (image_at true 7 (repeat now 7) (Multi d)) = Ok tt /\
       users d = users (initial_db now u) /\ vaults d = map owned (o_vaults o) /\
       revisions d = map (retime now) (o_revisions o) /\ contents d = [] /\
       db_ok (initialize_runtime_storage_usage d)
  else exists e, migrate pp nl now (Some u) (image_at true 0 [] (Single o)) = Err e.
Proof.
  intros Hu Hh Hn Hc Hs Hver versions_fit. pose proof (initial_account_valid _ _ _ _ _ _ Hu Hh Hn) as Hacc.
  assert (old_valid nl o) as Ho.
  { destruct (no_tables_yet true) as (Em & Es & Er). unfold verify_legacy_connection, schema in Hver. cbn [im_tables im_rows image_at] in Hver.
    rewrite Em, !let_ok in Hver. destruct Hver as [_ Hver]. apply (old_invariants_ok nl _ _ _ 0) in Hver; done || apply Hver. }
  pose proof (first_migration pp nl now true u o Hacc Hn Hc Ho) as H. cbn zeta in H.
  assert (fits_one_account now (migration_1_rows now o) = versions_fit) as E.
  { unfold fits_one_account, live_old_sessions. rewrite (migration_1_vaults nl) by done. cbn [o_sessions o_retired o_revisions migration_1_rows].
    destruct Hc as [H2 H4]. destruct (H2 ltac:(lia)) as [_ ->]. rewrite (H4 ltac:(lia)). cbn [select count andb].
    unfold versions_fit, greatest_uid. rewrite stamp_retime, !(max_of_map (fun r : revision_row => r_uid r)).
    rewrite retime_map; [done|apply retime_set|done]. }
  rewrite E in H. destruct (_ && versions_fit); [|done]. destruct H as [Hm Hok].
  exists (adopted now u (migration_1_rows now o)). split; [done|]. split; [by apply connection_ok|].
  cbn [users vaults revisions contents adopted]. rewrite (migration_1_vaults nl) by done.
  split; [reflexivity|]. split; [reflexivity|]. split; [reflexivity|]. split.
  - apply Hc. lia.
  - assert (old_shape (migration_1_rows now o)) as Hs1.
    { destruct Hs as [Hsv Hsr Hsc Hst]. constructor; cbn [o_revisions o_contents migration_1_rows].
      - rewrite (migration_1_vaults nl) by done. exact Hsv.
      - apply (increasing_update ruid); [intros; reflexivity|exact Hsr].
      - exact Hsc.
      - exact Hst. }
    apply (validated_ok pp nl now _ (adopted_shape now u _ Hs1)).
    by apply (rows7_verified _ _ _ _ _ (eq_refl : im_rows (image_at true 7 (repeat now 7) (Multi (adopted now u (migration_1_rows now o)))) = _)).
Qed.

Definition legacy_demo : old_db := {|
  o_vaults := [old_demo_vault 3 1]; o_revisions := [old_revision 1 "a.md" 3 0 (Some (demo_bytes 3))];
  o_seq := Some 1; o_contents := []; o_sessions := []; o_retired := [] |}.

Lemma legacy_database_migrates_exactly_witness :
  exists d, migrate demo_parse demo_notice_len 1000 (Some demo_user) (image_at true 0 [] (Single legacy_demo)) =
            Ok (image_at true 7 (repeat 1000 7) (Multi d)) /\
    revisions d = [old_revision 1 "a.md" 3 2 (Some (demo_bytes 3))] /\ db_ok (initialize_runtime_storage_usage d).
Proof.
  destruct (legacy_database_migrates_exactly demo_parse demo_notice_len 1000 "Ann@Example.test" "Ann" "$argon2id$demo" demo_user
    legacy_demo demo_account ltac:(vm_compute; done) eq_refl ltac:(split; done)
    ltac:(constructor; repeat constructor; cbn; rewrite ?elem_of_nil; naive_solver) ltac:(vm_compute; reflexivity))
    as (d & H1 & _ & _ & _ & H2 & _ & H3).
  exists d. split; [exact H1|]. split; [exact H2|exact H3].
Defined.

(** A new server starts from the initial database: on an empty file all seven migrations
    succeed for every accepted initial user, the result passes the verification, and its rows
    are the state the server's reachable states start from. *)
Theorem new_database_is_initial pp nl now email name hash u :
  new_initial_user pp email name hash = Ok u -> 1 <= sqlite_length hash -> safe now = true ->
  migrate pp nl now (Some u) empty_image = Ok (image_at false 7 (repeat now 7) (Multi (initial_db now u))) /\
  verify_connection pp nl now (image_at false 7 (repeat now 7) (Multi (initial_db now u))) = Ok tt.
Proof.
  intros Hu Hh Hn. pose proof (initial_account_valid _ _ _ _ _ _ Hu Hh Hn) as Hacc.
  assert (old_valid nl empty_rows) as Ho by (constructor; reflexivity).
  destruct (first_migration pp nl now false u empty_rows Hacc Hn ltac:(split; done) Ho) as [Hm Hok].
  split; [exact Hm|]. apply connection_ok; [reflexivity|exact Hok].
Qed.

Lemma new_database_is_initial_witness :
  exists im, migrate demo_parse demo_notice_len 1000 (Some demo_user) empty_image = Ok im /\
    im_rows im = Multi (initial_db 1000 demo_user).
Proof.
  destruct (new_database_is_initial demo_parse demo_notice_len 1000 "Ann@Example.test" "Ann" "$argon2id$demo" demo_user
    demo_account ltac:(vm_compute; done) eq_refl) as [H _].
  eexists. split; [exact H|reflexivity].
Defined.

(** ** An upgrade that cannot succeed *)
Definition hex_digit (n : nat) : ascii := nth n (bytes_of "0123456789abcdef") "0"%char.
Definition numbered_token (n : nat) : string :=
  String (hex_digit (n / 16)) (String (hex_digit (n mod 16)) (repeat_char "0"%char 62)).
Definition busy_demo : old_db := {|
  o_vaults := [old_demo_vault 3 1]; o_revisions := [old_revision 1 "a.md" 3 5 (Some (demo_bytes 3))]; o_seq := Some 1;
  o_contents := []; o_sessions := map (fun n => old_demo_session (numbered_token n)) (seq 0 65); o_retired := [] |}.

(** The upgrade of a busy single-user server fails.  A database of version 4 with 65 live
    sessions, well below the limit of 1024 its own verification enforces, passes that
    verification, yet no accepted initial user can migrate it: the check after migration 5
    applies the per-user limit of 64 to sessions that migration 6 is about to delete.  The
    same database without one of those sessions migrates. *)
Theorem live_sessions_block_upgrade :
  verify_recorded_schema demo_parse demo_notice_len 1000 (image_at false 4 [1; 2; 3; 4] (Single busy_demo)) = Ok 4 /\
  NoDup (map os_token_hash (o_sessions busy_demo)) /\ count_all (o_sessions busy_demo) < MAX_SESSIONS /\
  (forall email name hash u,
     new_initial_user demo_parse email name hash = Ok u -> 1 <= sqlite_length hash ->
     exists e, migrate demo_parse demo_notice_len 1000 (Some u) (image_at false 4 [1; 2; 3; 4] (Single busy_demo)) = Err e) /\
  exists im, migrate demo_parse demo_notice_len 1000 (Some demo_user)
    (image_at false 4 [1; 2; 3; 4] (Single {| o_vaults := o_vaults busy_demo; o_revisions := o_revisions busy_demo;
       o_seq := o_seq busy_demo; o_contents := []; o_sessions := tail (o_sessions busy_demo); o_retired := [] |})) = Ok im.
Proof.
  assert (verify_recorded_schema demo_parse demo_notice_len 1000 (image_at false 4 [1; 2; 3; 4] (Single busy_demo)) = Ok 4) as Hver
    by (vm_compute; reflexivity).
  split; [exact Hver|]. split; [apply (bool_decide_unpack (NoDup _)); vm_compute; exact I|]. split; [vm_compute; reflexivity|].
  split; [|eexists; vm_compute; reflexivity]. intros email name hash u Hu Hh.
  pose proof (initial_account_valid _ 1000 _ _ _ _ Hu Hh eq_refl) as Hacc.
  exact (old_upgrade demo_parse demo_notice_len 1000 u false 4 [1; 2; 3; 4] busy_demo Hacc eq_refl ltac:(lia) eq_refl
    ltac:(repeat constructor) ltac:(split; lia) Hver).
Qed.
