(* ===== verification/Process.v ===== *)
(** * Programs on a state that keep their changes when they fail

    The offline commands and the process of the server work on files: an error stops the
    program and leaves what it has already done. *)

From stdpp Require Import base tactics.
From S2P Require Import Prelude.

Definition stateful (S A : Type) : Type := S -> result A * S.

Section Stateful.
Context {S : Type}.
Definition ret {A} (a : A) : stateful S A := fun s => (Ok a, s).
Definition fail {A} (e : error) : stateful S A := fun s => (Err e, s).
Definition bind {A B} (m : stateful S A) (k : A -> stateful S B) : stateful S B :=
  fun s => match m s with (Ok a, s) => k a s | (Err e, s) => (Err e, s) end.
(** The outcome of a step as a value, as the closures the code runs and inspects. *)
Definition attempt {A} (m : stateful S A) : stateful S (result A) := fun s => match m s with (r, s) => (Ok r, s) end.
Definition lift {A} (r : result A) : stateful S A := fun s => (r, s).
End Stateful.

(** A program on one part of a state. *)
Definition on_fst {S T A} (m : stateful S A) : stateful (S * T) A := fun st => match m (fst st) with (r, s) => (r, (s, snd st)) end.
Definition on_snd {S T A} (m : stateful T A) : stateful (S * T) A := fun st => match m (snd st) with (r, t) => (r, (fst st, t)) end.

Notation "'let!' x := m 'in' k" := (bind m (fun x => k)) (at level 200, x pattern, m at level 100, k at level 200).
Notation "'unless' b 'else' e 'in' k" := (if b then k else fail e) (at level 200, b at level 100, e at level 100, k at level 200).

Lemma bind_ok {S A B} (m : stateful S A) (k : A -> stateful S B) s b s2 :
  bind m k s = (Ok b, s2) -> exists a s1, m s = (Ok a, s1) /\ k a s1 = (Ok b, s2).
Proof. unfold bind. destruct (m s) as [[a|e] s1]; [by eauto|done]. Qed.
