(* ===== verification/Files.v ===== *)
(** * Database files ([with_new_database], [open_internal] and the offline commands)

    The file system maps a path to its directory entry; a regular file holds a database
    image or other bytes.  System calls may fail: [fails call path] decides each of them,
    so every error path of the code runs for some choice.  [left_behind] says which
    sidecar files SQLite leaves when a connection closes.  Directories above a path and
    their symbolic links are outside the model: a path names one entry. *)

From Stdlib Require Import ZArith Lia List String Ascii Bool.
From stdpp Require Import base list strings gmap.
From S2P Require Import Prelude Sql Model Store Auth Accounts Vaults Sharing Revisions Invariant Heads Preservation.
From S2P Require Import Machine Scenario Verify Recovery Catalogue Ddl CatalogueSpec Migrations Process.

Local Open Scope Z_scope.

(** ** The file system *)

(** [f_image] is [None] for bytes that are not a database, such as an interrupted copy. *)
Record file := { f_links : Z; f_mode : Z; f_image : option image }.
Inductive entry := Regular (f : file) | Other.
Notation files := (gmap string entry).

Inductive syscall := Stat | Create | Chmod | Open | Canonicalize | Journal | Unlink | SyncDirectory | Mkdir | Flock.

(** ** Programs on the file system *)
Definition command (A : Type) : Type := stateful files A.
Definition entry_at (path : string) : command (option entry) := fun fs => (Ok (fs !! path), fs).
Definition put (path : string) (e : entry) : command unit := fun fs => (Ok tt, <[path := e]> fs).
Definition drop_entry (path : string) : command unit := fun fs => (Ok tt, delete path fs).

Section Files.
Context (fails : syscall -> string -> bool) (left_behind : string -> bool).

Definition io_error (call : syscall) : error := Bail "I/O error".

(** ** Paths *)
Definition sqlite_sidecar (path suffix : string) : string := path +:+ suffix.
Definition sqlite_sidecars (path : string) : list string :=
  map (sqlite_sidecar path) ["-wal"; "-shm"; "-journal"]%string.

(** [std::fs::symlink_metadata]: [None] is the error [NotFound]. *)
Definition symlink_metadata (path : string) : command (option entry) :=
  unless negb (fails Stat path) else io_error Stat in entry_at path.

Definition path_entry_exists (path : string) : command bool :=
  let! found := symlink_metadata path in ret (negb (is_null found)).

Definition reject_hardlinked_file (f : file) : command unit :=
  unless f_links f =? 1 else Bail "must have exactly one filesystem link" in ret tt.

(** The second inspection, after [canonicalize], sees the same entry. *)
Definition resolve_existing_regular_file (path : string) : command file :=
  let! found := symlink_metadata path in
  match found with
  | None => fail (Bail "must be an existing regular file")
  | Some Other => fail (Bail "is not a regular file")
  | Some (Regular f) =>
      let! _ := reject_hardlinked_file f in
      unless negb (fails Canonicalize path) else io_error Canonicalize in
      ret f
  end.

(** [open_existing_read_only] and [open_existing_read_write]; reading bytes that are not a
    database fails. *)
Definition open_existing (path : string) : command image :=
  let! f := resolve_existing_regular_file path in
  unless negb (fails Open path) else io_error Open in
  match f_image f with Some im => ret im | None => fail (SqliteError "file is not a database") end.

Definition secure_file (path : string) : command unit :=
  unless negb (fails Chmod path) else io_error Chmod in
  let! found := entry_at path in
  match found with
  | Some (Regular f) => put path (Regular {| f_links := f_links f; f_mode := 384; f_image := f_image f |})
  | _ => ret tt
  end.

Definition sync_parent_directory (path : string) : command unit :=
  unless negb (fails SyncDirectory path) else io_error SyncDirectory in ret tt.

(** [OpenOptions::create_new] with mode 0600: a new empty file, which SQLite reads as an
    empty database. *)
Definition create_new (path : string) : command unit :=
  unless negb (fails Create path) else io_error Create in
  let! found := entry_at path in
  unless is_null found else Bail "File exists" in
  put path (Regular {| f_links := 1; f_mode := 384; f_image := Some empty_image |}).

(** [remove_file] on each candidate; the first error other than [NotFound] is kept. *)
Fixpoint remove_each (paths : list string) (removed : bool) (first_error : option error) : command (bool * option error) :=
  match paths with
  | [] => ret (removed, first_error)
  | p :: paths =>
      let! found := entry_at p in
      match found with
      | None => remove_each paths removed first_error
      | Some _ =>
          if fails Unlink p
          then remove_each paths removed (match first_error with Some e => Some e | None => Some (io_error Unlink) end)
          else let! _ := drop_entry p in remove_each paths true first_error
      end
  end.
Definition remove_database_files (path : string) : command unit :=
  let! (removed, first_error) := remove_each (path :: sqlite_sidecars path) false None in
  let! _ := if is_null first_error && removed then sync_parent_directory path else ret tt in
  match first_error with None => ret tt | Some e => fail e end.

(** ** New databases *)
Fixpoint refuse_sidecars (sidecars : list string) (message : string) : command unit :=
  match sidecars with
  | [] => ret tt
  | s :: sidecars =>
      let! found := path_entry_exists s in
      unless negb found else Bail message in
      refuse_sidecars sidecars message
  end.

(** Closing the connection: the sidecars SQLite does not remove. *)
Fixpoint leave_sidecars (sidecars : list string) : command unit :=
  match sidecars with
  | [] => ret tt
  | s :: sidecars =>
      let! _ := if left_behind s then put s (Regular {| f_links := 1; f_mode := 384; f_image := None |}) else ret tt in
      leave_sidecars sidecars
  end.

(** The operation on the open database and the end of the connection.  A failed operation
    leaves an incomplete file. *)
Definition write_image (path : string) (im : option image) : command unit :=
  let! found := entry_at path in
  match found with
  | Some (Regular f) => put path (Regular {| f_links := f_links f; f_mode := f_mode f; f_image := im |})
  | _ => ret tt
  end.
Definition operate (path : string) (operation : image -> result image) (im : image) : command unit :=
  match (if fails Journal path then Err (io_error Journal) else operation im) with
  | Ok im => let! _ := write_image path (Some im) in leave_sidecars (sqlite_sidecars path)
  | Err e => let! _ := write_image path None in let! _ := leave_sidecars (sqlite_sidecars path) in fail e
  end.

Definition with_new_database (path : string) (operation : image -> result image) : command unit :=
  let! _ := refuse_sidecars (sqlite_sidecars path) "sidecar already exists; refusing to overwrite it" in
  let! _ := create_new path in
  let! outcome := attempt (
    let! _ := secure_file path in
    let! im := open_existing path in
    let! _ := operate path operation im in
    refuse_sidecars (sqlite_sidecars path) "retained a SQLite sidecar") in
  match outcome with
  | Err e =>
      let! cleanup := attempt (remove_database_files path) in
      match cleanup with Ok _ => fail e | Err _ => fail (Bail "also failed to remove incomplete database") end
  | Ok _ => sync_parent_directory path
  end.

(** ** The commands on files *)
Context (parse_password_hash : string -> option PasswordHash) (notice_len : PushNotice -> Z) (now : Z).
Notation verify := (verify_connection parse_password_hash notice_len now).

Definition acquire_path_lock (path : string) : command unit :=
  unless negb (fails Mkdir path) else io_error Mkdir in
  let lock_path := path +:+ ".lock" in
  unless negb (fails Open lock_path) else io_error Open in
  let! found := entry_at lock_path in
  let! _ := match found with
            | None => put lock_path (Regular {| f_links := 1; f_mode := 384; f_image := Some empty_image |})
            | Some (Regular _) => ret tt
            | Some Other => fail (Bail "state lock must be a regular file")
            end in
  unless negb (fails Flock lock_path) else Bail "state is already locked by another Blackglass Server process" in
  ret tt.

Definition verify_database_file (path : string) : command unit :=
  let! im := open_existing path in lift (verify im).

Definition copy_database (source : image) (destination : string) : command unit :=
  with_new_database destination (fun _ => let? _ := verify source in Ok source).
Definition backup_database (source output : string) : command unit :=
  let! im := open_existing source in
  let! _ := lift (verify im) in
  copy_database im output.

Definition restore_file (uuids : list string) (source destination : string) : command unit :=
  let! im := open_existing source in
  let! _ := lift (verify im) in
  with_new_database destination (fun _ =>
    let? _ := verify im in
    let? target := rotate_image now uuids im in
    let? _ := verify target in
    Ok target).

Definition lock_down_image (im : image) : result image :=
  match im_rows im with
  | Multi d => Ok {| im_tables := im_tables im; im_history := im_history im; im_rows := Multi (lock_down now d) |}
  | Single _ => Err (SqliteError "no such table: users")
  end.
Definition recover_stale_backup_file (uuids : list string) (source destination : string) : command unit :=
  let! im := open_existing source in
  let! _ := lift (verify im) in
  with_new_database destination (fun _ =>
    let? _ := verify im in
    let? target := rotate_image now uuids im in
    let? target := lock_down_image target in
    let? _ := verify target in
    Ok target).

Definition versioned_migration_source_version (source : string) : command Z :=
  let! im := open_existing source in
  lift (verify_recorded_schema parse_password_hash notice_len now im).

(** The checks of the source run before the destination is created, and again on the copy. *)
Definition migrate_versioned_file (initial_user : option InitialUser) (uuids : list string) (source destination : string)
    : command unit :=
  let! im := open_existing source in
  let! source_version := lift (verify_recorded_schema parse_password_hash notice_len now im) in
  unless negb (source_version =? CURRENT_SCHEMA_VERSION) else Bail "database is already at the current schema version" in
  with_new_database destination (fun _ =>
    migrate_versioned_database parse_password_hash notice_len now initial_user uuids im).
Definition migrate_legacy_file (initial_user : InitialUser) (uuids : list string) (source destination : string) : command unit :=
  let! im := open_existing source in
  let! _ := lift (verify_legacy_connection notice_len im) in
  with_new_database destination (fun _ =>
    migrate_legacy_database parse_password_hash notice_len now initial_user uuids im).

(** A transaction on the rows of an open database. *)
Definition on_rows {A} (f : db -> result (A * db)) (im : image) : result (A * image) :=
  match im_rows im with
  | Multi d => let? (a, d) := f d in
               Ok (a, {| im_tables := im_tables im; im_history := im_history im; im_rows := Multi d |})
  | Single _ => Err (SqliteError "no such column")
  end.
Definition commit {A} (path : string) (im : image) (f : db -> result (A * db)) : command (A * image) :=
  let! (a, im) := lift (on_rows f im) in
  let! _ := write_image path (Some im) in
  ret (a, im).

Definition revoke_all_sessions_file (path : string) : command Z :=
  let! im := open_existing path in
  let! _ := lift (verify im) in
  let! (n, _) := commit path im (fun d => Ok (revoke_all_sessions now d)) in
  ret n.

Definition rebind_file (valid_host : string -> result unit) (path new_host backup : string) : command Z :=
  let! _ := lift (valid_host new_host) in
  let! _ := acquire_path_lock path in
  let! _ := backup_database path backup in
  let! im := open_existing path in
  let! _ := lift (verify im) in
  let other (v : vault_row) := negb (String.eqb (v_host v) new_host) in
  let! (changed, im) := commit path im (fun d =>
    Ok (count other (vaults d), with_vaults d (update other (set_host new_host) (vaults d)))) in
  let! _ := lift (verify im) in
  ret changed.

Definition purge_deleted_file (path vault backup : string) : command Z :=
  unless negb (is_empty vault || (64 <? str_len vault)) else Bail "vault ID must be between 1 and 64 bytes" in
  let! _ := acquire_path_lock path in
  let! _ := backup_database path backup in
  let! im := open_existing path in
  let! _ := lift (verify im) in
  let! (changed, im) := commit path im (purge_deleted_history vault) in
  let! _ := lift (verify im) in
  ret changed.

(** ** Opening the server's database *)
Definition open_internal (path : string) (initial_user : option InitialUser) : command image :=
  let! found := symlink_metadata path in
  let! existed := match found with
                  | None => ret false
                  | Some Other => fail (Bail "server database is not a regular file")
                  | Some (Regular f) => let! _ := reject_hardlinked_file f in ret true
                  end in
  unless existed || negb (is_null initial_user) else Bail "server database does not exist; initialize it offline" in
  let! _ := if existed then ret tt else
            unless negb (fails Mkdir path) else io_error Mkdir in
            let! _ := refuse_sidecars (sqlite_sidecars path) "server database sidecar exists without its database" in
            create_new path in
  let! outcome := attempt (
    let! im := open_existing path in
    let! _ := if existed then
                unless table_exists (schema im) "schema_migrations" else Bail "existing database has no Blackglass migration metadata" in
                lift (verify im)
              else ret tt in
    let! _ := secure_file path in
    unless negb (fails Journal path) else io_error Journal in
    let! im := if existed then ret im else
               let! im := lift (migrate parse_password_hash notice_len now initial_user im) in
               let! _ := write_image path (Some im) in
               ret im in
    let! _ := lift (verify im) in
    let! _ := if existed then ret tt else sync_parent_directory path in
    lift (match im_rows im with
          | Multi d => Ok {| im_tables := im_tables im; im_history := im_history im;
                             im_rows := Multi (initialize_runtime_storage_usage d) |}
          | Single _ => Err (SqliteError "no such table")
          end)) in
  match outcome with
  | Ok im => ret im
  | Err e => let! _ := if existed then ret tt else
                       let! _ := attempt (remove_database_files path) in ret tt in
             fail e
  end.

(** [open_offline_under_lock]. *)
Definition open_offline (path : string) : command image :=
  let! im := open_existing path in
  let! _ := lift (verify im) in
  ret im.
End Files.
