(* ===== verification/FilesSpec.v ===== *)
(** * What the offline commands do to the files *)

From Stdlib Require Import ZArith Lia List String Ascii Bool.
From stdpp Require Import base list strings gmap.
From S2P Require Import Prelude Sql Model Store Auth Accounts Vaults Sharing Revisions Invariant Heads Preservation.
From S2P Require Import Machine Scenario Verify Recovery Catalogue Ddl CatalogueSpec Migrations MigrationsSpec Process Files.

Local Open Scope Z_scope.

(** ** Reasoning about commands *)

(** The command changes entries of [S] only. *)
Definition touches {A} (S : string -> Prop) (m : command A) : Prop := forall fs p, ~ S p -> (m fs).2 !! p = fs !! p.
Notation nothing := (fun _ : string => False).

Create HintDb files.

Lemma touches_ret {A} S (a : A) : touches S (ret a).
Proof. done. Qed.
Lemma touches_fail {A} S e : touches S (fail e : command A).
Proof. done. Qed.
Lemma touches_lift {A} S (r : result A) : touches S (lift r).
Proof. done. Qed.
Lemma touches_entry S p : touches S (entry_at p).
Proof. done. Qed.
Lemma touches_bind {A B} S (m : command A) (k : A -> command B) :
  touches S m -> (forall a, touches S (k a)) -> touches S (bind m k).
Proof.
  intros Hm Hk fs p Hp. unfold bind. specialize (Hm fs p Hp). destruct (m fs) as [[a|e] fs1]; cbn in *; [|done].
  by rewrite Hk.
Qed.
Lemma touches_attempt {A} S (m : command A) : touches S m -> touches S (attempt m).
Proof. intros Hm fs p Hp. specialize (Hm fs p Hp). unfold attempt. destruct (m fs). done. Qed.
Lemma touches_if {A} S (b : bool) (m n : command A) : touches S m -> touches S n -> touches S (if b then m else n).
Proof. by destruct b. Qed.
Lemma touches_put (S : string -> Prop) p e : S p -> touches S (put p e).
Proof. intros H fs q Hq. apply lookup_insert_ne. intros ->. done. Qed.
Lemma touches_drop (S : string -> Prop) p : S p -> touches S (drop_entry p).
Proof. intros H fs q Hq. apply lookup_delete_ne. intros ->. done. Qed.
Lemma touches_weaken {A} (S T : string -> Prop) (m : command A) : (forall p, S p -> T p) -> touches S m -> touches T m.
Proof. intros H Hm fs p Hp. apply Hm. naive_solver. Qed.
#[export] Hint Resolve touches_ret touches_fail touches_lift touches_entry touches_bind touches_attempt touches_if
  touches_put touches_drop : files.

(** A command that changes nothing. *)
Lemma touches_nothing {A} (m : command A) fs : touches nothing m -> (m fs).2 = fs.
Proof. intros H. apply map_eq. intros p. apply H. tauto. Qed.

Lemma bind_reads {A B} (m : command A) (k : A -> command B) fs :
  touches nothing m -> bind m k fs = match (m fs).1 with Ok a => k a fs | Err e => (Err e, fs) end.
Proof.
  intros H. pose proof (touches_nothing m fs H) as E. unfold bind. destruct (m fs) as [[a|e] fs1]; cbn in *; by subst.
Qed.

Lemma append_longer (s t : string) : s = s +:+ t -> t = ""%string.
Proof. induction s as [|c s IH]; intros E; [symmetry; exact E|]. injection E as E. auto. Qed.

(** One case of a command at a time. *)
Ltac files_step :=
  first [ progress intros
        | solve [auto with files]
        | apply touches_bind
        | apply touches_attempt
        | apply touches_if
        | match goal with |- touches _ (match ?x with _ => _ end) => destruct x end ].
Ltac files := repeat files_step.

Section Commands.
Context (fails : syscall -> string -> bool) (left_behind : string -> bool).

Definition database_paths (path : string) : list string := path :: sqlite_sidecars path.
Definition of_database (path p : string) : Prop := In p (database_paths path).

Lemma touches_metadata S path : touches S (symlink_metadata fails path).
Proof using. unfold symlink_metadata. files. Qed.
Lemma touches_exists S path : touches S (path_entry_exists fails path).
Proof using. unfold path_entry_exists. pose proof touches_metadata. files. Qed.
Lemma touches_refuse S sidecars msg : touches S (refuse_sidecars fails sidecars msg).
Proof using. pose proof touches_exists. induction sidecars; cbn [refuse_sidecars]; files. Qed.
Lemma touches_open S path : touches S (open_existing fails path).
Proof using.
  unfold open_existing, resolve_existing_regular_file, reject_hardlinked_file. pose proof touches_metadata. files.
Qed.
Lemma touches_sync S path : touches S (sync_parent_directory fails path).
Proof using. unfold sync_parent_directory. files. Qed.
End Commands.
#[export] Hint Resolve touches_metadata touches_exists touches_refuse touches_open touches_sync : files.

Section Databases.
Context (fails : syscall -> string -> bool) (left_behind : string -> bool).

Lemma touches_secure (S : string -> Prop) path : S path -> touches S (secure_file fails path).
Proof using. intros H. unfold secure_file. files. Qed.
Lemma touches_create (S : string -> Prop) path : S path -> touches S (create_new fails path).
Proof using. intros H. unfold create_new. files. Qed.
Lemma touches_write (S : string -> Prop) path im : S path -> touches S (write_image path im).
Proof using. intros H. unfold write_image. files. Qed.
Lemma touches_leave (S : string -> Prop) l : (forall p, In p l -> S p) -> touches S (leave_sidecars left_behind l).
Proof using.
  induction l as [|s l IH]; intros H; cbn [leave_sidecars]; [files|]. apply touches_bind; [|intros; apply IH; intros; apply H; by right].
  apply touches_if; [|files]. apply touches_put, H. by left.
Qed.
Lemma touches_operate (S : string -> Prop) path op im :
  (forall p, of_database path p -> S p) -> touches S (operate fails left_behind path op im).
Proof using.
  intros H. assert (S path) by (apply H; by left). assert (touches S (leave_sidecars left_behind (sqlite_sidecars path))).
  { apply touches_leave. intros p Hp. apply H. by right. }
  pose proof touches_write. unfold operate. files.
Qed.
Lemma touches_remove (S : string -> Prop) l b e : (forall p, In p l -> S p) -> touches S (remove_each fails l b e).
Proof using.
  revert b e. induction l as [|p l IH]; intros b e H; cbn [remove_each]; [files|].
  assert (S p) by (apply H; by left). assert (forall q, In q l -> S q) as Hl by (intros; apply H; by right). files.
Qed.
Lemma touches_remove_files (S : string -> Prop) path :
  (forall p, of_database path p -> S p) -> touches S (remove_database_files fails path).
Proof using. intros H. unfold remove_database_files. pose proof (touches_remove S (path :: sqlite_sidecars path)). files. Qed.

Lemma touches_new_database path op : touches (of_database path) (with_new_database fails left_behind path op).
Proof using.
  unfold with_new_database. assert (of_database path path) by (by left).
  pose proof touches_secure. pose proof touches_create. pose proof (touches_operate (of_database path) path op).
  pose proof (touches_remove_files (of_database path) path). files.
Qed.

(** ** A new database *)
Lemma refuse_ok sidecars msg fs fs' :
  refuse_sidecars fails sidecars msg fs = (Ok tt, fs') -> fs' = fs /\ forall p, In p sidecars -> fs !! p = None.
Proof using.
  revert fs'. induction sidecars as [|s l IH]; intros fs'; cbn [refuse_sidecars]; [intros [= <-]; done|]. intros H.
  rewrite bind_reads in H by files. unfold path_entry_exists, symlink_metadata in H.
  destruct (fails Stat s); cbn in H; [done|]. destruct (fs !! s) eqn:E; cbn in H; [done|].
  apply IH in H as [-> Hl]. split; [done|]. intros p [<-|Hp]; auto.
Qed.

Lemma create_ok path fs fs' :
  create_new fails path fs = (Ok tt, fs') ->
  fs !! path = None /\ fs' = <[path := Regular {| f_links := 1; f_mode := 384; f_image := Some empty_image |}]> fs.
Proof using.
  unfold create_new. destruct (fails Create path); cbn; [done|]. unfold bind, entry_at. destruct (fs !! path); cbn; [done|].
  intros [= <-]. done.
Qed.

Definition complete (im : image) : entry := Regular {| f_links := 1; f_mode := 384; f_image := Some im |}.

Lemma secure_complete path im fs fs' :
  fs !! path = Some (complete im) -> secure_file fails path fs = (Ok tt, fs') -> fs' = fs.
Proof using.
  intros E. unfold secure_file, bind, entry_at. destruct (fails Chmod path); cbn; [done|]. rewrite E. intros [= <-].
  apply insert_id. done.
Qed.

Lemma open_ok path fs im fs' :
  open_existing fails path fs = (Ok im, fs') -> fs' = fs /\ exists f, fs !! path = Some (Regular f) /\ f_links f = 1 /\ f_image f = Some im.
Proof using.
  intros H. pose proof (touches_nothing (open_existing fails path) fs ltac:(files)) as Hfs. rewrite H in Hfs. split; [done|].
  unfold open_existing, resolve_existing_regular_file, symlink_metadata, reject_hardlinked_file, entry_at, bind, ret, fail in H.
  destruct (fails Stat path); cbn in H; [done|]. destruct (fs !! path) as [[f|]|]; cbn in H; try done.
  destruct (Z.eqb_spec (f_links f) 1); [|done]. destruct (fails Canonicalize path); cbn in H; [done|].
  destruct (fails Open path); cbn in H; [done|]. destruct (f_image f) eqn:Ef; [|done]. injection H as <- _. exists f. done.
Qed.

(** The part of [with_new_database] that runs on the new file. *)
Definition build (path : string) (op : image -> result image) : command unit :=
  let! _ := secure_file fails path in
  let! im := open_existing fails path in
  let! _ := operate fails left_behind path op im in
  refuse_sidecars fails (sqlite_sidecars path) "retained a SQLite sidecar".

Lemma build_ok path op fs fs' :
  (forall p, of_database path p -> fs !! p = None) ->
  build path op (<[path := complete empty_image]> fs) = (Ok tt, fs') ->
  exists im, op empty_image = Ok im /\ fs' = <[path := complete im]> fs.
Proof using.
  intros Hnone H. set (fs0 := <[path := _]> fs) in H. assert (fs0 !! path = Some (complete empty_image)) as E0 by apply lookup_insert_eq.
  unfold build in H. apply bind_ok in H as ([] & fs1 & H1 & H). apply (secure_complete _ empty_image) in H1 as ->; [|done].
  apply bind_ok in H as (im & fs2 & H2 & H). apply open_ok in H2 as (-> & f & Ef & _ & Eim). rewrite E0 in Ef. injection Ef as <-.
  injection Eim as <-. apply bind_ok in H as ([] & fs3 & H3 & H). apply refuse_ok in H as [-> Hside].
  unfold operate in H3. destruct (if fails Journal path then _ else _) as [im|e] eqn:Eop.
  2: { apply bind_ok in H3 as (? & ? & _ & H3). apply bind_ok in H3 as (? & ? & _ & H3). done. }
  destruct (fails Journal path); [done|]. exists im. split; [done|].
  apply bind_ok in H3 as ([] & fs4 & H4 & H5). unfold write_image, bind, entry_at in H4. rewrite E0 in H4. injection H4 as <-.
  pose proof (touches_leave (fun p => In p (sqlite_sidecars path)) (sqlite_sidecars path) (fun _ H => H)) as Hl.
  specialize (Hl (<[path := complete im]> fs0)). unfold complete in Hl. rewrite H5 in Hl. fold (complete im) in Hl. cbn [snd] in Hl. unfold fs0 in Hl. rewrite insert_insert_eq in Hl.
  apply map_eq. intros p. destruct (in_dec string_dec p (sqlite_sidecars path)) as [Hin|Hin]; [|by apply Hl].
  rewrite (Hside p Hin). symmetry. destruct (decide (p = path)) as [->|Hne]; [|rewrite lookup_insert_ne by done; apply Hnone; by right].
  exfalso. specialize (Hnone path (or_intror Hin)). clear -Hin. unfold sqlite_sidecars, sqlite_sidecar in Hin. cbn in Hin.
  destruct Hin as [E|[E|[E|[]]]]; symmetry in E; apply append_longer in E; done.
Qed.

Lemma remove_absent l b e fs :
  (forall p, fails Unlink p = false) ->
  exists b', remove_each fails l b e fs = (Ok (b', e), (remove_each fails l b e fs).2) /\
  forall p, In p l -> (remove_each fails l b e fs).2 !! p = None.
Proof using.
  intros Hu. revert b fs. induction l as [|q l IH]; intros b fs; [by exists b|].
  assert (remove_each fails (q :: l) b e fs = match fs !! q with
            | None => remove_each fails l b e fs | Some _ => remove_each fails l true e (delete q fs) end) as ->.
  { cbn [remove_each]. unfold bind at 1, entry_at. destruct (fs !! q); [|done]. rewrite Hu. done. }
  assert (forall b fs, fs !! q = None -> (remove_each fails l b e fs).2 !! q = None) as Hq.
  { intros b0 fs0 E. destruct (in_dec string_dec q l) as [Hin|Hin]; [destruct (IH b0 fs0) as (_ & _ & Hl); by apply Hl|].
    by rewrite (touches_remove (fun p => In p l)). }
  destruct (fs !! q) eqn:Eq.
  - destruct (IH true (delete q fs)) as (b' & E & Hl). exists b'. split; [exact E|].
    intros p [<-|Hp]; [|by apply Hl]. apply Hq, lookup_delete_eq.
  - destruct (IH b fs) as (b' & E & Hl). exists b'. split; [exact E|]. intros p [<-|Hp]; auto.
Qed.

(** What [remove_database_files] leaves when no removal fails: a failed directory sync
    is reported, but the files are gone. *)
Lemma remove_files_absent path fs :
  (forall p, fails Unlink p = false) -> forall p, of_database path p -> (remove_database_files fails path fs).2 !! p = None.
Proof using.
  intros Hu p Hp. destruct (remove_absent (path :: sqlite_sidecars path) false None fs Hu) as (b & E & Hl).
  specialize (Hl p Hp). unfold remove_database_files, bind at 1. rewrite E. cbn [is_null andb].
  set (fs1 := (remove_each _ _ _ _ _).2) in *. unfold bind, sync_parent_directory.
  destruct b; [destruct (fails SyncDirectory path)|]; done.
Qed.

(** ** All or nothing *)
Definition newly_made (path : string) (op : image -> result image) (fs fs' : files) : Prop :=
  (forall p, of_database path p -> fs !! p = None) /\ exists im, op empty_image = Ok im /\ fs' = <[path := complete im]> fs.

(** Either nothing happened, or the new file was begun on free paths. *)
Lemma new_database_cases path op fs :
  ((with_new_database fails left_behind path op fs).2 = fs /\ exists e, (with_new_database fails left_behind path op fs).1 = Err e) \/
  ((forall p, of_database path p -> fs !! p = None) /\
   with_new_database fails left_behind path op fs =
   (let! outcome := attempt (build path op) in
    match outcome with
    | Err e =>
        let! cleanup := attempt (remove_database_files fails path) in
        match cleanup with Ok _ => fail e | Err _ => fail (Bail "also failed to remove incomplete database") end
    | Ok _ => sync_parent_directory fails path
    end) (<[path := complete empty_image]> fs)).
Proof using.
  unfold with_new_database. rewrite bind_reads by files.
  destruct (refuse_sidecars _ _ _ fs) as [[[]|e] fs1] eqn:Er; cbn [fst snd]; [|left; split; [done|by exists e]].
  apply refuse_ok in Er as [_ Hside]. fold (build path op). set (k := fun _ : unit => bind (attempt (build path op)) _).
  change (bind (create_new fails path) k fs) with
    (match create_new fails path fs with (Ok a, fs) => k a fs | (Err e, fs) => (Err e, fs) end).
  destruct (create_new fails path fs) as [[[]|e] fs2] eqn:Ec.
  - right. apply create_ok in Ec as [Hp ->]. split; [intros p [<-|Hin]; auto|done].
  - left. split; [|by exists e]. revert Ec. unfold create_new. destruct (fails Create path); cbn; [by intros [= _ <-]|].
    unfold bind, entry_at. destruct (fs !! path); cbn; [by intros [= _ <-]|done].
Qed.

Lemma new_database_spec path op fs :
  match with_new_database fails left_behind path op fs with
  | (Ok _, fs') => newly_made path op fs fs'
  | (Err _, fs') => (forall p, fails Unlink p = false) ->
                    fs' = fs \/ (fails SyncDirectory path = true /\ newly_made path op fs fs')
  end.
Proof using.
  destruct (new_database_cases path op fs) as [[E [e He]]|[Hnone E]].
  { destruct (with_new_database _ _ _ _ _) as [[]]; cbn in *; [done|]. subst. by left. }
  rewrite E. clear E. unfold bind at 1, attempt at 1.
  assert (touches (of_database path) (build path op)) as Hb.
  { unfold build. assert (of_database path path) by (by left). pose proof touches_secure. pose proof (touches_operate (of_database path) path op). files. }
  specialize (Hb (<[path := complete empty_image]> fs)).
  destruct (build path op _) as [[[]|e] fs1] eqn:Eb; cbn [snd] in Hb.
  - apply build_ok in Eb as (im & Eop & ->); [|done].
    assert (newly_made path op fs (<[path := complete im]> fs)) as Hc by (split; [done|by exists im]).
    unfold sync_parent_directory. destruct (fails SyncDirectory path); cbn; [intros _; by right|exact Hc].
  - pose proof (touches_remove_files (of_database path) path (fun _ H => H) fs1) as Ht.
    pose proof (remove_files_absent path fs1) as Hr. unfold bind, attempt.
    destruct (remove_database_files fails path fs1) as [r fs2]. cbn [snd] in *.
    assert ((forall p, fails Unlink p = false) -> fs2 = fs) as Hfs.
    { intros Hu. apply map_eq. intros p. destruct (in_dec string_dec p (database_paths path)) as [Hin|Hin].
      - rewrite (Hr Hu p Hin), (Hnone p Hin). done.
      - rewrite Ht, Hb by done. apply lookup_insert_ne. intros <-. apply Hin. by left. }
    destruct r as [[]|e']; cbn; intros Hu; left; auto.
Qed.

(** Nothing that was there changes, whatever fails. *)
Definition keeps {A} (m : command A) : Prop := forall fs p e, fs !! p = Some e -> (m fs).2 !! p = Some e.

Lemma new_database_keeps path op : keeps (with_new_database fails left_behind path op).
Proof using.
  intros fs p e Hp. destruct (new_database_cases path op fs) as [[-> _]|[Hnone _]]; [done|].
  rewrite touches_new_database; [done|]. intros Hin. rewrite (Hnone p Hin) in Hp. done.
Qed.
End Databases.

(** ** The copying commands *)
Inductive copy_job :=
| JBackup
| JRestore (uuids : list string)
| JRecover (uuids : list string)
| JMigrate (initial_user : option InitialUser) (uuids : list string)
| JMigrateLegacy (initial_user : InitialUser) (uuids : list string).

Section Copies.
Context (fails : syscall -> string -> bool) (left_behind : string -> bool).
Context (pp : string -> option PasswordHash) (nl : PushNotice -> Z) (now : Z).
Notation verify := (verify_connection pp nl now).

Definition run_copy (job : copy_job) (source destination : string) : command unit :=
  match job with
  | JBackup => backup_database fails left_behind pp nl now source destination
  | JRestore uuids => restore_file fails left_behind pp nl now uuids source destination
  | JRecover uuids => recover_stale_backup_file fails left_behind pp nl now uuids source destination
  | JMigrate u uuids => migrate_versioned_file fails left_behind pp nl now u uuids source destination
  | JMigrateLegacy u uuids => migrate_legacy_file fails left_behind pp nl now u uuids source destination
  end.

(** The database each command makes of the database it reads. *)
Definition copy_of (job : copy_job) (im : image) : result image :=
  match job with
  | JBackup => let? _ := verify im in Ok im
  | JRestore uuids => let? _ := verify im in
                      let? target := rotate_image now uuids im in let? _ := verify target in Ok target
  | JRecover uuids => let? _ := verify im in
                      let? target := rotate_image now uuids im in let? target := lock_down_image now target in
                      let? _ := verify target in Ok target
  | JMigrate u uuids => migrate_versioned_database pp nl now u uuids im
  | JMigrateLegacy u uuids => migrate_legacy_database pp nl now u uuids im
  end.

Lemma copy_verified job im target : copy_of job im = Ok target -> verify target = Ok tt.
Proof using.
  destruct job; cbn [copy_of]; unfold migrate_versioned_database, migrate_legacy_database; intros H.
  all: repeat match type of H with
       | (let? _ := ?r in _) = Ok _ => let E := fresh "E" in destruct r eqn:E; [|done]
       | (if ?b then _ else _) = Ok _ => destruct b; [|done]
       end; injection H as <-; match goal with E : verify ?t = Ok ?u |- verify ?t = _ => destruct u; exact E end.
Qed.

Lemma run_copy_cases job source destination fs :
  (exists e, run_copy job source destination fs = (Err e, fs)) \/
  exists f im, fs !! source = Some (Regular f) /\ f_image f = Some im /\
    run_copy job source destination fs = with_new_database fails left_behind destination (fun _ => copy_of job im) fs.
Proof using.
  assert (forall k : image -> command unit, (exists e, (let! im := open_existing fails source in k im) fs = (Err e, fs)) \/
            exists f im, fs !! source = Some (Regular f) /\ f_image f = Some im /\ (let! im := open_existing fails source in k im) fs = k im fs) as Hopen.
  { intros k. destruct (open_existing fails source fs) as [[im|e] fs1] eqn:Eo.
    - pose proof (open_ok _ _ _ _ _ Eo) as (-> & f & Ef & _ & Eim). right. exists f, im. split_and!; try done. unfold bind. by rewrite Eo.
    - left. exists e. rewrite bind_reads by files. by rewrite Eo. }
  assert (forall {A} (r : result A) (k : A -> command unit), (exists e, (let! a := lift r in k a) fs = (Err e, fs)) \/
            exists a, r = Ok a /\ (let! a := lift r in k a) fs = k a fs) as Hlift.
  { intros A [a|e] k; [right; by exists a|left; by exists e]. }
  destruct job; cbn [run_copy copy_of];
    unfold backup_database, restore_file, recover_stale_backup_file, migrate_versioned_file, migrate_legacy_file;
    (match goal with |- context [bind (open_existing fails source) ?k] => destruct (Hopen k) as [?|(f & im & Ef & Eim & ->)] end; [by left|]);
    (match goal with |- context [bind (lift ?r) ?k] => destruct (Hlift _ r k) as [?|(a & Er & ->)] end; [by left|]).
  4: destruct (negb (a =? CURRENT_SCHEMA_VERSION)); [|left; by eexists].
  all: right; exists f, im; done.
Qed.
End Copies.


(** The demonstration database as a file. *)
Definition no_failure (_ : syscall) (_ : string) : bool := false.
Definition demo_image : image := image_at false 7 [1; 2; 3; 4; 5; 6; 7] (Multi demo_db).
Definition demo_files : files := {["live.sqlite" := complete demo_image; "notes.txt" := Other]}.


(** ** Commands that change a database in place *)
Section InPlace.
Context (fails : syscall -> string -> bool) (left_behind : string -> bool).
Context (pp : string -> option PasswordHash) (nl : PushNotice -> Z) (now : Z).
Notation verify := (verify_connection pp nl now).

(** The common part of [rebind_data_host] and [purge_deleted_history]. *)
Definition change_after_backup {A} (path backup : string) (f : db -> result (A * db)) : command A :=
  let! _ := acquire_path_lock fails path in
  let! _ := backup_database fails left_behind pp nl now path backup in
  let! im := open_existing fails path in
  let! _ := lift (verify im) in
  let! (a, im) := commit path im f in
  let! _ := lift (verify im) in
  ret a.

Lemma lock_keeps path fs p e : fs !! p = Some e -> (acquire_path_lock fails path fs).2 !! p = Some e.
Proof using.
  intros Hp. unfold acquire_path_lock, bind, entry_at, put, ret, fail. destruct (fails Mkdir path); cbn; [done|].
  destruct (fails Open (path +:+ ".lock")); cbn; [done|].
  destruct (fs !! (path +:+ ".lock")) as [[]|] eqn:El; cbn; destruct (fails Flock (path +:+ ".lock")); cbn; try done.
  all: rewrite lookup_insert_ne; [done|]; intros E; rewrite E in El; congruence.
Qed.

Lemma run_copy_keeps job source destination : keeps (run_copy fails left_behind pp nl now job source destination).
Proof using.
  intros fs p e Hp. destruct (run_copy_cases fails left_behind pp nl now job source destination fs) as [[e' ->]|(f & im & _ & _ & ->)];
    [done|]. by apply new_database_keeps.
Qed.

Lemma backup_made source output fs fs' :
  backup_database fails left_behind pp nl now source output fs = (Ok tt, fs') ->
  exists f im, fs !! source = Some (Regular f) /\ f_image f = Some im /\ verify im = Ok tt /\
    fs !! output = None /\ fs' = <[output := complete im]> fs.
Proof using.
  intros E. destruct (run_copy_cases fails left_behind pp nl now JBackup source output fs) as [[e E']|(f & im & Ef & Eim & E')];
    cbn [run_copy] in E'; rewrite E' in E; [done|].
  pose proof (new_database_spec fails left_behind output (fun _ => copy_of pp nl now JBackup im) fs) as H. rewrite E in H.
  destruct H as (Hn & target & Ec & ->). exists f, im. cbn [copy_of] in Ec. destruct (verify im) as [[]|] eqn:Ev; [|done].
  injection Ec as <-. split_and!; try done. apply Hn. by left.
Qed.

(** Whatever happens: the database file is as it was, or the backup path, free before,
    holds the database as it was. *)
Lemma change_backs_up {A} path backup (f : db -> result (A * db)) fs ent :
  fs !! path = Some ent ->
  let fs' := (change_after_backup path backup f fs).2 in
  fs' !! path = Some ent \/
  exists file im, ent = Regular file /\ f_image file = Some im /\ verify im = Ok tt /\ fs !! backup = None /\
    fs' !! backup = Some (complete im).
Proof using.
  intros Ep. cbn zeta. unfold change_after_backup.
  set (rest := fun _ : unit => let! im := open_existing fails path in _).
  assert (forall u, touches (eq path) (rest u)) as Hrest.
  { intros u. unfold rest, commit. pose proof touches_write. files. }
  clearbody rest. unfold bind. pose proof (lock_keeps path fs) as Hlock.
  destruct (acquire_path_lock fails path fs) as [[[]|e] fs1]; cbn [snd] in *; [|left; auto].
  pose proof (run_copy_keeps JBackup path backup fs1) as Hkeep. cbn [run_copy] in Hkeep.
  destruct (backup_database _ _ _ _ _ path backup fs1) as [[[]|e] fs2] eqn:Eb; cbn [snd] in *; [|left; auto].
  right. apply backup_made in Eb as (file & im & Ef & Eim & Hv & Hfree & ->). rewrite (Hlock path ent Ep) in Ef. injection Ef as ->.
  exists file, im. split_and!; try done.
  - destruct (fs !! backup) eqn:E; [|done]. rewrite (Hlock _ _ E) in Hfree. done.
  - rewrite Hrest; [apply lookup_insert_eq|]. intros <-. rewrite (Hlock path _ Ep) in Hfree. done.
Qed.
End InPlace.

(** C30: The commands that change a database in place keep a way back.  After
    [rebind-data-host] or [purge-deleted], whatever system call or check failed on the way,
    either the database file is exactly as it was, or the backup path, which was free before,
    holds a complete verified copy of the database as it was. *)
Theorem in_place_commands_back_up_first fails left_behind pp nl now valid_host path host vault backup fs file :
  fs !! path = Some (Regular file) ->
  let safe_after fs' := fs' !! path = fs !! path \/
        exists im, f_image file = Some im /\ verify_connection pp nl now im = Ok tt /\ fs !! backup = None /\
          fs' !! backup = Some (Regular {| f_links := 1; f_mode := 384; f_image := Some im |}) in
  safe_after (rebind_file fails left_behind pp nl now valid_host path host backup fs).2 /\
  safe_after (purge_deleted_file fails left_behind pp nl now path vault backup fs).2.
Proof.
  intros Ep. cbn zeta. rewrite Ep.
  pose proof (fun A (f : db -> result (A * db)) => change_backs_up fails left_behind pp nl now path backup f fs _ Ep) as H. cbn zeta in H.
  split.
  - unfold rebind_file. destruct (valid_host host) as [[]|]; [|by left].
    destruct (H Z (fun d => let other (v : vault_row) := negb (String.eqb (v_host v) host) in
      Ok (count other (vaults d), with_vaults d (update other (set_host host) (vaults d))))) as [H1|(f' & im & [= <-] & H1)]; [by left|].
    right. exists im. exact H1.
  - unfold purge_deleted_file. destruct (negb _); [|by left].
    destruct (H Z (purge_deleted_history vault)) as [H1|(f' & im & [= <-] & H1)]; [by left|]. right. exists im. exact H1.
Qed.

Lemma in_place_commands_back_up_first_witness :
  (rebind_file no_failure (fun _ => false) demo_parse demo_notice_len 5000 (fun _ => Ok tt) "live.sqlite" "new.example.test"
     "backup.sqlite" demo_files).2 !! "backup.sqlite" = Some (complete demo_image).
Proof.
  destruct (in_place_commands_back_up_first no_failure (fun _ => false) demo_parse demo_notice_len 5000 (fun _ => Ok tt) "live.sqlite"
    "new.example.test" "vault-1" "backup.sqlite" demo_files _ ltac:(vm_compute; reflexivity)) as [[H|H] _].
  - exfalso. vm_compute in H. discriminate H.
  - destruct H as (im & Eim & _ & _ & E). injection Eim as <-. exact E.
Defined.

(** ** Opening the server's database *)
Lemma connection_rows pp nl now im :
  verify_connection pp nl now im = Ok tt -> exists d, im_rows im = Multi d /\ verify_database pp nl now d = Ok tt.
Proof.
  unfold verify_connection, verify_recorded_schema. destruct (table_exists _ _); [|done].
  destruct (reject_newer_migrations _); [|done]. destruct (_ && _); [|done]. cbn zeta.
  destruct (verify_schema_at_version pp nl now im _) as [[]|] eqn:E; [|done].
  destruct (Z.eqb_spec (List.last (migration_versions im) 0) CURRENT_SCHEMA_VERSION) as [Ev|]; [|done]. intros _.
  rewrite Ev in E. apply let_ok in E as [_ E]. destruct (im_rows im) as [o|d] eqn:Er.
  - unfold verify_rows in E. rewrite Er in E. done.
  - exists d. split; [done|]. by eapply rows7_verified.
Qed.

Section Opening.
Context (fails : syscall -> string -> bool).
Context (pp : string -> option PasswordHash) (nl : PushNotice -> Z) (now : Z).
Notation verify := (verify_connection pp nl now).

(** What runs once the file exists. *)
Definition start (path : string) (initial_user : option InitialUser) (existed : bool) : command image :=
  let! im := open_existing fails path in
  let! _ := if existed then
              if table_exists (schema im) "schema_migrations" then lift (verify im)
              else fail (Bail "existing database has no Blackglass migration metadata")
            else ret tt in
  let! _ := secure_file fails path in
  if negb (fails Journal path) then
    let! im := if existed then ret im else
               let! im := lift (migrate pp nl now initial_user im) in
               let! _ := write_image path (Some im) in
               ret im in
    let! _ := lift (verify im) in
    let! _ := if existed then ret tt else sync_parent_directory fails path in
    lift (match im_rows im with
          | Multi d => Ok {| im_tables := im_tables im; im_history := im_history im;
                             im_rows := Multi (initialize_runtime_storage_usage d) |}
          | Single _ => Err (SqliteError "no such table")
          end)
  else fail (io_error Journal).

Definition served (im : image) (im0 : image) : Prop :=
  verify im0 = Ok tt /\ exists d, im_rows im0 = Multi d /\ im_rows im = Multi (initialize_runtime_storage_usage d) /\
    (sqlite_shape d -> db_ok (initialize_runtime_storage_usage d)).

Lemma start_ok path u existed f im0 fs im fs' :
  fs !! path = Some (Regular f) -> f_image f = Some im0 -> start path u existed fs = (Ok im, fs') ->
  exists im1, (if existed then im1 = im0 else migrate pp nl now u im0 = Ok im1) /\ served im im1 /\
    fs' = <[path := complete im1]> fs.
Proof using.
  intros Ef Eim H. unfold start in H. apply bind_ok in H as (im' & fs1 & H1 & H).
  apply open_ok in H1 as (-> & f' & Ef' & El & Eim'). rewrite Ef in Ef'. injection Ef' as <-. rewrite Eim in Eim'. injection Eim' as <-.
  apply bind_ok in H as ([] & fs1 & H1 & H). assert (fs1 = fs) as ->.
  { destruct existed; [destruct (table_exists _ _)|]; cbn in H1; try (injection H1 as <-; done); try done.
    by injection H1 as _ <-. }
  apply bind_ok in H as ([] & fs1 & H2 & H). unfold secure_file, bind, entry_at in H2.
  destruct (fails Chmod path); cbn in H2; [done|]. rewrite Ef in H2. injection H2 as <-. rewrite El, Eim in H. fold (complete im0) in H.
  destruct (fails Journal path); cbn [negb] in H; [done|]. apply bind_ok in H as (im1 & fs1 & H2 & H).
  assert ((if existed then im1 = im0 else migrate pp nl now u im0 = Ok im1) /\ fs1 = <[path := complete im1]> fs) as [Him ->].
  { destruct existed; [injection H2 as <- <-; done|]. unfold bind, lift in H2. destruct (migrate pp nl now u im0) as [im2|]; [|done].
    unfold write_image, bind, entry_at in H2. rewrite lookup_insert_eq in H2. injection H2 as <- <-. rewrite insert_insert_eq. done. }
  apply bind_ok in H as ([] & fs1 & H3 & H). injection H3 as Hv <-. apply bind_ok in H as ([] & fs1 & H4 & H).
  assert (fs1 = <[path := complete im1]> fs) as ->.
  { destruct existed; [by injection H4 as <-|]. unfold sync_parent_directory in H4. destruct (fails SyncDirectory path); [done|]. by injection H4 as <-. }
  exists im1. destruct (connection_rows pp nl now im1 Hv) as (d & Ed & Hd). rewrite Ed in H. injection H as <- <-.
  split; [done|]. split; [|done]. split; [done|]. exists d. split; [done|]. split; [done|]. intros Hs. by eapply validated_ok.
Qed.

Lemma start_touches path u existed : touches (eq path) (start path u existed).
Proof using. unfold start. pose proof touches_secure. pose proof touches_write. files. Qed.

(** An existing database is opened without a change to its bytes. *)
Lemma start_existing path u f fs :
  fs !! path = Some (Regular f) ->
  exists m, (start path u true fs).2 !! path = Some (Regular {| f_links := f_links f; f_mode := m; f_image := f_image f |}).
Proof using.
  intros Ef. assert (exists m, fs !! path = Some (Regular {| f_links := f_links f; f_mode := m; f_image := f_image f |})) as Hsame
    by (exists (f_mode f); by destruct f).
  unfold start. rewrite bind_reads by files. destruct (open_existing fails path fs) as [[im|e] fs1]; cbn [fst]; [|done].
  rewrite bind_reads by files. destruct (if table_exists _ _ then _ else _) as [[[]|e] fs2]; cbn [fst]; [|done].
  unfold bind at 1. unfold secure_file, bind at 1, entry_at at 1. destruct (fails Chmod path); cbn [negb]; [done|]. rewrite Ef. unfold put at 1.
  match goal with |- exists m, snd (?k ?fs') !! _ = _ => enough (snd (k fs') = fs') as -> end.
  - exists 384. apply lookup_insert_eq.
  - apply touches_nothing. files.
Qed.

Lemma remove_files_restores path fs fs1 :
  (forall p, of_database path p -> fs !! p = None) -> (forall p, ~ of_database path p -> fs1 !! p = fs !! p) ->
  (forall p, fails Unlink p = false) -> (remove_database_files fails path fs1).2 = fs.
Proof using.
  intros Hnone Hsame Hu. apply map_eq. intros p. destruct (in_dec string_dec p (database_paths path)) as [Hin|Hin].
  - rewrite (remove_files_absent fails path fs1 Hu p Hin), (Hnone p Hin). done.
  - rewrite (touches_remove_files fails (of_database path) path (fun _ H => H) fs1) by done. by apply Hsame.
Qed.
Lemma open_existing_cases path u f fs r fs' :
  fs !! path = Some (Regular f) -> open_internal fails pp nl now path u fs = (r, fs') ->
  match r with
  | Ok im => exists im0, served im im0 /\ f_image f = Some im0 /\ fs' = <[path := complete im0]> fs
  | Err _ => (forall p, p <> path -> fs' !! p = fs !! p) /\
      exists m, fs' !! path = Some (Regular {| f_links := f_links f; f_mode := m; f_image := f_image f |})
  end.
Proof using.
  intros Ef. unfold open_internal, symlink_metadata. destruct (fails Stat path); cbn [negb].
  { intros [= <- <-]. split; [done|]. exists (f_mode f). by destruct f. }
  unfold bind at 1, entry_at at 1. rewrite Ef. unfold reject_hardlinked_file. destruct (f_links f =? 1); cbn [bind ret fail].
  2: { intros [= <- <-]. split; [done|]. exists (f_mode f). by destruct f. }
  change ((let! outcome := attempt (start path u true) in
           match outcome with Ok im => ret im | Err e => let! _ := ret tt in fail e end) fs = (r, fs') ->
          match r with
          | Ok im => exists im0, served im im0 /\ f_image f = Some im0 /\ fs' = <[path := complete im0]> fs
          | Err _ => (forall p, p <> path -> fs' !! p = fs !! p) /\
              exists m, fs' !! path = Some (Regular {| f_links := f_links f; f_mode := m; f_image := f_image f |})
          end).
  unfold bind at 1, attempt. pose proof (start_touches path u true fs) as Ht. pose proof (start_existing path u f fs Ef) as Hm.
  destruct (start path u true fs) as [[im|e] fs1] eqn:Es; intros [= <- <-]; cbn [snd] in *.
  - assert (exists im0, f_image f = Some im0) as [im0 Eim].
    { unfold start in Es. apply bind_ok in Es as (im' & fs2 & H1 & _). apply open_ok in H1 as (_ & f' & Ef' & _ & Eim').
      rewrite Ef in Ef'. injection Ef' as <-. by exists im'. }
    destruct (start_ok path u true f im0 fs im fs1 Ef Eim Es) as (im1 & -> & Hs & ->). by exists im0.
  - split; [|done]. intros p Hp. apply Ht. done.
Qed.

Lemma open_new_cases path user fs r fs' :
  fs !! path = None -> open_internal fails pp nl now path (Some user) fs = (r, fs') ->
  match r with
  | Ok im => exists im0, served im im0 /\ migrate pp nl now (Some user) empty_image = Ok im0 /\ fs' = <[path := complete im0]> fs
  | Err _ => (forall p, fails Unlink p = false) -> fs' = fs
  end.
Proof using.
  intros Ef. unfold open_internal, symlink_metadata. destruct (fails Stat path); cbn [negb]; [by intros [= <- <-]|].
  unfold bind at 1, entry_at at 1. rewrite Ef. cbn [bind ret is_null negb orb].
  change ((let! _ := if negb (fails Mkdir path) then
             let! _ := refuse_sidecars fails (sqlite_sidecars path) "server database sidecar exists without its database" in
             create_new fails path else fail (io_error Mkdir) in
           let! outcome := attempt (start path (Some user) false) in
           match outcome with Ok im => ret im
           | Err e => let! _ := let! _ := attempt (remove_database_files fails path) in ret tt in fail e end) fs = (r, fs') ->
          match r with
          | Ok im => exists im0, served im im0 /\ migrate pp nl now (Some user) empty_image = Ok im0 /\ fs' = <[path := complete im0]> fs
          | Err _ => (forall p, fails Unlink p = false) -> fs' = fs
          end).
  destruct (fails Mkdir path); cbn [negb]; [by intros [= <- <-]|]. unfold bind at 1. rewrite bind_reads by files.
  destruct (refuse_sidecars _ _ _ fs) as [[[]|e] fs1] eqn:Er; cbn [fst]; [|by intros [= <- <-]].
  apply refuse_ok in Er as [_ Hside]. clear fs1. destruct (create_new fails path fs) as [[[]|e] fs1] eqn:Ec.
  2: { unfold create_new, bind, entry_at in Ec. destruct (fails Create path); cbn in Ec; [by injection Ec as _ <-; intros [= <- <-]|].
       rewrite Ef in Ec. done. }
  apply create_ok in Ec as [_ ->]. fold (complete empty_image). unfold bind at 1, attempt at 1.
  pose proof (start_touches path (Some user) false (<[path := complete empty_image]> fs)) as Ht.
  destruct (start path (Some user) false _) as [[im|e] fs1] eqn:Es; cbn [snd] in Ht.
  - intros [= <- <-]. eapply (start_ok _ _ _ _ empty_image) in Es as (im1 & Hm & Hs & ->); [|apply lookup_insert_eq|reflexivity].
    exists im1. rewrite insert_insert_eq. split; [exact Hs|]. split; [exact Hm|reflexivity].
  - pose proof (remove_files_restores path fs fs1) as Hrest. unfold bind, attempt.
    destruct (remove_database_files fails path fs1) as [r1 fs2]. intros [= <- <-] Hu. cbn [snd] in Hrest. apply Hrest; [|intros p Hp|done].
    + intros p [<-|Hin]; auto.
    + rewrite Ht by (intros <-; apply Hp; by left). apply lookup_insert_ne. intros <-. apply Hp. by left.
Qed.

(** The server itself never creates a database. *)
Lemma open_missing_cases path u fs r fs' :
  (u = None /\ fs !! path = None) \/ fs !! path = Some Other ->
  open_internal fails pp nl now path u fs = (r, fs') -> fs' = fs /\ exists e, r = Err e.
Proof using.
  intros H. unfold open_internal, symlink_metadata. destruct (fails Stat path); cbn [negb]; [by intros [= <- <-]; eauto|].
  unfold bind at 1, entry_at at 1. destruct H as [[-> ->]| ->]; intros [= <- <-]; eauto.
Qed.
End Opening.

(** Opening the server's database is sound.  When it succeeds, the file holds a database
    that passes the whole verification, either the one that was there, byte for byte, or a new
    one the migrations made on free paths, and the server runs on its rows with the storage
    counter initialised, in a state that satisfies the server's invariant.  When it fails, an
    existing database keeps its bytes and every other file is untouched; a database that did
    not exist leaves nothing behind, unless a removal failed. *)
Theorem opened_database_sound fails pp nl now path u fs r fs' :
  open_internal fails pp nl now path u fs = (r, fs') ->
  match r, fs !! path with
  | Ok im, Some (Regular f) => exists im0, served pp nl now im im0 /\ f_image f = Some im0 /\ fs' = <[path := complete im0]> fs
  | Ok im, None => exists im0, served pp nl now im im0 /\ migrate pp nl now u empty_image = Ok im0 /\ fs' = <[path := complete im0]> fs
  | Ok _, Some Other => False
  | Err _, Some (Regular f) =>
      (forall p, p <> path -> fs' !! p = fs !! p) /\
      exists m, fs' !! path = Some (Regular {| f_links := f_links f; f_mode := m; f_image := f_image f |})
  | Err _, Some Other => fs' = fs
  | Err _, None => (forall p, fails Unlink p = false) -> fs' = fs
  end.
Proof.
  intros H. destruct (fs !! path) as [[f|]|] eqn:Ef.
  - pose proof (open_existing_cases _ _ _ _ _ _ _ _ _ _ Ef H) as Hc. by destruct r.
  - destruct (open_missing_cases _ _ _ _ _ _ _ _ _ (or_intror Ef) H) as [-> [e ->]]. done.
  - destruct u as [user|].
    + pose proof (open_new_cases _ _ _ _ _ _ _ _ _ Ef H) as Hc. by destruct r.
    + destruct (open_missing_cases _ _ _ _ _ _ _ _ _ (or_introl (conj eq_refl Ef)) H) as [-> [e ->]]. done.
Qed.

Lemma opened_database_sound_witness :
  exists im fs', open_internal no_failure demo_parse demo_notice_len 5000 "live.sqlite" None demo_files = (Ok im, fs') /\
    served demo_parse demo_notice_len 5000 im demo_image.
Proof.
  destruct (open_internal no_failure demo_parse demo_notice_len 5000 "live.sqlite" None demo_files) as [r fs'] eqn:E.
  pose proof (opened_database_sound _ _ _ _ _ _ _ _ _ E) as H.
  assert (exists x, r = Ok x) as [im ->].
  { assert (match r with Ok _ => true | Err _ => false end = true) as Hok; [|destruct r; [by eexists|done]].
    change r with (fst (r, fs')). rewrite <- E. vm_compute. reflexivity. }
  exists im, fs'. split; [reflexivity|]. destruct H as (im0 & Hs & Eim & _). injection Eim as <-. exact Hs.
Defined.
