(* ===== verification/Config.v ===== *)
(** * Configuration ([config.rs], [parse_admin_config] of [admin.rs])

    [Config::from_env] as a function of the environment: [env name] is the value of
    a variable that is set to valid Unicode.  Ports, limits and byte counts are [Z];
    durations are seconds.  [HeaderValue::from_str] of the http crate is a parameter. *)

From Stdlib Require Import ZArith Lia List String Ascii Bool.
From stdpp Require Import base list strings pretty.
From S2P Require Import Prelude Model Auth Text.

Local Open Scope Z_scope.

Definition MAX_WS_CONNECTIONS_LIMIT : Z := 16.
Definition MAX_SHARE_INVITES_PER_SOURCE : Z := 60.
Definition MAX_SHARE_INVITES_PER_USER : Z := 30.
Definition MAX_SHARE_INVITE_TARGETS_PER_USER : Z := 20.
Definition MAX_SHARE_INVITES_GLOBAL : Z := 300.
Definition DEFAULT_MAX_WS_CONNECTIONS : Z := 16.
Definition MAX_CONCURRENT_UPLOADS_LIMIT : Z := 4.
Definition MAX_PER_FILE_BYTES : Z := 900 * 1024 * 1024.
Definition AES_GCM_WIRE_OVERHEAD_BYTES : Z := 12 + 16.
Definition DEFAULT_STORAGE_QUOTA_BYTES : Z := 1024 * 1024 * 1024 * 1024.
Definition DEFAULT_UPLOAD_IDLE_TIMEOUT_SECONDS : Z := 300.
Definition MIN_UPLOAD_IDLE_TIMEOUT_SECONDS : Z := 5.
Definition MAX_UPLOAD_IDLE_TIMEOUT_SECONDS : Z := 60 * 60.

Record AdminConfig := { adm_bind_host : IpAddr; adm_port : Z }.

Record Config := {
  bind_host : IpAddr;
  control_port : Z;
  data_port : Z;
  public_data_host : string;
  database_path : string;
  staging_dir : string;
  per_file_max : Z;
  storage_quota_bytes : Z;
  storage_quota_bytes_per_owner : Z;
  session_ttl : Z;
  websocket_idle_timeout : Z;
  upload_idle_timeout : Z;
  allowed_origins : list string;
  max_concurrent_uploads : Z;
  max_concurrent_uploads_per_user : Z;
  max_ws_connections : Z;
  max_ws_connections_per_user : Z;
  trusted_proxy : option IpAddr;
  admin : option AdminConfig;
  json_logs : bool;
  sharing_enabled : bool;
  sharing_canary_owner_ids : list Z;
  share_invites_per_source : Z;
  share_invites_per_user : Z;
  share_invite_targets_per_user : Z;
  share_invites_global : Z;
}.

Definition sharing_allowed_for_owner (c : Config) (owner_user_id : Z) : bool :=
  sharing_enabled c || existsb (Z.eqb owner_user_id) (sharing_canary_owner_ids c).

Definition private_or_loopback (address : IpAddr) : bool :=
  match address with
  | V4 o => v4_loopback o || v4_private o
  | V6 g => v6_loopback g || match g with a :: _ => Z.land a 65024 =? 64512 | [] => false end
  end.

(** ** Validators *)
Definition validate_bind_host (host : IpAddr) (acknowledged : bool) : result unit :=
  if is_loopback host then Ok tt else
  ensure is_unspecified host
    orelse Bail "SELFHOST_BIND_HOST must be loopback or an unspecified container bind address" in
  ensure acknowledged orelse Bail "binding outside loopback requires SELFHOST_ACKNOWLEDGE_EXTERNAL_BIND=1" in
  Ok tt.

Definition validate_concurrent_uploads (value : Z) : result unit :=
  ensure in_range 1 MAX_CONCURRENT_UPLOADS_LIMIT value orelse Bail "SELFHOST_MAX_CONCURRENT_UPLOADS is out of range" in Ok tt.
Definition validate_websocket_idle_timeout (value : Z) : result unit :=
  ensure in_range 5 3600 value orelse Bail "SELFHOST_WS_IDLE_TIMEOUT_SECONDS must be between 5 and 3600 seconds" in Ok tt.
Definition validate_upload_idle_timeout (value : Z) : result unit :=
  ensure in_range MIN_UPLOAD_IDLE_TIMEOUT_SECONDS MAX_UPLOAD_IDLE_TIMEOUT_SECONDS value
    orelse Bail "SELFHOST_UPLOAD_IDLE_TIMEOUT_SECONDS is out of range" in Ok tt.
Definition validate_per_file_max (value : Z) : result unit :=
  ensure in_range 1 MAX_PER_FILE_BYTES value orelse Bail "SELFHOST_PER_FILE_MAX is out of range" in Ok tt.

(** [u64::saturating_add]. *)
Definition saturating_add_u64 (a b : Z) : Z := Z.min u64_max (a + b).

Definition validate_storage_quota (value file_max : Z) : result unit :=
  let minimum := saturating_add_u64 file_max AES_GCM_WIRE_OVERHEAD_BYTES in
  ensure minimum <=? i64_max orelse Bail "SELFHOST_PER_FILE_MAX cannot be represented by SQLite" in
  ensure in_range minimum MAX_JS_SAFE_INTEGER value orelse Bail "SELFHOST_STORAGE_QUOTA_BYTES is out of range" in
  Ok tt.
Definition validate_owner_storage_quota (value global file_max : Z) : result unit :=
  match validate_storage_quota value file_max with
  | Err _ => Err (Bail "SELFHOST_STORAGE_QUOTA_BYTES_PER_OWNER must hold one maximum-size encrypted file and remain JavaScript-safe")
  | Ok _ =>
      ensure negb (global <? value)
        orelse Bail "SELFHOST_STORAGE_QUOTA_BYTES_PER_OWNER must not exceed SELFHOST_STORAGE_QUOTA_BYTES" in
      Ok tt
  end.
Definition validate_per_user_limit (name : string) (value global : Z) : result unit :=
  ensure negb ((value =? 0) || (global <? value))
    orelse Bail (name +:+ " must be between 1 and its corresponding global limit") in Ok tt.

(** ** Hosts *)
Definition valid_port (value : string) : bool :=
  match parse_u16 value with Some port => negb (port =? 0) && String.eqb (pretty port) value | None => false end.
Definition valid_port_suffix (value : string) : bool :=
  match strip_prefix ":" value with Some p => valid_port p | None => false end.

Definition host_label_ok (label : string) : bool :=
  negb (is_empty label) && (str_len label <=? 63)
  && all_bytes (fun b => is_ascii_lowercase b || is_ascii_digit b || Ascii.eqb b "-"%char) label
  && negb (starts_with "-" label) && negb (ends_with_char "-" label).

Definition is_canonical_data_host (value : string) : bool :=
  if is_empty value || (255 <? str_len value) || negb (String.eqb (trim value) value) || negb (is_ascii value)
     || existsb (fun c => contains_char c value) ["/"; "\"; "?"; "#"; "@"]%char
  then false else
  match strip_prefix "[" value with
  | Some rest =>
      match split_once "]" rest with
      | None => false
      | Some (address, suffix) =>
          match parse_ipv6 address with
          | None => false
          | Some parsed =>
              if v6_loopback parsed || v6_unspecified parsed || v6_multicast parsed
                 || negb (String.eqb (show_ipv6 parsed) address)
              then false
              else is_empty suffix || (negb (String.eqb suffix ":443") && valid_port_suffix suffix)
          end
      end
  | None =>
      if contains_char "[" value || contains_char "]" value || (1 <? matches_count ":" value) then false else
      let (host, port) := match rsplit_once ":" value with
                          | Some (host, port) => (host, Some port)
                          | None => (value, None)
                          end in
      if match port with Some p => negb (valid_port p) || String.eqb p "443" | None => false end || is_empty host
      then false else
      match parse_ipv4 host with
      | Some address =>
          if v4_unspecified address || v4_multicast address || v4_broadcast address then false
          else (negb (v4_loopback address) || (zs_eqb address LOCALHOST && match port with Some _ => true | None => false end))
               && String.eqb (show_ipv4 address) host
      | None =>
          if all_bytes (fun b => is_ascii_digit b || Ascii.eqb b "."%char) host then false
          else if negb (all_bytes (fun b => negb (is_ascii_uppercase b)) host) || (253 <? str_len host) then false
          else if (starts_with "localhost" host && negb (String.eqb host "localhost"))
                  || (starts_with "127.0.0.1" host && negb (String.eqb host "127.0.0.1"))
                  || (String.eqb host "localhost" && match port with None => true | Some _ => false end)
          then false
          else forallb host_label_ok (split "." host)
      end
  end.

Definition validate_public_data_host (value : string) : result unit :=
  ensure is_canonical_data_host value orelse Bail "SELFHOST_DATA_HOST must be a canonical hostname[:port]" in Ok tt.

Definition loopback_name (host : string) : bool := String.eqb host "localhost" || String.eqb host "127.0.0.1".
Definition direct_loopback_host (value : string) : bool :=
  match rsplit_once ":" value with Some (host, _) => loopback_name host | None => false end.
Definition validate_direct_loopback_port (value : string) (port : Z) : result unit :=
  match rsplit_once ":" value with
  | None => Ok tt
  | Some (host, p) =>
      ensure negb (loopback_name host && negb (String.eqb p (pretty port)))
        orelse Bail "loopback SELFHOST_DATA_HOST port must match SELFHOST_DATA_PORT" in
      Ok tt
  end.

Definition resolve_public_data_host (bind : IpAddr) (port : Z) (configured : option string) : result string :=
  let? host := match configured with
               | Some host => Ok host
               | None => if ip_eqb bind (V4 LOCALHOST) then Ok ("127.0.0.1:" +:+ pretty port)
                         else Err (Bail "SELFHOST_DATA_HOST is required when SELFHOST_BIND_HOST is not 127.0.0.1")
               end in
  let? _ := validate_public_data_host host in
  ensure negb (negb (ip_eqb bind (V4 LOCALHOST)) && direct_loopback_host host)
    orelse Bail "loopback SELFHOST_DATA_HOST requires SELFHOST_BIND_HOST=127.0.0.1" in
  let? _ := validate_direct_loopback_port host port in
  Ok host.

(** ** Lists *)
Fixpoint parse_owner_id_list (ids : list Z) (raws : list string) : result (list Z) :=
  match raws with
  | [] => Ok ids
  | raw :: raws =>
      match parse_i64 raw with
      | None => Err (Bail "SELFHOST_SHARING_CANARY_OWNER_IDS must contain decimal user IDs")
      | Some id =>
          ensure negb (negb (in_range 1 MAX_JS_SAFE_INTEGER id) || existsb (Z.eqb id) ids)
            orelse Bail "SELFHOST_SHARING_CANARY_OWNER_IDS contains an invalid or duplicate user ID" in
          parse_owner_id_list (ids ++ [id]) raws
      end
  end.
Definition parse_owner_ids (value : string) : result (list Z) :=
  if is_empty value then Ok [] else
  let? ids := parse_owner_id_list [] (split "," value) in
  ensure negb (8 <? Z.of_nat (length ids)) orelse Bail "SELFHOST_SHARING_CANARY_OWNER_IDS accepts at most 8 user IDs" in
  Ok ids.

Definition valid_scheme (scheme : string) : bool :=
  match bytes_of scheme with
  | [] => true
  | c :: l => is_ascii_alphabetic c
              && forallb (fun c => is_ascii_alphanumeric c || existsb (Ascii.eqb c) ["+"; "-"; "."]%char) l
  end.
Definition authority_bad (ch : list ascii) : bool :=
  is_whitespace ch || match ch with [c] => existsb (Ascii.eqb c) ["/"; "?"; "#"; "@"]%char | _ => false end.

Section Env.
(** [HeaderValue::from_str(origin).is_ok()]. *)
Context (header_value_ok : string -> bool).

Fixpoint check_origins (seen : list string) (origins : list string) : result unit :=
  match origins with
  | [] => Ok tt
  | origin :: rest =>
      ensure negb ((255 <? str_len origin) || String.eqb origin "*" || String.eqb (to_ascii_lowercase origin) "null")
        orelse Bail "SELFHOST_ALLOWED_ORIGINS must contain exact, bounded origins" in
      match split_scheme origin with
      | None => Err (Bail "SELFHOST_ALLOWED_ORIGINS contains an invalid origin")
      | Some (scheme, authority) =>
          ensure valid_scheme scheme && negb (is_empty authority) && negb (existsb authority_bad (chars_of authority))
            orelse Bail "SELFHOST_ALLOWED_ORIGINS contains an invalid origin" in
          ensure header_value_ok origin
            orelse Bail "SELFHOST_ALLOWED_ORIGINS contains an invalid HTTP Origin value" in
          ensure negb (existsb (String.eqb origin) seen)
            orelse Bail "SELFHOST_ALLOWED_ORIGINS must not contain duplicates" in
          check_origins (origin :: seen) rest
      end
  end.
Definition parse_allowed_origins (raw : string) : result (list string) :=
  let origins := map trim (split "," raw) in
  ensure negb ((length origins =? 0)%nat || (8 <? length origins)%nat || existsb is_empty origins)
    orelse Bail "SELFHOST_ALLOWED_ORIGINS must contain between one and eight origins" in
  let? _ := check_origins [] origins in
  Ok origins.

Definition parse_admin_config (host port legacy_hash : option string) (control data : Z) : result (option AdminConfig) :=
  match legacy_hash with
  | Some _ => Err (Bail "SELFHOST_ADMIN_TOKEN_HASH is no longer supported; administrators now sign in with their Blackglass account")
  | None =>
      match host, port with
      | None, None => Ok None
      | Some host, Some port =>
          match parse_ip host with
          | None => Err (Bail "SELFHOST_ADMIN_BIND_HOST must be an IP address")
          | Some bind =>
              ensure is_loopback bind orelse Bail "SELFHOST_ADMIN_BIND_HOST must be a loopback IP address" in
              match parse_u16 port with
              | None => Err (Bail "SELFHOST_ADMIN_PORT must be a non-zero port")
              | Some port =>
                  ensure negb ((port =? 0) || (port =? control) || (port =? data))
                    orelse Bail "admin, control, and data ports must be distinct and non-zero" in
                  Ok (Some {| adm_bind_host := bind; adm_port := port |})
              end
          end
      | _, _ => Err (Bail "SELFHOST_ADMIN_BIND_HOST and SELFHOST_ADMIN_PORT must be set together")
      end
  end.

(** ** The environment *)
Context (env : string -> option string).

Definition value (name : string) : option string :=
  match env name with Some v => if is_empty v then None else Some v | None => None end.
Definition boolean (name : string) (dflt : bool) : result bool :=
  match value name with
  | None => Ok dflt
  | Some v => if String.eqb v "true" then Ok true else if String.eqb v "false" then Ok false
              else Err (Bail (name +:+ " must be exactly true or false"))
  end.
Definition number (parse : string -> option Z) (name : string) (dflt : Z) : result Z :=
  match value name with
  | Some v => ok_or (parse v) (Bail ("invalid " +:+ name +:+ ": " +:+ v))
  | None => Ok dflt
  end.
Definition bounded_budget (name : string) (maximum : Z) : result Z :=
  let? v := number parse_u64 name maximum in
  ensure in_range 1 maximum v orelse Bail (name +:+ " is out of range") in
  Ok v.

(** [PathBuf::set_extension]: replace what follows the last dot of the final component
    (unless the dot starts it), or append; a path without a final component is kept. *)
Fixpoint strip_trailing (fuel : nat) (rev_path : list ascii) : list ascii :=
  match fuel with
  | O => rev_path
  | S fuel =>
      match rev_path with
      | "/"%char :: l => strip_trailing fuel l
      | "."%char :: "/"%char :: l => strip_trailing fuel ("/"%char :: l)
      | l => l
      end
  end.
Definition set_extension (ext path : string) : string :=
  let r := strip_trailing (String.length path) (rev (bytes_of path)) in
  let name_rev := match split_once_bytes "/" r with Some (n, _) => n | None => r end in
  let name := string_of_list_ascii (rev name_rev) in
  if is_empty name || String.eqb name "." || String.eqb name ".." then path else
  let base := match split_once_bytes "." name_rev with
              | Some (e, (_ :: _) as stem_rev) => drop (S (length e)) r
              | _ => r
              end in
  string_of_list_ascii (rev base) +:+ "." +:+ ext.

Definition parse_bind_host : result IpAddr :=
  ok_or (parse_ip (default "127.0.0.1"%string (value "SELFHOST_BIND_HOST")))
    (Bail "SELFHOST_BIND_HOST must be an IP address").
Definition parse_acknowledged : result bool :=
  match value "SELFHOST_ACKNOWLEDGE_EXTERNAL_BIND" with
  | None => Ok false
  | Some v => ensure String.eqb v "1"
                orelse Bail "SELFHOST_ACKNOWLEDGE_EXTERNAL_BIND must be exactly 1 when set" in Ok true
  end.
Definition parse_origins : result (list string) :=
  match value "SELFHOST_ALLOWED_ORIGINS", value "SELFHOST_ALLOWED_ORIGIN" with
  | Some _, Some _ => Err (Bail "set SELFHOST_ALLOWED_ORIGINS or legacy SELFHOST_ALLOWED_ORIGIN, not both")
  | Some origins, None => parse_allowed_origins origins
  | None, Some origin => parse_allowed_origins origin
  | None, None => Ok ["app://obsidian.md"%string]
  end.
Definition parse_trusted_proxy : result (option IpAddr) :=
  match value "SELFHOST_TRUSTED_PROXY" with
  | None => Ok None
  | Some v =>
      match parse_ip v with
      | None => Err (Bail "SELFHOST_TRUSTED_PROXY must be one exact IP address")
      | Some a => ensure private_or_loopback a
                    orelse Bail "SELFHOST_TRUSTED_PROXY must be a loopback or private IP address" in Ok (Some a)
      end
  end.

Definition from_env : result Config :=
  let? bind := parse_bind_host in
  let? acknowledged := parse_acknowledged in
  let? _ := validate_bind_host bind acknowledged in
  let? control := number parse_u16 "SELFHOST_CONTROL_PORT" 3000 in
  let? data := number parse_u16 "SELFHOST_DATA_PORT" 3003 in
  let database := default "selfhost-sync.sqlite"%string (value "SELFHOST_DATABASE") in
  let staging := default (set_extension "uploads" database) (value "SELFHOST_STAGING_DIR") in
  ensure negb ((control =? 0) || (data =? 0) || (control =? data))
    orelse Bail "control and data ports must be distinct and non-zero" in
  let? file_max := number parse_u64 "SELFHOST_PER_FILE_MAX" (200 * 1024 * 1024) in
  let? _ := validate_per_file_max file_max in
  let? quota := number parse_i64 "SELFHOST_STORAGE_QUOTA_BYTES" DEFAULT_STORAGE_QUOTA_BYTES in
  let? _ := validate_storage_quota quota file_max in
  let? owner_quota := number parse_i64 "SELFHOST_STORAGE_QUOTA_BYTES_PER_OWNER" quota in
  let? _ := validate_owner_storage_quota owner_quota quota file_max in
  let? ttl := number parse_u64 "SELFHOST_SESSION_TTL_SECONDS" (30 * 24 * 60 * 60) in
  ensure in_range 300 (365 * 24 * 60 * 60) ttl
    orelse Bail "SELFHOST_SESSION_TTL_SECONDS must be between 300 seconds and 365 days" in
  let? ws_idle := number parse_u64 "SELFHOST_WS_IDLE_TIMEOUT_SECONDS" 90 in
  let? _ := validate_websocket_idle_timeout ws_idle in
  let? upload_idle := number parse_u64 "SELFHOST_UPLOAD_IDLE_TIMEOUT_SECONDS" DEFAULT_UPLOAD_IDLE_TIMEOUT_SECONDS in
  let? _ := validate_upload_idle_timeout upload_idle in
  let? uploads := number parse_u64 "SELFHOST_MAX_CONCURRENT_UPLOADS" 4 in
  let? _ := validate_concurrent_uploads uploads in
  let? user_uploads := number parse_u64 "SELFHOST_MAX_CONCURRENT_UPLOADS_PER_USER" (Z.min uploads 2) in
  let? _ := validate_per_user_limit "SELFHOST_MAX_CONCURRENT_UPLOADS_PER_USER" user_uploads uploads in
  let? ws := number parse_u64 "SELFHOST_MAX_WS_CONNECTIONS" DEFAULT_MAX_WS_CONNECTIONS in
  ensure in_range 1 MAX_WS_CONNECTIONS_LIMIT ws orelse Bail "SELFHOST_MAX_WS_CONNECTIONS is out of range" in
  let? user_ws := number parse_u64 "SELFHOST_MAX_WS_CONNECTIONS_PER_USER" (Z.min ws 4) in
  let? _ := validate_per_user_limit "SELFHOST_MAX_WS_CONNECTIONS_PER_USER" user_ws ws in
  let? origins := parse_origins in
  let? data_host := resolve_public_data_host bind data (value "SELFHOST_DATA_HOST") in
  let? proxy := parse_trusted_proxy in
  let? adm := parse_admin_config (value "SELFHOST_ADMIN_BIND_HOST") (value "SELFHOST_ADMIN_PORT")
                (value "SELFHOST_ADMIN_TOKEN_HASH") control data in
  let? sharing := boolean "SELFHOST_SHARING_ENABLED" false in
  let? canaries := parse_owner_ids (default ""%string (value "SELFHOST_SHARING_CANARY_OWNER_IDS")) in
  ensure negb (sharing && match canaries with [] => false | _ => true end)
    orelse Bail "SELFHOST_SHARING_CANARY_OWNER_IDS must be empty when sharing is globally enabled" in
  let? per_source := bounded_budget "SELFHOST_SHARE_INVITES_PER_SOURCE_HOUR" MAX_SHARE_INVITES_PER_SOURCE in
  let? per_user := bounded_budget "SELFHOST_SHARE_INVITES_PER_USER_HOUR" MAX_SHARE_INVITES_PER_USER in
  let? targets := bounded_budget "SELFHOST_SHARE_INVITE_TARGETS_PER_USER_HOUR" MAX_SHARE_INVITE_TARGETS_PER_USER in
  let? global := bounded_budget "SELFHOST_SHARE_INVITES_GLOBAL_HOUR" MAX_SHARE_INVITES_GLOBAL in
  Ok {| bind_host := bind; control_port := control; data_port := data; public_data_host := data_host;
        database_path := database; staging_dir := staging; per_file_max := file_max;
        storage_quota_bytes := quota; storage_quota_bytes_per_owner := owner_quota; session_ttl := ttl;
        websocket_idle_timeout := ws_idle; upload_idle_timeout := upload_idle; allowed_origins := origins;
        max_concurrent_uploads := uploads; max_concurrent_uploads_per_user := user_uploads;
        max_ws_connections := ws; max_ws_connections_per_user := user_ws; trusted_proxy := proxy; admin := adm;
        json_logs := negb (match value "SELFHOST_LOG_FORMAT" with Some v => String.eqb v "pretty" | None => false end);
        sharing_enabled := sharing; sharing_canary_owner_ids := canaries;
        share_invites_per_source := per_source; share_invites_per_user := per_user;
        share_invite_targets_per_user := targets; share_invites_global := global |}.
End Env.

(** [max_ciphertext_size] of [server.rs]: the [as i64] cast of the saturated sum. *)
Definition max_ciphertext_size (c : Config) : Z :=
  wrap64 (saturating_add_u64 (per_file_max c) AES_GCM_WIRE_OVERHEAD_BYTES).

Example data_hosts :
  map is_canonical_data_host
    ["sync.example.com"; "sync.example.com:443"; "localhost:3003"; "localhost"; "127.0.0.1:3003"; "[2001:db8::1]:8443";
     "[::1]"; "EXAMPLE.com"; "-a.com"; "10.0.0.1"; "1.2.3"; "a..b"; "localhost.evil.com:80"]%string
  = [true; false; true; false; true; true; false; false; false; true; false; false; false].
Proof. vm_compute. reflexivity. Qed.

Example staging_dirs :
  map (set_extension "uploads") ["selfhost-sync.sqlite"; "/data/db"; "/data/.db"; "/data/a.b.c/"; ".."; "/"]%string
  = ["selfhost-sync.uploads"; "/data/db.uploads"; "/data/.db.uploads"; "/data/a.b.uploads"; ".."; "/"]%string.
Proof. vm_compute. reflexivity. Qed.

(** ** What an accepted configuration guarantees *)
Record config_ok (c : Config) : Prop := {
  cfg_ports : control_port c <> 0 /\ data_port c <> 0 /\ control_port c <> data_port c /\
              (forall a, admin c = Some a -> is_loopback (adm_bind_host a) = true /\ adm_port a <> 0
                 /\ adm_port a <> control_port c /\ adm_port a <> data_port c);
  (** every file a client may push fits SQLite's limit, the owner's and the global quota *)
  cfg_storage : 0 < max_ciphertext_size c <= storage_quota_bytes_per_owner c
                /\ storage_quota_bytes_per_owner c <= storage_quota_bytes c <= MAX_JS_SAFE_INTEGER
                /\ max_ciphertext_size c < 1000000000;
  cfg_times : 300 <= session_ttl c <= 31536000 /\ 5 <= websocket_idle_timeout c <= 3600
              /\ 5 <= upload_idle_timeout c <= 3600;
  cfg_limits : 1 <= max_concurrent_uploads_per_user c <= max_concurrent_uploads c
               /\ max_concurrent_uploads c <= MAX_CONCURRENT_UPLOADS_LIMIT
               /\ 1 <= max_ws_connections_per_user c <= max_ws_connections c
               /\ max_ws_connections c <= MAX_WS_CONNECTIONS_LIMIT;
  cfg_sharing : (sharing_enabled c = true -> sharing_canary_owner_ids c = [])
                /\ (length (sharing_canary_owner_ids c) <= 8)%nat
                /\ NoDup (sharing_canary_owner_ids c)
                /\ Forall (fun i => 1 <= i <= MAX_JS_SAFE_INTEGER) (sharing_canary_owner_ids c);
  cfg_invites : 1 <= share_invites_per_source c <= 60 /\ 1 <= share_invites_per_user c <= 30
                /\ 1 <= share_invite_targets_per_user c <= 20 /\ 1 <= share_invites_global c <= 300;
  cfg_host : is_canonical_data_host (public_data_host c) = true;
  cfg_bind : is_loopback (bind_host c) = true \/ is_unspecified (bind_host c) = true;
  cfg_proxy : forall a, trusted_proxy c = Some a -> private_or_loopback a = true;
}.

Lemma parse_int_range lo hi s z : parse_int lo hi s = Some z -> lo <= z <= hi.
Proof.
  unfold parse_int. intros H.
  repeat (match type of H with context [match ?x with _ => _ end] => destruct x eqn:?; try discriminate H end);
    injection H as <-; breflect; lia.
Qed.

Lemma number_range env lo hi name dflt z :
  lo <= dflt <= hi -> number env (parse_int lo hi) name dflt = Ok z -> lo <= z <= hi.
Proof.
  intros Hd. unfold number. destruct (value env name) as [v|]; [|intros [= <-]; done].
  unfold ok_or. destruct (parse_int lo hi v) eqn:E; [|done]. intros [= <-]. by eapply parse_int_range.
Qed.

Lemma parse_owner_id_list_ok raws ids out :
  parse_owner_id_list ids raws = Ok out -> NoDup ids -> Forall (fun i => 1 <= i <= MAX_JS_SAFE_INTEGER) ids ->
  NoDup out /\ Forall (fun i => 1 <= i <= MAX_JS_SAFE_INTEGER) out.
Proof.
  revert ids. induction raws as [|raw raws IH]; intros ids H Hn Hf; cbn in H; [injection H as <-; done|].
  destruct (parse_i64 raw) as [i|]; [|done]. destruct (negb _) eqn:E in H; [|done]. breflect.
  apply (IH _ H).
  - apply NoDup_app. split_and!; [done| |apply NoDup_singleton]. intros x Hx ->%list_elem_of_singleton.
    apply not_true_iff_false in H1. apply H1, existsb_exists. exists i. split; [by apply list_elem_of_In|apply Z.eqb_refl].
  - apply Forall_app. split; [done|]. by constructor.
Qed.

Lemma parse_owner_ids_ok v ids :
  parse_owner_ids v = Ok ids ->
  (length ids <= 8)%nat /\ NoDup ids /\ Forall (fun i => 1 <= i <= MAX_JS_SAFE_INTEGER) ids.
Proof.
  unfold parse_owner_ids. destruct (is_empty v); [intros [= <-]; split_and!; [cbn; lia|constructor..]|].
  destruct (parse_owner_id_list [] _) eqn:E; [|done]. destruct (negb _) eqn:E2; [|done]. intros [= <-]. breflect.
  split; [lia|]. eapply parse_owner_id_list_ok; [exact E|constructor..].
Qed.

Lemma admin_config_ok host port legacy control data a :
  parse_admin_config host port legacy control data = Ok (Some a) ->
  is_loopback (adm_bind_host a) = true /\ adm_port a <> 0 /\ adm_port a <> control /\ adm_port a <> data.
Proof.
  unfold parse_admin_config. intros H. destruct legacy; [done|]. destruct host as [h|], port as [p|]; try done.
  destruct (parse_ip h); [|done]. destruct (is_loopback _) eqn:El; [|done]. destruct (parse_u16 p); [|done].
  destruct (negb _) eqn:E; [|done]. injection H as <-. breflect. done.
Qed.

Lemma storage_quota_ok value file_max :
  1 <= file_max <= MAX_PER_FILE_BYTES -> validate_storage_quota value file_max = Ok tt ->
  file_max + 28 <= value <= MAX_JS_SAFE_INTEGER.
Proof.
  unfold validate_storage_quota, saturating_add_u64, AES_GCM_WIRE_OVERHEAD_BYTES, MAX_PER_FILE_BYTES, u64_max. intros Hf H.
  destruct (_ <=? _); [|done]. destruct (in_range _ _ _) eqn:E; [|done]. breflect. lia.
Qed.

Lemma budget_ok env name m z : bounded_budget env name m = Ok z -> 1 <= z <= m.
Proof.
  unfold bounded_budget. intros H. step_in H. destruct (in_range _ _ _) eqn:Er; [|done]. injection H as <-. by breflect.
Qed.

Lemma data_host_ok bind port configured host :
  resolve_public_data_host bind port configured = Ok host -> is_canonical_data_host host = true.
Proof.
  unfold resolve_public_data_host, validate_public_data_host. intros H. step_in H.
  destruct (is_canonical_data_host value0) eqn:E2 in H; [|done]. cbn in H. steps_in H. done.
Qed.

Lemma proxy_ok env a : parse_trusted_proxy env = Ok (Some a) -> private_or_loopback a = true.
Proof.
  unfold parse_trusted_proxy. intros H. destruct (value env _); [|done]. destruct (parse_ip _); [|done].
  destruct (private_or_loopback i) eqn:E; [|done]. by injection H as <-.
Qed.

Lemma guard_ok (b : bool) e u : (ensure b orelse e in Ok tt) = Ok u -> b = true.
Proof. destruct b; done. Qed.

Lemma per_user_limit_ok name v g u : 0 <= v -> validate_per_user_limit name v g = Ok u -> 1 <= v <= g.
Proof. intros Hv H%guard_ok. breflect. lia. Qed.

Lemma owner_quota_ok v g f u : validate_owner_storage_quota v g f = Ok u -> validate_storage_quota v f = Ok tt /\ v <= g.
Proof.
  unfold validate_owner_storage_quota. destruct (validate_storage_quota v f) as [[]|]; [|done]. intros H%guard_ok. breflect. done.
Qed.

Lemma bind_host_ok b ack u : validate_bind_host b ack = Ok u -> is_loopback b = true \/ is_unspecified b = true.
Proof. unfold validate_bind_host. destruct (is_loopback b); [auto|]. destruct (is_unspecified b); [auto|done]. Qed.

(** Follow the head of a chain of [let?] and [ensure] that ends well. *)
Ltac head_step H :=
  match type of H with
  | match ?x with Ok _ => _ | Err _ => _ end = Ok _ => let E := fresh "E" in destruct x eqn:E; [|discriminate H]
  | (if ?b then _ else Err _) = Ok _ => let E := fresh "E" in destruct b eqn:E; [|discriminate H]
  end.

(** C38: whatever the environment holds, a configuration the server accepts is coherent:
    distinct non-zero ports and a loopback-only administration port; every file a client
    may push fits SQLite, the owner quota and the global quota; bounded timeouts; per-user
    limits within the global ones; a duplicate-free canary list that is empty when
    sharing is on; and a canonical public host. *)
Theorem accepted_config_ok header_ok env c : from_env header_ok env = Ok c -> config_ok c.
Proof.
  unfold from_env. intros H. repeat (head_step H; cbn beta iota zeta in H). injection H as <-.
  repeat match goal with
  | E : validate_per_file_max _ = Ok _ |- _ => apply guard_ok in E
  | E : validate_websocket_idle_timeout _ = Ok _ |- _ => apply guard_ok in E
  | E : validate_upload_idle_timeout _ = Ok _ |- _ => apply guard_ok in E
  | E : validate_concurrent_uploads _ = Ok _ |- _ => apply guard_ok in E
  | E : validate_owner_storage_quota _ _ _ = Ok _ |- _ => apply owner_quota_ok in E as []
  | E : validate_bind_host _ _ = Ok _ |- _ => apply bind_host_ok in E
  | E : bounded_budget _ _ _ = Ok _ |- _ => apply budget_ok in E
  | E : resolve_public_data_host _ _ _ = Ok _ |- _ => apply data_host_ok in E
  | E : parse_owner_ids _ = Ok _ |- _ => apply parse_owner_ids_ok in E as (? & ? & ?)
  end.
  breflect.
  unfold MAX_PER_FILE_BYTES, MIN_UPLOAD_IDLE_TIMEOUT_SECONDS, MAX_UPLOAD_IDLE_TIMEOUT_SECONDS, MAX_CONCURRENT_UPLOADS_LIMIT,
    MAX_WS_CONNECTIONS_LIMIT in *.
  constructor; cbn.
  - split_and!; try done. intros a ->. by eapply admin_config_ok.
  - destruct value8. apply storage_quota_ok in E8, H; [|done..]. unfold max_ciphertext_size, saturating_add_u64; cbn.
    unfold AES_GCM_WIRE_OVERHEAD_BYTES, u64_max, MAX_JS_SAFE_INTEGER in *. rewrite wrap64_id; unfold i64_min, i64_max; lia.
  - lia.
  - apply number_range in E19, E23; [|unfold u64_max; lia..]. apply per_user_limit_ok in E20, E24; unfold MAX_CONCURRENT_UPLOADS_LIMIT, MAX_WS_CONNECTIONS_LIMIT; lia.
  - split_and!; try done. intros ->. destruct value28; done.
  - done.
  - done.
  - done.
  - intros a ->. by eapply proxy_ok.
Qed.

Lemma accepted_config_ok_witness :
  let env name := if String.eqb name "SELFHOST_SHARING_CANARY_OWNER_IDS" then Some "3,5"%string else None in
  exists c, from_env (fun _ => true) env = Ok c /\ config_ok c.
Proof.
  intros env. eexists. split; [vm_compute; reflexivity|].
  apply (accepted_config_ok (fun _ => true) env). vm_compute. reflexivity.
Defined.
