(* ===== verification/Cli.v ===== *)
(** * The command line (main.rs)

    [main] maps the argument list to a request; the offline requests run on the database
    files.  The environment, the standard input, the password hash and the rendering of the
    account list are parameters.  The requests that start a server, answer help or probe a
    running server do not touch a database file; of the probe, the request it sends and the
    answer it accepts are modelled. *)

From Stdlib Require Import ZArith Lia List String Ascii Bool.
From stdpp Require Import base list strings pretty gmap.
From S2P Require Import Prelude Sql Model Store Auth Accounts Vaults Sharing Revisions Invariant Heads Preservation.
From S2P Require Import Machine Scenario Verify Recovery Catalogue Ddl CatalogueSpec Migrations Process Files Text Config.

Local Open Scope string_scope.
Local Open Scope Z_scope.

(** ** Requests *)
Inductive offline :=
| UserList (database : string)
| UserCreate (database email name : string)
| UserSetPassword (database user_id : string)
| UserSetEmail (database user_id email : string)
| UserSetName (database user_id name : string)
| UserSetStatus (database user_id status : string)
| UserSetRole (database user_id role : string)
| UserRevokeSessions (database user_id : string)
| Backup (source output : string)
| BackupStdout (source : string)
| VerifyDatabase (path : string)
| Restore (source destination : string)
| RecoverStaleBackup (source destination : string)
| MigrateLegacy (source destination : string)
| Migrate (source destination : string)
| RebindDataHost (database data_host backup : string)
| PurgeDeleted (database vault backup : string)
| RevokeAllSessions (path : string).

Inductive request :=
| Serve | Help | Version | BuildInfo | Healthcheck | HashPassword
| VerifyPublishRuntime (runtime sha256 source_sha256 : string)
| ServePublishReplay (runtime sha256 source_sha256 port : string)
| Offline (o : offline).

Definition is_one_of (s : string) (l : list string) : bool := existsb (String.eqb s) l.

(** The arms of [match args.as_slice()] in order; [None] is the last arm. *)
Definition parse_args (args : list string) : option request :=
  match args with
  | [] => Some Serve
  | [command] =>
      if String.eqb command "serve" then Some Serve
      else if is_one_of command ["--help"; "-h"; "help"] then Some Help
      else if is_one_of command ["--version"; "-V"; "version"] then Some Version
      else if String.eqb command "build-info" then Some BuildInfo
      else if String.eqb command "healthcheck" then Some Healthcheck
      else if String.eqb command "hash-password" then Some HashPassword
      else None
  | [command; path] =>
      if String.eqb command "backup-stdout" then Some (Offline (BackupStdout path))
      else if String.eqb command "verify" then Some (Offline (VerifyDatabase path))
      else if String.eqb command "revoke-all-sessions" then Some (Offline (RevokeAllSessions path))
      else None
  | [a; b; c] =>
      if String.eqb a "user" && String.eqb b "list" then Some (Offline (UserList c))
      else if String.eqb a "backup" then Some (Offline (Backup b c))
      else if String.eqb a "restore" then Some (Offline (Restore b c))
      else if String.eqb a "recover-stale-backup" then Some (Offline (RecoverStaleBackup b c))
      else if String.eqb a "migrate-legacy" then Some (Offline (MigrateLegacy b c))
      else if String.eqb a "migrate" then Some (Offline (Migrate b c))
      else None
  | [a; b; c; d] =>
      if String.eqb a "user" && String.eqb b "set-password" then Some (Offline (UserSetPassword c d))
      else if String.eqb a "user" && String.eqb b "revoke-sessions" then Some (Offline (UserRevokeSessions c d))
      else if String.eqb a "rebind-data-host" then Some (Offline (RebindDataHost b c d))
      else if String.eqb a "purge-deleted" then Some (Offline (PurgeDeleted b c d))
      else if String.eqb a "verify-publish-runtime" then Some (VerifyPublishRuntime b c d)
      else None
  | [a; b; c; d; e] =>
      if String.eqb a "user" && String.eqb b "create" then Some (Offline (UserCreate c d e))
      else if String.eqb a "user" && String.eqb b "set-email" then Some (Offline (UserSetEmail c d e))
      else if String.eqb a "user" && String.eqb b "set-name" then Some (Offline (UserSetName c d e))
      else if String.eqb a "user" && String.eqb b "set-status" then Some (Offline (UserSetStatus c d e))
      else if String.eqb a "user" && String.eqb b "set-role" then Some (Offline (UserSetRole c d e))
      else if String.eqb a "serve-publish-replay" then Some (ServePublishReplay b c d e)
      else None
  | _ => None
  end.

(** ** Inputs *)
Definition is_line_end (c : ascii) : bool := (code c =? 13) || (code c =? 10).
(** [trim_end_matches(['\r', '\n'])]. *)
Definition trim_line_ends (s : string) : string :=
  string_of_list_ascii (rev (drop_while is_line_end (rev (bytes_of s)))).

Definition parse_user_id (value : string) : result Z :=
  let? user_id := ok_or (parse_i64 value) (Bail "user ID must be a positive safe integer") in
  ensure in_range 1 MAX_JS_SAFE_INTEGER user_id orelse Bail "user ID must be a positive safe integer" in
  Ok user_id.

Section Inputs.
Context (parse_password_hash : string -> option PasswordHash) (env : string -> option string) (stdin : option string).

Definition configured_initial_user : result InitialUser :=
  let? email := ok_or (env "SELFHOST_EMAIL") (Bail "SELFHOST_EMAIL is required for schema v5 migration") in
  let? password_hash := ok_or (env "SELFHOST_PASSWORD_HASH") (Bail "SELFHOST_PASSWORD_HASH is required for schema v5 migration") in
  let name := default "Blackglass user" (env "SELFHOST_NAME") in
  new_initial_user parse_password_hash email name password_hash.

Definition read_password : result string :=
  let? password := ok_or stdin (Bail "I/O error") in
  let password := trim_line_ends password in
  ensure negb (is_empty password) orelse Bail "read a non-empty password from stdin" in
  Ok password.

(** ** The readiness probe *)
Definition probe_target : result (IpAddr * Z) :=
  let configured := default "127.0.0.1" (env "SELFHOST_BIND_HOST") in
  let? address := ok_or (parse_ip configured) (Bail "SELFHOST_BIND_HOST must be an IP address") in
  let probe_address := match address with
                       | V4 o => if v4_unspecified o then V4 LOCALHOST else V4 o
                       | V6 g => if v6_unspecified g then V6 [0; 0; 0; 0; 0; 0; 0; 1] else V6 g
                       end in
  let? port := ok_or (parse_u16 (default "3000" (env "SELFHOST_CONTROL_PORT")))
                 (Bail "SELFHOST_CONTROL_PORT must be a port from 1 to 65535") in
  ensure negb (port =? 0) orelse Bail "SELFHOST_CONTROL_PORT must be a port from 1 to 65535" in
  Ok (probe_address, port).
End Inputs.

Definition crlf : string := String "013"%char (String "010"%char "").
Definition probe_request (address : IpAddr) (port : Z) : string :=
  let authority := match address with
                   | V4 o => show_ipv4 o +:+ ":" +:+ pretty port
                   | V6 g => "[" +:+ show_ipv6 g +:+ "]:" +:+ pretty port
                   end in
  "GET /ready HTTP/1.1" +:+ crlf +:+ "Host: " +:+ authority +:+ crlf +:+ "Connection: close" +:+ crlf +:+ crlf.
Definition ready_body : string := String "{"%char (String "034"%char ("ok" +:+ String "034"%char ":true")).
Definition probe_ready (response : string) : bool :=
  Text.starts_with "HTTP/1.1 200 " response && contains_text (crlf +:+ crlf +:+ ready_body) response.

(** ** Streamed backups *)
Definition stream_prefix : string := ".blackglass-backup-stream-".
Definition strip_suffix (p s : string) : option string :=
  let l := bytes_of s in
  let n := (List.length l - List.length (bytes_of p))%nat in
  if (List.length (bytes_of p) <=? List.length l)%nat && String.eqb (string_of_list_ascii (List.skipn n l)) p
  then Some (string_of_list_ascii (List.firstn n l)) else None.
Definition i32_max : Z := 2147483647.
Definition parse_i32 : string -> option Z := parse_int (-2147483648) i32_max.

Definition streamed_backup_owner_pid (name : string) : option Z :=
  match strip_prefix stream_prefix name with
  | None => None
  | Some rest =>
      match strip_suffix ".sqlite" rest with
      | None => None
      | Some suffix =>
          match split_once "-"%char suffix with
          | None => None
          | Some (pid, nonce) =>
              if is_empty nonce || negb (all_bytes is_ascii_digit nonce) then None else
              match parse_i32 pid with
              | Some pid => if 0 <? pid then Some pid else None
              | None => None
              end
          end
      end
  end.
Definition stream_name (pid : Z) (nonce : nat) : string :=
  stream_prefix +:+ pretty pid +:+ "-" +:+ pretty (Z.of_nat nonce) +:+ ".sqlite".

(** [Path::parent] and [Path::join] of a path with a final component. *)
Definition parent_of (path : string) : string :=
  match rsplit_once "/"%char path with
  | Some (parent, _) => if is_empty parent then "/" else parent
  | None => ""
  end.
Definition join_path (parent name : string) : string :=
  if ends_with_char "/"%char parent then parent +:+ name else parent +:+ "/" +:+ name.

Inductive output := Text (s : string) | Stream (im : image).

Section Execute.
Context (fails : syscall -> string -> bool) (left_behind : string -> bool).
Context (parse_password_hash : string -> option PasswordHash) (notice_len : PushNotice -> Z) (now : Z).
Context (hash_password : string -> result string) (render_users : list UserSummary -> string).
Context (env : string -> option string) (stdin : option string) (uuids : list string).
(** The process table, the owner of a file, what a path that is not a regular file leads
    to, the process id, and whether writing to the standard output fails. *)
Context (alive : Z -> bool) (own : string -> bool) (leads_somewhere : string -> bool) (pid : Z) (broken_pipe : bool).

(** [read_dir]: the names below a directory.  Opening the empty path fails. *)
Definition child_name (parent path : string) : option string :=
  match rsplit_once "/"%char path with
  | Some (_, name) => if String.eqb (join_path parent name) path then Some name else None
  | None => None
  end.
Definition read_dir (parent : string) : command (list string) :=
  fun fs => if is_empty parent || fails Open parent then (Err (Bail "read backup source directory"), fs)
            else (Ok (omap (child_name parent) (map fst (map_to_list fs))), fs).

Fixpoint cleanup_each (parent : string) (names : list string) : command unit :=
  match names with
  | [] => ret tt
  | name :: names =>
      match streamed_backup_owner_pid name with
      | None => cleanup_each parent names
      | Some owner_pid =>
          let path := join_path parent name in
          let! found := symlink_metadata fails path in
          match found with
          | None => fail (io_error Stat)
          | Some Other => cleanup_each parent names
          | Some (Regular _) =>
              if negb (own path) || alive owner_pid then cleanup_each parent names else
              unless negb (fails Unlink path) else Bail "remove stale streamed backup" in
              let! _ := drop_entry path in
              cleanup_each parent names
          end
      end
  end.
Definition cleanup_stale_streamed_backups (parent : string) : command unit :=
  let! names := read_dir parent in cleanup_each parent names.

Definition path_exists (path : string) (fs : files) : bool :=
  match fs !! path with Some (Regular _) => true | Some Other => leads_somewhere path | None => false end.
(** [for nonce in 0..16]: the first candidate that does not exist. *)
Definition free_candidate (parent : string) : command string :=
  fun fs => match find (fun p => negb (path_exists p fs)) (map (fun n => join_path parent (stream_name pid n)) (seq 0 16)) with
            | Some p => (Ok p, fs)
            | None => (Err (Bail "unable to allocate a backup streaming path"), fs)
            end.

Definition stream_verified_backup (source : string) : command output :=
  let parent := parent_of source in
  let! _ := cleanup_stale_streamed_backups parent in
  let! temporary := free_candidate parent in
  let! _ := backup_database fails left_behind parse_password_hash notice_len now source temporary in
  let! written := attempt (
    unless negb (fails Open temporary) else io_error Open in
    let! found := entry_at temporary in
    match found with
    | Some (Regular f) => unless negb broken_pipe else Bail "Broken pipe" in
                          lift (ok_or (f_image f) (io_error Open))
    | _ => fail (io_error Open)
    end) in
  let! cleanup := attempt (
    unless negb (fails Unlink temporary) else io_error Unlink in
    drop_entry temporary) in
  let! im := lift written in
  let! _ := lift cleanup in
  ret (Stream im).

(** ** The offline requests *)
Notation open_offline := (open_offline fails parse_password_hash notice_len now).
Notation lock := (acquire_path_lock fails).

(** Lock, open, run one transaction of the database layer. *)
Definition on_database {A} (database : string) (f : db -> result (A * db)) : command A :=
  let! _ := lock database in
  let! im := open_offline database in
  let! (a, _) := commit database im f in
  ret a.
Definition update_user {A} (database user_id : string) (f : Z -> db -> result (A * db)) : command output :=
  let! user_id := lift (parse_user_id user_id) in
  let! _ := on_database database (f user_id) in
  ret (Text ("updated user: " +:+ pretty user_id)).

Definition create_user_request (database email name : string) : command output :=
  let! _ := lock database in
  let! password := lift (read_password stdin) in
  let! password_hash := lift (hash_password password) in
  let! found := symlink_metadata fails database in
  let! user_id :=
    match found with
    | Some _ =>
        let! im := open_offline database in
        let! (id, _) := commit database im (create_user parse_password_hash now email name password_hash) in
        ret id
    | None =>
        let! initial_user := lift (new_initial_user parse_password_hash email name password_hash) in
        let! im := open_internal fails parse_password_hash notice_len now database (Some initial_user) in
        match im_rows im with
        | Multi d => match list_users d with
                     | u :: _ => ret (us_id u)
                     | [] => fail (Bail "initialized database has no user")
                     end
        | Single _ => fail (SqliteError "no such table")
        end
    end in
  ret (Text ("created user: " +:+ pretty user_id)).

Definition execute (o : offline) : command output :=
  match o with
  | UserList database =>
      let! _ := lock database in
      let! im := open_offline database in
      match im_rows im with
      | Multi d => ret (Text (render_users (list_users d)))
      | Single _ => fail (SqliteError "no such table")
      end
  | UserCreate database email name => create_user_request database email name
  | UserSetPassword database user_id =>
      let! user_id := lift (parse_user_id user_id) in
      let! _ := lock database in
      let! im := open_offline database in
      let! password := lift (read_password stdin) in
      let! password_hash := lift (hash_password password) in
      let! _ := commit database im (set_user_password parse_password_hash now user_id password_hash) in
      ret (Text ("updated user: " +:+ pretty user_id))
  | UserSetEmail database user_id email => update_user database user_id (fun id => set_user_email now id email)
  | UserSetName database user_id name => update_user database user_id (fun id => set_user_name now id name)
  | UserSetStatus database user_id status => update_user database user_id (fun id => set_user_status now id status)
  | UserSetRole database user_id role => update_user database user_id (fun id => set_user_role now id role)
  | UserRevokeSessions database user_id =>
      let! user_id := lift (parse_user_id user_id) in
      let! n := on_database database (revoke_user_sessions now user_id) in
      ret (Text ("revoked sessions: " +:+ pretty n))
  | Backup source output =>
      let! _ := backup_database fails left_behind parse_password_hash notice_len now source output in
      ret (Text ("backup verified: " +:+ output))
  | BackupStdout source => stream_verified_backup source
  | VerifyDatabase path =>
      let! _ := verify_database_file fails parse_password_hash notice_len now path in
      ret (Text ("database verified: " +:+ path))
  | Restore source destination =>
      let! _ := restore_file fails left_behind parse_password_hash notice_len now uuids source destination in
      ret (Text ("restore verified: " +:+ destination))
  | RecoverStaleBackup source destination =>
      let! _ := recover_stale_backup_file fails left_behind parse_password_hash notice_len now uuids source destination in
      ret (Text ("stale-backup recovery verified: " +:+ destination))
  | MigrateLegacy source destination =>
      let! initial_user := lift (configured_initial_user parse_password_hash env) in
      let! _ := migrate_legacy_file fails left_behind parse_password_hash notice_len now initial_user uuids source destination in
      ret (Text ("legacy migration verified: " +:+ source +:+ " -> " +:+ destination))
  | Migrate source destination =>
      let! _ := lock source in
      let! source_version := versioned_migration_source_version fails parse_password_hash notice_len now source in
      let! initial_user := if source_version <? 5
                           then let! u := lift (configured_initial_user parse_password_hash env) in ret (Some u)
                           else ret None in
      let! _ := migrate_versioned_file fails left_behind parse_password_hash notice_len now initial_user uuids source destination in
      ret (Text ("versioned migration verified: " +:+ source +:+ " -> " +:+ destination))
  | RebindDataHost database data_host backup =>
      let! changed := rebind_file fails left_behind parse_password_hash notice_len now validate_public_data_host
                        database data_host backup in
      ret (Text ("rebound " +:+ pretty changed +:+ " vault(s) to " +:+ data_host +:+ "; verified backup: " +:+ backup))
  | PurgeDeleted database vault backup =>
      let! changed := purge_deleted_file fails left_behind parse_password_hash notice_len now database vault backup in
      ret (Text ("purged " +:+ pretty changed +:+ " historical revision(s) for vault " +:+ vault +:+ "; verified backup: " +:+ backup))
  | RevokeAllSessions path =>
      let! n := revoke_all_sessions_file fails parse_password_hash notice_len now path in
      ret (Text ("revoked sessions: " +:+ pretty n))
  end.
End Execute.
