(* ===== verification/CliSpec.v ===== *)
(** * What the command line does to the databases *)

From Stdlib Require Import ZArith Lia List String Ascii Bool.
From stdpp Require Import base list strings pretty gmap.
From S2P Require Import Prelude Sql Model Store Auth Accounts Vaults Sharing Revisions Invariant Heads Preservation.
From S2P Require Import Machine Scenario Verify Recovery Catalogue Ddl CatalogueSpec Migrations MigrationsSpec.
From S2P Require Import Process Files FilesSpec Text Config Cli.

Local Open Scope string_scope.
Local Open Scope Z_scope.

Section Cli.
Context (fails : syscall -> string -> bool) (left_behind : string -> bool).
Context (pp : string -> option PasswordHash) (th : string -> string) (nl : PushNotice -> Z) (now : Z).
Context (hash_password : string -> result string) (render_users : list UserSummary -> string).
Context (env : string -> option string) (stdin : option string) (uuids : list string).
Context (alive : Z -> bool) (own leads : string -> bool) (pid : Z) (broken_pipe : bool).
Notation verify := (verify_connection pp nl now).
Notation execute := (execute fails left_behind pp nl now hash_password render_users env stdin uuids alive own leads pid broken_pipe).

(** ** One transaction on an existing database *)
Definition with_rows (im : image) (d : db) : image :=
  {| im_tables := im_tables im; im_history := im_history im; im_rows := Multi d |}.

(** The file after a transaction: unchanged, or its rows are the transaction's result. *)
Definition transacted {A B} (database : string) (f : file) (t : db -> result (A * db)) (out : result B * files) : Prop :=
  match out with
  | (Ok _, fs') => exists im d a d', f_image f = Some im /\ verify im = Ok tt /\ im_rows im = Multi d /\ t d = Ok (a, d') /\
                     fs' !! database = Some (Regular {| f_links := f_links f; f_mode := f_mode f; f_image := Some (with_rows im d') |})
  | (Err _, fs') => fs' !! database = Some (Regular f)
  end.

Lemma commit_spec {A B} database f im (t : db -> result (A * db)) (k : A * image -> command B) fs :
  fs !! database = Some (Regular f) -> f_image f = Some im -> verify im = Ok tt ->
  (forall x fs1, exists y, k x fs1 = (Ok y, fs1)) ->
  transacted database f t ((let! x := commit database im t in k x) fs).
Proof using.
  intros Ef Eim Hv Hk. unfold commit, on_rows. destruct (connection_rows pp nl now im Hv) as (d & Ed & _). rewrite Ed.
  unfold bind, lift. destruct (t d) as [[a d']|e] eqn:Et; [|exact Ef].
  unfold write_image, bind, entry_at, put, ret. rewrite Ef. cbn match.
  match goal with |- transacted _ _ _ (k ?x ?fs1) => destruct (Hk x fs1) as [y ->] end.
  exists im, d, a, d'. split_and!; try done. apply lookup_insert_eq.
Qed.

Lemma open_existing_spec {A B} database f (t : db -> result (A * db)) (k : image -> command B) fs :
  fs !! database = Some (Regular f) ->
  (forall im, f_image f = Some im -> transacted database f t (k im fs)) ->
  transacted database f t ((let! im := open_existing fails database in k im) fs).
Proof using.
  intros Ef Hk. rewrite bind_reads by files.
  destruct (open_existing fails database fs) as [[im|e] fs1] eqn:Eo; cbn [fst]; [|exact Ef].
  apply open_ok in Eo as (-> & f' & Ef' & _ & Eim). rewrite Ef in Ef'. injection Ef' as <-. auto.
Qed.

Lemma lift_spec {A B C} database f (t : db -> result (A * db)) (r : result C) (k : C -> command B) fs :
  fs !! database = Some (Regular f) -> (forall c, r = Ok c -> transacted database f t (k c fs)) ->
  transacted database f t ((let! c := lift r in k c) fs).
Proof using. intros Ef Hk. unfold bind, lift. destruct r; [auto|exact Ef]. Qed.

Lemma open_offline_spec {A B} database f (t : db -> result (A * db)) (k : image -> command B) fs :
  fs !! database = Some (Regular f) ->
  (forall im, f_image f = Some im -> verify im = Ok tt -> transacted database f t (k im fs)) ->
  transacted database f t ((let! im := open_offline fails pp nl now database in k im) fs).
Proof using.
  intros Ef Hk. pose proof (open_existing_spec database f t (fun im => let! _ := lift (verify im) in k im) fs Ef) as H.
  unfold open_offline, bind in *. destruct (open_existing fails database fs) as [[im|e] fs1]; [|apply H; intros im Eim];
    [unfold lift in *; destruct (verify im) as [[]|]; apply H; intros im' Eim|];
    destruct (verify _) as [[]|] eqn:Ev; cbn; auto.
Qed.

Lemma lock_spec {A B} database f (t : db -> result (A * db)) (k : unit -> command B) fs :
  fs !! database = Some (Regular f) ->
  (forall fs1, fs1 !! database = Some (Regular f) -> transacted database f t (k tt fs1)) ->
  transacted database f t ((let! x := acquire_path_lock fails database in k x) fs).
Proof using.
  intros Ef Hk. unfold bind. pose proof (lock_keeps fails database fs _ _ Ef) as Hl.
  destruct (acquire_path_lock fails database fs) as [[[]|e] fs1]; cbn [snd] in Hl; [|exact Hl].
  specialize (Hk fs1 Hl). unfold transacted in *. destruct (k tt fs1) as [[]]; done.
Qed.

(** ** The account commands as operations of the server *)
Definition account_change (o : offline) : result (string * op) :=
  match o with
  | UserCreate database email name =>
      let? password := read_password stdin in
      let? hash := hash_password password in
      Ok (database, OpCreateUser email name hash)
  | UserSetPassword database user_id =>
      let? id := parse_user_id user_id in
      let? password := read_password stdin in
      let? hash := hash_password password in
      Ok (database, OpSetPassword id hash)
  | UserSetEmail database user_id email => let? id := parse_user_id user_id in Ok (database, OpSetEmail id email)
  | UserSetName database user_id name => let? id := parse_user_id user_id in Ok (database, OpSetName id name)
  | UserSetStatus database user_id status => let? id := parse_user_id user_id in Ok (database, OpSetStatus id status)
  | UserSetRole database user_id role => let? id := parse_user_id user_id in Ok (database, OpSetRole id role)
  | UserRevokeSessions database user_id => let? id := parse_user_id user_id in Ok (database, OpRevokeUserSessions id)
  | RevokeAllSessions path => Ok (path, OpRevokeAll)
  | _ => Err (Bail "not an account command")
  end.

(** The outcome as a step of the server's machine. *)
Definition stepped {B} (database : string) (f : file) (x : op) (out : result B * files) : Prop :=
  match out with
  | (Ok _, fs') => exists im d, f_image f = Some im /\ verify im = Ok tt /\ im_rows im = Multi d /\
                     fs' !! database = Some (Regular {| f_links := f_links f; f_mode := f_mode f;
                                                        f_image := Some (with_rows im (exec pp th nl now x d)) |})
  | (Err _, fs') => fs' !! database = Some (Regular f)
  end.

Lemma transacted_step {A B} database f (t : db -> result (A * db)) x (out : result B * files) :
  (forall d a d', t d = Ok (a, d') -> exec pp th nl now x d = d') -> transacted database f t out -> stepped database f x out.
Proof using.
  intros Hx. unfold transacted, stepped. destruct out as [[b|e] fs']; [|done].
  intros (im & d & a & d' & H1 & H2 & H3 & H4 & H5). exists im, d. rewrite (Hx d a d' H4). done.
Qed.

Lemma on_database_spec {A} database (t : db -> result (A * db)) f fs :
  fs !! database = Some (Regular f) -> transacted database f t (on_database fails pp nl now database t fs).
Proof using.
  intros Ef. unfold on_database. apply lock_spec; [done|]. intros fs1 E1. apply open_offline_spec; [done|]. intros im Eim Hv.
  apply commit_spec; try done. intros [a im1] fs2. by eexists.
Qed.

Lemma transacted_ret {A B C} database f (t : db -> result (A * db)) (m : command B) (k : B -> C) fs :
  transacted database f t (m fs) -> transacted database f t ((let! b := m in ret (k b)) fs).
Proof using. unfold bind. destruct (m fs) as [[b|e] fs1]; done. Qed.

Lemma update_user_spec {A} database user_id id (t : Z -> db -> result (A * db)) f fs :
  parse_user_id user_id = Ok id -> fs !! database = Some (Regular f) ->
  transacted database f (t id) (update_user fails pp nl now database user_id t fs).
Proof using.
  intros Eid Ef. unfold update_user. apply lift_spec; [done|]. intros id' E. rewrite Eid in E. injection E as <-.
  apply (transacted_ret database f (t id) (on_database fails pp nl now database (t id)) (fun _ => Text _)). by apply on_database_spec.
Qed.

Lemma account_command_steps o database x f fs :
  account_change o = Ok (database, x) -> fs !! database = Some (Regular f) -> stepped database f x (execute o fs).
Proof using.
  intros Ex Ef. destruct o; cbn [account_change] in Ex; try discriminate Ex; cbn [Cli.execute].
  all: try (destruct (parse_user_id user_id) as [id|] eqn:Eid; [|done]).
  all: try (destruct (read_password stdin) as [password|] eqn:Ep; [|done]; destruct (hash_password password) as [hash|] eqn:Eh; [|done]).
  all: injection Ex as <- <-.
  - apply (transacted_step _ _ (create_user pp now email name hash)); [by intros d a d' E; cbn; rewrite E|]. unfold create_user_request.
    apply lock_spec; [done|]. intros fs1 E1. rewrite Ep. unfold bind at 1, lift at 1. rewrite Eh. unfold bind at 1, lift at 1.
    unfold symlink_metadata. unfold bind at 1. destruct (fails Stat database0); cbn [negb]; [exact E1|]. unfold entry_at. rewrite E1.
    apply (transacted_ret database0 f _ (let! im := open_offline fails pp nl now database0 in
      let! (id, _) := commit database0 im (create_user pp now email name hash) in ret id) (fun id => Text _)).
    apply open_offline_spec; [done|]. intros im Eim Hv. apply commit_spec; try done. intros [a im1] fs2. by eexists.
  - apply (transacted_step _ _ (set_user_password pp now id hash)); [by intros d a d' E; cbn; rewrite E|].
    apply lift_spec; [done|]. intros id' [= <-]. apply lock_spec; [done|]. intros fs1 E1.
    apply open_offline_spec; [done|]. intros im Eim Hv. apply lift_spec; [done|]. intros p [= <-].
    apply lift_spec; [done|]. intros h E. rewrite Eh in E. injection E as <-.
    apply commit_spec; try done. intros y fs2. by eexists.
  - apply (transacted_step _ _ (set_user_email now id email)); [by intros d a d' E; cbn; rewrite E|]. by apply (update_user_spec _ _ id (fun id => set_user_email now id email)).
  - apply (transacted_step _ _ (set_user_name now id name)); [by intros d a d' E; cbn; rewrite E|]. by apply (update_user_spec _ _ id (fun id => set_user_name now id name)).
  - apply (transacted_step _ _ (set_user_status now id status)); [by intros d a d' E; cbn; rewrite E|]. by apply (update_user_spec _ _ id (fun id => set_user_status now id status)).
  - apply (transacted_step _ _ (set_user_role now id role)); [by intros d a d' E; cbn; rewrite E|]. by apply (update_user_spec _ _ id (fun id => set_user_role now id role)).
  - apply (transacted_step _ _ (revoke_user_sessions now id)); [by intros d a d' E; cbn; rewrite E|].
    apply lift_spec; [done|]. intros id' [= <-].
    apply (transacted_ret database0 f _ (on_database fails pp nl now database0 (revoke_user_sessions now id)) (fun n => Text _)). by apply on_database_spec.
  - apply (transacted_step _ _ (fun d => Ok (revoke_all_sessions now d))); [by intros d a d' [= <- <-]|].
    apply (transacted_ret path f _ (revoke_all_sessions_file fails pp nl now path) (fun n => Text _)). unfold revoke_all_sessions_file.
    apply open_existing_spec; [done|]. intros im Eim. apply lift_spec; [done|]. intros [] Hv. apply commit_spec; try done.
    intros [n im1] fs2. by eexists.
Qed.
End Cli.



(** ** Streamed backups *)
Section Stream.
Context (fails : syscall -> string -> bool) (left_behind : string -> bool).
Context (pp : string -> option PasswordHash) (nl : PushNotice -> Z) (now : Z).
Context (alive : Z -> bool) (own leads : string -> bool) (pid : Z) (broken_pipe : bool).
Notation stream := (stream_verified_backup fails left_behind pp nl now alive own leads pid broken_pipe).

(** The leftover of a stream whose process is gone. *)
Definition stale (parent p : string) : Prop :=
  exists name owner, p = join_path parent name /\ streamed_backup_owner_pid name = Some owner /\ alive owner = false /\ own p = true.

Lemma cleanup_each_spec parent names fs p :
  let fs' := (cleanup_each fails alive own parent names fs).2 in fs' !! p = fs !! p \/ (stale parent p /\ fs' !! p = None).
Proof using.
  revert fs. induction names as [|name names IH]; intros fs; cbn zeta; cbn [cleanup_each]; [by left|].
  destruct (streamed_backup_owner_pid name) as [owner|] eqn:Eo; [|apply IH].
  unfold symlink_metadata, bind, entry_at. destruct (fails Stat (join_path parent name)); cbn [negb]; [by left|].
  destruct (fs !! join_path parent name) as [[f|]|] eqn:Ef; [|apply IH|by left].
  destruct (own (join_path parent name)) eqn:Eown; cbn [negb orb]; [|apply IH]. destruct (alive owner) eqn:Ea; [apply IH|].
  destruct (fails Unlink (join_path parent name)); cbn [negb]; [by left|]. unfold drop_entry.
  destruct (IH (delete (join_path parent name) fs)) as [H|[H1 H2]]; [|by right].
  destruct (decide (p = join_path parent name)) as [->|Hne].
  - right. rewrite H, lookup_delete_eq. split; [|done]. by exists name, owner.
  - left. rewrite H. by apply lookup_delete_ne.
Qed.

Lemma cleanup_spec parent fs p :
  let fs' := (cleanup_stale_streamed_backups fails alive own parent fs).2 in fs' !! p = fs !! p \/ (stale parent p /\ fs' !! p = None).
Proof using.
  unfold cleanup_stale_streamed_backups. cbn zeta. unfold bind, read_dir. destruct (is_empty parent || fails Open parent); [by left|].
  apply cleanup_each_spec.
Qed.

(** The file system after a stream: the files of dead streams may be gone. *)
Definition swept (parent : string) (fs fs' : files) : Prop := forall p e, fs !! p = Some e -> fs' !! p = Some e \/ stale parent p.

Lemma stream_spec source fs r fs' :
  stream source fs = (r, fs') ->
  swept (parent_of source) fs fs' /\
  match r with
  | Ok out => exists im f, out = Stream im /\ fs !! source = Some (Regular f) /\ f_image f = Some im /\
                verify_connection pp nl now im = Ok tt /\ (forall p, fs !! p = None -> fs' !! p = None)
  | Err _ => True
  end.
Proof using.
  intros E. unfold stream_verified_backup in E. cbn zeta in E. pose proof (cleanup_spec (parent_of source) fs) as Hc. cbn zeta in Hc.
  unfold bind at 1 in E. destruct (cleanup_stale_streamed_backups _ _ _ _ fs) as [[[]|e] fs1]; cbn [snd] in Hc.
  2: { injection E as <- <-. split; [|done]. intros p e' Hp. destruct (Hc p) as [->|[? _]]; auto. }
  unfold bind at 1, free_candidate at 1 in E. destruct (find _ _) as [temporary|] eqn:Et.
  2: { injection E as <- <-. split; [|done]. intros p e' Hp. destruct (Hc p) as [->|[? _]]; auto. }
  unfold bind at 1 in E. pose proof (run_copy_keeps fails left_behind pp nl now JBackup source temporary fs1) as Hk. cbn [run_copy] in Hk.
  destruct (backup_database _ _ _ _ _ source temporary fs1) as [[[]|e] fs2] eqn:Eb; cbn [snd] in Hk.
  2: { injection E as <- <-. split; [|done]. intros p e' Hp. destruct (Hc p) as [Hs|[? _]]; [left; apply Hk; congruence|auto]. }
  apply backup_made in Eb as (f & im & Ef & Eim & Hv & Hfree & ->).
  assert (fs !! source = Some (Regular f)) as Ef0 by (destruct (Hc source) as [H|[_ H]]; congruence).
  set (fs2 := <[temporary := complete im]> fs1) in *.
  assert (forall fs3, (fs3 = fs2 \/ fs3 = delete temporary fs2) -> swept (parent_of source) fs fs3) as Hsw.
  { intros fs3 H3 p e Hp. destruct (Hc p) as [Hs|[? _]]; [|auto]. left. assert (p <> temporary) as Hne by (intros ->; congruence).
    destruct H3 as [->| ->]; unfold fs2; rewrite ?lookup_delete_ne, lookup_insert_ne by done; congruence. }
  assert (fs2 !! temporary = Some (complete im)) as Etmp by apply lookup_insert_eq.
  unfold bind, attempt, entry_at, drop_entry, lift, ret, fail in E.
  destruct (fails Open temporary), broken_pipe, (fails Unlink temporary); cbn [negb] in E; rewrite ?Etmp in E; injection E as <- <-.
  all: split; [apply Hsw; auto|]; try done.
  exists im, f. split_and!; try done. intros p Hp. destruct (decide (p = temporary)) as [->|Hne]; [apply lookup_delete_eq|].
  rewrite lookup_delete_ne by done. unfold fs2. rewrite lookup_insert_ne by done. destruct (Hc p) as [->|[_ ->]]; done.
Qed.
End Stream.

(** A streamed backup is a verified copy and leaves no trace.  [backup-stdout] removes
    from the directory only leftovers of earlier streams whose process is gone and that
    belong to the same user; every other entry stays as it is, whatever fails.  When it
    succeeds, the streamed bytes are those of the source, which passes the whole
    verification, and no new entry remains. *)
Theorem streamed_backup_sound fails left_behind pp nl now alive own leads pid broken_pipe source fs r fs' :
  stream_verified_backup fails left_behind pp nl now alive own leads pid broken_pipe source fs = (r, fs') ->
  (forall p e, fs !! p = Some e -> fs' !! p = Some e \/
     exists name owner, p = join_path (parent_of source) name /\ streamed_backup_owner_pid name = Some owner /\
       alive owner = false /\ own p = true) /\
  match r with
  | Ok out => exists im f, out = Stream im /\ fs !! source = Some (Regular f) /\ f_image f = Some im /\
                verify_connection pp nl now im = Ok tt /\ (forall p, fs !! p = None -> fs' !! p = None)
  | Err _ => True
  end.
Proof. apply stream_spec. Qed.

Definition stream_files : files :=
  {["/srv/live.sqlite" := complete demo_image; "/srv/.blackglass-backup-stream-41-0.sqlite" := complete demo_image]}.
Lemma streamed_backup_sound_witness :
  exists fs', stream_verified_backup no_failure (fun _ => false) demo_parse demo_notice_len 5000 (fun p => p =? 7) (fun _ => true)
      (fun _ => true) 7 false "/srv/live.sqlite" stream_files = (Ok (Stream demo_image), fs') /\
    verify_connection demo_parse demo_notice_len 5000 demo_image = Ok tt.
Proof.
  destruct (stream_verified_backup no_failure (fun _ => false) demo_parse demo_notice_len 5000 (fun p => p =? 7) (fun _ => true)
    (fun _ => true) 7 false "/srv/live.sqlite" stream_files) as [r fs'] eqn:E.
  destruct (streamed_backup_sound _ _ _ _ _ _ _ _ _ _ _ _ _ _ E) as [_ H].
  assert (r = Ok (Stream demo_image)) as -> by (change r with (fst (r, fs')); rewrite <- E; vm_compute; reflexivity).
  destruct H as (im & f & Eo & _ & _ & Hv & _). injection Eo as <-. exists fs'. split; [reflexivity|exact Hv].
Defined.

(** ** A path without a directory *)

(** [backup-stdout] never works on a path without a directory part: for every bare file
    name it reports an error before it looks at the database, because the parent of such a
    path is the empty path, which cannot be listed. *)
Theorem bare_name_never_streams fails left_behind pp nl now alive own leads pid broken_pipe source fs :
  contains_char "/"%char source = false ->
  exists e, stream_verified_backup fails left_behind pp nl now alive own leads pid broken_pipe source fs = (Err e, fs).
Proof.
  intros H. assert (parent_of source = "") as Ep.
  { unfold parent_of, rsplit_once. assert (split_once_bytes "/"%char (rev (bytes_of source)) = None) as ->; [|done].
    unfold contains_char in H. rewrite <- (rev_involutive (bytes_of source)) in H. set (l := rev (bytes_of source)) in *. clearbody l.
    assert (forall c, In c l -> Ascii.eqb "/"%char c = false) as Hl.
    { intros c Hc. destruct (Ascii.eqb "/"%char c) eqn:E; [|done]. rewrite <- H. symmetry. apply existsb_exists. exists c.
      split; [by apply in_rev in Hc|done]. }
    clear H. induction l as [|c l IH]; [done|]. cbn [split_once_bytes]. rewrite Ascii.eqb_sym, (Hl c) by (by left).
    rewrite IH; [done|]. intros x Hx. apply Hl. by right. }
  eexists. unfold stream_verified_backup. rewrite Ep. reflexivity.
Qed.

Lemma bare_name_never_streams_witness :
  exists e, stream_verified_backup no_failure (fun _ => false) demo_parse demo_notice_len 5000 (fun _ => true) (fun _ => true)
    (fun _ => true) 7 false "live.sqlite" demo_files = (Err e, demo_files).
Proof. apply (bare_name_never_streams _ _ _ _ _ _ _ _ _ _ "live.sqlite" demo_files). vm_compute. reflexivity. Defined.
