(* ===== verification/Staging.v ===== *)
(** * The staging directory of uploads ([prepare_staging], [cleanup_staging])

    The directory holds one private [<uuid>.part] file per upload in progress and a marker
    that says the directory is the server's.  Every system call may fail ([fails]); the
    directory lists its entries in an arbitrary order. *)

From Stdlib Require Import ZArith Lia List String Ascii Bool.
From stdpp Require Import base list strings gmap.
From S2P Require Import Prelude Sql Model Auth Text Process.

Local Open Scope Z_scope.

Definition STAGING_MARKER : string := ".blackglass-staging-v1".
Definition STAGING_MARKER_CONTENT : string := "blackglass-server staging v1" +:+ String "010" "".

(** ** The directory *)
Inductive child := File (mode : Z) (content : string) | Irregular.
Notation children := (gmap string child).
Inductive place := Missing | NotDirectory | Directory (mode : Z) (c : children).
Definition is_file (c : child) : bool := match c with File _ _ => true | Irregular => false end.

Inductive syscall :=
| Lstat (name : option string) | CreateParents | CreateDirectory | ReadDirectory | EntryType (name : string)
| Remove (name : string) | CreateMarker | ReadMarker | WriteMarker | SyncMarker.

(** ** Names of staged uploads *)

(** [OsStr::to_str]: well-formed UTF-8. *)
Fixpoint valid_utf8 (l : list ascii) : bool :=
  match l with
  | [] => true
  | a :: l =>
      if code a <? 128 then valid_utf8 l else
      match l with
      | [] => false
      | b :: l =>
          if in_range 194 223 (code a) && continues b then valid_utf8 l else
          match l with
          | [] => false
          | c :: l =>
              if ((code a =? 224) && in_range 160 191 (code b) || (code a =? 237) && in_range 128 159 (code b)
                  || (in_range 225 236 (code a) || in_range 238 239 (code a)) && continues b) && continues c
              then valid_utf8 l else
              match l with
              | [] => false
              | d :: l =>
                  ((code a =? 240) && in_range 144 191 (code b) || (code a =? 244) && in_range 128 143 (code b)
                   || in_range 241 243 (code a) && continues b) && continues c && continues d && valid_utf8 l
              end
          end
      end
  end.
Definition to_str (name : string) : option string := if valid_utf8 (bytes_of name) then Some name else None.

Definition strip_suffix (suffix s : string) : option string :=
  let n := (length (bytes_of s) - length (bytes_of suffix))%nat in
  if String.eqb (string_of_list_ascii (drop n (bytes_of s))) suffix
  then Some (string_of_list_ascii (take n (bytes_of s))) else None.

Section Staging.
(** [Uuid::parse_str] accepts a text; the bytes a failed write leaves in the marker; the
    umask of the process. *)
Context (parse_uuid : string -> bool) (list_dir : children -> list (string * child)).
Context (fails : syscall -> bool) (partial : string) (umask : Z).

Definition staging_part_name (name : string) : bool :=
  match to_str name with
  | None => false
  | Some name => match strip_suffix ".part" name with Some value => parse_uuid value | None => false end
  end.

Definition io_failed : error := Bail "I/O error".
Definition call (c : syscall) : stateful place unit := unless negb (fails c) else io_failed in ret tt.
Definition here : stateful place place := fun p => (Ok p, p).
Definition become (p : place) : stateful place unit := fun _ => (Ok tt, p).
Definition masked (mode : Z) : Z := Z.land mode (Z.lnot umask).

(** ** [validate_staging_directory] *)
Definition validate_staging_directory (p : place) : stateful place children :=
  match p with
  | Directory mode c =>
      unless Z.land mode 63 =? 0 else Bail "staging directory must not grant group or other permissions" in ret c
  | _ => fail (Bail "staging path must be a real directory")
  end.

Definition entries_of (p : place) : children := match p with Directory _ c => c | _ => ∅ end.

(** [validate_unmarked_staging_contents]: the first foreign entry ends the scan. *)
Fixpoint only_parts (l : list (string * child)) : stateful place unit :=
  let refuse := Bail "refusing unrecognized pre-existing staging directory contents" in
  match l with
  | [] => ret tt
  | (name, c) :: l =>
      unless staging_part_name name else refuse in
      let! _ := call (EntryType name) in
      unless is_file c else refuse in
      only_parts l
  end.
Definition validate_unmarked_staging_contents : stateful place unit :=
  let! _ := call ReadDirectory in
  let! p := here in
  only_parts (list_dir (entries_of p)).

(** ** [cleanup_staging] *)
Definition set_child (name : string) (o : option child) : stateful place unit := fun p =>
  (Ok tt, match p with
          | Directory m c => Directory m (match o with Some x => <[name := x]> c | None => delete name c end)
          | _ => p
          end).
Fixpoint remove_parts (l : list (string * child)) : stateful place unit :=
  match l with
  | [] => ret tt
  | (name, c) :: l =>
      let! _ := if staging_part_name name then
                  let! _ := call (EntryType name) in
                  if is_file c then let! _ := call (Remove name) in set_child name None else ret tt
                else ret tt in
      remove_parts l
  end.
Definition cleanup_staging : stateful place unit :=
  let! _ := call ReadDirectory in
  let! p := here in
  match p with
  | Directory _ c => remove_parts (list_dir c)
  | _ => fail io_failed
  end.

(** ** [prepare_staging] *)
Definition ensure_marker (created : bool) : stateful place unit :=
  let! _ := call (Lstat (Some STAGING_MARKER)) in
  let! p := here in
  match entries_of p !! STAGING_MARKER with
  | Some (File _ content) =>
      let! _ := call ReadMarker in
      unless String.eqb content STAGING_MARKER_CONTENT else Bail "invalid Blackglass staging marker" in ret tt
  | Some Irregular => fail (Bail "invalid Blackglass staging marker")
  | None =>
      let! _ := if created then ret tt else validate_unmarked_staging_contents in
      let! _ := call CreateMarker in
      let! _ := set_child STAGING_MARKER (Some (File (masked 384) "")) in
      if fails WriteMarker then let! _ := set_child STAGING_MARKER (Some (File (masked 384) partial)) in fail io_failed else
      let! _ := set_child STAGING_MARKER (Some (File (masked 384) STAGING_MARKER_CONTENT)) in
      call SyncMarker
  end.

Definition prepare_staging : stateful place unit :=
  let! _ := call (Lstat None) in
  let! p := here in
  let! created := match p with
                  | Missing =>
                      let! _ := call CreateParents in
                      let! _ := call CreateDirectory in
                      let! _ := become (Directory (masked 448) ∅) in
                      let! _ := call (Lstat None) in
                      let! p := here in
                      let! _ := validate_staging_directory p in
                      ret true
                  | p => let! _ := validate_staging_directory p in ret false
                  end in
  let! _ := ensure_marker created in
  cleanup_staging.
End Staging.

(** ** What preparing the directory does *)
Section Spec.
Context (parse_uuid : string -> bool) (list_dir : children -> list (string * child)).
Context (fails : syscall -> bool) (partial : string) (umask : Z).
Context (list_dir_perm : forall c, Permutation (list_dir c) (map_to_list c)).

(** The entries the server may remove. *)
Definition staged (name : string) (c : child) : bool := staging_part_name parse_uuid name && is_file c.
Definition foreign (c : children) : Prop := exists name x, c !! name = Some x /\ staged name x = false.

Lemma listed c name x : In (name, x) (list_dir c) <-> c !! name = Some x.
Proof using list_dir_perm.
  rewrite <- elem_of_map_to_list, list_elem_of_In. split; apply Permutation_in; [|symmetry]; apply list_dir_perm.
Qed.

Lemma marker_no_part : staging_part_name parse_uuid STAGING_MARKER = false.
Proof using. reflexivity. Qed.

Lemma call_cases c p : call fails c p = (Ok tt, p) /\ fails c = false \/ call fails c p = (Err io_failed, p) /\ fails c = true.
Proof using. unfold call. destruct (fails c); auto. Qed.

(** [c'] is [c] without some staged uploads among [l]. *)
Definition thinned (l : list (string * child)) (c c' : children) : Prop :=
  forall name, c' !! name = c !! name \/ (c' !! name = None /\ exists x, In (name, x) l /\ staged name x = true).

Lemma remove_parts_spec l m c r p' :
  remove_parts parse_uuid fails l (Directory m c) = (r, p') ->
  exists c', p' = Directory m c' /\ thinned l c c' /\
    (r = Ok tt -> forall name x, In (name, x) l -> staged name x = true -> c' !! name = None).
Proof using.
  revert c. induction l as [|[name x] l IH]; intros c; cbn [remove_parts].
  { intros [= <- <-]. exists c. split_and!; [done|by left|by intros _ ? ? []]. }
  assert (forall c1, (c1 = c \/ (c1 = delete name c /\ staged name x = true)) -> (staged name x = true -> c1 !! name = None) ->
    remove_parts parse_uuid fails l (Directory m c1) = (r, p') ->
    exists c', p' = Directory m c' /\ thinned ((name, x) :: l) c c' /\
      (r = Ok tt -> forall n y, In (n, y) ((name, x) :: l) -> staged n y = true -> c' !! n = None)) as Hrest.
  { intros c1 Hc1 Hgone H. destruct (IH c1 H) as (c' & -> & Hthin & Hall). exists c'. split; [done|]. split.
    - intros n. destruct (Hthin n) as [E|(E & y & Hin & Hs)].
      + rewrite E. destruct Hc1 as [->|[-> Hs]]; [by left|]. destruct (decide (n = name)) as [->|Hn].
        * right. rewrite lookup_delete_eq. split; [done|]. exists x. split; [by left|done].
        * left. by rewrite lookup_delete_ne.
      + right. split; [done|]. exists y. split; [by right|done].
    - intros -> n y [[= <- <-]|Hin] Hs; [|eauto]. destruct (Hthin name) as [->|[-> _]]; auto. }
  assert (forall e, exists c', Directory m c = Directory m c' /\ thinned ((name, x) :: l) c c' /\
            (@Err unit e = Ok tt -> forall n y, In (n, y) ((name, x) :: l) -> staged n y = true -> c' !! n = None)) as Hstop.
  { intros e. exists c. split_and!; [done|by left|done]. }
  unfold bind at 1. unfold staged in Hrest at 1 2. destruct (staging_part_name parse_uuid name) eqn:En; cbn [andb] in Hrest.
  2: { intros H. eapply Hrest; [by left|done|exact H]. }
  unfold bind at 1. destruct (call_cases (EntryType name) (Directory m c)) as [[-> _]|[-> _]]; [|intros [= <- <-]; apply Hstop].
  destruct (is_file x) eqn:Ex; cbn [ret]. 2: { intros H. eapply Hrest; [by left|done|exact H]. }
  unfold bind at 1. destruct (call_cases (Remove name) (Directory m c)) as [[-> _]|[-> _]]; [|intros [= <- <-]; apply Hstop].
  cbn [set_child]. intros H. eapply Hrest; [by right|intros _; apply lookup_delete_eq|exact H].
Qed.

Lemma cleanup_staging_spec m c r p' :
  cleanup_staging parse_uuid list_dir fails (Directory m c) = (r, p') ->
  exists c', p' = Directory m c' /\
    (forall name, c' !! name = c !! name \/ (c' !! name = None /\ exists x, c !! name = Some x /\ staged name x = true)) /\
    (r = Ok tt -> forall name x, c' !! name = Some x -> staged name x = false).
Proof using list_dir_perm.
  unfold cleanup_staging, bind at 1. destruct (call_cases ReadDirectory (Directory m c)) as [[-> _]|[-> _]].
  2: { intros [= <- <-]. exists c. split_and!; [done|by left|done]. }
  cbn. intros (c' & -> & Hthin & Hall)%remove_parts_spec. exists c'. split; [done|].
  split.
  - intros name. destruct (Hthin name) as [->|(-> & x & Hin & Hs)]; [by left|]. right. split; [done|]. exists x.
    split; [by apply listed|done].
  - intros Hr name x Hx. destruct (staged name x) eqn:Es; [|done]. destruct (Hthin name) as [E|[E _]]; [|congruence].
    rewrite E in Hx. rewrite (Hall Hr name x) in E; [congruence|by apply listed|done].
Qed.

Lemma only_parts_reads l p r p' :
  only_parts parse_uuid fails l p = (r, p') -> p' = p /\ (r = Ok tt -> forall name x, In (name, x) l -> staged name x = true).
Proof using.
  unfold staged. induction l as [|[name x] l IH]; cbn [only_parts]; [by intros [= <- <-]|].
  destruct (staging_part_name parse_uuid name) eqn:En; [|by intros [= <- <-]]. unfold bind at 1.
  destruct (call_cases (EntryType name) p) as [[-> _]|[-> _]]; [|by intros [= <- <-]].
  destruct (is_file x) eqn:Ex; [|by intros [= <- <-]]. intros H. destruct (IH H) as [-> Hall]. split; [done|].
  intros Hr n y [[= <- <-]|Hin]; [by rewrite En, Ex|]. by apply Hall.
Qed.

(** The marker step adds at most the marker, and only to a directory without foreign entries. *)
Lemma marker_spec created m c r p' :
  (created = true -> c = ∅) -> ensure_marker parse_uuid list_dir fails partial umask created (Directory m c) = (r, p') ->
  (p' = Directory m c /\
     (r = Ok tt -> exists mode, c !! STAGING_MARKER = Some (File mode STAGING_MARKER_CONTENT))) \/
  (c !! STAGING_MARKER = None /\ ~ foreign c /\
   exists content, p' = Directory m (<[STAGING_MARKER := File (masked umask 384) content]> c) /\
     (r = Ok tt -> content = STAGING_MARKER_CONTENT)).
Proof using list_dir_perm.
  intros Hc. unfold ensure_marker, bind at 1.
  destruct (call_cases (Lstat (Some STAGING_MARKER)) (Directory m c)) as [[-> _]|[-> _]]; [|intros [= <- <-]; by left].
  cbn [bind here entries_of]. destruct (c !! STAGING_MARKER) as [[mode content|]|] eqn:Em.
  - intros H. left. unfold bind in H. destruct (call_cases ReadMarker (Directory m c)) as [[E _]|[E _]]; rewrite E in H; [|by injection H as <- <-].
    destruct (String.eqb_spec content STAGING_MARKER_CONTENT) as [->|]; injection H as <- <-; [by eauto|done].
  - intros [= <- <-]. by left.
  - unfold bind at 1. match goal with |- context [match ?x with _ => _ end] => destruct x as [[[]|e] p1] eqn:Ev end.
    + assert (p1 = Directory m c /\ ~ foreign c) as [-> Hnf].
      { destruct created.
        - injection Ev as <-. split; [done|]. rewrite (Hc eq_refl). intros (n & x & Hx & _). by rewrite lookup_empty in Hx.
        - unfold validate_unmarked_staging_contents, bind at 1 in Ev.
          destruct (call_cases ReadDirectory (Directory m c)) as [[E _]|[E _]]; rewrite E in Ev; [|done]. cbn in Ev.
          apply only_parts_reads in Ev as [-> Hall]. split; [done|]. intros (n & x & Hx%listed & Hs).
          rewrite (Hall eq_refl n x Hx) in Hs. done. }
      unfold bind at 1. destruct (call_cases CreateMarker (Directory m c)) as [[-> _]|[-> _]]; [|intros [= <- <-]; by left].
      intros H. right. split; [done|]. split; [done|]. cbn [bind set_child] in H. destruct (fails WriteMarker); cbn [bind set_child] in H.
      * injection H as <- <-. exists partial. rewrite insert_insert_eq. done.
      * exists STAGING_MARKER_CONTENT. rewrite insert_insert_eq in H.
        destruct (call_cases SyncMarker (Directory m (<[STAGING_MARKER := File (masked umask 384) STAGING_MARKER_CONTENT]> c))) as [[E _]|[E _]];
          rewrite E in H; injection H as <- <-; done.
    + intros [= <- <-]. left. split; [|done]. destruct created; [done|]. unfold validate_unmarked_staging_contents, bind at 1 in Ev.
      destruct (call_cases ReadDirectory (Directory m c)) as [[E _]|[E _]]; rewrite E in Ev; [|by injection Ev as _ <-].
      cbn in Ev. by apply only_parts_reads in Ev as [-> _].
Qed.

(** The directory the server works in: private, marked, without staged uploads. *)
Definition prepared (p : place) : Prop :=
  exists m c, p = Directory m c /\ Z.land m 63 = 0 /\
    (exists mode, c !! STAGING_MARKER = Some (File mode STAGING_MARKER_CONTENT)) /\
    forall name x, c !! name = Some x -> staged name x = false.

(** What a run may do to the entries, whatever its outcome. *)
Definition spares (p p' : place) : Prop :=
  (forall name x, entries_of p !! name = Some x -> staged name x = false -> entries_of p' !! name = Some x) /\
  (forall name x, entries_of p' !! name = Some x -> entries_of p !! name = Some x \/ name = STAGING_MARKER).

Lemma spares_refl p : spares p p.
Proof using. split; auto. Qed.

Lemma rest_spec created m c r p' :
  (created = true -> c = ∅) -> Z.land m 63 = 0 ->
  (let! _ := ensure_marker parse_uuid list_dir fails partial umask created in
   cleanup_staging parse_uuid list_dir fails) (Directory m c) = (r, p') ->
  spares (Directory m c) p' /\ (r = Ok tt -> prepared p') /\
  (foreign c -> c !! STAGING_MARKER = None -> p' = Directory m c /\ exists e, r = Err e).
Proof using list_dir_perm.
  intros Hc Hm. unfold bind. destruct (ensure_marker _ _ _ _ _ created (Directory m c)) as [r1 p1] eqn:Em.
  apply marker_spec in Em as [[-> Hok]|(Hnone & Hnf & content & -> & Hok)]; [..|done].
  - destruct r1 as [[]|e].
    + destruct (Hok eq_refl) as [mode Hmark]. intros (c' & -> & Hthin & Hclean)%cleanup_staging_spec. split_and!.
      * split; cbn.
        -- intros name x Hx Hs. destruct (Hthin name) as [->|(_ & y & Hy & Hs')]; [done|]. congruence.
        -- intros name x Hx. destruct (Hthin name) as [E|[E _]]; [|congruence]. left. congruence.
      * intros ->. exists m, c'. split_and!; [done|done| |by apply Hclean]. exists mode.
        destruct (Hthin STAGING_MARKER) as [->|(_ & y & Hy & Hs)]; [done|]. unfold staged in Hs. by rewrite marker_no_part in Hs.
      * congruence.
    + intros [= <- <-]. split_and!; [apply spares_refl|done|]. intros _ _. eauto.
  - assert (forall p2, (exists c', p2 = Directory m c' /\ thinned (list_dir (<[STAGING_MARKER := File (masked umask 384) content]> c))
        (<[STAGING_MARKER := File (masked umask 384) content]> c) c') -> spares (Directory m c) p2) as Hspare.
    { intros p2 (c' & -> & Hthin). split; cbn; intros name x Hx.
      - intros Hs. exfalso. apply Hnf. by exists name, x.
      - destruct (Hthin name) as [E|[E _]]; [|congruence]. rewrite E in Hx.
        destruct (decide (name = STAGING_MARKER)) as [->|Hn]; [by right|]. left. by rewrite lookup_insert_ne in Hx. }
    destruct r1 as [[]|e].
    + rewrite (Hok eq_refl) in *. intros (c' & -> & Hthin & Hclean)%cleanup_staging_spec. split_and!.
      * apply Hspare. exists c'. split; [done|]. intros name. destruct (Hthin name) as [|(E & x & Hx & Hs)]; [by left|].
        right. split; [done|]. exists x. split; [by apply listed|done].
      * intros ->. exists m, c'. split_and!; [done|done| |by apply Hclean]. exists (masked umask 384).
        destruct (Hthin STAGING_MARKER) as [->|(_ & y & _ & Hs)]; [apply lookup_insert_eq|].
        unfold staged in Hs. by rewrite marker_no_part in Hs.
      * done.
    + intros [= <- <-]. split_and!; [|done|done]. apply Hspare. eexists. split; [done|]. by left.
Qed.
End Spec.

Lemma prepare_staging_spec parse_uuid list_dir fails partial umask p r p' :
  (forall c, Permutation (list_dir c) (map_to_list c)) ->
  prepare_staging parse_uuid list_dir fails partial umask p = (r, p') ->
  spares parse_uuid p p' /\ (r = Ok tt -> prepared parse_uuid p') /\
  (foreign parse_uuid (entries_of p) -> entries_of p !! STAGING_MARKER = None -> p' = p /\ exists e, r = Err e).
Proof.
  intros Hl. unfold prepare_staging, bind at 1.
  assert (forall e, spares parse_uuid p p /\ (@Err unit e = Ok tt -> prepared parse_uuid p) /\
    (foreign parse_uuid (entries_of p) -> entries_of p !! STAGING_MARKER = None -> p = p /\ exists e', @Err unit e = Err e')) as Hstop.
  { intros e. split_and!; [apply spares_refl|done|]. eauto. }
  destruct (call_cases fails (Lstat None) p) as [[-> Ef]|[-> _]]; [|intros [= <- <-]; apply Hstop].
  unfold bind at 1, here at 1, bind at 1. destruct p as [| |m c].
  - unfold bind at 1. destruct (call_cases fails CreateParents Missing) as [[-> _]|[-> _]]; [|intros [= <- <-]; apply Hstop].
    unfold bind at 1. destruct (call_cases fails CreateDirectory Missing) as [[-> _]|[-> _]]; [|intros [= <- <-]; apply Hstop].
    unfold bind at 1, become at 1, bind at 1, call at 1. rewrite Ef. cbn [negb ret]. unfold bind at 1, here at 1.
    assert (Z.land (masked umask 448) 63 = 0) as Hm.
    { unfold masked. rewrite <- Z.land_assoc, (Z.land_comm (Z.lnot umask)), Z.land_assoc. apply Z.land_0_l. }
    unfold validate_staging_directory, bind at 1. rewrite Hm. cbn [Z.eqb ret].
    intros H. eapply rest_spec in H as (Hs & Hok & _); [|done..|done]. split_and!; [|done|].
    + destruct Hs as [Hs1 Hs2]. split; cbn in *; [by intros ? ? H%lookup_empty_Some|]. intros name x Hx. destruct (Hs2 name x Hx); auto.
    + intros (n & x & Hx & _). cbn in Hx. by rewrite lookup_empty in Hx.
  - intros [= <- <-]. apply Hstop.
  - unfold bind at 1, validate_staging_directory. destruct (Z.eqb_spec (Z.land m 63) 0) as [Hm|]; [|intros [= <- <-]; apply Hstop].
    cbn [ret]. intros H. eapply rest_spec in H; [exact H|done..|done].
Qed.

(** Preparing the staging directory never harms files that are not the server's.
    Whatever system calls fail and whatever the outcome, every entry other than a regular
    [<uuid>.part] file stays as it was and nothing but the marker is added; a directory that
    lacks the marker and holds anything else is refused unchanged.  When the preparation
    succeeds, the directory is a real one without group or other permissions, carries the
    server's marker and holds no staged upload of an earlier run. *)
Theorem staging_prepared parse_uuid list_dir fails partial umask p r p' :
  (forall c, Permutation (list_dir c) (map_to_list c)) ->
  prepare_staging parse_uuid list_dir fails partial umask p = (r, p') ->
  spares parse_uuid p p' /\ (r = Ok tt -> prepared parse_uuid p') /\
  (foreign parse_uuid (entries_of p) -> entries_of p !! STAGING_MARKER = None -> p' = p /\ exists e, r = Err e).
Proof. apply prepare_staging_spec. Qed.

(** One abandoned upload and a foreign directory, with and without the marker. *)
Definition demo_uuid (s : string) : bool := String.eqb s "0b9f2b9e-5a53-4f3f-9d7e-0c5c1a1f6f10".
Definition demo_staging (marked : bool) : place :=
  Directory 448 (list_to_map ([("0b9f2b9e-5a53-4f3f-9d7e-0c5c1a1f6f10.part"%string, File 384 "abc"); ("keep"%string, Irregular)]
    ++ (if marked then [(STAGING_MARKER, File 384 STAGING_MARKER_CONTENT)] else []))).
Lemma staging_prepared_witness :
  let run marked := prepare_staging demo_uuid map_to_list (fun _ => false) "" 18 (demo_staging marked) in
  prepared demo_uuid (run true).2 /\ (run false).2 = demo_staging false /\
  prepared demo_uuid (prepare_staging demo_uuid map_to_list (fun _ => false) "" 18 Missing).2.
Proof.
  intros run.
  pose proof (fun p => staging_prepared demo_uuid map_to_list (fun _ => false) "" 18 p _ _ (fun c => Permutation_refl _) (surjective_pairing _)) as H.
  split_and!.
  - apply (H (demo_staging true)). vm_compute. reflexivity.
  - apply (H (demo_staging false)); [|vm_compute; reflexivity]. exists "keep"%string, Irregular. split; vm_compute; reflexivity.
  - apply (H Missing). vm_compute. reflexivity.
Defined.
