(* ===== verification/Reservations.v ===== *)
(** * Storage reservations ([StorageReservations], [effective_storage_limit] of [server.rs])

    In-memory counters behind a mutex: every operation is one atomic step on the
    state.  Bytes promised to uploads in progress are counted globally and per owner
    until the reservation is dropped. *)

From Stdlib Require Import ZArith Lia List String Bool Permutation.
From stdpp Require Import base list strings gmap.
From S2P Require Import Prelude Sql.

Local Open Scope Z_scope.

(** ** Storage reservations *)
Module Storage.
Record state := { global_bytes : Z; owner_bytes : gmap Z Z }.
Record reservation := { rv_owner : Z; rv_bytes : Z }.

Definition empty_state : state := {| global_bytes := 0; owner_bytes := ∅ |}.
Definition reserved (s : state) : Z := global_bytes s.
Definition reserved_for_owner (u : Z) (s : state) : Z := default 0 (owner_bytes s !! u).

Definition try_reserve (committed_global committed_owner owner additional global_limit owner_limit : Z) (s : state)
    : option (reservation * state) :=
  if (committed_global <? 0) || (committed_owner <? 0) || (additional <=? 0) || (global_limit <=? 0)
     || (owner_limit <=? 0)
  then None else
  let owner_reserved := reserved_for_owner owner s in
  if (global_limit <? committed_global)
     || (global_limit - committed_global <? global_bytes s)
     || (global_limit - committed_global - global_bytes s <? additional)
     || (owner_limit <? committed_owner)
     || (owner_limit - committed_owner <? owner_reserved)
     || (owner_limit - committed_owner - owner_reserved <? additional)
  then None else
  Some ({| rv_owner := owner; rv_bytes := additional |},
        {| global_bytes := global_bytes s + additional;
           owner_bytes := <[owner := owner_reserved + additional]> (owner_bytes s) |}).

(** [Drop for StorageReservation]. *)
Definition release (r : reservation) (s : state) : state :=
  {| global_bytes := saturating_sub (global_bytes s) (rv_bytes r);
     owner_bytes :=
       match owner_bytes s !! rv_owner r with
       | None => owner_bytes s
       | Some b =>
           let b' := saturating_sub b (rv_bytes r) in
           if b' =? 0 then delete (rv_owner r) (owner_bytes s) else <[rv_owner r := b']> (owner_bytes s)
       end |}.

Definition effective_storage_limit (owner_used global_used owner_reserved global_reserved owner_limit global_limit : Z) : Z :=
  let global_free := Z.max (saturating_sub (saturating_sub global_limit global_used) global_reserved) 0 in
  Z.min (Z.max (saturating_sub owner_limit owner_reserved) 0) (saturating_add owner_used global_free).

(** The counters account exactly for the live reservations. *)
Definition bytes_of_owner (u : Z) (live : list reservation) : Z :=
  sum_of rv_bytes (select (fun r => rv_owner r =? u) live).
Record accounts (s : state) (live : list reservation) : Prop := {
  acc_positive : forall r, In r live -> 0 < rv_bytes r;
  acc_global : global_bytes s = sum_of rv_bytes live;
  acc_bound : global_bytes s <= i64_max;
  acc_owner : forall u, owner_bytes s !! u
                        = if bytes_of_owner u live =? 0 then None else Some (bytes_of_owner u live);
}.

Lemma sum_of_perm {A} (f : A -> Z) l l' : Permutation l l' -> sum_of f l = sum_of f l'.
Proof. unfold sum_of. induction 1; cbn; lia. Qed.

Lemma select_perm {A} (P : A -> bool) l l' : Permutation l l' -> Permutation (select P l) (select P l').
Proof.
  unfold select. induction 1 as [|x l l' _ IH|x y l|? ? ? _ IH1 _ IH2]; cbn.
  - done.
  - destruct (P x); [constructor|]; done.
  - destruct (P x), (P y); done || constructor.
  - etransitivity; done.
Qed.

Lemma accounts_perm s l l' : Permutation l l' -> accounts s l -> accounts s l'.
Proof.
  intros Hp [H1 H2 H3 H4]. constructor; auto.
  - intros r Hr. apply H1. eapply Permutation_in; [symmetry; exact Hp|done].
  - rewrite H2. apply sum_of_perm. done.
  - intros u. rewrite H4. unfold bytes_of_owner.
    rewrite (sum_of_perm rv_bytes _ _ (select_perm (fun r => rv_owner r =? u) _ _ Hp)). done.
Qed.

Lemma bytes_of_owner_cons u r live :
  bytes_of_owner u (r :: live) = (if rv_owner r =? u then rv_bytes r else 0) + bytes_of_owner u live.
Proof. unfold bytes_of_owner, select. cbn. destruct (rv_owner r =? u); cbn; unfold sum_of; cbn; lia. Qed.

Lemma bytes_of_owner_nonneg u live : (forall r, In r live -> 0 < rv_bytes r) -> 0 <= bytes_of_owner u live.
Proof. intros H. apply sum_of_nonneg. intros r Hr. apply in_select in Hr as [Hr _]. specialize (H r Hr). lia. Qed.

Lemma reserved_for_owner_exact s live u : accounts s live -> reserved_for_owner u s = bytes_of_owner u live.
Proof.
  intros [_ _ _ H]. unfold reserved_for_owner. rewrite H. destruct (Z.eqb_spec (bytes_of_owner u live) 0); cbn; lia.
Qed.

Lemma reserve_accounts cg co o n gl ol s live r s' :
  gl <= i64_max -> accounts s live -> try_reserve cg co o n gl ol s = Some (r, s') -> accounts s' (r :: live).
Proof.
  intros Hgl Hacc H. pose proof (reserved_for_owner_exact s live o Hacc) as Ho.
  destruct Hacc as [H1 H2 H3 H4]. unfold try_reserve in H. rewrite Ho in H. cbn zeta in H.
  destruct (_ || _) eqn:E1 in H; [done|]. destruct (_ || _) eqn:E2 in H; [done|]. injection H as <- <-. breflect.
  constructor; cbn.
  - intros x [<-|Hx]; cbn; [lia|auto].
  - unfold sum_of in *. cbn. lia.
  - lia.
  - intros u. rewrite bytes_of_owner_cons. cbn. destruct (Z.eqb_spec o u) as [->|Hne].
    + rewrite lookup_insert_eq. pose proof (bytes_of_owner_nonneg u live H1).
      rewrite (proj2 (Z.eqb_neq _ _)) by lia. f_equal. lia.
    + rewrite lookup_insert_ne by done. rewrite Z.add_0_l. apply H4.
Qed.

Lemma release_accounts s r live : accounts s (r :: live) -> accounts (release r s) live.
Proof.
  intros [H1 H2 H3 H4]. pose proof (H1 r (or_introl eq_refl)) as Hr.
  assert (forall x, In x live -> 0 < rv_bytes x) as H1' by (intros; apply H1; right; done).
  assert (0 <= sum_of rv_bytes live) as Hs by (apply sum_of_nonneg; intros x Hx; specialize (H1' x Hx); lia).
  assert (global_bytes s = rv_bytes r + sum_of rv_bytes live) as Hg by (rewrite H2; done).
  pose proof (H4 (rv_owner r)) as Ho. rewrite bytes_of_owner_cons, Z.eqb_refl in Ho.
  pose proof (bytes_of_owner_nonneg (rv_owner r) live H1') as Hnn.
  rewrite (proj2 (Z.eqb_neq _ _)) in Ho by lia.
  assert (bytes_of_owner (rv_owner r) live <= sum_of rv_bytes live) as Hle.
  { apply sum_of_select_le. intros x Hx. specialize (H1' x Hx). lia. }
  unfold i64_max in *. constructor; cbn; auto.
  - unfold saturating_sub. rewrite sat64_id; unfold i64_min, i64_max; lia.
  - unfold saturating_sub, sat64, i64_min, i64_max. lia.
  - intros u. rewrite Ho. unfold saturating_sub. rewrite sat64_id by (unfold i64_min, i64_max; lia).
    replace (rv_bytes r + bytes_of_owner (rv_owner r) live - rv_bytes r) with (bytes_of_owner (rv_owner r) live) by lia.
    specialize (H4 u). rewrite bytes_of_owner_cons in H4.
    destruct (Z.eqb_spec (rv_owner r) u) as [E|Hne].
    1: rewrite <- E.
    + destruct (Z.eqb_spec (bytes_of_owner (rv_owner r) live) 0); [apply lookup_delete_eq|apply lookup_insert_eq].
    + rewrite Z.add_0_l in H4.
      destruct (bytes_of_owner (rv_owner r) live =? 0); [rewrite lookup_delete_ne|rewrite lookup_insert_ne]; done.
Qed.

(** Any interleaving of reservations and releases by concurrent uploads. *)
Inductive run : state -> list reservation -> Prop :=
| run_start : run empty_state []
| run_reserve s live cg co o n gl ol r s' :
    run s live -> gl <= i64_max -> try_reserve cg co o n gl ol s = Some (r, s') -> run s' (r :: live)
| run_release s r live1 live2 : run s (live1 ++ r :: live2) -> run (release r s) (live1 ++ live2).

Lemma run_accounts s live : run s live -> accounts s live.
Proof.
  induction 1 as [|s live cg co o n gl ol r s' _ IH Hgl Ht|s r l1 l2 _ IH].
  - constructor; done.
  - eapply reserve_accounts; eauto.
  - apply release_accounts. eapply accounts_perm; [|exact IH]. symmetry. apply Permutation_middle.
Qed.

Lemma accounts_nonneg s live : accounts s live -> 0 <= reserved s.
Proof.
  intros [H1 H2 _ _]. unfold reserved. rewrite H2. apply sum_of_nonneg. intros r Hr. specialize (H1 r Hr). lia.
Qed.

(** Storage reservations never drift: after any interleaving of reservations and
    releases the global counter is the sum of the live reservations, each owner's
    counter the sum of theirs (with no entry left at zero), and no counter ever
    underflows or exceeds 64 bits. *)
Theorem reservations_exact s live :
  run s live -> accounts s live /\ 0 <= reserved s /\ (live = [] -> s = empty_state).
Proof.
  intros H. pose proof (run_accounts s live H) as Hacc. split; [done|]. split; [by eapply accounts_nonneg|].
  intros ->. destruct Hacc as [H1 H2 H3 H4].
  destruct s as [g m]. cbn in *. subst g. unfold empty_state. f_equal. apply map_eq. intros u.
    rewrite H4, lookup_empty. done.
Qed.

(** The storage limit shown to a client is honest: a further upload of [n] bytes is
    admitted exactly when it fits under the reported limit, taking into account what
    everybody has committed and reserved. *)
Theorem effective_limit_matches_admission s live o used_g used_o n gl ol :
  run s live -> 0 <= used_g <= i64_max -> 0 <= used_o <= i64_max -> 0 < n -> 0 < gl <= i64_max -> 0 < ol <= i64_max ->
  used_o + Z.max 0 (gl - used_g - reserved s) <= i64_max ->
  (is_Some (try_reserve used_g used_o o n gl ol s) <->
   used_o + n <= effective_storage_limit used_o used_g (reserved_for_owner o s) (reserved s) ol gl).
Proof.
  intros Hrun Hg Ho Hn Hgl Hol Hsum.
  pose proof (run_accounts s live Hrun) as Hacc. pose proof (accounts_nonneg s live Hacc) as Hres.
  assert (0 <= reserved_for_owner o s <= reserved s) as Hor.
  { rewrite (reserved_for_owner_exact s live o Hacc). destruct Hacc as [H1 H2 _ _]. unfold reserved. rewrite H2.
    split; [apply bytes_of_owner_nonneg; done|]. apply sum_of_select_le. intros x Hx. specialize (H1 x Hx). lia. }
  pose proof (acc_bound _ _ Hacc) as Hb. unfold reserved in *. unfold i64_max in *.
  unfold effective_storage_limit, saturating_sub, saturating_add.
  unfold sat64, i64_min, i64_max in *.
  unfold try_reserve. rewrite (proj2 (Z.ltb_ge used_g 0)), (proj2 (Z.ltb_ge used_o 0)), (proj2 (Z.leb_gt n 0)),
    (proj2 (Z.leb_gt gl 0)), (proj2 (Z.leb_gt ol 0)) by lia. cbn [orb]. cbn zeta.
  destruct (_ || _) eqn:E.
  - split; [intros []; done|]. intros H. exfalso. rewrite !orb_true_iff, !Z.ltb_lt in E. lia.
  - breflect. split; [intros _; lia|intros _; eexists; done].
Qed.

Lemma reservations_exact_witness :
  let s := {| global_bytes := 30; owner_bytes := {[7 := 30]} |} in
  run s [{| rv_owner := 7; rv_bytes := 30 |}] /\ 0 <= reserved s.
Proof.
  intros s. assert (run s [{| rv_owner := 7; rv_bytes := 30 |}]) as H.
  { refine (run_reserve empty_state [] 10 5 7 30 100 60 _ s run_start _ _); vm_compute; [discriminate|reflexivity]. }
  split; [exact H|]. exact (proj1 (proj2 (reservations_exact _ _ H))).
Defined.

Lemma effective_limit_matches_admission_witness :
  run empty_state [] /\
  (is_Some (try_reserve 10 5 7 30 100 60 empty_state) <-> 5 + 30 <= effective_storage_limit 5 10 0 0 60 100).
Proof.
  split; [exact run_start|].
  apply (effective_limit_matches_admission empty_state [] 7 10 5 30 100 60 run_start);
    split || idtac; vm_compute; reflexivity || discriminate.
Defined.
End Storage.
