(* ===== verification/Limits.v ===== *)
(** * Admission control ([SourceLimits], [ShareInviteLimits] and
    [UserConcurrency] of [server.rs])

    In-memory counters behind a mutex: every operation is one atomic step on the
    state.  An [Instant] is a number of milliseconds; [duration_since] of a later
    instant is zero.  A network address is its text. *)

From Stdlib Require Import ZArith Lia List String Bool Permutation.
From stdpp Require Import base list strings gmap.
From S2P Require Import Prelude Sql.

Local Open Scope Z_scope.

Definition SIGNIN_RATE_WINDOW : Z := 60 * 1000.
Definition SIGNIN_ATTEMPTS_PER_SOURCE : Z := 6.
Definition SHARE_INVITE_WINDOW : Z := 60 * 60 * 1000.
Definition MAX_SHARE_INVITE_USER_ENTRIES : Z := 256.
Definition MAX_UNAUTHENTICATED_WS_PER_SOURCE : Z := 4.
Definition MAX_SOURCE_LIMIT_ENTRIES : Z := 4096.

Definition duration_since (now t : Z) : Z := Z.max 0 (now - t).

(** [while front.is_some_and(p) { pop_front() }]. *)
Fixpoint pop_while {A} (p : A -> bool) (q : list A) : list A :=
  match q with
  | [] => []
  | x :: q' => if p x then pop_while p q' else q
  end.

(** ** Per-source limits: sign-in attempts and unauthenticated WebSockets *)
Module Source.
Record entry := {
  signin_attempts : list Z;
  unauthenticated_websockets : Z;
  last_seen : Z;
}.
Notation state := (gmap string entry).

(** [min_by_key]: the first of the smallest elements, in iteration order. *)
Fixpoint min_by_key {A} (key : A -> Z) (l : list A) : option A :=
  match l with
  | [] => None
  | x :: l' =>
      match min_by_key key l' with
      | Some y => if key y <? key x then Some y else Some x
      | None => Some x
      end
  end.

Section Table.
(** The iteration order of a [HashMap], which the language leaves open. *)
Context (iter : state -> list (string * entry)).

Definition make_room (source : string) (now : Z) (m : state) : state :=
  let m := filter (fun p => (0 <? unauthenticated_websockets (snd p))
                            || (duration_since now (last_seen (snd p)) <=? SIGNIN_RATE_WINDOW) = true) m in
  match m !! source with
  | Some _ => m
  | None =>
      if MAX_SOURCE_LIMIT_ENTRIES <=? Z.of_nat (size m) then
        match min_by_key (fun p => last_seen (snd p))
                (List.filter (fun p => unauthenticated_websockets (snd p) =? 0) (iter m)) with
        | Some (oldest, _) => delete oldest m
        | None => m
        end
      else m
  end.

(** [entry]: the table after making room, and the entry when one is available. *)
Definition entry_for (source : string) (now : Z) (m : state) : option entry * state :=
  let m := make_room source now m in
  match m !! source with
  | Some e => (Some e, m)
  | None =>
      if MAX_SOURCE_LIMIT_ENTRIES <=? Z.of_nat (size m) then (None, m)
      else
        let e := {| signin_attempts := []; unauthenticated_websockets := 0; last_seen := now |} in
        (Some e, <[source := e]> m)
  end.

Definition admit_signin (source : string) (now : Z) (m : state) : bool * state :=
  match entry_for source now m with
  | (None, m) => (false, m)
  | (Some e, m) =>
      let attempts := pop_while (fun t => SIGNIN_RATE_WINDOW <=? duration_since now t) (signin_attempts e) in
      let put a := <[source := {| signin_attempts := a;
                                  unauthenticated_websockets := unauthenticated_websockets e;
                                  last_seen := now |}]> m in
      if SIGNIN_ATTEMPTS_PER_SOURCE <=? Z.of_nat (length attempts) then (false, put attempts)
      else (true, put (attempts ++ [now]))
  end.

Definition admit_websocket (source : string) (now : Z) (m : state) : bool * state :=
  match entry_for source now m with
  | (None, m) => (false, m)
  | (Some e, m) =>
      let put n := <[source := {| signin_attempts := signin_attempts e;
                                  unauthenticated_websockets := n; last_seen := now |}]> m in
      if MAX_UNAUTHENTICATED_WS_PER_SOURCE <=? unauthenticated_websockets e
      then (false, put (unauthenticated_websockets e))
      else (true, put (unauthenticated_websockets e + 1))
  end.
End Table.

Definition refund_successful_signin (source : string) (now : Z) (m : state) : state :=
  match m !! source with
  | None => m
  | Some e =>
      <[source := {| signin_attempts := removelast (signin_attempts e);
                     unauthenticated_websockets := unauthenticated_websockets e; last_seen := now |}]> m
  end.

(** [Drop for SourceConnectionPermit]. *)
Definition release_websocket (source : string) (now : Z) (m : state) : state :=
  match m !! source with
  | None => m
  | Some e =>
      <[source := {| signin_attempts := signin_attempts e;
                     unauthenticated_websockets := Z.max 0 (unauthenticated_websockets e - 1);
                     last_seen := now |}]> m
  end.

(** The log of a source: the times of its admitted attempts that were not refunded. *)
Notation logs := (gmap string (list Z)).
Definition log_of (l : logs) (s : string) : list Z := default [] (l !! s).
Definition permits (s : string) (live : list string) : Z := count (String.eqb s) live.

(** An admission that arrives when the table is full may discard the oldest entry. *)
Definition full (m : state) : bool := MAX_SOURCE_LIMIT_ENTRIES <=? Z.of_nat (size m).

Section Runs.
Context (iter : state -> list (string * entry)).

(** Runs under a monotonic clock: the current instant, the table, the log of
    unrefunded attempts, the live unauthenticated connections, and whether an
    admission ever met a full table. *)
Inductive run : Z -> state -> logs -> list string -> bool -> Prop :=
| run_start now : run now ∅ ∅ [] false
| run_signin now now' m l live b s ok m' :
    run now m l live b -> now <= now' -> admit_signin iter s now' m = (ok, m') ->
    run now' m' (if ok then <[s := log_of l s ++ [now']]> l else l) live (b || full m)
| run_refund now now' m l live b s :
    run now m l live b -> now <= now' ->
    run now' (refund_successful_signin s now' m)
      (match m !! s with
       | Some e => match signin_attempts e with [] => l | _ => <[s := removelast (log_of l s)]> l end
       | None => l
       end) live b
| run_websocket now now' m l live b s ok m' :
    run now m l live b -> now <= now' -> admit_websocket iter s now' m = (ok, m') ->
    run now' m' l (if ok then s :: live else live) (b || full m)
| run_close now now' m l l1 l2 b s :
    run now m l (l1 ++ s :: l2) b -> now <= now' ->
    run now' (release_websocket s now' m) l (l1 ++ l2) b.
End Runs.

(** No seven attempts of a log fall within one window. *)
Definition spaced (l : list Z) : Prop :=
  forall i a b, l !! i = Some a -> l !! (i + 6)%nat = Some b -> SIGNIN_RATE_WINDOW <= b - a.
Definition expired (now : Z) (l : list Z) : Prop := forall t, In t l -> t <= now - SIGNIN_RATE_WINDOW.

(** What the table remembers of one source. *)
Definition remembers (now : Z) (o : option entry) (log : list Z) : Prop :=
  match o with
  | None => expired now log
  | Some e => (exists old, log = old ++ signin_attempts e /\ expired now old)
  end.
Definition entry_ok (now : Z) (e : entry) (n : Z) : Prop :=
  unauthenticated_websockets e = n /\ 0 <= n <= MAX_UNAUTHENTICATED_WS_PER_SOURCE /\ last_seen e <= now /\
  Z.of_nat (length (signin_attempts e)) <= SIGNIN_ATTEMPTS_PER_SOURCE /\
  (forall t, In t (signin_attempts e) -> t <= last_seen e).
Definition counts (now : Z) (o : option entry) (n : Z) : Prop :=
  match o with None => n = 0 | Some e => entry_ok now e n end.

Record tracks (now : Z) (m : state) (l : logs) (live : list string) (crowded : bool) : Prop := {
  tr_counts : forall s, counts now (m !! s) (permits s live);
  tr_log : crowded = false -> forall s, spaced (log_of l s) /\ remembers now (m !! s) (log_of l s);
}.

Lemma counts_mono now now' o n : now <= now' -> counts now o n -> counts now' o n.
Proof. destruct o as [e|]; cbn; [|done]. unfold entry_ok. intros H (? & ? & ? & ? & ?). split_and!; try done; lia. Qed.

Lemma expired_mono now now' l : now <= now' -> expired now l -> expired now' l.
Proof. intros H He t Ht. specialize (He t Ht). lia. Qed.

Lemma remembers_mono now now' o l : now <= now' -> remembers now o l -> remembers now' o l.
Proof.
  intros H. destruct o as [e|]; cbn; [|by apply expired_mono].
  intros (old & -> & Ho). exists old. split; [done|by eapply expired_mono].
Qed.

Lemma tracks_mono now now' m l live b : now <= now' -> tracks now m l live b -> tracks now' m l live b.
Proof.
  intros H [H1 H2]. constructor.
  - intros s. eapply counts_mono; [done|apply H1].
  - intros Hb s. destruct (H2 Hb s). split; [done|by eapply remembers_mono].
Qed.

Lemma min_by_key_in {A} (key : A -> Z) l x : min_by_key key l = Some x -> In x l.
Proof.
  revert x. induction l as [|y l IH]; intros x H; cbn in H; [done|].
  destruct (min_by_key key l) as [z|]; [destruct (key z <? key y)|]; injection H as <-; cbn; auto.
Qed.

Lemma spaced_removelast l : spaced l -> spaced (removelast l).
Proof.
  intros H i a b Ha Hb. destruct l as [|x l'] eqn:E using rev_ind; [done|]. rewrite removelast_last in *.
  apply (H i); apply lookup_app_l_Some; done.
Qed.

(** Admitting an attempt when fewer than six of the last window are remembered. *)
Lemma spaced_snoc now old q :
  spaced (old ++ q) -> expired now old -> (length q < 6)%nat -> spaced ((old ++ q) ++ [now]).
Proof.
  intros Hs Ho Hq i a b Ha Hb. pose proof (lookup_lt_Some _ _ _ Hb) as Hi. rewrite !length_app in Hi. cbn in Hi.
  rewrite lookup_app_l in Ha by (rewrite length_app; lia).
  destruct (decide (i + 6 < length (old ++ q))%nat) as [Hlt|Hge].
  - rewrite lookup_app_l in Hb by done. eapply Hs; done.
  - rewrite length_app in Hge. rewrite lookup_app_r in Hb by (rewrite length_app; lia).
    apply list_lookup_singleton_Some in Hb as [_ <-].
    rewrite lookup_app_l in Ha by lia. apply list_elem_of_lookup_2, list_elem_of_In in Ha.
    specialize (Ho a Ha). lia.
Qed.

Lemma pop_while_split {A} (p : A -> bool) q : exists gone, q = gone ++ pop_while p q /\ Forall (fun x => p x = true) gone.
Proof.
  induction q as [|x q (gone & IH & Hg)]; [exists []; done|]. cbn. destruct (p x) eqn:E.
  - exists (x :: gone). split; [cbn; f_equal; done|]. by constructor.
  - exists []. done.
Qed.

Lemma pop_while_length {A} (p : A -> bool) q : (length (pop_while p q) <= length q)%nat.
Proof. destruct (pop_while_split p q) as (gone & Hq & _). rewrite Hq at 2. rewrite length_app. lia. Qed.

Lemma remembers_pop now e old :
  let q := pop_while (fun t => SIGNIN_RATE_WINDOW <=? duration_since now t) (signin_attempts e) in
  expired now old -> exists old', old ++ signin_attempts e = old' ++ q /\ expired now old'.
Proof.
  intros q Ho. destruct (pop_while_split (fun t => SIGNIN_RATE_WINDOW <=? duration_since now t) (signin_attempts e))
    as (gone & Hq & Hg). exists (old ++ gone). split; [rewrite Hq at 1; by rewrite app_assoc|].
  intros t [Ht|Ht]%in_app_or; [auto|]. rewrite Forall_forall in Hg. apply list_elem_of_In in Ht.
  specialize (Hg t Ht). cbn in Hg. breflect. unfold duration_since, SIGNIN_RATE_WINDOW in *. lia.
Qed.

Section Invariant.
Context (iter : state -> list (string * entry)) (iter_perm : forall m, Permutation (iter m) (map_to_list m)).

Lemma make_room_lookup s0 now m s :
  make_room iter s0 now m !! s = m !! s \/
  (make_room iter s0 now m !! s = None /\
   exists e, m !! s = Some e /\ unauthenticated_websockets e <= 0 /\
             (SIGNIN_RATE_WINDOW < duration_since now (last_seen e) \/ full m = true)).
Proof.
  unfold make_room. set (P := fun p : string * entry => _ = true). set (k := filter P m).
  assert (k !! s = m !! s \/ (k !! s = None /\ exists e, m !! s = Some e /\ unauthenticated_websockets e <= 0 /\
             (SIGNIN_RATE_WINDOW < duration_since now (last_seen e) \/ full m = true))) as Hk.
  { destruct (m !! s) as [e|] eqn:E.
    - destruct (decide (P (s, e))) as [HP|HP].
      + left. apply map_lookup_filter_Some. done.
      + right. split; [apply map_lookup_filter_None; right; intros x Hx; assert (Some e = Some x) as [= <-] by (rewrite <- E; exact Hx); exact HP|]. exists e.
        unfold P in HP. apply not_true_is_false in HP. cbn in HP. breflect. auto with lia.
    - left. apply map_lookup_filter_None. auto. }
  destruct (k !! s0); [done|]. destruct (MAX_SOURCE_LIMIT_ENTRIES <=? Z.of_nat (size k)) eqn:Hf; [|done].
  destruct (min_by_key _ _) as [[o e]|] eqn:Ho; [|done].
  destruct (decide (o = s)) as [->|Hne]; [|by rewrite lookup_delete_ne].
  right. split; [apply lookup_delete_eq|]. apply min_by_key_in, filter_In in Ho as [Ho Hz]. cbn in Hz.
  apply (Permutation_in _ (iter_perm k)), list_elem_of_In, elem_of_map_to_list in Ho.
  apply map_lookup_filter_Some in Ho as [Ho _]. exists e. breflect. split; [done|]. split; [lia|]. right.
  unfold full. apply Z.leb_le. pose proof (map_size_filter P m). fold k in H. lia.
Qed.

Lemma make_room_tracks s0 now m l live b :
  tracks now m l live b -> tracks now (make_room iter s0 now m) l live (b || full m).
Proof.
  intros [H1 H2]. constructor.
  - intros s. specialize (H1 s). destruct (make_room_lookup s0 now m s) as [->|(-> & e & E & Hws & _)]; [done|].
    rewrite E in H1. cbn in *. unfold entry_ok in H1. lia.
  - intros [Hb Hf]%orb_false_iff s. destruct (H2 Hb s) as [Hs Hr]. split; [done|]. specialize (H1 s).
    destruct (make_room_lookup s0 now m s) as [->|(-> & e & E & _ & [Hd|Hf'])]; [done| |congruence].
    rewrite E in Hr, H1. destruct H1 as (_ & _ & _ & _ & Hle), Hr as (old & -> & Ho). cbn.
    intros t [Ht|Ht]%in_app_or; [auto|]. specialize (Hle t Ht).
    unfold duration_since, SIGNIN_RATE_WINDOW in *. lia.
Qed.

Lemma entry_for_tracks s0 now m l live b o m' :
  entry_for iter s0 now m = (o, m') -> tracks now m l live b ->
  tracks now m' l live (b || full m) /\ match o with Some e => m' !! s0 = Some e | None => True end.
Proof.
  intros H Ht. apply (make_room_tracks s0) in Ht. unfold entry_for in H. cbn zeta in H.
  destruct (make_room iter s0 now m !! s0) as [e|] eqn:E; [injection H as <- <-; done|].
  destruct (_ <=? _); injection H as <- <-; [done|]. split; [|apply lookup_insert_eq].
  destruct Ht as [H1 H2]. constructor.
  - intros s. specialize (H1 s). destruct (decide (s0 = s)) as [<-|Hne]; [|by rewrite lookup_insert_ne].
    rewrite lookup_insert_eq. rewrite E in H1. cbn in *. unfold entry_ok. cbn.
    unfold MAX_UNAUTHENTICATED_WS_PER_SOURCE, SIGNIN_ATTEMPTS_PER_SOURCE. split_and!; lia || done.
  - intros Hb s. destruct (H2 Hb s) as [Hs Hr]. split; [done|].
    destruct (decide (s0 = s)) as [<-|Hne]; [|by rewrite lookup_insert_ne].
    rewrite lookup_insert_eq. rewrite E in Hr. cbn in *. exists (log_of l s0). by rewrite app_nil_r.
Qed.

(** Rewriting one source's entry, with its log and its permits. *)
Lemma tracks_update now m l live b s e n log live' l' :
  tracks now m l live b ->
  (forall s', s' <> s -> permits s' live' = permits s' live /\ log_of l' s' = log_of l s') ->
  permits s live' = n -> log_of l' s = log -> entry_ok now e n ->
  (b = false -> spaced log /\ remembers now (Some e) log) ->
  tracks now (<[s := e]> m) l' live' b.
Proof.
  intros [H1 H2] Ho Hn Hl He Hr. constructor.
  - intros s'. destruct (decide (s = s')) as [<-|Hne].
    + rewrite lookup_insert_eq, Hn. done.
    + rewrite lookup_insert_ne by done. rewrite (proj1 (Ho s' (not_eq_sym Hne))). apply H1.
  - intros Hb s'. destruct (decide (s = s')) as [<-|Hne].
    + rewrite lookup_insert_eq, Hl. auto.
    + rewrite lookup_insert_ne by done. rewrite (proj2 (Ho s' (not_eq_sym Hne))). auto.
Qed.

Lemma log_of_insert l s x s' : log_of (<[s := x]> l) s' = if decide (s = s') then x else log_of l s'.
Proof. unfold log_of. destruct (decide (s = s')) as [<-|]; [by rewrite lookup_insert_eq|by rewrite lookup_insert_ne]. Qed.

Lemma admit_signin_tracks s now m l live b ok m' :
  tracks now m l live b -> admit_signin iter s now m = (ok, m') ->
  tracks now m' (if ok then <[s := log_of l s ++ [now]]> l else l) live (b || full m).
Proof.
  intros Ht H. unfold admit_signin in H. destruct (entry_for iter s now m) as [o m1] eqn:E.
  destruct (entry_for_tracks _ _ _ _ _ _ _ _ E Ht) as [Ht1 Hm1]. destruct o as [e|]; [|injection H as <- <-; done].
  cbn zeta in H. set (q := pop_while _ _) in H.
  pose proof (tr_counts _ _ _ _ _ Ht1 s) as Hc. rewrite Hm1 in Hc. destruct Hc as (Hw & Hn & Hl & Hlen & Hle).
  assert (forall t, In t q -> t <= now) as Hq.
  { intros t Hin. destruct (pop_while_split (fun t => SIGNIN_RATE_WINDOW <=? duration_since now t) (signin_attempts e))
      as (gone & Hg & _). assert (In t (signin_attempts e)) as Hin' by (rewrite Hg; apply in_or_app; auto).
    specialize (Hle t Hin'). lia. }
  destruct (SIGNIN_ATTEMPTS_PER_SOURCE <=? Z.of_nat (length q)) eqn:Eq; injection H as <- <-; breflect.
  - eapply tracks_update; [exact Ht1|done|done|done| |].
    + split_and!; cbn; try done; try lia. etransitivity; [|exact Hlen]. apply inj_le, pop_while_length.
    + intros Hb. destruct (tr_log _ _ _ _ _ Ht1 Hb s) as [Hs Hr]. split; [done|]. rewrite Hm1 in Hr.
      destruct Hr as (old & -> & Ho). apply (remembers_pop now e old Ho).
  - eapply (tracks_update _ _ _ _ _ _ _ _ (log_of l s ++ [now])); [exact Ht1| |done| | |].
    + intros s' Hne. rewrite log_of_insert, decide_False by done. done.
    + rewrite log_of_insert, decide_True; done.
    + unfold SIGNIN_ATTEMPTS_PER_SOURCE in *. split_and!; cbn; try done; try lia.
      * unfold SIGNIN_ATTEMPTS_PER_SOURCE. rewrite length_app. cbn. lia.
      * intros t [Hin|[<-|[]]]%in_app_or; [auto|lia].
    + intros Hb. destruct (tr_log _ _ _ _ _ Ht1 Hb s) as [Hs Hr]. rewrite Hm1 in Hr.
      destruct Hr as (old & Hlog & Ho). destruct (remembers_pop now e old Ho) as (old' & Hold & Ho').
      rewrite Hlog, Hold in Hs |- *. split.
      * apply spaced_snoc; [done|done|]. unfold SIGNIN_ATTEMPTS_PER_SOURCE in Eq. fold q. lia.
      * exists old'. cbn. fold q. by rewrite app_assoc.
Qed.

Lemma permits_cons s x live : permits s (x :: live) = (if String.eqb s x then 1 else 0) + permits s live.
Proof. apply count_cons. Qed.

Lemma permits_middle s x l1 l2 : permits s (l1 ++ x :: l2) = (if String.eqb s x then 1 else 0) + permits s (l1 ++ l2).
Proof. unfold permits. rewrite !count_app, count_cons. lia. Qed.

Lemma admit_websocket_tracks s now m l live b ok m' :
  tracks now m l live b -> admit_websocket iter s now m = (ok, m') ->
  tracks now m' l (if ok then s :: live else live) (b || full m).
Proof.
  intros Ht H. unfold admit_websocket in H. destruct (entry_for iter s now m) as [o m1] eqn:E.
  destruct (entry_for_tracks _ _ _ _ _ _ _ _ E Ht) as [Ht1 Hm1]. destruct o as [e|]; [|injection H as <- <-; done].
  cbn zeta in H. pose proof (tr_counts _ _ _ _ _ Ht1 s) as Hc. rewrite Hm1 in Hc.
  destruct Hc as (Hw & Hn & Hl & Hlen & Hle).
  assert (forall t, In t (signin_attempts e) -> t <= now) as Hq by (intros t Hin; specialize (Hle t Hin); lia).
  destruct (MAX_UNAUTHENTICATED_WS_PER_SOURCE <=? unauthenticated_websockets e) eqn:Ew; injection H as <- <-; breflect;
    (eapply tracks_update; [exact Ht1| |reflexivity|reflexivity| |]).
  - done.
  - split_and!; cbn; try done; lia.
  - intros Hb. destruct (tr_log _ _ _ _ _ Ht1 Hb s) as [Hs Hr]. rewrite Hm1 in Hr. done.
  - intros s' Hne. rewrite permits_cons, (proj2 (String.eqb_neq s' s) Hne). done.
  - rewrite permits_cons, String.eqb_refl. split_and!; cbn; try done; lia.
  - intros Hb. destruct (tr_log _ _ _ _ _ Ht1 Hb s) as [Hs Hr]. rewrite Hm1 in Hr. done.
Qed.

Lemma refund_tracks s now m l live b :
  tracks now m l live b ->
  tracks now (refund_successful_signin s now m)
    (match m !! s with
     | Some e => match signin_attempts e with [] => l | _ => <[s := removelast (log_of l s)]> l end
     | None => l
     end) live b.
Proof.
  intros Ht. unfold refund_successful_signin. destruct (m !! s) as [e|] eqn:E; [|done].
  pose proof (tr_counts _ _ _ _ _ Ht s) as Hc. rewrite E in Hc. destruct Hc as (Hw & Hn & Hl & Hlen & Hle).
  assert (forall t, In t (removelast (signin_attempts e)) -> t <= now) as Hq.
  { intros t Hin. enough (t <= last_seen e) by lia. apply Hle.
    destruct (signin_attempts e) as [|x q _] using rev_ind; [done|]. rewrite removelast_last in Hin. apply in_or_app. auto. }
  assert (Z.of_nat (length (removelast (signin_attempts e))) <= SIGNIN_ATTEMPTS_PER_SOURCE) as Hlen'.
  { destruct (signin_attempts e) as [|x q _] using rev_ind; [done|]. rewrite removelast_last. rewrite length_app in Hlen. lia. }
  pose proof (fun Hb => tr_log _ _ _ _ _ Ht Hb s) as Hlog. rewrite E in Hlog.
  destruct (signin_attempts e) as [|x q _] eqn:Ea using rev_ind.
  - eapply tracks_update; [exact Ht|done|reflexivity|reflexivity| |].
    + split_and!; cbn; try done; lia.
    + intros Hb. destruct (Hlog Hb) as [Hs (old & Hold & Ho)]. rewrite Ea in Hold. split; [done|]. exists old. done.
  - rewrite removelast_last in *. replace (match q ++ [x] with [] => l | _ => <[s:=removelast (log_of l s)]> l end)
      with (<[s:=removelast (log_of l s)]> l) by (destruct q; done).
    eapply (tracks_update _ _ _ _ _ _ _ _ (removelast (log_of l s))); [exact Ht| |reflexivity| | |].
    + intros s' Hne. rewrite log_of_insert, decide_False by done. done.
    + rewrite log_of_insert, decide_True; done.
    + split_and!; cbn; try done; lia.
    + intros Hb. destruct (Hlog Hb) as [Hs (old & Hold & Ho)]. split; [by apply spaced_removelast|].
      exists old. rewrite Ea in Hold. cbn. rewrite Hold, app_assoc, removelast_last. done.
Qed.

Lemma release_tracks s now m l l1 l2 b :
  tracks now m l (l1 ++ s :: l2) b -> tracks now (release_websocket s now m) l (l1 ++ l2) b.
Proof.
  intros Ht. unfold release_websocket. pose proof (tr_counts _ _ _ _ _ Ht s) as Hc.
  rewrite permits_middle, String.eqb_refl in Hc.
  assert (0 <= permits s (l1 ++ l2)) as Hnn by apply count_nonneg.
  destruct (m !! s) as [e|] eqn:E; cbn in Hc; [|lia]. destruct Hc as (Hw & Hn & Hl & Hlen & Hle).
  eapply tracks_update; [exact Ht| |reflexivity|reflexivity| |].
  - intros s' Hne. rewrite (permits_middle s' s), (proj2 (String.eqb_neq s' s) Hne). done.
  - split_and!; cbn; try done; try lia. intros t Hin. specialize (Hle t Hin). lia.
  - intros Hb. destruct (tr_log _ _ _ _ _ Ht Hb s) as [Hs Hr]. rewrite E in Hr. done.
Qed.

Lemma run_tracks now m l live b : run iter now m l live b -> tracks now m l live b.
Proof.
  induction 1 as [now|now now' m l live b s ok m' _ IH Hn H|now now' m l live b s _ IH Hn
                 |now now' m l live b s ok m' _ IH Hn H|now now' m l l1 l2 b s _ IH Hn].
  - constructor; [intros s; rewrite lookup_empty; done|]. intros _ s. rewrite lookup_empty. split.
    + intros i a b Ha. done.
    + intros t [].
  - eapply admit_signin_tracks; [by eapply tracks_mono|done].
  - apply refund_tracks. by eapply tracks_mono.
  - eapply admit_websocket_tracks; [by eapply tracks_mono|done].
  - apply release_tracks. by eapply tracks_mono.
Qed.
End Invariant.

(** The per-source limits hold under every interleaving of requests, whatever order
    the table iterates in: the socket counter of a source is exactly its number of
    unauthenticated connections, and that never exceeds four; and as long as the table
    never filled up, any seven unrefunded sign-in attempts of one source span at least
    the whole 60-second window. *)
Theorem source_limits_hold iter now m l live crowded :
  (forall m, Permutation (iter m) (map_to_list m)) ->
  run iter now m l live crowded ->
  forall s,
    permits s live <= MAX_UNAUTHENTICATED_WS_PER_SOURCE /\
    (0 < permits s live -> unauthenticated_websockets <$> m !! s = Some (permits s live)) /\
    (crowded = false -> spaced (log_of l s)).
Proof.
  intros Hi Hrun s. destruct (run_tracks iter Hi _ _ _ _ _ Hrun) as [H1 H2]. specialize (H1 s).
  split_and!; [| |intros Hb; apply H2; done].
  - destruct (m !! s); cbn in H1; [apply H1|]. rewrite H1. done.
  - destruct (m !! s); cbn in *; [|lia]. intros _. f_equal. apply H1.
Qed.

Lemma source_limits_hold_witness :
  let m1 := (admit_signin map_to_list "10.0.0.7" 3 ∅).2 in
  let m2 := (admit_websocket map_to_list "10.0.0.7" 5 m1).2 in
  let l := <["10.0.0.7"%string := [3]]> ∅ in
  run map_to_list 5 m2 l ["10.0.0.7"%string] false /\
  permits "10.0.0.7" ["10.0.0.7"%string] <= MAX_UNAUTHENTICATED_WS_PER_SOURCE /\ spaced (log_of l "10.0.0.7").
Proof.
  intros m1 m2 l.
  assert (run map_to_list 3 m1 l [] false) as H1.
  { refine (run_signin map_to_list 0 3 ∅ ∅ [] false "10.0.0.7" true m1 (run_start _ 0) _ _); [lia|].
    vm_compute. reflexivity. }
  assert (run map_to_list 5 m2 l ["10.0.0.7"%string] false) as H2.
  { refine (run_websocket map_to_list 3 5 m1 l [] false "10.0.0.7" true m2 H1 _ _); [lia|].
    vm_compute. reflexivity. }
  split; [exact H2|].
  destruct (source_limits_hold map_to_list _ _ _ _ _ (fun m => Permutation_refl _) H2 "10.0.0.7") as (Hw & _ & Hs).
  split; [exact Hw|exact (Hs eq_refl)].
Defined.
End Source.

(** ** Rate limits of share invitations *)
Module Invites.
(** The limits [admit_invite] reads from the configuration. *)
Record limits := {
  share_invites_global : Z;
  share_invites_per_source : Z;
  share_invites_per_user : Z;
  share_invite_targets_per_user : Z;
}.
Record attempt := {
  source : string;
  user_id : Z;
  target_digest : string;
  at_ : Z;
}.

Definition distinct {A} `{Countable A} (l : list A) : gset A := list_to_set l.
Definition users (l : list attempt) : gset Z := distinct (map user_id l).
Definition of_user (u : Z) (l : list attempt) : list attempt := select (fun a => user_id a =? u) l.
Definition targets (u : Z) (l : list attempt) : gset string := distinct (map target_digest (of_user u l)).

Section Admit.
(** SHA-256 of the process secret followed by the canonical target. *)
Context (digest : string -> string) (config : limits).

Definition admit_invite (src : string) (uid : Z) (canonical_target : string) (now : Z) (attempts : list attempt)
    : bool * list attempt :=
  let attempts := pop_while (fun a => SHARE_INVITE_WINDOW <=? duration_since now (at_ a)) attempts in
  let d := digest canonical_target in
  let source_attempts := count (fun a => String.eqb (source a) src) attempts in
  let user_attempts := count (fun a => user_id a =? uid) attempts in
  let known_user := 0 <? user_attempts in
  let user_entries := Z.of_nat (size (users attempts)) in
  let distinct_targets := targets uid attempts in
  let adds_distinct_target := bool_decide (d ∉ distinct_targets) in
  if (share_invites_global config <=? Z.of_nat (length attempts))
     || (share_invites_per_source config <=? source_attempts)
     || (share_invites_per_user config <=? user_attempts)
     || (adds_distinct_target && (share_invite_targets_per_user config <=? Z.of_nat (size distinct_targets)))
     || (negb known_user && (MAX_SHARE_INVITE_USER_ENTRIES <=? user_entries))
  then (false, attempts)
  else (true, attempts ++ [{| source := src; user_id := uid; target_digest := d; at_ := now |}]).

(** Every limit holds of a collection of attempts. *)
Record within (l : list attempt) : Prop := {
  w_global : Z.of_nat (length l) <= share_invites_global config;
  w_source : forall s, count (fun a => String.eqb (source a) s) l <= share_invites_per_source config;
  w_user : forall u, count (fun a => user_id a =? u) l <= share_invites_per_user config;
  w_targets : forall u, Z.of_nat (size (targets u l)) <= share_invite_targets_per_user config;
  w_users : Z.of_nat (size (users l)) <= MAX_SHARE_INVITE_USER_ENTRIES;
}.

(** Runs under a monotonic clock, with the log of the accepted invitations. *)
Inductive run : Z -> list attempt -> list attempt -> Prop :=
| run_start now : run now [] []
| run_admit now now' q log s u t ok q' :
    run now q log -> now <= now' -> admit_invite s u t now' q = (ok, q') ->
    run now' q' (if ok then log ++ [{| source := s; user_id := u; target_digest := digest t; at_ := now' |}] else log).

(** The accepted invitations of the hour that ends now. *)
Definition recent (now : Z) (log : list attempt) : list attempt :=
  select (fun a => now - SHARE_INVITE_WINDOW <? at_ a) log.

Lemma count_snoc {A} (P : A -> bool) l x : count P (l ++ [x]) = count P l + (if P x then 1 else 0).
Proof. rewrite count_app, count_cons. change (count P []) with 0. lia. Qed.

Lemma count_sublist {A} (P : A -> bool) l1 l2 : l1 `sublist_of` l2 -> count P l1 <= count P l2.
Proof. induction 1 as [|x l1 l2 _ IH|x l1 l2 _ IH]; rewrite ?count_cons; [done| |]; destruct (P x); lia. Qed.

Lemma size_distinct_mono {A} `{Countable A} (l1 l2 : list A) :
  l1 ⊆ l2 -> Z.of_nat (size (distinct l1)) <= Z.of_nat (size (distinct l2)).
Proof. intros Hs. apply inj_le, subseteq_size. intros x. unfold distinct. rewrite !elem_of_list_to_set. apply Hs. Qed.

Lemma of_user_sublist u l1 l2 : l1 `sublist_of` l2 -> of_user u l1 `sublist_of` of_user u l2.
Proof.
  unfold of_user, select.
  induction 1 as [|x l1 l2 _ IH|x l1 l2 _ IH]; cbn; [done| |]; destruct (user_id x =? u); try done; by constructor.
Qed.

Lemma select_sublist {A} (P : A -> bool) l : select P l `sublist_of` l.
Proof. unfold select. induction l as [|x l IH]; cbn; [done|]. destruct (P x); by constructor. Qed.

Lemma map_sublist {A B} (f : A -> B) l1 l2 : l1 `sublist_of` l2 -> map f l1 `sublist_of` map f l2.
Proof. induction 1; cbn; by constructor. Qed.

Lemma within_sublist l1 l2 : l1 `sublist_of` l2 -> within l2 -> within l1.
Proof.
  intros Hs [H1 H2 H3 H4 H5]. pose proof (sublist_length _ _ Hs). constructor; [lia| | | |].
  - intros s. etransitivity; [by apply count_sublist|apply H2].
  - intros u. etransitivity; [by apply count_sublist|apply H3].
  - intros u. etransitivity; [|apply (H4 u)]. apply size_distinct_mono. intros x.
    apply sublist_subseteq, map_sublist, of_user_sublist, Hs.
  - etransitivity; [|apply H5]. apply size_distinct_mono. intros x. apply sublist_subseteq, map_sublist, Hs.
Qed.

Lemma distinct_snoc {A} `{Countable A} (l : list A) x : distinct (l ++ [x]) = distinct l ∪ {[x]}.
Proof. unfold distinct. rewrite list_to_set_app_L. cbn. by rewrite union_empty_r_L. Qed.

Lemma size_snoc {A} `{Countable A} (l : list A) x :
  Z.of_nat (size (distinct (l ++ [x]))) =
  Z.of_nat (size (distinct l)) + (if bool_decide (x ∈ distinct l) then 0 else 1).
Proof.
  rewrite distinct_snoc. case_bool_decide as Hx.
  - replace (distinct l ∪ {[x]}) with (distinct l) by set_solver. lia.
  - rewrite size_union by set_solver. rewrite size_singleton. lia.
Qed.

Lemma in_users u l : u ∈ users l <-> 0 < count (fun a => user_id a =? u) l.
Proof.
  unfold users, distinct. rewrite elem_of_list_to_set, list_elem_of_In, in_map_iff, count_pos.
  split; intros (a & H1 & H2); exists a; split; try done; [by apply Z.eqb_eq|by apply Z.eqb_eq in H2].
Qed.

Lemma admit_within s u t now q ok q' : within q -> admit_invite s u t now q = (ok, q') -> within q'.
Proof.
  intros Hw H. unfold admit_invite in H. cbn zeta in H. set (q1 := pop_while _ q) in H.
  assert (within q1) as Hw1.
  { eapply within_sublist; [|exact Hw]. unfold q1.
    destruct (Source.pop_while_split (fun a => SHARE_INVITE_WINDOW <=? duration_since now (at_ a)) q) as (gone & Hq & _).
    rewrite Hq at 2. by apply sublist_inserts_l. }
  clearbody q1. destruct (_ || _) eqn:E in H; injection H as <- <-; [done|]. breflect.
  destruct Hw1 as [W1 W2 W3 W4 W5]. constructor.
  - rewrite length_app. cbn. lia.
  - intros s'. rewrite count_snoc. specialize (W2 s'). cbn.
    destruct (String.eqb_spec s s') as [<-|]; lia.
  - intros u'. rewrite count_snoc. specialize (W3 u'). cbn.
    destruct (Z.eqb_spec u u') as [<-|]; lia.
  - intros u'. specialize (W4 u'). unfold targets, of_user in *. rewrite select_app. unfold select at 2. cbn.
    destruct (Z.eqb_spec u u') as [<-|]; [|by rewrite app_nil_r]. rewrite map_app. cbn. rewrite size_snoc.
    destruct (bool_decide (digest t ∈ _)) eqn:Ed; [lia|]. apply bool_decide_eq_false in Ed.
    rewrite bool_decide_true in * by done. cbn in *. breflect. lia.
  - unfold users. rewrite map_app. cbn. rewrite size_snoc. fold (users q1).
    destruct (bool_decide (u ∈ users q1)) eqn:Eu; [lia|]. apply bool_decide_eq_false in Eu. rewrite in_users in Eu.
    rewrite (proj2 (Z.ltb_ge _ _)) in * by lia. cbn in *. breflect. lia.
Qed.

Lemma admit_log s u t now q ok q' old :
  (forall a, In a old -> at_ a <= now - SHARE_INVITE_WINDOW) -> admit_invite s u t now q = (ok, q') ->
  exists old', (forall a, In a old' -> at_ a <= now - SHARE_INVITE_WINDOW) /\
    (if ok then (old ++ q) ++ [{| source := s; user_id := u; target_digest := digest t; at_ := now |}] else old ++ q)
    = old' ++ q'.
Proof.
  intros Ho H. unfold admit_invite in H. cbn zeta in H.
  destruct (Source.pop_while_split (fun a => SHARE_INVITE_WINDOW <=? duration_since now (at_ a)) q) as (gone & Hq & Hg).
  set (q1 := pop_while _ q) in *. exists (old ++ gone). split.
  - intros a [Ha|Ha]%in_app_or; [auto|]. rewrite Forall_forall in Hg. apply list_elem_of_In in Ha. specialize (Hg a Ha).
    cbn in Hg. breflect. unfold duration_since, SHARE_INVITE_WINDOW in *. lia.
  - destruct (_ || _) in H; injection H as <- <-; rewrite Hq at 1; by rewrite !app_assoc.
Qed.
End Admit.

(** Over any hour, whatever sequence of requests arrives, the accepted share
    invitations respect every configured limit at once: the global number, the number
    per source address, the number and the number of distinct targets per account, and
    at most 256 accounts. *)
Theorem invitations_within_limits digest config now q log :
  0 <= share_invites_global config -> 0 <= share_invites_per_source config ->
  0 <= share_invites_per_user config -> 0 <= share_invite_targets_per_user config ->
  run digest config now q log -> within config (recent now log).
Proof.
  intros G1 G2 G3 G4 Hrun.
  assert (within config q /\ exists old, (forall a, In a old -> at_ a <= now - SHARE_INVITE_WINDOW) /\ log = old ++ q)
    as (Hw & old & Ho & ->).
  { induction Hrun as [now|now now' q log s u t ok q' _ (IHw & old & Ho & ->) Hn H].
    - split; [|exists []; split; [intros a []|done]]. constructor; cbn; intros; done.
    - split; [by eapply admit_within|].
      assert (forall a, In a old -> at_ a <= now' - SHARE_INVITE_WINDOW) as Ho1 by (intros a Ha; specialize (Ho a Ha); lia).
      destruct (admit_log _ _ _ _ _ _ _ _ _ old Ho1 H) as (old' & Ho' & Heq). exists old'. done. }
  apply (within_sublist config _ q); [|done]. unfold recent. rewrite select_app.
  rewrite (select_none _ old).
  - apply select_sublist.
  - intros a Ha. specialize (Ho a Ha). apply Z.ltb_ge. lia.
Qed.

Definition demo_limits : limits :=
  {| share_invites_global := 2; share_invites_per_source := 2; share_invites_per_user := 2;
     share_invite_targets_per_user := 1 |}.

Lemma invitations_within_limits_witness :
  let a t := {| source := "10.0.0.7"; user_id := 1; target_digest := "b@x"; at_ := t |} in
  run (fun t => t) demo_limits 9 [a 4] [a 4] /\ within demo_limits (recent 9 [a 4]).
Proof.
  intros a.
  assert (run (fun t => t) demo_limits 9 [a 4] [a 4]) as H.
  { refine (run_admit _ _ 4 9 [a 4] [a 4] "10.0.0.7" 1 "c@x" false _ _ _ _); [|lia|vm_compute; reflexivity].
    refine (run_admit _ _ 0 4 [] [] "10.0.0.7" 1 "b@x" true _ (run_start _ _ 0) _ _); [lia|vm_compute; reflexivity]. }
  split; [exact H|]. apply (invitations_within_limits (fun t => t) demo_limits 9 [a 4] [a 4]); [vm_compute; discriminate..|exact H].
Defined.
End Invites.

(** ** Concurrent connections and uploads of one user *)
Module Concurrency.
Inductive kind := Connection | Upload.
Record entry := { connections : Z; uploads : Z }.
Definition default_entry : entry := {| connections := 0; uploads := 0 |}.

Definition slot (k : kind) (e : entry) : Z := match k with Connection => connections e | Upload => uploads e end.
Definition set_slot (k : kind) (n : Z) (e : entry) : entry :=
  match k with
  | Connection => {| connections := n; uploads := uploads e |}
  | Upload => {| connections := connections e; uploads := n |}
  end.

(** [entry(user).or_default()] stays in the table even when the permit is refused. *)
Definition try_acquire (user : Z) (k : kind) (limit : Z) (m : gmap Z entry) : bool * gmap Z entry :=
  let e := default default_entry (m !! user) in
  if limit <=? slot k e then (false, <[user := e]> m)
  else (true, <[user := set_slot k (slot k e + 1) e]> m).

(** [Drop for UserConcurrencyPermit]. *)
Definition release (user : Z) (k : kind) (m : gmap Z entry) : gmap Z entry :=
  match m !! user with
  | None => m
  | Some e =>
      let e := set_slot k (Z.max 0 (slot k e - 1)) e in
      if (connections e =? 0) && (uploads e =? 0) then delete user m else <[user := e]> m
  end.

Definition kind_eqb (a b : kind) : bool :=
  match a, b with Connection, Connection | Upload, Upload => true | _, _ => false end.
Definition held (u : Z) (k : kind) (live : list (Z * kind)) : Z :=
  count (fun p => (p.1 =? u) && kind_eqb p.2 k) live.

Section Runs.
Context (limit : kind -> Z).
Inductive run : gmap Z entry -> list (Z * kind) -> Prop :=
| run_start : run ∅ []
| run_acquire m live u k ok m' :
    run m live -> try_acquire u k (limit k) m = (ok, m') -> run m' (if ok then (u, k) :: live else live)
| run_release m l1 u k l2 : run m (l1 ++ (u, k) :: l2) -> run (release u k m) (l1 ++ l2).

Definition exact_for (live : list (Z * kind)) (u : Z) (o : option entry) : Prop :=
  (forall k, slot k (default default_entry o) = held u k live) /\
  (forall k, held u k live <= Z.max 0 (limit k)) /\
  ((forall k, 0 < limit k) -> is_Some o -> exists k, 0 < held u k live).
End Runs.

Lemma kind_eqb_spec a b : reflect (a = b) (kind_eqb a b).
Proof. destruct a, b; constructor; done. Qed.

Lemma held_cons u k p live : held u k (p :: live) = (if (p.1 =? u) && kind_eqb p.2 k then 1 else 0) + held u k live.
Proof. unfold held. by rewrite count_cons. Qed.

Lemma held_nonneg u k live : 0 <= held u k live.
Proof. apply count_nonneg. Qed.

Lemma held_middle u k p l1 l2 :
  held u k (l1 ++ p :: l2) = (if (p.1 =? u) && kind_eqb p.2 k then 1 else 0) + held u k (l1 ++ l2).
Proof. unfold held. rewrite !count_app, count_cons. lia. Qed.

Lemma slot_set k k' n e : slot k (set_slot k' n e) = if kind_eqb k' k then n else slot k e.
Proof. destruct k, k'; done. Qed.

Lemma exact_other limit live live' u v o :
  u <> v -> (forall k, held v k live' = held v k live) -> exact_for limit live v o -> exact_for limit live' v o.
Proof.
  intros Hne Hh (H1 & H2 & H3). split_and!; [intros k; rewrite Hh; auto..|].
  intros Hl Ho. destruct (H3 Hl Ho) as (k & Hk). exists k. by rewrite Hh.
Qed.

Lemma acquire_exact limit m live u k ok m' :
  (forall v, exact_for limit live v (m !! v)) -> try_acquire u k (limit k) m = (ok, m') ->
  forall v, exact_for limit (if ok then (u, k) :: live else live) v (m' !! v).
Proof.
  intros Hm H v. unfold try_acquire in H. cbn zeta in H. destruct (Hm u) as (H1 & H2 & H3).
  destruct (Z.eq_dec u v) as [E|Hne].
  - subst v. destruct (limit k <=? _) eqn:El; injection H as <- <-; rewrite lookup_insert_eq; breflect; split_and!; cbn; try done.
    + intros Hl _. exists k. rewrite <- H1. specialize (Hl k). lia.
    + intros k'. rewrite slot_set, held_cons, <- !H1. cbn. rewrite Z.eqb_refl. cbn.
      destruct (kind_eqb_spec k k') as [<-|]; lia.
    + intros k'. rewrite held_cons. cbn. rewrite Z.eqb_refl. cbn. specialize (H2 k').
      destruct (kind_eqb_spec k k') as [<-|]; [rewrite H1 in El|]; lia.
    + intros _ _. exists k. rewrite held_cons. cbn. rewrite Z.eqb_refl. pose proof (held_nonneg u k live).
      destruct k; cbn; lia.
  - destruct (limit k <=? _); injection H as <- <-; rewrite lookup_insert_ne by done; [apply Hm|].
    eapply exact_other; [exact Hne| |apply Hm]. intros k'. rewrite held_cons. cbn. rewrite (proj2 (Z.eqb_neq u v) Hne). done.
Qed.

Lemma release_exact limit m l1 u k l2 :
  (forall v, exact_for limit (l1 ++ (u, k) :: l2) v (m !! v)) ->
  forall v, exact_for limit (l1 ++ l2) v (release u k m !! v).
Proof.
  intros Hm v. unfold release. destruct (Hm u) as (H1 & H2 & H3).
  assert (forall k', 0 <= held u k' (l1 ++ l2)) as Hnn by (intros; apply held_nonneg).
  assert (forall k', held u k' (l1 ++ (u, k) :: l2) = (if kind_eqb k k' then 1 else 0) + held u k' (l1 ++ l2)) as Hmid.
  { intros k'. rewrite held_middle. cbn. rewrite Z.eqb_refl. done. }
  destruct (m !! u) as [e|] eqn:E.
  2: { exfalso. specialize (H1 k). rewrite Hmid in H1. cbn in H1. specialize (Hnn k). destruct k; cbn in *; lia. }
  cbn zeta. set (e' := set_slot _ _ _). cbn in H1.
  assert (forall k', slot k' e' = held u k' (l1 ++ l2)) as He.
  { intros k'. unfold e'. rewrite slot_set, !H1, !Hmid. specialize (Hnn k').
    destruct (kind_eqb_spec k k') as [<-|]; [|lia]. destruct k; cbn; lia. }
  assert (forall k', held u k' (l1 ++ l2) <= Z.max 0 (limit k')) as Hb.
  { intros k'. specialize (H2 k'). rewrite Hmid in H2. destruct (kind_eqb k k'); lia. }
  destruct (Z.eq_dec u v) as [Ev|Hne].
  - subst v. destruct (_ && _) eqn:Ez.
    + rewrite lookup_delete_eq. breflect. split_and!; [|done|intros _ [? ?]; done].
      intros k'. rewrite <- He. destruct k'; done.
    + rewrite lookup_insert_eq. split_and!; [done|done|]. intros _ _.
      apply andb_false_iff in Ez as [Ez|Ez]; breflect; [exists Connection|exists Upload]; rewrite <- He; cbn;
        [specialize (He Connection); specialize (Hnn Connection)|specialize (He Upload); specialize (Hnn Upload)]; cbn in *; lia.
  - destruct (_ && _); rewrite ?lookup_delete_ne, ?lookup_insert_ne by done;
      (eapply exact_other; [exact Hne| |apply Hm]; intros k'; rewrite held_middle; cbn; rewrite (proj2 (Z.eqb_neq u v) Hne); done).
Qed.

(** The per-user concurrency table is exact under every interleaving: a user's
    counters are the permits they hold, never more than the configured limits, and a
    user with no permit leaves no entry behind. *)
Theorem concurrency_exact limit m live :
  run limit m live -> (forall k, 0 < limit k) ->
  forall u, (forall k, slot k (default default_entry (m !! u)) = held u k live /\ held u k live <= limit k) /\
            ((forall k, held u k live = 0) -> m !! u = None).
Proof.
  intros Hrun Hl u. assert (forall v, exact_for limit live v (m !! v)) as Hm.
  { clear u. induction Hrun as [|m live u k ok m' _ IH H|m l1 u k l2 _ IH].
    - intros v. rewrite lookup_empty. split_and!; [intros []; done|intros k; specialize (Hl k); change (held v k []) with 0; lia|intros _ [? ?]; done].
    - by eapply acquire_exact.
    - by apply release_exact. }
  destruct (Hm u) as (H1 & H2 & H3). split.
  - intros k. split; [apply H1|]. specialize (H2 k). specialize (Hl k). lia.
  - intros H0. destruct (m !! u) as [e|]; [|done]. destruct (H3 Hl ltac:(done)) as (k & Hk). specialize (H0 k). lia.
Qed.

Lemma concurrency_exact_witness :
  let m := (try_acquire 7 Upload 2 ∅).2 in
  run (fun _ => 2) m [(7, Upload)] /\ held 7 Upload [(7, Upload)] <= 2.
Proof.
  intros m. assert (run (fun _ => 2) m [(7, Upload)]) as H.
  { refine (run_acquire _ ∅ [] 7 Upload true m (run_start _) _). vm_compute. reflexivity. }
  split; [exact H|]. exact (proj2 (proj1 (concurrency_exact (fun _ => 2) m _ H ltac:(lia) 7) Upload)).
Defined.
End Concurrency.
