(* ===== verification/Json.v ===== *)
(** * JSON values

    The tree [serde_json::Value], and the accessors the program uses. *)

From Stdlib Require Import ZArith List String Bool.
From stdpp Require Import base list strings.
From S2P Require Import Prelude.

Local Open Scope Z_scope.

(** A number that is no integer of 64 bits is its text. *)
Inductive json :=
| JNull
| JBool (b : bool)
| JInt (z : Z)
| JFloat (text : string)
| JStr (s : string)
| JArr (l : list json)
| JObj (fields : list (string * json)).

(** [Value::get] on a key, [as_str], [as_i64], [as_bool]. *)
Fixpoint assoc (k : string) (l : list (string * json)) : option json :=
  match l with
  | [] => None
  | (k', v) :: l => if String.eqb k' k then Some v else assoc k l
  end.
Definition jget (k : string) (v : json) : option json := match v with JObj l => assoc k l | _ => None end.
Definition as_str (v : json) : option string := match v with JStr s => Some s | _ => None end.
Definition as_i64 (v : json) : option Z := match v with JInt z => if in_i64 z then Some z else None | _ => None end.
Definition as_bool (v : json) : option bool := match v with JBool b => Some b | _ => None end.
Definition str_field (k : string) (v : json) : option string := option_bind _ _ as_str (jget k v).
Definition int_field (k : string) (v : json) : option Z := option_bind _ _ as_i64 (jget k v).
Definition bool_field (k : string) (v : json) : option bool := option_bind _ _ as_bool (jget k v).

Definition jopt (s : option string) : json := match s with Some s => JStr s | None => JNull end.
Definition as_u64 (v : json) : option Z := match v with JInt z => if in_range 0 u64_max z then Some z else None | _ => None end.
Definition as_array (v : json) : option (list json) := match v with JArr l => Some l | _ => None end.
Definition as_object (v : json) : option (list (string * json)) := match v with JObj l => Some l | _ => None end.
