(* ===== verification/Protocol.v ===== *)
(** * The data WebSocket ([server.rs])

    One connection: its [Session], the commands its handlers issue and the handlers
    themselves.  Metrics, tracing and the administrator's activity display change no
    other state and are left out.  JSON is a tree; parsing it ([serde_json::from_str])
    is left to the message, the length of its serialisation ([serde_json::to_string])
    is a parameter.  A staged upload is the byte list its exclusively created file
    holds. *)

From Stdlib Require Import ZArith Lia List String Ascii Bool.
From stdpp Require Import base list strings pretty.
From S2P Require Import Prelude Sql Model Store Auth Accounts Vaults Sharing Revisions Replay Io Text Config.
From S2P Require Import Reservations Limits Json.

Local Open Scope Z_scope.

Definition PIECE_SIZE : Z := 2 * 1024 * 1024.
Definition MAX_LARGE_RESPONSE_BYTES : Z := 8 * 1024 * 1024.
Definition EVENT_CAPACITY : nat := 32.
Definition STORAGE_QUOTA_CLIENT_ERROR : string := "Storage limit reached".

(** ** Notices on the wire *)

(** [serde_json::to_value(PushNotice::from(r))], without and with the [op] field. *)
Definition notice_item (n : PushNotice) : json :=
  JObj [("path", JStr (pn_path n)); ("relatedpath", jopt (pn_relatedpath n)); ("extension", JStr (pn_extension n));
        ("hash", JStr (pn_hash n)); ("ctime", JInt (pn_ctime n)); ("mtime", JInt (pn_mtime n));
        ("folder", JBool (pn_folder n)); ("deleted", JBool (pn_deleted n)); ("size", JInt (pn_size n));
        ("uid", JInt (pn_uid n)); ("device", JStr (pn_device n)); ("user", JInt (pn_user n)); ("ts", JInt (pn_ts n))]%string.
Definition notice_json (n : PushNotice) : json :=
  match notice_item n with JObj l => JObj (("op"%string, JStr "push") :: l) | v => v end.

(** ** Messages and events *)
Inductive message :=
| MText (len : Z) (parsed : option json)
| MBinary (bytes : blob)
| MPing (bytes : blob)
| MPong
| MClose.

Inductive frame :=
| Text (v : json)
| EventText (n : PushNotice)
| Binary (bytes : blob)
| Pong (bytes : blob)
| CloseFrame (code : Z) (reason : string).

(** [Event]; an invalidation carries uid 0 and no text. *)
Record Event := { e_uid : Z; e_vault : string; e_text : option PushNotice; e_invalidated : bool }.

Inductive received :=
| Received (e : Event)
| Lagged
| ChannelClosed.

(** What a bounded pool answers: a permit, none because of the shutdown, or an error. *)
Inductive acquired := Granted | Stopping | PoolStopped.

Record Pending := {
  p_revision : NewRevision;
  p_file : blob;
  p_pieces : Z;
  p_bytes : Z;
  p_reservation : Storage.reservation;
}.

Record Session := {
  ss_authenticated : bool;
  ss_token_hash : option string;
  ss_user_id : option Z;
  ss_vault : option string;
  ss_owner : option Z;
  ss_device : string;
  ss_pending : option Pending;
  ss_live : bool;
}.

Definition new_session : Session := {|
  ss_authenticated := false; ss_token_hash := None; ss_user_id := None; ss_vault := None; ss_owner := None;
  ss_device := "Unknown device"; ss_pending := None; ss_live := false |}.

Definition set_pending (p : option Pending) (s : Session) : Session := {|
  ss_authenticated := ss_authenticated s; ss_token_hash := ss_token_hash s; ss_user_id := ss_user_id s;
  ss_vault := ss_vault s; ss_owner := ss_owner s; ss_device := ss_device s; ss_pending := p; ss_live := ss_live s |}.

(** What the lookup of [init] returns: the caller, the vault with the access to it, the
    vault's owner, and whether the identity is a retired vault of the caller. *)
Record InitLookup := {
  il_auth : option AuthContext;
  il_vault : option (Vault * VaultAccess);
  il_owner : option Z;
  il_retired : bool;
}.

(** ** Commands

    Database tasks run one operation of [Db] in a worker; each may also fail because the
    worker pool is saturated or stopped. *)
Inductive cmd : Type -> Type :=
| SessionActive (hash vault : string) : cmd bool
| RenewSession (hash vault : string) (ttl : Z) : cmd (result (option bool))
| Lookup (validation_hash : option string) (id : string) : cmd (result InitLookup)
| CurrentVersion (vault : string) : cmd (result Z)
| ReplayPage (initial : bool) (vault : string) (cursor ready : Z) : cmd (result (list Revision))
| AddEmpty (r : NewRevision) (hash : string) (quota owner_quota : Z) : cmd (result Revision)
| AddFile (r : NewRevision) (hash : string) (file : blob) (quota owner_quota : Z) : cmd (result Revision)
| StoredSizes (owner : Z) : cmd (result (Z * Z))
| SizeReport (vault : string) : cmd (result (Z * Z * Z))
| Usernames (vault : string) : cmd (result (list (string * string)))
| GetPullInfo (uid : Z) : cmd (result (option PullInfo))
| ContentChunk (uid offset_ len : Z) : cmd (result blob)
| History (vault path : string) (last : option Z) (n : Z) : cmd (result (list Revision))
| DeletedPage (vault : string) (suppress : bool) (after_ : Z) : cmd (result (list Revision))
| Restore (user_id : Z) (hash vault : string) (uid : Z) (device : string) (limits : Z * Z) : cmd (result (option Revision))
| Purge (user_id : Z) (hash vault : string) : cmd (result unit)
(** memory shared by the connections *)
| LockCommits : cmd unit
| UnlockCommits : cmd unit
| Publish (e : Event) : cmd unit
| Subscribe (vault : string) : cmd unit
| Recv : cmd received
| TryReserve (committed_global committed_owner owner additional global_limit owner_limit : Z) : cmd (option Storage.reservation)
| ReleaseReservation (r : Storage.reservation) : cmd unit
| Reserved (owner : Z) : cmd (Z * Z)
| AcquireUser (user : Z) (k : Concurrency.kind) (limit : Z) : cmd bool
| ReleaseUser (user : Z) (k : Concurrency.kind) : cmd unit
| TryUploadPermit : cmd bool
| DropUploadPermit : cmd unit
| RegisterLive (user : Z) (hash vault device : string) (cursor : Z) : cmd bool
(** the runtime, the staging directory and the socket *)
| ShuttingDown : cmd bool
| AcquireBulk : cmd acquired
| AcquirePull : cmd acquired
| AcquireLarge : cmd acquired
| DropBulk : cmd unit
| DropPull : cmd unit
| DropLarge : cmd unit
| CreateStaged : cmd (result unit)
| WriteStaged (bytes : blob) : cmd (result unit)
| SyncStaged : cmd (result unit)
| RemoveStaged : cmd (result unit)
| ReleaseSource : cmd unit
| Send (f : frame) : cmd bool.

Notation handler := (M cmd Session).
Declare Scope ws_scope.
Delimit Scope ws_scope with ws.
Notation "x <- m ; k" := (@bind cmd Session _ _ m (fun x => k))
  (at level 100, m at level 99, right associativity) : ws_scope.
Notation "m ;; k" := (@bind cmd Session _ _ m (fun _ => k)) (at level 100, right associativity) : ws_scope.
Local Open Scope ws_scope.

Definition err_reply (msg : string) : json := JObj [("err", JStr msg)]%string.
Definition res_err (msg : string) : json := JObj [("res", JStr "err"); ("msg", JStr msg)]%string.
Definition res_ok (fields : list (string * json)) : json := JObj (("res"%string, JStr "ok") :: fields).
Definition next_reply : json := JObj [("res", JStr "next")]%string.
Definition conflict_reply : json :=
  JObj [("res", JStr "err"); ("code", JStr "conditional_write_conflict");
        ("msg", JStr "Conditional write conflict; catch up before retrying")]%string.

Definition bounded (v : string) (max : Z) : bool := negb (is_empty v) && (str_len v <=? max).
Definition js_safe_nonnegative (z : Z) : bool := in_range 0 MAX_JS_SAFE_INTEGER z.

(** [error.context(..)?] on an option. *)
Definition context {A} (o : option A) (msg : string) : handler A := lift (ok_or o (Bail msg)).
Definition when (b : bool) (m : handler unit) : handler unit := if b then m else ret tt.

(** RAII: what a dropped guard releases when the rest of its scope fails. *)
Definition on_error {A} (cleanup : handler unit) (m : handler A) : handler A := fun s =>
  io_bind (m s) (fun sr =>
    match sr with
    | (s, Ok a) => Ret (s, Ok a)
    | (s, Err e) => io_bind (cleanup s) (fun sr => Ret (fst sr, Err e))
    end).
(** An error becomes a value. *)
Definition attempt {A} (m : handler A) : handler (result A) := fun s =>
  io_bind (m s) (fun sr => Ret (fst sr, Ok (snd sr))).
(** A guard dropped at the end of its scope, whatever the result. *)
Definition finally {A} (cleanup : handler unit) (m : handler A) : handler A := fun s =>
  io_bind (m s) (fun sr => io_bind (cleanup (fst sr)) (fun sr' => Ret (fst sr', snd sr))).
(** A scope that holds the commit-order lock. *)
Definition locked {A} (m : handler A) : handler A :=
  perform LockCommits ;;
  x <- on_error (perform UnlockCommits) m ;
  perform UnlockCommits ;;
  ret x.

Inductive commit_outcome :=
| Committed (e : Event) (size : Z)
| QuotaExceeded
| Conflict.

Section Handlers.
(** [hex(Sha256(token))]; the lengths of serialised notices and replies; the
    configuration; the number of events or pages a waiting loop may consume. *)
Context (token_hash : string -> string) (notice_len : PushNotice -> Z) (json_len : json -> Z).
Context (config : Config) (fuel : nat).

Definition socket_send (f : frame) : handler unit :=
  sent <- perform (Send f) ;
  if sent then ret tt else fail (Bail "websocket write timed out").
Definition send_with_limit (v : json) (limit : Z) : handler bool :=
  if limit <? json_len v then ret false else socket_send (Text v) ;; ret true.
Definition send (v : json) : handler unit :=
  sent <- send_with_limit v MAX_LARGE_RESPONSE_BYTES ;
  if sent then ret tt else fail (Bail "outbound JSON exceeds the safe wire limit").
Definition close {A} (code : Z) (reason : string) : handler A :=
  socket_send (CloseFrame code reason) ;; fail (Bail reason).

Definition session_active : handler bool :=
  s <- get ;
  match ss_token_hash s, ss_vault s with
  | Some hash, Some vault => perform (SessionActive hash vault)
  | _, _ => ret false
  end.
Definition renew_active_session : handler bool :=
  s <- get ;
  match ss_token_hash s, ss_vault s with
  | Some hash, Some vault =>
      r <- perform (RenewSession hash vault (session_ttl config)) ;
      ret (match r with Ok (Some _) => true | _ => false end)
  | _, _ => ret false
  end.

Definition reject_storage_quota : handler unit := send (err_reply STORAGE_QUOTA_CLIENT_ERROR).
Definition close_storage_quota : handler unit :=
  socket_send (CloseFrame 1008 STORAGE_QUOTA_CLIENT_ERROR) ;; fail (Bail STORAGE_QUOTA_CLIENT_ERROR).

Definition publish_committed (r : Revision) : handler Event :=
  let e := {| e_uid := r_uid r; e_vault := r_vault_id r; e_text := Some (notice_of_revision r); e_invalidated := false |} in
  if MAX_EVENT_BYTES <? notice_len (notice_of_revision r)
  then fail (Bail "committed notice exceeds the bounded event size")
  else perform (Publish e) ;; ret e.

(** The result of a commit, published before the lock is released. *)
Definition settle_commit (r : result Revision) : handler commit_outcome :=
  match r with
  | Ok stored => e <- publish_committed stored ; ret (Committed e (r_size stored))
  | Err StorageQuotaExceeded => ret QuotaExceeded
  | Err ConditionalWriteConflict => ret Conflict
  | Err e => fail e
  end.

(** [acknowledge_commit]: forward the vault's events up to the originating one, then
    confirm. *)
Fixpoint await_own_event (n : nat) (committed : Event) : handler bool :=
  match n with
  | O => fail (Bail "out of fuel")
  | S n =>
      r <- perform Recv ;
      match r with
      | Lagged => close 1013 "Change stream lagged; reconnect to resume"
      | ChannelClosed => fail (Bail "change stream closed")
      | Received e =>
          if negb (String.eqb (e_vault e) (e_vault committed)) then await_own_event n committed
          else if e_invalidated e then close 1008 "Vault deleted or replaced"
          else
            stop <- perform ShuttingDown ;
            if stop then ret false else
            active <- session_active ;
            if negb active then close 1008 "Session expired or revoked" else
            match e_text e with Some n => socket_send (EventText n) | None => ret tt end ;;
            if e_uid e =? e_uid committed then ret true
            else if e_uid committed <? e_uid e then fail (Bail "ordered change stream skipped originating commit")
            else await_own_event n committed
      end
  end.
Definition acknowledge_commit (committed : Event) (conditional : bool) : handler unit :=
  stop <- perform ShuttingDown ;
  if stop then ret tt else
  delivered <- await_own_event fuel committed ;
  if negb delivered then ret tt else
  active <- session_active ;
  if negb active then close 1008 "Session expired or revoked" else
  if conditional then send (res_ok [("uid"%string, JInt (e_uid committed))]) else send (res_ok []).

(** ** [init] *)
Definition token_has_session_shape (token : string) : bool := lower_hex64 token.

(** The items of one page: [None] when the server is shutting down. *)
Fixpoint send_page (page : list Revision) (cursor : Z) : handler (option Z) :=
  match page with
  | [] => ret (Some cursor)
  | revision :: rest =>
      stop <- perform ShuttingDown ;
      if stop then ret None else
      active <- session_active ;
      if negb active then close 1008 "Authorization revoked" else
      permit <- perform AcquireBulk ;
      match permit with
      | Stopping => ret None
      | PoolStopped => fail (Bail "bulk-memory pool stopped")
      | Granted =>
          finally (perform DropBulk) (send (notice_json (notice_of_revision revision))) ;;
          send_page rest (r_uid revision)
      end
  end.
Fixpoint replay_pages (n : nat) (initial : bool) (vault : string) (cursor ready : Z) : handler bool :=
  match n with
  | O => fail (Bail "out of fuel")
  | S n =>
      stop <- perform ShuttingDown ;
      if stop then ret false else
      active <- session_active ;
      if negb active then close 1008 "Session expired or revoked" else
      page <- task (ReplayPage initial vault cursor ready) ;
      match page with
      | [] => ret true
      | _ =>
          c <- send_page page cursor ;
          match c with
          | None => ret false
          | Some cursor =>
              if Z.of_nat (length page) <? REPLAY_PAGE_SIZE then ret true
              else replay_pages n initial vault cursor ready
          end
      end
  end.
(** Enough for every page: the cursor moves up to [ready] by at least one. *)
Definition replay_fuel (cursor ready : Z) : nat := S (S (Z.to_nat (ready - cursor))).

Definition replay_and_ready (initial : bool) (vault : string) (version ready : Z) : handler unit :=
  let cursor := if initial then 0 else version in
  done_ <- replay_pages (replay_fuel cursor ready) initial vault cursor ready ;
  if negb done_ then ret tt else
  active <- session_active ;
  if negb active then close 1008 "Authorization revoked" else
  send (JObj [("op", JStr "ready"); ("version", JInt ready)]%string).

Definition init_version (v : json) : option Z :=
  match jget "version" v with
  | None => Some 0
  | Some value => match as_i64 value with
                  | Some z => if in_range 0 MAX_JS_SAFE_INTEGER z then Some z else None
                  | None => None
                  end
  end.

Definition unable_to_authenticate : handler unit := send (res_err "Unable to authenticate").
Definition vault_not_found : handler unit := send (res_err "Vault not found") ;; close 1008 "Vault not found".

Definition authenticated_session (ctx : AuthContext) (vault : Vault) (owner : option Z) (v : json) (s : Session) : Session :=
  let device := default "Unknown device"%string (str_field "device" v) in
  {| ss_authenticated := true; ss_token_hash := Some (ac_token_hash ctx); ss_user_id := Some (ac_user_id ctx);
     ss_vault := Some (v_id vault); ss_owner := owner;
     ss_device := if bounded device 256 then device else "Unknown device";
     ss_pending := ss_pending s; ss_live := ss_live s |}.
Definition set_live (b : bool) (s : Session) : Session := {|
  ss_authenticated := ss_authenticated s; ss_token_hash := ss_token_hash s; ss_user_id := ss_user_id s;
  ss_vault := ss_vault s; ss_owner := ss_owner s; ss_device := ss_device s; ss_pending := ss_pending s; ss_live := b |}.

(** The replay/live boundary: the version is read and the live events subscribed to
    under the commit lock, then everything up to that version is replayed. *)
Definition subscribe_and_replay (ctx : AuthContext) (vault : string) (version : Z) (initial : bool) : handler unit :=
  ready <- locked (ready <- task (CurrentVersion vault) ; perform (Subscribe vault) ;; ret ready) ;
  if negb initial && (ready <? version) then
    send (res_err "Client Sync version is ahead of the server; reconnect this vault as a fresh client after restore") ;;
    close 1008 "Client Sync version is ahead of the server"
  else
    send (res_ok [("userId", JInt (ac_user_id ctx)); ("perFileMax", JInt (per_file_max config))]%string) ;;
    replay_and_ready initial vault version ready.

(** From the accepted credentials to the end of the replay. *)
Definition init_accepted (ctx : AuthContext) (vault : Vault) (owner : option Z) (v : json) : handler unit :=
  renewed <- task (RenewSession (ac_token_hash ctx) (v_id vault) (session_ttl config)) ;
  match renewed with
  | None => unable_to_authenticate
  | Some _ =>
      match init_version v with
      | None => send (res_err "Invalid Sync version") ;; close 1008 "Invalid Sync version"
      | Some version =>
          permit <- perform (AcquireUser (ac_user_id ctx) Concurrency.Connection (max_ws_connections_per_user config)) ;
          if negb permit then
            send (res_err "Account connection capacity reached; retry shortly") ;;
            close 1013 "Account connection capacity reached"
          else
            s <- get ;
            let s := authenticated_session ctx vault owner v s in
            put s ;;
            live <- perform (RegisterLive (ac_user_id ctx) (ac_token_hash ctx) (v_id vault) (ss_device s) version) ;
            put (set_live live s) ;;
            subscribe_and_replay ctx (v_id vault) version (default false (bool_field "initial" v))
      end
  end.

Definition opt_eqb (a b : option string) : bool := bool_decide (a = b).
Definition is_collaborator (a : VaultAccess) : bool := match a with Collaborator _ _ _ => true | Owner _ _ => false end.

Definition init (v : json) : handler unit :=
  if negb (opt_eqb (str_field "op" v) (Some "init"%string)) then send (res_err "Authentication required") else
  let token := default ""%string (str_field "token" v) in
  let id := default ""%string (str_field "id" v) in
  let keyhash := str_field "keyhash" v in
  let enc := int_field "encryption_version" v in
  let shape := token_has_session_shape token in
  found <- task (Lookup (if shape then Some (token_hash token) else None) id) ;
  let valid_session := negb (is_null (il_auth found)) in
  match il_vault found, il_auth found with
  | None, _ =>
      if valid_session || (shape && il_retired found) then vault_not_found else unable_to_authenticate
  | Some (vault, access), auth =>
      if is_collaborator access
         && negb (match il_owner found with Some o => sharing_allowed_for_owner config o | None => false end)
      then vault_not_found
      else
        match auth with
        | Some ctx =>
            if opt_eqb keyhash (v_keyhash vault)
               && match enc with Some e => e =? v_encryption_version vault | None => false end
            then init_accepted ctx vault (il_owner found) v
            else unable_to_authenticate
        | None => unable_to_authenticate
        end
  end.

(** ** [begin_push] *)
Definition field_ok {A} (o : option A) (p : A -> bool) : bool := match o with Some a => p a | None => false end.
(** [(size + PIECE_SIZE - 1) / PIECE_SIZE] in [i64]. *)
Definition pieces_of (size : Z) : Z := Z.quot (wrap64 (size + PIECE_SIZE - 1)) PIECE_SIZE.

Definition push_valid (v : json) : bool :=
  let size := default 0 (int_field "size" v) in
  let pieces := default 0 (int_field "pieces" v) in
  bounded (default ""%string (str_field "path" v)) 16384
  && match jget "relatedpath" v with
     | None | Some JNull => true
     | Some (JStr value) => str_len value <=? 16384
     | _ => false
     end
  && field_ok (str_field "extension" v) (fun x => str_len x <=? 256)
  && field_ok (str_field "hash" v) (fun x => str_len x <=? 4096)
  && field_ok (int_field "ctime" v) js_safe_nonnegative
  && field_ok (int_field "mtime" v) js_safe_nonnegative
  && field_ok (bool_field "folder" v) (fun _ => true)
  && field_ok (bool_field "deleted" v) (fun _ => true)
  && (0 <=? size) && (size <=? max_ciphertext_size config) && (0 <=? pieces)
  && match jget "expected_version" v with
     | None => true
     | Some (JInt _ as n) => field_ok (as_i64 n) js_safe_nonnegative
     | _ => false
     end
  && (pieces =? pieces_of size).

Definition push_revision (v : json) (vault device : string) (user_id : Z) : NewRevision := {|
  n_vault_id := vault;
  n_path := default ""%string (str_field "path" v);
  n_relatedpath := str_field "relatedpath" v;
  n_extension := default ""%string (str_field "extension" v);
  n_hash := default ""%string (str_field "hash" v);
  n_ctime := default 0 (int_field "ctime" v);
  n_mtime := default 0 (int_field "mtime" v);
  n_folder := default false (bool_field "folder" v);
  n_deleted := default false (bool_field "deleted" v);
  n_size := default 0 (int_field "size" v);
  n_pieces := default 0 (int_field "pieces" v);
  n_device := device;
  n_user_id := user_id;
  n_expected_version := int_field "expected_version" v |}.

Definition serialized_notice_size (r : NewRevision) : Z :=
  notice_len {| pn_path := n_path r; pn_relatedpath := n_relatedpath r; pn_extension := n_extension r;
                pn_hash := n_hash r; pn_ctime := n_ctime r; pn_mtime := n_mtime r; pn_folder := n_folder r;
                pn_deleted := n_deleted r; pn_size := n_size r; pn_uid := i64_max; pn_device := n_device r;
                pn_user := n_user_id r; pn_ts := i64_max |}.

Definition unwrap {A} (o : option A) : handler A := context o "called `Option::unwrap()` on a `None` value".
Definition is_conditional (r : NewRevision) : bool := negb (is_null (n_expected_version r)).

(** A revision without content is committed at once. *)
Definition push_empty (r : NewRevision) : handler unit :=
  outcome <- locked (
    s <- get ;
    hash <- context (ss_token_hash s) "authenticated session has no token hash" ;
    stored <- perform (AddEmpty r hash (storage_quota_bytes config) (storage_quota_bytes_per_owner config)) ;
    settle_commit stored) ;
  match outcome with
  | Committed e _ => acknowledge_commit e (is_conditional r)
  | QuotaExceeded => reject_storage_quota
  | Conflict => send conflict_reply
  end.

Definition release_upload (user : Z) : handler unit :=
  perform DropUploadPermit ;; perform (ReleaseUser user Concurrency.Upload).

(** A file is admitted, its bytes reserved, and its content awaited. *)
Definition push_file (r : NewRevision) : handler unit :=
  permit <- perform TryUploadPermit ;
  if negb permit then send (err_reply "Server upload capacity reached; retry shortly") else
  let user := n_user_id r in
  s <- get ;
  owner <- on_error (perform DropUploadPermit) (context (ss_owner s) "authorized vault has no owner") ;
  granted <- perform (AcquireUser user Concurrency.Upload (max_concurrent_uploads_per_user config)) ;
  if negb granted then
    perform DropUploadPermit ;; send (err_reply "Account upload capacity reached; retry shortly")
  else
    reservation <- on_error (release_upload user) (locked (
      sizes <- task (StoredSizes owner) ;
      perform (TryReserve (fst sizes) (snd sizes) owner (n_size r) (storage_quota_bytes config)
                 (storage_quota_bytes_per_owner config)))) ;
    match reservation with
    | None => release_upload user ;; reject_storage_quota
    | Some reservation =>
        on_error (perform (ReleaseReservation reservation) ;; release_upload user) (task CreateStaged) ;;
        put (set_pending (Some {| p_revision := r; p_file := []; p_pieces := 0; p_bytes := 0;
                                  p_reservation := reservation |}) s) ;;
        send next_reply
    end.

Definition begin_push (v : json) : handler unit :=
  s <- get ;
  match ss_pending s with
  | Some _ => send (err_reply "An upload is already in progress")
  | None =>
      if negb (push_valid v) then send (err_reply "Invalid push metadata") else
      vault <- unwrap (ss_vault s) ;
      user <- context (ss_user_id s) "authenticated session has no user ID" ;
      let r := push_revision v vault (ss_device s) user in
      if MAX_EVENT_BYTES <? serialized_notice_size r then send (err_reply "Push metadata is too large") else
      if n_folder r || n_deleted r || (n_pieces r =? 0) then push_empty r else push_file r
  end.

(** ** [upload_chunk] *)
Definition accept_piece (p : Pending) (bytes : blob) : Pending := {|
  p_revision := p_revision p; p_file := p_file p; p_pieces := p_pieces p + 1;
  p_bytes := p_bytes p + blob_len bytes; p_reservation := p_reservation p |}.
Definition append_piece (p : Pending) (bytes : blob) : Pending := {|
  p_revision := p_revision p; p_file := p_file p ++ bytes; p_pieces := p_pieces p;
  p_bytes := p_bytes p; p_reservation := p_reservation p |}.

(** The last piece arrived: commit the staged file; the reservation is released while
    the lock excludes new admissions. *)
Definition finish_upload (p : Pending) : handler unit :=
  task SyncStaged ;;
  s <- get ;
  hash <- context (ss_token_hash s) "authenticated session has no token hash" ;
  put (set_pending None s) ;;
  let r := p_revision p in
  finally (release_upload (n_user_id r)) (
    outcome <- locked (
      outcome <- attempt (
        stored <- perform (AddFile r hash (p_file p) (storage_quota_bytes config) (storage_quota_bytes_per_owner config)) ;
        settle_commit stored) ;
      perform (ReleaseReservation (p_reservation p)) ;;
      ret outcome) ;
    removed <- perform RemoveStaged ;
    match outcome, removed with
    | Ok (Committed _ _), Err e => fail e
    | Ok (Committed e _), Ok _ => acknowledge_commit e (is_conditional r)
    | Ok QuotaExceeded, _ => close_storage_quota
    | Ok Conflict, _ => send conflict_reply
    | Err e, _ => fail e
    end).

Definition upload_chunk (bytes : blob) : handler unit :=
  s <- get ;
  match ss_pending s with
  | None => close 1008 "Unexpected binary message"
  | Some p =>
      if PIECE_SIZE <? blob_len bytes then close 1009 "Upload piece too large" else
      let p := accept_piece p bytes in
      put (set_pending (Some p) s) ;;
      if (n_pieces (p_revision p) <? p_pieces p) || (n_size (p_revision p) <? p_bytes p)
      then close 1009 "Upload exceeds declared size" else
      permit <- perform AcquireBulk ;
      match permit with
      | Stopping => ret tt
      | PoolStopped => fail (Bail "bulk-memory pool stopped")
      | Granted =>
          finally (perform DropBulk) (task (WriteStaged bytes)) ;;
          let p := append_piece p bytes in
          put (set_pending (Some p) s) ;;
          if p_pieces p <? n_pieces (p_revision p) then send next_reply else
          if negb (p_bytes p =? n_size (p_revision p)) then close 1008 "Upload size does not match metadata" else
          finish_upload p
      end
  end.

(** [discard_pending_upload]: the guards go, the staged file is removed. *)
Definition discard_pending_upload : handler unit :=
  s <- get ;
  match ss_pending s with
  | None => ret tt
  | Some p =>
      put (set_pending None s) ;;
      perform DropUploadPermit ;;
      perform RemoveStaged ;;
      perform (ReleaseReservation (p_reservation p)) ;;
      perform (ReleaseUser (n_user_id (p_revision p)) Concurrency.Upload)
  end.

(** ** [pull] *)
Definition not_found : handler unit := send (err_reply "Revision not found").
Definition pull_header (info : PullInfo) (content : bool) : json :=
  res_ok [("size", JInt (if content then pi_size info else 0)); ("pieces", JInt (if content then pi_pieces info else 0));
          ("deleted", JBool (if content then false else pi_deleted info)); ("hash", JStr (pi_hash info))]%string.

(** One piece under both permits: [false] when the server is shutting down. *)
Definition send_piece (uid offset_ len : Z) : handler bool :=
  permit <- perform AcquirePull ;
  match permit with
  | Stopping => ret false
  | PoolStopped => fail (Bail "pull pool stopped")
  | Granted => finally (perform DropPull) (
      bulk <- perform AcquireBulk ;
      match bulk with
      | Stopping => ret false
      | PoolStopped => fail (Bail "bulk-memory pool stopped")
      | Granted => finally (perform DropBulk) (
          stop <- perform ShuttingDown ;
          if stop then ret false else
          chunk <- task (ContentChunk uid offset_ len) ;
          active <- session_active ;
          if negb active then close 1008 "Authorization revoked" else
          socket_send (Binary chunk) ;;
          renewed <- renew_active_session ;
          if negb renewed then close 1008 "Authorization revoked" else ret true)
      end)
  end.
(** The frames of the content from an offset on. *)
Fixpoint send_frames (n : nat) (uid size offset_ : Z) : handler unit :=
  if negb (offset_ <? size) then ret tt else
  match n with
  | O => fail (Bail "out of fuel")
  | S n =>
      stop <- perform ShuttingDown ;
      if stop then ret tt else
      active <- session_active ;
      if negb active then close 1008 "Session expired or revoked" else
      let len := Z.min (size - offset_) PIECE_SIZE in
      go <- send_piece uid offset_ len ;
      if go then send_frames n uid size (offset_ + len) else ret tt
  end.
(** One iteration for each piece. *)
Definition frames_fuel (size : Z) : nat := Z.to_nat (size / PIECE_SIZE + 1).

Definition pull (v : json) : handler unit :=
  match int_field "uid" v with
  | None => not_found
  | Some uid =>
      info <- task (GetPullInfo uid) ;
      match info with
      | None => not_found
      | Some info =>
          s <- get ;
          if negb (opt_eqb (ss_vault s) (Some (pi_vault_id info))) then not_found else
          active <- session_active ;
          if negb active then close 1008 "Authorization revoked" else
          if pi_deleted info || pi_folder info || negb (pi_has_content info) then send (pull_header info false)
          else send (pull_header info true) ;; send_frames (frames_fuel (pi_size info)) uid (pi_size info) 0
      end
  end.

(** ** [history], [deleted], [restore] *)
Definition with_large_response (m : handler unit) : handler unit :=
  permit <- perform AcquireLarge ;
  match permit with
  | Stopping | PoolStopped => fail (Bail "large-response pool stopped")
  | Granted => finally (perform DropLarge) (
      bulk <- perform AcquireBulk ;
      match bulk with
      | Stopping => ret tt
      | PoolStopped => fail (Bail "bulk-memory pool stopped")
      | Granted => finally (perform DropBulk) m
      end)
  end.

Definition history (v : json) : handler unit := with_large_response (
  match str_field "path" v with
  | Some path =>
      if negb (bounded path 16384) then send (err_reply "Invalid history path") else
      s <- get ;
      vault <- unwrap (ss_vault s) ;
      all <- task (History vault path (int_field "last" v) 101) ;
      let more := (100 <? length all)%nat in
      let items := map (fun r => notice_item (notice_of_revision r)) (take 100 all) in
      active <- session_active ;
      if negb active then close 1008 "Authorization revoked" else
      sent <- send_with_limit (JObj [("items", JArr items); ("more", JBool more)]%string) MAX_LARGE_RESPONSE_BYTES ;
      if sent then ret tt else send (err_reply "History response exceeds the safe wire limit")
  | None => send (err_reply "Invalid history path")
  end).

(** The items of a page appended to the response of [len] bytes; [None] past the limit. *)
Fixpoint append_items (page : list Revision) (len : Z) (items : list json) : option (Z * list json) :=
  match page with
  | [] => Some (len, items)
  | r :: page =>
      let item := notice_item (notice_of_revision r) in
      let separator := match items with [] => 0 | _ => 1 end in
      if MAX_LARGE_RESPONSE_BYTES <? len + separator + json_len item + 2 then None
      else append_items page (len + separator + json_len item) (items ++ [item])
  end.
Fixpoint deleted_pages (n : nat) (vault : string) (suppress : bool) (after_ len : Z) (items : list json)
    : handler (option (list json)) :=
  match n with
  | O => fail (Bail "out of fuel")
  | S n =>
      page <- task (DeletedPage vault suppress after_) ;
      match append_items page len items with
      | None => ret None
      | Some (len, items) =>
          if Z.of_nat (length page) <? DELETED_PAGE_SIZE then ret (Some items)
          else deleted_pages n vault suppress (last_uid after_ page) len items
      end
  end.
Definition deleted (v : json) : handler unit := with_large_response (
  s <- get ;
  vault <- unwrap (ss_vault s) ;
  let suppress := match bool_field "suppressrenames" v with Some true => true | _ => false end in
  response <- locked (deleted_pages fuel vault suppress 0 10 []) ;
  match response with
  | None => send (err_reply "Deleted response exceeds the safe wire limit; ask the server operator to stop the service, run `blackglass-server purge-deleted <database> <vault-id> <backup>`, and retry")
  | Some items =>
      active <- session_active ;
      if negb active then close 1008 "Authorization revoked" else
      socket_send (Text (JObj [("items", JArr items)]%string))
  end).

Inductive restore_outcome :=
| Restored (e : option Event)
| MetadataTooLarge
| RestoreQuotaExceeded.
Definition restore_too_large (e : error) : bool :=
  match e with Bail m => String.eqb m "restored revision metadata exceeds the bounded event size" | _ => false end.

Definition restore (v : json) : handler unit :=
  match int_field "uid" v with
  | None => not_found
  | Some uid =>
      outcome <- locked (
        s <- get ;
        vault <- unwrap (ss_vault s) ;
        user <- context (ss_user_id s) "authenticated session has no user ID" ;
        hash <- context (ss_token_hash s) "authenticated session has no token hash" ;
        owner <- context (ss_owner s) "authorized vault has no owner" ;
        reserved <- perform (Reserved owner) ;
        r <- perform (Restore user hash vault uid (ss_device s)
               (saturating_sub (storage_quota_bytes config) (fst reserved),
                saturating_sub (storage_quota_bytes_per_owner config) (snd reserved))) ;
        match r with
        | Ok None => ret (Restored None)
        | Ok (Some revision) => e <- publish_committed revision ; ret (Restored (Some e))
        | Err e =>
            if restore_too_large e then ret MetadataTooLarge
            else match e with StorageQuotaExceeded => ret RestoreQuotaExceeded | _ => fail e end
        end) ;
      match outcome with
      | MetadataTooLarge => send (err_reply "Restore metadata is too large")
      | RestoreQuotaExceeded => reject_storage_quota
      | Restored (Some e) => acknowledge_commit e false
      | Restored None => not_found
      end
  end.

(** ** [handle_message] *)
Definition size_report : handler unit :=
  s <- get ;
  vault <- unwrap (ss_vault s) ;
  report <- locked (
    owner <- context (ss_owner s) "vault has no owner" ;
    sizes <- task (SizeReport vault) ;
    reserved <- perform (Reserved owner) ;
    ret (sizes, reserved)) ;
  let '(size, vault_size, global_size, reserved) := report in
  let limit := Storage.effective_storage_limit size global_size (snd reserved) (fst reserved)
                 (storage_quota_bytes_per_owner config) (storage_quota_bytes config) in
  active <- session_active ;
  if negb active then close 1008 "Authorization revoked" else
  send (res_ok [("size", JInt size); ("limit", JInt limit); ("vault_size", JInt vault_size)]%string).
Definition usernames : handler unit :=
  s <- get ;
  vault <- unwrap (ss_vault s) ;
  names <- task (Usernames vault) ;
  active <- session_active ;
  if negb active then close 1008 "Authorization revoked" else
  send (JObj (map (fun p => (fst p, JStr (snd p))) names)).
Definition purge : handler unit :=
  s <- get ;
  vault <- unwrap (ss_vault s) ;
  user <- context (ss_user_id s) "authenticated session has no user ID" ;
  hash <- context (ss_token_hash s) "authenticated session has no token hash" ;
  locked (task (Purge user hash vault)) ;;
  send (res_ok []).

Definition dispatch (op : string) (v : json) : handler unit :=
  if String.eqb op "ping" then send (JObj [("op", JStr "pong")]%string)
  else if String.eqb op "capabilities" then send (res_ok [("conditional_push_v1", JBool true)]%string)
  else if String.eqb op "size" then size_report
  else if String.eqb op "usernames" then usernames
  else if String.eqb op "push" then begin_push v
  else if String.eqb op "pull" then pull v
  else if String.eqb op "deleted" then deleted v
  else if String.eqb op "history" then history v
  else if String.eqb op "restore" then restore v
  else if String.eqb op "purge" then purge
  else send (err_reply ("Unsupported operation: " +:+ op)).

Definition handle_message (m : message) : handler unit :=
  s <- get ;
  match m with
  | MText len parsed =>
      if 64 * 1024 <? len then close 1009 "JSON message too large" else
      match parsed with
      | None => if negb (ss_authenticated s) then close 1008 "Authentication required"
                else send (res_err "Invalid JSON")
      | Some v =>
          let op := default ""%string (str_field "op" v) in
          if negb (ss_authenticated s) then
            if negb (String.eqb op "init") then close 1008 "Authentication required" else init v
          else
            active <- session_active ;
            if negb active then close 1008 "Session expired or revoked" else dispatch op v
      end
  | MBinary bytes =>
      if negb (ss_authenticated s) then close 1008 "Authentication required" else
      active <- session_active ;
      if negb active then close 1008 "Authentication required" else upload_chunk bytes
  | MClose => ret tt
  | MPing bytes =>
      if negb (ss_authenticated s) then close 1008 "Authentication required" else
      active <- session_active ;
      if negb active then close 1008 "Authentication required" else socket_send (Pong bytes)
  | MPong => if ss_authenticated s then ret tt else close 1008 "Authentication required"
  end.

(** ** [socket_loop]: what may wake it, in the order of its biased [select!] *)
Inductive wakeup :=
| Shutdown
| AuthenticationDeadline
| Cancelled
| UploadDeadline
| PeerDeadline
| Revalidate
| Incoming (m : option message)
| EventReady (r : received).

Definition enabled (s : Session) (w : wakeup) : bool :=
  match w with
  | Shutdown | Incoming _ => true
  | AuthenticationDeadline => negb (ss_authenticated s)
  | Cancelled => ss_live s
  | UploadDeadline => negb (is_null (ss_pending s))
  | PeerDeadline => ss_authenticated s && is_null (ss_pending s)
  | Revalidate | EventReady _ => ss_authenticated s
  end.

(** A close frame whose delivery does not matter ([let _ = socket_send(..)]). *)
Definition last_words (code : Z) (reason : string) : handler bool :=
  perform (Send (CloseFrame code reason)) ;; ret false.
Definition check_session (reason : string) (go : handler bool) : handler bool :=
  active <- session_active ;
  if negb active then last_words 1008 reason else go.

(** Handle one message; a connection that gets in gives its source's permit back. *)
Definition deliver (was_authenticated : bool) (m : message) : handler bool :=
  r <- attempt (handle_message m) ;
  s <- get ;
  when (ss_authenticated s && negb was_authenticated) (perform ReleaseSource) ;;
  ret (match r with Ok _ => true | Err _ => false end).

(** One turn of the loop: [true] to go on, [false] to leave it. *)
Definition turn (w : wakeup) : handler bool :=
  s <- get ;
  match w with
  | Shutdown => last_words 1001 "Server shutting down"
  | AuthenticationDeadline => last_words 1008 "Authentication deadline exceeded"
  | Cancelled => last_words 1008 "Authorization revoked"
  | UploadDeadline => discard_pending_upload ;; last_words 1008 "Upload idle timeout exceeded"
  | PeerDeadline => last_words 1001 "Peer idle timeout; reconnect to resume"
  | Revalidate => check_session "Session expired or revoked" (ret true)
  | Incoming None | Incoming (Some MClose) => ret false
  | Incoming (Some m) =>
      renewed <- (if ss_authenticated s then renew_active_session else ret true) ;
      if negb renewed then
        attempt (close (A := unit) 1008 "Session expired or revoked") ;; ret false
      else
        deliver (ss_authenticated s) m
  | EventReady Lagged => last_words 1013 "Change stream lagged; reconnect to resume"
  | EventReady ChannelClosed => ret false
  | EventReady (Received e) =>
      if negb (opt_eqb (ss_vault s) (Some (e_vault e))) then ret true
      else if e_invalidated e then last_words 1008 "Vault deleted or replaced"
      else
        check_session "Session expired or revoked" (
          match e_text e with
          | None => ret true
          | Some n => perform (Send (EventText n))
          end)
  end.

(** The loop over a sequence of wakeups; leaving it discards the pending upload. *)
Fixpoint socket_loop (ws : list wakeup) : handler unit :=
  match ws with
  | [] => ret tt
  | w :: ws =>
      s <- get ;
      if negb (enabled s w) then socket_loop ws else
      go <- turn w ;
      if go then socket_loop ws else discard_pending_upload
  end.
End Handlers.
