(* ===== verification/Broadcast.v ===== *)
(** * The broadcast channel and the registry of vault events

    The server announces every commit on a channel of the vault ([VaultEvents] of
    server.rs), built on the broadcast channel of Tokio.  [Broadcast] states what that
    channel documents: every receiver gets the values sent after it subscribed, each once
    and in order, unless more than the capacity are outstanding; then it is told that it
    lagged.  [subscribe] and [send] are the registry, for any such channel, and [bus_ok]
    ties it to the receivers the connections hold. *)

From Stdlib Require Import ZArith Lia List String.
From stdpp Require Import base list strings gmap.
From S2P Require Import Prelude Protocol.

(** ** The channel *)
Inductive delivery (T : Type) := Value (x : T) | Lag | Nothing.
Arguments Value {T} x.
Arguments Lag {T}.
Arguments Nothing {T}.

Class Broadcast (T : Type) := {
  sender : Type;
  receiver : Type;
  channel : nat -> sender;
  subscribe_to : sender -> sender * receiver;
  drop_receiver : sender -> sender;
  send_to : sender -> T -> sender;
  receiver_count : sender -> nat;
  receive : sender -> receiver -> delivery T * receiver;

  capacity : sender -> nat;
  valid : sender -> receiver -> Prop;
  (** what the receiver has not received yet; [None] once it lagged *)
  unread : sender -> receiver -> option (list T);

  channel_count n : receiver_count (channel n) = 0;
  channel_capacity n : n <= capacity (channel n);
  subscribe_count s : receiver_count (fst (subscribe_to s)) = S (receiver_count s);
  subscribe_capacity s : capacity (fst (subscribe_to s)) = capacity s;
  subscribe_new s : valid (fst (subscribe_to s)) (snd (subscribe_to s)) /\
                    unread (fst (subscribe_to s)) (snd (subscribe_to s)) = Some [];
  subscribe_old s r : valid s r -> valid (fst (subscribe_to s)) r /\ unread (fst (subscribe_to s)) r = unread s r;
  drop_count s : receiver_count (drop_receiver s) = pred (receiver_count s);
  drop_capacity s : capacity (drop_receiver s) = capacity s;
  drop_old s r : valid s r -> valid (drop_receiver s) r /\ unread (drop_receiver s) r = unread s r;
  send_count s x : receiver_count (send_to s x) = receiver_count s;
  send_capacity s x : capacity (send_to s x) = capacity s;
  send_unread s x r : valid s r -> 0 < receiver_count s ->
    valid (send_to s x) r /\
    unread (send_to s x) r = match unread s r with
                             | Some l => if length l <? capacity s then Some (l ++ [x]) else None
                             | None => None
                             end;
  receive_spec s r : valid s r ->
    match unread s r with
    | Some [] => receive s r = (Nothing, r)
    | Some (x :: l) => fst (receive s r) = Value x /\ valid s (snd (receive s r)) /\ unread s (snd (receive s r)) = Some l
    | None => fst (receive s r) = Lag
    end;
}.

(** A reference channel: the whole log, and each receiver's position in it. *)
Record log_channel (T : Type) := { lc_capacity : nat; lc_log : list T; lc_receivers : nat }.
Arguments lc_capacity {T} _.
Arguments lc_log {T} _.
Arguments lc_receivers {T} _.

Definition lc_unread {T} (s : log_channel T) (r : nat) : option (list T) :=
  if lc_capacity s <? length (lc_log s) - r then None else Some (drop r (lc_log s)).

Definition lc_send {T} (s : log_channel T) (x : T) : log_channel T :=
  {| lc_capacity := lc_capacity s; lc_log := lc_log s ++ [x]; lc_receivers := lc_receivers s |}.
Definition lc_receive {T} (s : log_channel T) (r : nat) : delivery T * nat :=
  match lc_unread s r with
  | None => (Lag, length (lc_log s) - lc_capacity s)
  | Some [] => (Nothing, r)
  | Some (x :: _) => (Value x, S r)
  end.

Lemma lc_send_unread {T} (s : log_channel T) x r :
  r <= length (lc_log s) ->
  lc_unread (lc_send s x) r = match lc_unread s r with
                              | Some l => if length l <? lc_capacity s then Some (l ++ [x]) else None
                              | None => None
                              end.
Proof.
  intros Hv. unfold lc_unread. cbn [lc_send lc_log lc_capacity]. rewrite length_app. cbn [length].
  destruct (Nat.ltb_spec (lc_capacity s) (length (lc_log s) - r)).
  - rewrite (proj2 (Nat.ltb_lt _ _)) by lia. done.
  - rewrite length_drop. destruct (Nat.ltb_spec (length (lc_log s) - r) (lc_capacity s)).
    + rewrite (proj2 (Nat.ltb_ge _ _)) by lia. rewrite drop_app_le by lia. done.
    + rewrite (proj2 (Nat.ltb_lt _ _)) by lia. done.
Qed.

Lemma lc_receive_spec {T} (s : log_channel T) r x l :
  lc_unread s r = Some (x :: l) -> S r <= length (lc_log s) /\ lc_unread s (S r) = Some l.
Proof.
  unfold lc_unread. destruct (Nat.ltb_spec (lc_capacity s) (length (lc_log s) - r)); [done|]. intros E. injection E as E.
  assert (length (drop r (lc_log s)) = S (length l)) as Hl by (rewrite E; done). rewrite length_drop in Hl.
  split; [lia|]. rewrite (proj2 (Nat.ltb_ge _ _)) by lia.
  f_equal. rewrite <- Nat.add_1_r, <- drop_drop, E. done.
Qed.

#[export, program] Instance log_broadcast T : Broadcast T := {
  sender := log_channel T;
  receiver := nat;
  channel n := {| lc_capacity := n; lc_log := []; lc_receivers := 0 |};
  subscribe_to s := ({| lc_capacity := lc_capacity s; lc_log := lc_log s; lc_receivers := S (lc_receivers s) |},
                     length (lc_log s));
  drop_receiver s := {| lc_capacity := lc_capacity s; lc_log := lc_log s; lc_receivers := pred (lc_receivers s) |};
  send_to := lc_send;
  receiver_count := lc_receivers;
  receive := lc_receive;
  capacity := lc_capacity;
  valid s r := r <= length (lc_log s);
  unread := lc_unread;
}.
Solve Obligations with (intros; cbn; first [reflexivity|auto with arith]).
Next Obligation.
  intros T s. cbn. split; [done|]. unfold lc_unread. cbn. rewrite Nat.sub_diag, drop_all. done.
Qed.
Next Obligation.
  intros T s x r Hv _. cbn in Hv. split; [|by apply lc_send_unread]. cbn. rewrite length_app. lia.
Qed.
Next Obligation.
  intros T s r Hv. cbn in *. unfold lc_receive. destruct (lc_unread s r) as [[|x l]|] eqn:E; [done| |done].
  split; [done|]. apply (lc_receive_spec s r x l E).
Qed.

(** A channel in bounded memory: a ring of the last values, whose size is the capacity
    rounded up to a power of two, and each receiver's position. *)
Record ring (T : Type) := {
  rg_capacity : nat; rg_slots : list T; rg_sent : nat; rg_receivers : nat;
  rg_full : length rg_slots = Nat.min rg_sent rg_capacity;
}.
Arguments rg_capacity {T} _.
Arguments rg_slots {T} _.
Arguments rg_sent {T} _.
Arguments rg_receivers {T} _.
Arguments rg_full {T} _.

Definition rg_unread {T} (s : ring T) (r : nat) : option (list T) :=
  if rg_capacity s <? rg_sent s - r then None else Some (drop (length (rg_slots s) - (rg_sent s - r)) (rg_slots s)).
#[program] Definition rg_send {T} (s : ring T) (x : T) : ring T :=
  let l := rg_slots s ++ [x] in
  {| rg_capacity := rg_capacity s; rg_slots := drop (length l - rg_capacity s) l; rg_sent := S (rg_sent s); rg_receivers := rg_receivers s |}.
Next Obligation. intros T s x. cbn zeta. rewrite length_drop, length_app, rg_full. cbn [length]. lia. Qed.
#[program] Definition rg_channel {T} (n : nat) : ring T :=
  {| rg_capacity := 2 ^ Nat.log2_up n; rg_slots := []; rg_sent := 0; rg_receivers := 0 |}.
Solve Obligations with done.
Definition rg_with_receivers {T} (f : nat -> nat) (s : ring T) : ring T :=
  {| rg_capacity := rg_capacity s; rg_slots := rg_slots s; rg_sent := rg_sent s; rg_receivers := f (rg_receivers s); rg_full := rg_full s |}.
Definition rg_receive {T} (s : ring T) (r : nat) : delivery T * nat :=
  match rg_unread s r with
  | None => (Lag, rg_sent s - rg_capacity s)
  | Some [] => (Nothing, r)
  | Some (x :: _) => (Value x, S r)
  end.

Lemma rg_send_unread {T} (s : ring T) x r :
  r <= rg_sent s ->
  rg_unread (rg_send s x) r = match rg_unread s r with
                              | Some l => if length l <? rg_capacity s then Some (l ++ [x]) else None
                              | None => None
                              end.
Proof.
  intros Hv. pose proof (rg_full s) as Hf. unfold rg_unread. cbn [rg_send rg_capacity rg_sent rg_slots].
  destruct (Nat.ltb_spec (rg_capacity s) (rg_sent s - r)); [by rewrite (proj2 (Nat.ltb_lt _ _)) by lia|].
  assert (length (drop (length (rg_slots s) - (rg_sent s - r)) (rg_slots s)) = rg_sent s - r) as -> by (rewrite length_drop; lia).
  destruct (Nat.ltb_spec (rg_sent s - r) (rg_capacity s)).
  - rewrite (proj2 (Nat.ltb_ge _ _)) by lia. f_equal. rewrite drop_drop, length_drop, length_app. cbn [length].
    rewrite <- drop_app_le by lia. f_equal. lia.
  - rewrite (proj2 (Nat.ltb_lt _ _)) by lia. done.
Qed.
Lemma rg_receive_next {T} (s : ring T) r x l :
  r <= rg_sent s -> rg_unread s r = Some (x :: l) -> S r <= rg_sent s /\ rg_unread s (S r) = Some l.
Proof.
  intros Hv. pose proof (rg_full s) as Hf. unfold rg_unread. destruct (Nat.ltb_spec (rg_capacity s) (rg_sent s - r)); [done|].
  intros E. injection E as E. assert (S (length l) = rg_sent s - r) as Hl.
  { assert (length (drop (length (rg_slots s) - (rg_sent s - r)) (rg_slots s)) = S (length l)) as Hd by (rewrite E; done).
    rewrite length_drop in Hd. lia. }
  split; [lia|]. rewrite (proj2 (Nat.ltb_ge _ _)) by lia. f_equal.
  replace (length (rg_slots s) - (rg_sent s - S r)) with ((length (rg_slots s) - (rg_sent s - r)) + 1) by lia.
  rewrite <- drop_drop, E. done.
Qed.

Lemma le_pow2_log2_up n : n <= 2 ^ Nat.log2_up n.
Proof. destruct (Nat.le_gt_cases n 1); [destruct n as [|[]]; cbn; lia|]. by apply Nat.log2_up_spec. Qed.

Definition ring_broadcast T : Broadcast T.
Proof.
  refine {|
    sender := ring T; receiver := nat; channel := rg_channel; subscribe_to s := (rg_with_receivers S s, rg_sent s);
    drop_receiver := rg_with_receivers pred; send_to := rg_send; receiver_count := rg_receivers; receive := rg_receive;
    capacity := rg_capacity; valid s r := r <= rg_sent s; unread := rg_unread |}.
  - done.
  - apply le_pow2_log2_up.
  - done.
  - done.
  - intros s. split; [done|]. unfold rg_unread. cbn. rewrite Nat.sub_diag, Nat.sub_0_r, drop_all. done.
  - done.
  - done.
  - done.
  - done.
  - done.
  - done.
  - intros s x r Hv _. split; [cbn; lia|by apply rg_send_unread].
  - intros s r Hv. unfold rg_receive. destruct (rg_unread s r) as [[|x l]|] eqn:E; [done| |done].
    split; [done|]. by apply (rg_receive_next s r x l).
Defined.

(** ** [VaultEvents] *)
Section VaultEvents.
Context `{Broadcast Event}.
Notation topics := (gmap string sender).

(** [topics.retain(|_, sender| sender.receiver_count() > 0)] *)
Definition retain (t : topics) : topics := filter (fun p => 0 < receiver_count p.2) t.

Definition subscribe (vault : string) (t : topics) : topics * receiver :=
  let t := retain t in
  let (s, r) := subscribe_to (default (channel EVENT_CAPACITY) (t !! vault)) in
  (<[vault := s]> t, r).

Definition send (e : Event) (t : topics) : topics :=
  let t := retain t in
  match t !! e_vault e with
  | Some s => <[e_vault e := send_to s e]> t
  | None => t
  end.

(** A connection drops its receiver. *)
Definition unsubscribe (vault : string) (t : topics) : topics := alter drop_receiver vault t.

(** ** The receivers that exist *)
Notation holders := (gmap nat (string * receiver)).
Definition on_topic (vault : string) (p : nat * (string * receiver)) : Prop := p.2.1 = vault.
#[local] Instance on_topic_dec vault p : Decision (on_topic vault p).
Proof. unfold on_topic. apply _. Defined.
Definition held (vault : string) (h : holders) : nat := size (filter (on_topic vault) h).

Record bus_ok (t : topics) (h : holders) : Prop := {
  bus_topic : forall id v r, h !! id = Some (v, r) -> exists s, t !! v = Some s /\ valid s r;
  bus_count : forall v s, t !! v = Some s -> receiver_count s = held v h;
  bus_capacity : forall v s, t !! v = Some s -> EVENT_CAPACITY <= capacity s;
}.

Definition queue (t : topics) (p : string * receiver) : option (list Event) := t !! p.1 ≫= fun s => unread s p.2.

Lemma held_insert id v r h v' : h !! id = None -> held v' (<[id := (v, r)]> h) = if decide (v = v') then S (held v' h) else held v' h.
Proof.
  intros Hid. unfold held. destruct (decide (v = v')) as [Heq|Hne].
  - rewrite map_filter_insert_True by done. apply map_size_insert_None. apply map_lookup_filter_None. by left.
  - rewrite map_filter_insert_False by done. rewrite delete_id by done. done.
Qed.
Lemma held_delete id v r h v' : h !! id = Some (v, r) -> held v' (delete id h) = if decide (v = v') then pred (held v' h) else held v' h.
Proof.
  intros Hid. assert (held v' h = held v' (<[id := (v, r)]> (delete id h))) as -> by (rewrite insert_delete_id; done).
  rewrite held_insert by apply lookup_delete_eq. destruct (decide _); done.
Qed.
Lemma held_update id v r r' h v' : h !! id = Some (v, r) -> held v' (<[id := (v, r')]> h) = held v' h.
Proof.
  intros Hid. rewrite <- (insert_delete_eq h). rewrite held_insert by apply lookup_delete_eq.
  rewrite (held_delete id v r) by done. destruct (decide _) as [->|]; [|done]. apply Nat.succ_pred.
  unfold held. apply map_size_non_empty_iff. intros E.
  assert (filter (on_topic v') h !! id = Some (v', r)) as Hf by (apply map_lookup_filter_Some; done). rewrite E in Hf. done.
Qed.
Lemma held_pos id v r h : h !! id = Some (v, r) -> 0 < held v h.
Proof.
  intros Hid. destruct (Nat.eq_dec (held v h) 0) as [E|]; [|lia]. unfold held in E. apply map_size_empty_inv in E.
  assert (filter (on_topic v) h !! id = Some (v, r)) as Hf by (apply map_lookup_filter_Some; done). rewrite E in Hf. done.
Qed.

(** A topic some connection holds a receiver of is never pruned. *)
Lemma retain_held t h id v r : bus_ok t h -> h !! id = Some (v, r) -> retain t !! v = t !! v.
Proof.
  intros Hb Hid. destruct (bus_topic _ _ Hb id v r Hid) as (s & Hs & _). rewrite Hs. apply map_lookup_filter_Some.
  split; [done|]. cbn. rewrite (bus_count _ _ Hb v s Hs). eapply held_pos; eauto.
Qed.
Lemma retain_ok t h : bus_ok t h -> bus_ok (retain t) h.
Proof.
  intros Hb. split.
  - intros id v r Hid. rewrite (retain_held t h id v r Hb Hid). eapply bus_topic; eauto.
  - intros v s Hs. apply map_lookup_filter_Some in Hs as [Hs _]. eapply bus_count; eauto.
  - intros v s Hs. apply map_lookup_filter_Some in Hs as [Hs _]. eapply bus_capacity; eauto.
Qed.
Lemma retain_queue t h id p : bus_ok t h -> h !! id = Some p -> queue (retain t) p = queue t p.
Proof. intros Hb Hid. destruct p as [v r]. unfold queue. cbn. rewrite (retain_held t h id v r) by done. done. Qed.
Lemma retain_none t h v : bus_ok t h -> retain t !! v = None -> held v h = 0.
Proof.
  intros Hb Hn. destruct (Nat.eq_dec (held v h) 0) as [|Hne]; [done|exfalso]. unfold held in Hne.
  apply map_size_non_empty_iff in Hne. apply map_choose in Hne as (id & [v' r] & Hid).
  apply map_lookup_filter_Some in Hid as [Hid Hv]. cbv in Hv. subst v'.
  rewrite (retain_held t h id v r) in Hn by done. destruct (bus_topic _ _ Hb id v r Hid) as (s & Hs & _). congruence.
Qed.

(** ** What the operations do for the receivers *)
Lemma bus_subscribe t h id v :
  bus_ok t h -> h !! id = None ->
  let p := subscribe v t in
  bus_ok p.1 (<[id := (v, p.2)]> h) /\ queue p.1 (v, p.2) = Some [] /\
  forall id' q, h !! id' = Some q -> queue p.1 q = queue t q.
Proof.
  intros Hb Hid. unfold subscribe. set (s := default (channel EVENT_CAPACITY) (retain t !! v)).
  assert (receiver_count s = held v h /\ EVENT_CAPACITY <= capacity s) as [Hc Hcap].
  { subst s. destruct (retain t !! v) as [s|] eqn:E; cbn.
    - split; [eapply (bus_count _ _ (retain_ok _ _ Hb))|eapply (bus_capacity _ _ (retain_ok _ _ Hb))]; eauto.
    - rewrite channel_count. split; [symmetry; eapply retain_none; eauto|apply channel_capacity]. }
  pose proof (subscribe_new s) as [Hnv Hnu]. pose proof (subscribe_old s) as Hold. pose proof (subscribe_count s) as Hsc.
  pose proof (subscribe_capacity s) as Hscap. destruct (subscribe_to s) as [s' r]. cbn in *.
  assert (forall id' r', h !! id' = Some (v, r') -> retain t !! v = Some s /\ valid s r') as Hsame.
  { intros id' r' Hid'. destruct (bus_topic _ _ (retain_ok _ _ Hb) id' v r' Hid') as (s0 & Hs0 & Hv). subst s. rewrite Hs0. done. }
  split; [split|split].
  - intros id' v' r' Hl. destruct (decide (id' = id)) as [->|Hne].
    + rewrite lookup_insert_eq in Hl. injection Hl as <- <-. exists s'. rewrite lookup_insert_eq. done.
    + rewrite lookup_insert_ne in Hl by done. destruct (decide (v' = v)) as [->|Hv].
      * destruct (Hsame id' r' Hl) as [_ Hval]. exists s'. rewrite lookup_insert_eq. split; [done|]. by apply Hold.
      * rewrite lookup_insert_ne by done. eapply (bus_topic _ _ (retain_ok _ _ Hb)); eauto.
  - intros v' s0. rewrite held_insert by done. destruct (decide (v = v')) as [<-|Hv].
    + rewrite lookup_insert_eq. intros [= <-]. lia.
    + rewrite lookup_insert_ne by done. apply (bus_count _ _ (retain_ok _ _ Hb)).
  - intros v' s0. destruct (decide (v = v')) as [<-|Hv]; [rewrite lookup_insert_eq; intros [= <-]; lia|].
    rewrite lookup_insert_ne by done. apply (bus_capacity _ _ (retain_ok _ _ Hb)).
  - unfold queue. cbn. rewrite lookup_insert_eq. done.
  - intros id' [v' r'] Hl. rewrite <- (retain_queue t h id') by done. unfold queue. cbn.
    destruct (decide (v' = v)) as [->|Hv]; [|by rewrite lookup_insert_ne].
    destruct (Hsame id' r' Hl) as [-> Hval]. rewrite lookup_insert_eq. cbn. by apply Hold.
Qed.

Lemma bus_send t h e :
  bus_ok t h ->
  bus_ok (send e t) h /\
  (forall id v r, h !! id = Some (v, r) -> v <> e_vault e -> queue (send e t) (v, r) = queue t (v, r)) /\
  (forall id r, h !! id = Some (e_vault e, r) ->
     match queue t (e_vault e, r) with
     | Some l => queue (send e t) (e_vault e, r) = Some (l ++ [e]) \/
                 queue (send e t) (e_vault e, r) = None /\ EVENT_CAPACITY <= length l
     | None => queue (send e t) (e_vault e, r) = None
     end).
Proof.
  intros Hb. pose proof (retain_ok _ _ Hb) as Hr. unfold send. destruct (retain t !! e_vault e) as [s|] eqn:E.
  - assert (0 < receiver_count s) as Hpos by (apply map_lookup_filter_Some in E as [_ ?]; done).
    assert (forall id r, h !! id = Some (e_vault e, r) -> valid s r) as Hval.
    { intros id r Hid. destruct (bus_topic _ _ Hr id _ r Hid) as (s0 & Hs0 & Hv). congruence. }
    split; [split|split].
    + intros id v r Hid. destruct (decide (v = e_vault e)) as [->|Hv].
      * exists (send_to s e). rewrite lookup_insert_eq. split; [done|]. apply send_unread; eauto.
      * rewrite lookup_insert_ne by done. eapply (bus_topic _ _ Hr); eauto.
    + intros v s0. destruct (decide (v = e_vault e)) as [->|Hv].
      * rewrite lookup_insert_eq, <- (bus_count _ _ Hr _ _ E). intros [= <-]. apply send_count.
      * rewrite lookup_insert_ne by done. apply (bus_count _ _ Hr).
    + intros v s0. destruct (decide (v = e_vault e)) as [->|Hv].
      * rewrite lookup_insert_eq. intros [= <-]. rewrite send_capacity. eapply (bus_capacity _ _ Hr); eauto.
      * rewrite lookup_insert_ne by done. apply (bus_capacity _ _ Hr).
    + intros id v r Hid Hv. rewrite <- (retain_queue t h id) by done. unfold queue. cbn. rewrite lookup_insert_ne by done. done.
    + intros id r Hid. rewrite <- (retain_queue t h id) by done. unfold queue. cbn. rewrite lookup_insert_eq, E. cbn.
      destruct (send_unread s e r (Hval id r Hid) Hpos) as [_ ->]. destruct (unread s r) as [l|]; [|done].
      destruct (Nat.ltb_spec (length l) (capacity s)); [by left|right]. split; [done|].
      pose proof (bus_capacity _ _ Hr _ _ E). lia.
  - split; [done|]. split; [intros id v r Hid _; by apply (retain_queue t h id)|].
    intros id r Hid. exfalso. pose proof (retain_none _ _ _ Hb E). pose proof (held_pos id _ r h Hid). lia.
Qed.

Lemma bus_unsubscribe t h id v r :
  bus_ok t h -> h !! id = Some (v, r) ->
  bus_ok (unsubscribe v t) (delete id h) /\
  forall id' q, id' <> id -> h !! id' = Some q -> queue (unsubscribe v t) q = queue t q.
Proof.
  intros Hb Hid. unfold unsubscribe. split; [split|].
  - intros id' v' r' Hl. apply lookup_delete_Some in Hl as [_ Hl]. destruct (bus_topic _ _ Hb id' v' r' Hl) as (s & Hs & Hv).
    destruct (decide (v' = v)) as [->|Hne].
    + exists (drop_receiver s). rewrite lookup_alter_eq, Hs. split; [done|]. by apply drop_old.
    + exists s. rewrite lookup_alter_ne by done. done.
  - intros v' s. rewrite (held_delete id v r) by done. destruct (decide (v = v')) as [<-|Hne].
    + rewrite lookup_alter_eq. intros (s0 & Hs0 & ->)%fmap_Some. rewrite drop_count, (bus_count _ _ Hb v s0) by done. done.
    + rewrite lookup_alter_ne by done. apply (bus_count _ _ Hb).
  - intros v' s. destruct (decide (v = v')) as [<-|Hne].
    + rewrite lookup_alter_eq. intros (s0 & Hs0 & ->)%fmap_Some. rewrite drop_capacity. apply (bus_capacity _ _ Hb v s0 Hs0).
    + rewrite lookup_alter_ne by done. apply (bus_capacity _ _ Hb).
  - intros id' [v' r'] Hne Hl. unfold queue. cbn. destruct (decide (v = v')) as [<-|Hv]; [|by rewrite lookup_alter_ne].
    destruct (bus_topic _ _ Hb id' v r' Hl) as (s & Hs & Hval). rewrite lookup_alter_eq, Hs. cbn. by apply drop_old.
Qed.

Lemma bus_receive t h id v r s :
  bus_ok t h -> h !! id = Some (v, r) -> t !! v = Some s ->
  match queue t (v, r) with
  | Some [] => receive s r = (Nothing, r)
  | Some (x :: l) => fst (receive s r) = Value x /\ bus_ok t (<[id := (v, snd (receive s r))]> h) /\
                     queue t (v, snd (receive s r)) = Some l
  | None => fst (receive s r) = Lag
  end.
Proof.
  intros Hb Hid Hs. destruct (bus_topic _ _ Hb id v r Hid) as (s0 & Hs0 & Hv). assert (s0 = s) as -> by congruence.
  pose proof (receive_spec s r Hv) as Hr. unfold queue. cbn. rewrite Hs. cbn. destruct (unread s r) as [[|x l]|]; [done| |done].
  destruct Hr as (Hx & Hv' & Hu). split; [done|]. split; [|done]. split.
  - intros id' v' r' Hl. destruct (decide (id' = id)) as [->|Hne].
    + rewrite lookup_insert_eq in Hl. injection Hl as <- <-. eauto.
    + rewrite lookup_insert_ne in Hl by done. eapply bus_topic; eauto.
  - intros v' s0 Hs'. rewrite (held_update id v r) by done. eapply bus_count; eauto.
  - apply (bus_capacity _ _ Hb).
Qed.

Lemma size_list_to_set_le (l : list string) : size (list_to_set l : gset string) <= length l.
Proof.
  induction l as [|x l IH]; [cbn; rewrite size_empty; done|]. cbn [list_to_set length foldr]. rewrite size_union_alt, size_singleton.
  assert (size ((list_to_set l : gset string) ∖ {[x]}) <= size (list_to_set l : gset string)) by (apply subseteq_size; set_solver).
  cbn in *. lia.
Qed.

(** The registry holds no more topics than there are receivers. *)
Lemma retain_bounded t h : bus_ok t h -> size (retain t) <= size h.
Proof.
  intros Hb. rewrite <- (size_dom (D := gset string)).
  assert (dom (retain t) ⊆ (list_to_set (map (fun p : nat * (string * receiver) => p.2.1) (map_to_list h)) : gset string)) as Hsub.
  { intros v Hv. apply elem_of_dom in Hv as [s Hs]. apply elem_of_list_to_set, list_elem_of_In.
    apply map_lookup_filter_Some in Hs as [Hs Hc]. cbn in Hc. rewrite (bus_count _ _ Hb v s Hs) in Hc.
    assert (filter (on_topic v) h <> ∅) as Hne by (apply map_size_non_empty_iff; unfold held in Hc; lia).
    apply map_choose in Hne as (id & q & Hq). apply map_lookup_filter_Some in Hq as [Hq Hv].
    apply in_map_iff. exists (id, q). split; [done|]. by apply list_elem_of_In, elem_of_map_to_list. }
  apply subseteq_size in Hsub. etransitivity; [exact Hsub|].
  etransitivity; [apply size_list_to_set_le|]. rewrite length_map, length_map_to_list. done.
Qed.
End VaultEvents.
