(* ===== verification/Delivery.v ===== *)
(** * Live delivery of changes

    The part of the server in which connections meet: the database, the commit lock
    ([commit_order]), the registry of vault events and every connection that has joined a
    vault.  A commit takes the lock, writes, announces the revision on the vault's channel
    and releases the lock; a joining connection takes the lock, reads the version and
    subscribes; a connection forwards what it receives.  Between any two of these steps any
    other may run.  The theorems say what a connection has been sent at any time, and that
    it is sent everything. *)

From Stdlib Require Import ZArith Lia List String Bool.
From stdpp Require Import base list strings gmap.
From S2P Require Import Prelude Sql Model Store Auth Accounts Vaults Sharing Revisions Invariant Heads Preservation.
From S2P Require Import Machine Scenario RevisionsSpec Replay VaultsSpec Refine Tenants Protocol Broadcast.

Local Open Scope Z_scope.

(** ** Events *)
Definition committed_event (r : Revision) : Event :=
  {| e_uid := r_uid r; e_vault := r_vault_id r; e_text := Some (notice_of_revision r); e_invalidated := false |}.
Definition invalidation (vault : string) : Event :=
  {| e_uid := 0; e_vault := vault; e_text := None; e_invalidated := true |}.
Definition event_for (vault : string) (e : Event) : bool := String.eqb (e_vault e) vault.

#[global] Instance notice_eq_dec : EqDecision PushNotice.
Proof. solve_decision. Defined.
#[global] Instance event_eq_dec : EqDecision Event.
Proof. solve_decision. Defined.

(** Operations of a running server that add no revision and retire no vault, and those
    of them its handlers run under the commit lock. *)
Definition plain (o : op) : bool :=
  match o with
  | OpPushEmpty _ _ _ _ | OpPushFile _ _ _ _ _ | OpRestore _ _ _ _ _ _ | OpDeleteVault _ _ _ | OpMigrateVault _ _ _ _
  | OpPurgeDeletedHistory _ => false
  | _ => true
  end.
Definition under_lock (o : op) : bool :=
  match o with OpPurge _ _ _ | OpRenameVault _ _ _ _ => true | _ => false end.

Section Delivery.
Context (pp : string -> option PasswordHash) (th : string -> string) (nl : PushNotice -> Z).
Context `{Broadcast Event}.

(** ** State *)

(** Who holds the commit lock, and between which two awaits. *)
Inductive turnstile :=
| Free
| Announcing (e : Event)
| Joining (vault : string) (ready : Z).

(** A connection that has joined: its vault, the version its replay ends at, its receiver
    and the events it has forwarded; [c_start] marks the stream at its subscription. *)
Record conn := {
  c_vault : string;
  c_ready : Z;
  c_receiver : receiver;
  c_seen : list Event;
  c_start : nat;
}.

(** [s_stream] is the history of what was committed under the lock, in order. *)
Record sys := {
  s_db : db;
  s_lock : turnstile;
  s_topics : gmap string sender;
  s_conns : gmap nat conn;
  s_next : nat;
  s_stream : list Event;
}.

Definition holds (c : conn) : string * receiver := (c_vault c, c_receiver c).
Definition holders (s : sys) : gmap nat (string * receiver) := holds <$> s_conns s.
Definition waiting (s : sys) (c : conn) : option (list Event) := queue (s_topics s) (holds c).

Definition with_sdb (d : db) (s : sys) : sys := {|
  s_db := d; s_lock := s_lock s; s_topics := s_topics s; s_conns := s_conns s; s_next := s_next s; s_stream := s_stream s |}.
(** A write under the lock, about to be announced. *)
Definition written (d : db) (e : Event) (s : sys) : sys := {|
  s_db := d; s_lock := Announcing e; s_topics := s_topics s; s_conns := s_conns s; s_next := s_next s;
  s_stream := s_stream s ++ [e] |}.
Definition with_lock (l : turnstile) (s : sys) : sys := {|
  s_db := s_db s; s_lock := l; s_topics := s_topics s; s_conns := s_conns s; s_next := s_next s; s_stream := s_stream s |}.
Definition announced (e : Event) (s : sys) : sys := {|
  s_db := s_db s; s_lock := Free; s_topics := send e (s_topics s); s_conns := s_conns s; s_next := s_next s;
  s_stream := s_stream s |}.
Definition joined (vault : string) (ready : Z) (s : sys) : sys :=
  let (t, r) := subscribe vault (s_topics s) in {|
  s_db := s_db s; s_lock := Free; s_topics := t;
  s_conns := <[s_next s := {| c_vault := vault; c_ready := ready; c_receiver := r; c_seen := []; c_start := length (s_stream s) |}]>
               (s_conns s);
  s_next := S (s_next s); s_stream := s_stream s |}.
Definition forwarded (id : nat) (c : conn) (e : Event) (r : receiver) (s : sys) : sys := {|
  s_db := s_db s; s_lock := s_lock s; s_topics := s_topics s;
  s_conns := <[id := {| c_vault := c_vault c; c_ready := c_ready c; c_receiver := r; c_seen := c_seen c ++ [e];
                        c_start := c_start c |}]> (s_conns s);
  s_next := s_next s; s_stream := s_stream s |}.
Definition left_ (id : nat) (c : conn) (s : sys) : sys := {|
  s_db := s_db s; s_lock := s_lock s; s_topics := unsubscribe (c_vault c) (s_topics s); s_conns := delete id (s_conns s);
  s_next := s_next s; s_stream := s_stream s |}.

(** ** Steps *)

(** [publish_committed] refuses an event whose text is too long. *)
Definition fits (e : Event) : bool :=
  match e_text e with Some n => nl n <=? MAX_EVENT_BYTES | None => true end.

Inductive write (d : db) : Event -> db -> Prop :=
| write_push now r h q oq rev d' :
    in_range 0 i64_max now = true -> serialized_notice_size nl r <= MAX_EVENT_BYTES ->
    accepted now r (Some h) q oq d rev d' -> write d (committed_event rev) d'
| write_restore now u h v uid dev gl ol rev d' :
    restore_internal nl now u (Some h) v uid dev gl ol d = Ok (Some rev, d') -> write d (committed_event rev) d'
| write_delete now u h id d' :
    delete_vault_internal now u (Some h) id d = Ok (true, d') -> write d (invalidation id) d'
| write_migrate now u h source v d' :
    new_vault_for d v -> migrate_vault_internal now u (Some h) source v d = Ok (true, d') -> write d (invalidation source) d'.

Inductive label :=
| LWrite (e : Event)
| LDb (o : op)
| LAnnounce
| LBegin (vault : string)
| LJoin
| LForward (id : nat)
| LLeave (id : nat).

Inductive sstep (s : sys) : label -> sys -> Prop :=
| S_write e d' : s_lock s = Free -> write (s_db s) e d' -> sstep s (LWrite e) (written d' e s)
| S_db now o :
    plain o = true -> admissible (s_db s) o -> (under_lock o = true -> s_lock s = Free) ->
    sstep s (LDb o) (with_sdb (exec pp th nl now o (s_db s)) s)
| S_announce e : s_lock s = Announcing e -> fits e = true -> sstep s LAnnounce (announced e s)
| S_refuse e : s_lock s = Announcing e -> fits e = false -> sstep s LAnnounce (with_lock Free s)
| S_begin vault : s_lock s = Free -> sstep s (LBegin vault) (with_lock (Joining vault (current_version vault (s_db s))) s)
| S_join vault ready : s_lock s = Joining vault ready -> sstep s LJoin (joined vault ready s)
| S_forward id c t e r :
    s_conns s !! id = Some c -> s_topics s !! c_vault c = Some t -> receive t (c_receiver c) = (Value e, r) ->
    e_vault e = c_vault c -> e_invalidated e = false -> sstep s (LForward id) (forwarded id c e r s)
| S_leave id c : s_conns s !! id = Some c -> sstep s (LLeave id) (left_ id c s).

Definition idle (d : db) : sys :=
  {| s_db := d; s_lock := Free; s_topics := ∅; s_conns := ∅; s_next := 0; s_stream := [] |}.

(** The server from its start on a database. *)
Inductive serves (d : db) : sys -> Prop :=
| serves_start : serves d (idle d)
| serves_step s l s' : serves d s -> sstep s l s' -> serves d s'.

(** ** Effect on the log *)

(** No new revision; some may have gone. *)
Definition shrinks (d d' : db) : Prop :=
  seq_revisions d' = seq_revisions d /\ exists P, revisions d' = select P (revisions d).
(** One new revision. *)
Definition appends (d : db) (r : Revision) (d' : db) : Prop :=
  seq_revisions d' = r_uid r /\ r_uid r = seq_revisions d + 1 /\
  exists row, rr_rev row = r /\ revisions d' = revisions d ++ [row].

Lemma shrinks_same d d' : seq_revisions d' = seq_revisions d -> revisions d' = revisions d -> shrinks d d'.
Proof. intros E1 E2. split; [done|]. exists (fun _ => true). rewrite E2, select_true; done. Qed.
Lemma settle_shrinks {A} d (r : result (A * db)) : (forall a d', r = Ok (a, d') -> shrinks d d') -> shrinks d (settle d r).
Proof. destruct r as [[a d']|e]; cbn; [eauto|]. intros _. by apply shrinks_same. Qed.

Definition purges (o : op) : bool := match o with OpPurge _ _ _ => true | _ => false end.
Lemma settle_log {A} d (r : result (A * db)) :
  (forall a d', r = Ok (a, d') -> seq_revisions d' = seq_revisions d /\ revisions d' = revisions d) ->
  seq_revisions (settle d r) = seq_revisions d /\ revisions (settle d r) = revisions d.
Proof. destruct r as [[a d']|e]; cbn; [eauto|done]. Qed.

Lemma plain_same now o d :
  db_ok d -> plain o = true -> purges o = false ->
  seq_revisions (exec pp th nl now o d) = seq_revisions d /\ revisions (exec pp th nl now o d) = revisions d.
Proof.
  intros Hd Hp Hn. destruct (action_of o) as [act|] eqn:Ea.
  - destruct o; try discriminate Ea; try discriminate Hp; try discriminate Hn; cbn [exec]; apply settle_log; intros a d' E.
    + unfold create_vault_for_session, create_vault_internal in E. steps_in E.
      match goal with E : insert_vault _ _ = _ |- _ => apply insert_vault_spec in E as (-> & _) end. done.
    + unfold invite_collaborator_for_session in E. steps_in E; [done|].
      match goal with E : insert_membership _ _ = Ok _ |- _ => unfold insert_membership in E; inv_ok E end. done.
    + destruct a as [x|]; [|apply remove_none in E as ->; done].
      apply remove_spec in E as (_ & _ & -> & _); done.
  - destruct (silent_same pp th nl now o d Ea) as (_ & _ & Er & _ & Es). done.
Qed.
Lemma plain_shrinks now o d : db_ok d -> plain o = true -> shrinks d (exec pp th nl now o d).
Proof.
  intros Hd Hp. destruct (purges o) eqn:Eo; [|destruct (plain_same now o d Hd Hp Eo); by apply shrinks_same].
  destruct o; try discriminate Eo. cbn [exec]. apply settle_shrinks. intros a d' E.
  unfold purge_for_session, purge_internal in E. steps_in E. split; [done|]. eexists. reflexivity.
Qed.

Lemma write_effect d e d' :
  db_ok d -> write d e d' ->
  db_ok d' /\ ((exists r, e = committed_event r /\ appends d r d') \/ (exists v, e = invalidation v /\ shrinks d d')).
Proof.
  intros Hd. destruct 1 as [now r h q oq rev d' _ _ Hw|now u h v uid dev gl ol rev d' Hw|now u h id d' Hw|now u h src v d' Hn Hw].
  - apply accepted_spec in Hw as (Hd' & _ & _ & -> & cs & ->); [|done]. split; [done|]. left. eexists. split; [done|].
    repeat split. eexists. split; [|done]. done.
  - pose proof (restore_ok _ _ _ _ _ _ _ _ _ _ _ _ Hd Hw) as Hd'.
    apply restore_spec in Hw as (t & src & cs & _ & _ & _ & _ & _ & _ & -> & -> & _); [|done].
    split; [done|]. left. eexists. split; [done|]. repeat split. eexists. split; [|done]. done.
  - split; [eapply delete_vault_ok; eauto|]. apply delete_vault_spec in Hw as (_ & rts & -> & _); [|done].
    right. eexists. split; [done|]. split; [done|]. eexists. reflexivity.
  - split; [eapply migrate_vault_ok; eauto; apply Hn|]. apply migrate_vault_spec in Hw as (_ & _ & rts & _ & _ & ->); [|done].
    right. eexists. split; [done|]. split; [done|]. eexists. reflexivity.
Qed.

(** ** The invariant *)
Definition is_change (e : Event) : bool := negb (e_invalidated e).

(** What was committed to a connection's vault since it subscribed, in order. *)
Definition since (s : sys) (c : conn) : list Event := select (event_for (c_vault c)) (drop (c_start c) (s_stream s)).
(** Committed, and not on the channel yet. *)
Definition pending (s : sys) (vault : string) : list Event :=
  match s_lock s with Announcing e => select (event_for vault) [e] | _ => [] end.
(** The events of the revisions in the database a client at [version] has not seen. *)
Definition rows_after (vault : string) (version : Z) (d : db) : list Event :=
  map (fun r : revision_row => committed_event (rr_rev r))
    (select (fun r : revision_row => in_vault vault r && (version <? r_uid r)) (revisions d)).

Record conn_ok (s : sys) (c : conn) : Prop := {
  co_bound : c_ready c <= seq_revisions (s_db s);
  co_start : (c_start c <= length (s_stream s))%nat;
  co_seen : match waiting s c with
            | Some l => c_seen c ++ l ++ pending s (c_vault c) = since s c
            | None => c_seen c `prefix_of` since s c
            end;
  co_ready : forall e, In e (drop (c_start c) (s_stream s)) -> is_change e = true -> c_ready c < e_uid e;
  co_log : sublist (rows_after (c_vault c) (c_ready c) (s_db s)) (since s c);
}.

Record sys_ok (s : sys) : Prop := {
  so_db : db_ok (s_db s);
  so_bus : bus_ok (s_topics s) (holders s);
  so_ids : forall id c, s_conns s !! id = Some c -> (id < s_next s)%nat;
  so_fits : forall e, s_lock s = Announcing e -> fits e = true;
  so_joining : forall v ready, s_lock s = Joining v ready -> ready <= seq_revisions (s_db s) /\ rows_after v ready (s_db s) = [];
  so_order : increasing e_uid (select is_change (s_stream s));
  so_uids : forall e, In e (s_stream s) -> is_change e = true -> e_uid e <= seq_revisions (s_db s);
  so_conns : forall id c, s_conns s !! id = Some c -> conn_ok s c;
}.

Lemma since_snoc s c e :
  (c_start c <= length (s_stream s))%nat ->
  select (event_for (c_vault c)) (drop (c_start c) (s_stream s ++ [e])) = since s c ++ select (event_for (c_vault c)) [e].
Proof. intros Hs. rewrite drop_app_le, select_app by done. done. Qed.

Lemma select_shorter {A} (P : A -> bool) t : sublist (select P t) t.
Proof. unfold select. induction t as [|x t IH]; cbn; [constructor|]. destruct (P x); [by apply sublist_skip|by apply sublist_cons]. Qed.
Lemma sublist_map {A B} (f : A -> B) l1 l2 : sublist l1 l2 -> sublist (map f l1) (map f l2).
Proof. induction 1; cbn; [constructor|by apply sublist_skip|by apply sublist_cons]. Qed.
Lemma rows_shrink vault version d d' : shrinks d d' -> sublist (rows_after vault version d') (rows_after vault version d).
Proof.
  intros (_ & P & E). unfold rows_after. rewrite E, !select_select.
  rewrite (select_ext (fun r => P r && _) (fun r => (in_vault vault r && (version <? r_uid r)) && P r)) by (intros; apply andb_comm).
  rewrite <- select_select. apply sublist_map, select_shorter.
Qed.
Lemma rows_append vault version d r d' :
  appends d r d' -> version <= seq_revisions d ->
  rows_after vault version d' = rows_after vault version d ++ select (event_for vault) [committed_event r].
Proof.
  intros (_ & Hu & row & <- & E) Hv. unfold rows_after. rewrite E, select_app, map_app. f_equal.
  assert ((version <? r_uid row) = true) as Hlt by (apply Z.ltb_lt; lia).
  unfold select. cbn [List.filter]. rewrite Hlt, andb_true_r. unfold in_vault, event_for. cbn [committed_event e_vault].
  destruct (String.eqb _ _); done.
Qed.

(** ** Every announcement fits *)
Definition widest (n : PushNotice) : PushNotice := {|
  pn_path := pn_path n; pn_relatedpath := pn_relatedpath n; pn_extension := pn_extension n; pn_hash := pn_hash n;
  pn_ctime := pn_ctime n; pn_mtime := pn_mtime n; pn_folder := pn_folder n; pn_deleted := pn_deleted n;
  pn_size := pn_size n; pn_uid := i64_max; pn_device := pn_device n; pn_user := pn_user n; pn_ts := i64_max |}.
(** A non-negative number has at most the digits of the largest one. *)
Hypothesis widest_len : forall n, 0 <= pn_uid n <= i64_max -> 0 <= pn_ts n <= i64_max -> nl n <= nl (widest n).

Lemma write_fits d e d' : db_ok d -> write d e d' -> fits e = true.
Proof using widest_len.
  intros Hd. destruct 1 as [now r h q oq rev d' Hnow Hsize Hw|now u h v uid dev gl ol rev d' Hw|now u h id d' Hw|now u h src v d' Hn Hw];
    try done.
  - apply accepted_spec in Hw as (_ & [_ _ _ Hu] & _ & -> & _); [|done]. unfold in_range in Hnow. breflect.
    pose proof (revs_seq _ _ _ _ (ok_revs _ d Hd)) as Hseq.
    unfold fits. cbn [committed_event e_text]. apply Z.leb_le. etransitivity; [apply widest_len|exact Hsize].
    + cbn. unfold MAX_JS_SAFE_INTEGER, i64_max in *. lia.
    + cbn. lia.
  - unfold restore_internal in Hw. steps_in Hw. all: breflect; unfold fits; cbn [committed_event e_text]; by apply Z.leb_le.
Qed.

(** ** Preservation *)
Lemma written_ok s e d' : sys_ok s -> s_lock s = Free -> write (s_db s) e d' -> sys_ok (written d' e s).
Proof using widest_len.
  intros Hs Hl Hw. pose proof (write_fits _ _ _ (so_db _ Hs) Hw) as Hfit.
  destruct (write_effect _ _ _ (so_db _ Hs) Hw) as [Hd' Heff].
  assert (seq_revisions (s_db s) <= seq_revisions d') as Hseq.
  { destruct Heff as [(r & _ & E & Eu & _)|(v & _ & E & _)]; lia. }
  assert (is_change e = true -> seq_revisions (s_db s) < e_uid e <= seq_revisions d') as Hnew.
  { destruct Heff as [(r & -> & E & Eu & _)|(v & -> & _)]; [cbn; lia|done]. }
  split; cbn [written s_db s_lock s_topics s_conns s_next s_stream]; try done.
  - apply (so_bus _ Hs).
  - apply (so_ids _ Hs).
  - intros e' [= <-]. done.
  - rewrite select_app. destruct (is_change e) eqn:Ec.
    + unfold select at 2. cbn [List.filter]. rewrite Ec. apply increasing_snoc; [apply (so_order _ Hs)|].
      intros y Hy. apply in_select in Hy as [Hy Hc]. pose proof (so_uids _ Hs y Hy Hc). lia.
    + unfold select at 2. cbn [List.filter]. rewrite Ec, app_nil_r. apply (so_order _ Hs).
  - intros e' He' Hc. apply in_app_iff in He' as [He'|[<-|[]]]; [|specialize (Hnew Hc); lia]. pose proof (so_uids _ Hs e' He' Hc). lia.
  - intros id c Hid. destruct (so_conns _ Hs id c Hid) as [Hb Hst Hseen Hr Hlog].
    assert (pending s (c_vault c) = []) as Hp by (unfold pending; rewrite Hl; done).
    split; cbn [written s_db s_lock s_topics s_conns s_next s_stream].
    + lia.
    + rewrite length_app. lia.
    + unfold since. cbn [s_stream written]. rewrite since_snoc by done. change (waiting (written d' e s) c) with (waiting s c).
      destruct (waiting s c) as [l|]; [|by apply prefix_app_r].
      rewrite <- Hseen, Hp, app_nil_r, <- app_assoc. done.
    + intros e'. rewrite drop_app_le by done. intros [He'|[<-|[]]]%in_app_iff Hc; [eauto|]. specialize (Hnew Hc). lia.
    + unfold since. cbn [s_stream written]. rewrite since_snoc by done. destruct Heff as [(r & -> & Happ)|(v & -> & Hsh)].
      * rewrite (rows_append _ _ _ _ _ Happ) by done. by apply sublist_app.
      * apply sublist_inserts_r. etransitivity; [by apply rows_shrink|done].
Qed.

Lemma sdb_ok s now o :
  sys_ok s -> plain o = true -> admissible (s_db s) o -> sys_ok (with_sdb (exec pp th nl now o (s_db s)) s).
Proof using.
  intros Hs Hp Ha. pose proof (plain_shrinks now o _ (so_db _ Hs) Hp) as Hsh. pose proof Hsh as [Hseq _].
  split; cbn [with_sdb s_db s_lock s_topics s_conns s_next s_stream]; rewrite ?Hseq; try apply Hs.
  - apply exec_ok; [apply Hs|done].
  - intros v ready Hl. destruct (so_joining _ Hs v ready Hl) as [Hle Hr]. split; [done|].
    pose proof (rows_shrink v ready _ _ Hsh) as Hsub. rewrite Hr in Hsub. apply sublist_nil_r in Hsub. done.
  - intros id c Hid. destruct (so_conns _ Hs id c Hid) as [Hb Hst Hseen Hr Hlog].
    split; cbn [with_sdb s_db s_lock s_topics s_conns s_next s_stream]; rewrite ?Hseq; try done.
    etransitivity; [by apply rows_shrink|done].
Qed.

Lemma holds_conn s id c : s_conns s !! id = Some c -> holders s !! id = Some (c_vault c, c_receiver c).
Proof using. intros Hid. unfold holders. rewrite lookup_fmap, Hid. done. Qed.

Lemma announced_ok s e : sys_ok s -> s_lock s = Announcing e -> sys_ok (announced e s).
Proof using.
  intros Hs Hl. destruct (bus_send _ _ e (so_bus _ Hs)) as (Hb & Hother & Hsame).
  split; cbn [announced s_db s_lock s_topics s_conns s_next s_stream]; try apply Hs; try done.
  intros id c Hid. destruct (so_conns _ Hs id c Hid) as [Hbd Hst Hseen Hr Hlog]. split; try done.
  change (since (announced e s) c) with (since s c). unfold waiting, holds in *. cbn [announced s_topics] in *.
  unfold pending in *. cbn [announced s_lock]. rewrite Hl in Hseen. unfold select, event_for in Hseen. cbn [List.filter] in Hseen.
  destruct (String.eqb_spec (e_vault e) (c_vault c)) as [Ev|Ev].
  - pose proof (holds_conn s id c Hid) as Hh. rewrite <- Ev in Hh, Hseen |- *. specialize (Hsame id (c_receiver c) Hh).
    destruct (queue (s_topics s) _) as [l|].
    + destruct Hsame as [->|[-> _]]; rewrite <- Hseen, ?app_nil_r; [done|by apply prefix_app_r].
    + rewrite Hsame. done.
  - rewrite (Hother id (c_vault c) (c_receiver c)) by (try apply holds_conn; congruence). done.
Qed.

Lemma current_rows v d : db_ok d -> rows_after v (current_version v d) d = [].
Proof using.
  intros Hd. unfold rows_after. rewrite select_none; [done|]. intros r Hr. apply not_true_is_false. intros Hc. breflect.
  unfold in_vault in *. breflect. unfold current_version in *.
  destruct (find_vault_row d v) as [w|] eqn:Ew; cbn in *.
  - apply find_vault_row_in in Ew as [Hw Hid]. destruct (ok_sizes _ d Hd w Hw) as ((Hmax & _) & _).
    assert (r_uid r <= max_of ruid (select (in_vault (v_id w)) (revisions d))) as Hle; [|lia].
    apply (max_of_ge ruid). apply in_select. split; [done|]. unfold in_vault. apply String.eqb_eq. congruence.
  - pose proof (proj1 (find_vault_row_none _ _) Ew) as Hn. apply Hn.
    pose proof (revs_vault _ _ _ _ (ok_revs _ d Hd) r Hr) as Hin. congruence.
Qed.

Lemma begin_ok s v : sys_ok s -> s_lock s = Free -> sys_ok (with_lock (Joining v (current_version v (s_db s))) s).
Proof using.
  intros Hs Hl. split; cbn [with_lock s_db s_lock s_topics s_conns s_next s_stream]; try apply Hs; try done.
  - intros v' ready [= <- <-]. split; [apply current_version_seq|apply current_rows]; apply Hs.
  - intros id c Hid. destruct (so_conns _ Hs id c Hid) as [Hbd Hst Hseen Hr Hlog]. split; try done.
    unfold pending in *. rewrite Hl in Hseen. done.
Qed.

Lemma joined_ok s v ready : sys_ok s -> s_lock s = Joining v ready -> sys_ok (joined v ready s).
Proof using.
  intros Hs Hl. assert (s_conns s !! s_next s = None) as Hn.
  { destruct (s_conns s !! s_next s) as [c|] eqn:E; [|done]. pose proof (so_ids _ Hs _ _ E). lia. }
  assert (holders s !! s_next s = None) as Hhn by (unfold holders; rewrite lookup_fmap, Hn; done).
  destruct (so_joining _ Hs v ready Hl) as [Hle Hrows].
  pose proof (bus_subscribe _ _ _ v (so_bus _ Hs) Hhn) as (Hb & Hq & Hold). unfold joined.
  destruct (subscribe v (s_topics s)) as [t r]. cbn [fst snd] in *.
  split; cbn [s_db s_lock s_topics s_conns s_next s_stream]; try apply Hs; try done.
  - unfold holders. cbn [s_conns]. rewrite fmap_insert. exact Hb.
  - intros id c [[<- _]|[_ Hid]]%lookup_insert_Some; [lia|]. pose proof (so_ids _ Hs id c Hid). lia.
  - intros id c [[<- <-]|[Hne Hid]]%lookup_insert_Some.
    + split; cbn [c_start c_vault c_ready c_seen s_db s_stream]; try done.
      * unfold waiting, holds, since, pending. cbn [c_start c_vault c_receiver c_seen s_stream s_topics s_lock].
        rewrite Hq, drop_all. done.
      * rewrite drop_all. done.
      * rewrite Hrows. apply sublist_nil_l.
    + destruct (so_conns _ Hs id c Hid) as [Hbd Hst Hseen Hr Hlog]. split; try done.
      unfold waiting, pending in *. cbn [s_topics s_lock]. rewrite Hl in Hseen.
      rewrite (Hold id) by (by apply holds_conn). exact Hseen.
Qed.

Lemma forwarded_ok s id c t e r :
  sys_ok s -> s_conns s !! id = Some c -> s_topics s !! c_vault c = Some t -> receive t (c_receiver c) = (Value e, r) ->
  sys_ok (forwarded id c e r s).
Proof using.
  intros Hs Hid Ht Hrecv. pose proof (bus_receive _ _ id _ _ t (so_bus _ Hs) (holds_conn s id c Hid) Ht) as Hq.
  change (queue (s_topics s) (c_vault c, c_receiver c)) with (waiting s c) in Hq. rewrite Hrecv in Hq. cbn [fst snd] in Hq.
  destruct (waiting s c) as [[|x l]|] eqn:Ew; try discriminate Hq. destruct Hq as ([= <-] & Hb & Hq).
  split; cbn [forwarded s_db s_lock s_topics s_conns s_next s_stream]; try apply Hs.
  - unfold holders. cbn [forwarded s_conns]. rewrite fmap_insert. exact Hb.
  - intros id' c' [[<- _]|[_ Hid']]%lookup_insert_Some; eapply (so_ids _ Hs); eauto.
  - intros id' c' [[<- <-]|[Hne Hid']]%lookup_insert_Some.
    + destruct (so_conns _ Hs id c Hid) as [Hbd Hst Hseen Hr Hlog]. rewrite Ew in Hseen. split; try done.
      unfold waiting, holds. cbn [c_vault c_receiver c_seen forwarded s_topics]. rewrite Hq, <- app_assoc. exact Hseen.
    + destruct (so_conns _ Hs id' c' Hid') as [Hbd Hst Hseen Hr Hlog]. done.
Qed.

Lemma left_ok s id c : sys_ok s -> s_conns s !! id = Some c -> sys_ok (left_ id c s).
Proof using.
  intros Hs Hid. destruct (bus_unsubscribe _ _ id _ _ (so_bus _ Hs) (holds_conn s id c Hid)) as [Hb Hold].
  split; cbn [left_ s_db s_lock s_topics s_conns s_next s_stream]; try apply Hs.
  - unfold holders. cbn [left_ s_conns]. rewrite fmap_delete. exact Hb.
  - intros id' c' [_ Hid']%lookup_delete_Some. eapply (so_ids _ Hs); eauto.
  - intros id' c' [Hne Hid']%lookup_delete_Some. destruct (so_conns _ Hs id' c' Hid') as [Hbd Hst Hseen Hr Hlog]. split; try done.
    unfold waiting. cbn [left_ s_topics]. rewrite (Hold id'); [exact Hseen|done|by apply holds_conn].
Qed.

Lemma sstep_ok s l s' : sys_ok s -> sstep s l s' -> sys_ok s'.
Proof using widest_len.
  intros Hs. destruct 1; eauto using written_ok, sdb_ok, announced_ok, begin_ok, joined_ok, forwarded_ok, left_ok.
  pose proof (so_fits _ Hs e). naive_solver congruence.
Qed.

Lemma idle_ok d : db_ok d -> sys_ok (idle d).
Proof using.
  intros Hd. split; cbn; try done. constructor.
Qed.

Lemma serves_ok d s : db_ok d -> serves d s -> sys_ok s.
Proof using widest_len. intros Hd. induction 1; [by apply idle_ok|by eapply sstep_ok]. Qed.

(** ** What a connection has been sent *)
Lemma seen_prefix s id c : sys_ok s -> s_conns s !! id = Some c -> c_seen c `prefix_of` since s c.
Proof using.
  intros Hs Hid. pose proof (co_seen _ _ (so_conns _ Hs id c Hid)) as Hseen. destruct (waiting s c); [|done].
  rewrite <- Hseen. by apply prefix_app_r.
Qed.
Lemma seen_all s id c :
  sys_ok s -> s_conns s !! id = Some c -> waiting s c = Some [] -> pending s (c_vault c) = [] -> c_seen c = since s c.
Proof using.
  intros Hs Hid Hw Hp. pose proof (co_seen _ _ (so_conns _ Hs id c Hid)) as Hseen. rewrite Hw, Hp, app_nil_r in Hseen. done.
Qed.
Lemma free_pending s v : s_lock s = Free -> pending s v = [].
Proof using. unfold pending. intros ->. done. Qed.

(** C4: Live delivery is exact, under every interleaving of writes, purges, deletions,
    joins, slow readers and disconnects. What an open connection has forwarded is always an
    initial part, in commit order and without gap or duplicate, of what was committed to its
    vault since it joined; all of it is newer than the version its replay ended at, and
    every newer revision in the database is part of it. Once its queue is empty and nobody
    holds the commit lock it has forwarded all of it. *)
Theorem delivery_exact d s id c :
  db_ok d -> serves d s -> s_conns s !! id = Some c ->
  c_seen c `prefix_of` since s c /\
  increasing e_uid (select is_change (since s c)) /\
  (forall e, In e (since s c) -> is_change e = true -> c_ready c < e_uid e) /\
  sublist (rows_after (c_vault c) (c_ready c) (s_db s)) (since s c) /\
  (waiting s c = Some [] -> s_lock s = Free -> c_seen c = since s c).
Proof using widest_len.
  intros Hd Hsv Hid. pose proof (serves_ok d s Hd Hsv) as Hs. pose proof (so_conns _ Hs id c Hid) as Hc.
  split; [by eapply seen_prefix|]. split.
  - pose proof (so_order _ Hs) as Hord. rewrite <- (take_drop (c_start c) (s_stream s)), select_app in Hord.
    apply increasing_app in Hord as [Hord _]. unfold since. rewrite select_select.
    rewrite (select_ext _ (fun e => is_change e && event_for (c_vault c) e)) by (intros; apply andb_comm).
    rewrite <- select_select. by apply increasing_select.
  - split; [|split; [apply Hc|]].
    + intros e He. apply in_select in He as [He _]. by apply Hc.
    + intros Hw Hl. eapply seen_all; eauto. by apply free_pending.
Qed.

(** ** From the replay to the present *)

(** Steps that keep the whole history: everything but purges and the end of a vault. *)
Definition keeps_history (l : label) : Prop :=
  match l with LWrite e => is_change e = true | LDb o => purges o = false | _ => True end.
Notation run := (trace (fun l s s' => sstep s l s')).

(** What such a run keeps for a connection that joined at its start. *)
Record followed (s0 s : sys) (v : string) (ready : Z) : Prop := {
  fo_ok : sys_ok s;
  fo_seq : ready <= seq_revisions (s_db s);
  fo_log : log_through v ready (s_db s) = log_through v ready (s_db s0);
  fo_rows : exists l, s_stream s = s_stream s0 ++ l /\ rows_after v ready (s_db s) = select (event_for v) l;
  fo_conn : (s_next s0 < s_next s)%nat /\ forall c, s_conns s !! s_next s0 = Some c ->
    c_vault c = v /\ c_ready c = ready /\ c_start c = length (s_stream s0);
}.

Lemma log_through_append v through d r d' :
  appends d r d' -> through <= seq_revisions d -> log_through v through d' = log_through v through d.
Proof using.
  intros (_ & Hu & row & <- & E) Hle. unfold log_through. rewrite E, select_app, (select_none _ [row]), app_nil_r; [done|].
  intros x [<-|[]]. assert ((r_uid row <=? through) = false) as -> by (apply Z.leb_gt; lia). apply andb_false_r.
Qed.

Lemma followed_step s0 s l s' v ready : followed s0 s v ready -> sstep s l s' -> keeps_history l -> followed s0 s' v ready.
Proof using widest_len.
  intros [Hs Hseq Hlog Hrows Hconn] Hstep Hk. pose proof (sstep_ok _ _ _ Hs Hstep) as Hs'.
  destruct Hstep as [e d' Hl Hw|now o Hp Ha _|e Hl Hf|e Hl Hf|vault Hl|vault rdy Hl|id c t e r Hid Ht Hr Hv He|id c Hid].
  - destruct (write_effect _ _ _ (so_db _ Hs) Hw) as [_ [(r & -> & Happ)|(w & -> & _)]]; [|discriminate Hk].
    split; cbn [written s_db s_stream s_conns s_next]; try done.
    + destruct Happ as (E & Eu & _). lia.
    + rewrite (log_through_append _ _ _ _ _ Happ) by done. done.
    + destruct Hrows as (l & El & Er). exists (l ++ [committed_event r]). rewrite El, app_assoc. split; [done|].
      rewrite (rows_append _ _ _ _ _ Happ), Er, select_app by done. done.
  - destruct (plain_same now o _ (so_db _ Hs) Hp Hk) as [E1 E2].
    split; cbn [with_sdb s_db s_stream s_conns s_next]; try done; [lia|..].
    + unfold log_through. rewrite E2. done.
    + unfold rows_after. rewrite E2. done.
  - split; done.
  - split; done.
  - split; done.
  - split; try done; unfold joined; destruct (subscribe _ _); cbn [s_db s_stream s_conns s_next]; try done.
    split; [lia|]. intros c. rewrite lookup_insert_ne by lia. apply Hconn.
  - split; try done. cbn [forwarded s_conns s_next]. split; [apply Hconn|].
    intros c' [[E <-]|[_ Hc']]%lookup_insert_Some; [|by apply Hconn]. subst id. cbn. by apply Hconn.
  - split; try done. cbn [left_ s_conns s_next]. split; [apply Hconn|]. intros c' [_ Hc']%lookup_delete_Some. by apply Hconn.
Qed.

Lemma followed_run s0 v ready s1 ls s :
  run s1 ls s -> Forall keeps_history ls -> followed s0 s1 v ready -> followed s0 s v ready.
Proof using widest_len.
  induction 1 as [|s1 l s2 ls s Hstep _ IH]; [done|]. intros Hall Hf. inversion_clear Hall.
  apply IH; [done|]. by eapply followed_step.
Qed.

Lemma followed_join s v ready : sys_ok s -> s_lock s = Joining v ready -> followed s (joined v ready s) v ready.
Proof using widest_len.
  intros Hs Hl. destruct (so_joining _ Hs v ready Hl) as [Hle Hrows]. pose proof (joined_ok s v ready Hs Hl) as Hs'.
  unfold joined in *. destruct (subscribe v (s_topics s)) as [t r]. split; cbn [s_db s_stream s_conns s_next]; try done.
  - exists []. rewrite app_nil_r. done.
  - split; [lia|]. intros c. rewrite lookup_insert_eq. intros [= <-]. done.
Qed.

(** The changes after a version, at a boundary no smaller. *)
Lemma rows_split v version ready d :
  db_ok d -> version <= ready ->
  rows_after v version d = map committed_event (changes v version ready d) ++ rows_after v ready d.
Proof using.
  intros Hd Hle. unfold rows_after, changes. rewrite map_map, <- map_app. f_equal.
  etransitivity; [symmetry; apply (increasing_split ruid _ ready), increasing_select, (ok_revs _ d Hd)|].
  unfold log_through. rewrite !select_select. f_equal; apply select_ext; intros r _; destruct (in_vault v r); cbn; try done.
  - apply andb_comm.
  - destruct (Z.ltb_spec version (r_uid r)), (Z.ltb_spec ready (r_uid r)); done || lia.
Qed.
Lemma rows_current v version d :
  db_ok d -> rows_after v version d = map committed_event (changes v version (current_version v d) d).
Proof using.
  intros Hd. unfold rows_after, changes. rewrite map_map. f_equal. unfold log_through. rewrite select_select.
  apply select_ext. intros r Hr. destruct (in_vault v r) eqn:Ev; [|done]. cbn.
  destruct (Z.leb_spec (r_uid r) (current_version v d)) as [|Hlt]; [done|]. exfalso.
  pose proof (current_rows v d Hd) as Hnil. unfold rows_after in Hnil. apply map_eq_nil in Hnil.
  assert (In r (select (fun r : revision_row => in_vault v r && (current_version v d <? r_uid r)) (revisions d))) as Hin.
  { apply in_select. split; [done|]. rewrite Ev. apply Z.ltb_lt. done. }
  rewrite Hnil in Hin. done.
Qed.

(** C7: A client that synchronises ends up with everything, end to end. It joins with some
    version; its replay, whose pages are read while the server keeps working, terminates
    with the changes up to the boundary; and whenever it has then worked off its queue, the
    replay followed by the events it was sent is exactly the list of changes from its
    version to the current version of the vault, in order. (Purges and the end of the vault
    are excluded from the run: they remove history.) *)
Theorem sync_end_to_end d s0 v ready ls s c version fuel dbs :
  db_ok d -> serves d s0 -> s_lock s0 = Joining v ready -> version <= ready ->
  run (joined v ready s0) ls s -> Forall keeps_history ls ->
  (forall i, exists ls' s', run (joined v ready s0) ls' s' /\ Forall keeps_history ls' /\ dbs i = s_db s') ->
  (length (revisions (s_db s0)) < fuel)%nat ->
  s_conns s !! s_next s0 = Some c -> waiting s c = Some [] -> s_lock s = Free ->
  exists replayed,
    replay fuel false v version ready dbs = Some replayed /\
    map committed_event replayed ++ c_seen c
      = map committed_event (changes v version (current_version v (s_db s)) (s_db s)).
Proof using widest_len.
  intros Hd Hsv Hl Hver Hrun Hkeep Hdbs Hfuel Hid Hw Hfree. pose proof (serves_ok d s0 Hd Hsv) as Hs0.
  pose proof (followed_join s0 v ready Hs0 Hl) as Hj.
  destruct (followed_run _ _ _ _ _ _ Hrun Hkeep Hj) as [Hs Hseq Hlog (l & El & Er) [_ Hconn]].
  destruct (Hconn c Hid) as (<- & <- & Hst).
  exists (changes (c_vault c) version (c_ready c) (s_db s0)). split.
  - apply replay_changes; [apply Hs0| |eapply Nat.le_lt_trans; [apply changes_length|done]].
    intros i. destruct (Hdbs i) as (ls' & s' & Hr' & Hk' & ->). destruct (followed_run _ _ _ _ _ _ Hr' Hk' Hj) as [Hs' _ Hlog' _ _].
    split; [apply Hs'|done].
  - rewrite (seen_all s _ c Hs Hid Hw) by (by apply free_pending). unfold since. rewrite Hst, El, drop_app_length, <- Er.
    assert (changes (c_vault c) version (c_ready c) (s_db s0) = changes (c_vault c) version (c_ready c) (s_db s)) as ->
      by (unfold changes; rewrite Hlog; done).
    rewrite <- rows_current, <- rows_split; [done|apply Hs|done|apply Hs].
Qed.

(** ** Liveness *)
Section Liveness.
Context (d : db) (st : nat -> sys) (lb : nat -> label) (id : nat).
Hypothesis Hd : db_ok d.
Hypothesis Hstart : serves d (st 0).
Hypothesis Hsteps : forall n, sstep (st n) (lb n) (st (S n)).
(** A write that holds the lock goes on to announce itself. *)
Hypothesis Hlock : forall n e, s_lock (st n) = Announcing e -> exists m, (n <= m)%nat /\ lb m = LAnnounce.
(** A connection with something to receive takes a turn, or ends. *)
Hypothesis Hturn : forall n c, s_conns (st n) !! id = Some c -> waiting (st n) c <> Some [] ->
  exists m, (n <= m)%nat /\ (lb m = LForward id \/ lb m = LLeave id).

Lemma live_ok n : sys_ok (st n).
Proof using Hd Hstart Hsteps widest_len.
  apply (serves_ok d); [done|]. induction n as [|n IH]; [done|]. by eapply serves_step.
Qed.

(** The same connection later, further along. *)
Definition later (c c' : conn) (s s' : sys) : Prop :=
  c_vault c' = c_vault c /\ c_start c' = c_start c /\ c_seen c `prefix_of` c_seen c' /\ s_stream s `prefix_of` s_stream s'.

Lemma step_later s l s' c :
  sys_ok s -> s_conns s !! id = Some c -> sstep s l s' ->
  s_conns s' !! id = None \/ exists c', s_conns s' !! id = Some c' /\ later c c' s s' /\
    (l = LForward id -> length (c_seen c') = S (length (c_seen c))) /\ l <> LLeave id.
Proof using.
  intros Hs Hid Hstep.
  assert (forall s', s_conns s' = s_conns s -> s_stream s `prefix_of` s_stream s' ->
    exists c', s_conns s' !! id = Some c' /\ later c c' s s') as Hsame.
  { intros s2 E1 E2. exists c. rewrite E1. done. }
  destruct Hstep as [e d' Hl Hw|now o Hp Ha _|e Hl Hf|e Hl Hf|vault Hl|vault rdy Hl|id' c0 t e r Hid' Ht Hr Hv He|id' c0 Hid'].
  - right. destruct (Hsame (written d' e s)) as (c' & ? & ?); [done|by apply prefix_app_r|]. exists c'. done.
  - right. destruct (Hsame (with_sdb (exec pp th nl now o (s_db s)) s)) as (c' & ? & ?); [done..|]. exists c'. done.
  - right. destruct (Hsame (announced e s)) as (c' & ? & ?); [done..|]. exists c'. done.
  - right. destruct (Hsame (with_lock Free s)) as (c' & ? & ?); [done..|]. exists c'. done.
  - right. destruct (Hsame (with_lock (Joining vault (current_version vault (s_db s))) s)) as (c' & ? & ?); [done..|]. exists c'. done.
  - right. unfold joined. destruct (subscribe vault (s_topics s)) as [t r]. exists c. cbn [s_conns s_stream].
    pose proof (so_ids _ Hs id c Hid). rewrite lookup_insert_ne by lia. done.
  - destruct (decide (id' = id)) as [->|Hne].
    + assert (c0 = c) as -> by congruence. right. cbn [forwarded s_conns]. eexists. rewrite lookup_insert_eq. split; [done|].
      split; [split_and!; try done; by apply prefix_app_r|]. split; [|done]. cbn. rewrite length_app. cbn. lia.
    + right. exists c. cbn [forwarded s_conns]. rewrite lookup_insert_ne by done. split_and!; try done. congruence.
  - destruct (decide (id' = id)) as [->|Hne]; [left; cbn; apply lookup_delete_eq|].
    right. exists c. cbn [left_ s_conns]. rewrite lookup_delete_ne by done. split_and!; try done. congruence.
Qed.

Lemma since_later c c' s s' : sys_ok s -> conn_ok s c -> later c c' s s' -> since s c `prefix_of` since s' c'.
Proof using.
  intros Hs Hc (Ev & Es & _ & (l & El)). unfold since. rewrite Ev, Es, El, drop_app_le, select_app by apply Hc. by apply prefix_app_r.
Qed.
Lemma later_trans c1 c2 c3 s1 s2 s3 : later c1 c2 s1 s2 -> later c2 c3 s2 s3 -> later c1 c3 s1 s3.
Proof using.
  intros (? & ? & ? & ?) (? & ? & ? & ?). split_and!; try congruence; etransitivity; done.
Qed.

(** Closed between two moments, or still there. *)
Lemma run_later n m c :
  (n <= m)%nat -> s_conns (st n) !! id = Some c ->
  (exists k, (n <= k)%nat /\ s_conns (st k) !! id = None) \/
  exists c', s_conns (st m) !! id = Some c' /\ later c c' (st n) (st m).
Proof using Hd Hstart Hsteps widest_len.
  intros Hle Hid. induction Hle as [|m Hle IH]; [right; exists c; done|].
  destruct IH as [?|(c' & Hid' & Hlat)]; [by left|].
  destruct (step_later _ _ _ _ (live_ok m) Hid' (Hsteps m)) as [Hn|(c'' & Hid'' & Hlat' & _)].
  - left. exists (S m). split; [lia|done].
  - right. exists c''. split; [done|]. by eapply later_trans.
Qed.

Definition outcome (n : nat) (P : conn -> sys -> Prop) : Prop :=
  exists m, (n <= m)%nat /\ (s_conns (st m) !! id = None \/ exists c', s_conns (st m) !! id = Some c' /\ P c' (st m)).
Definition further (n : nat) (c c' : conn) (s' : sys) : Prop :=
  later c c' (st n) s' /\ (length (c_seen c) < length (c_seen c'))%nat.

Lemma outcome_later n m c c' :
  (n <= m)%nat -> later c c' (st n) (st m) -> outcome m (further m c') -> outcome n (further n c).
Proof using.
  intros Hle Hlat (k & Hk & [Hn|(c2 & Hid & Hl2 & Hlt)]); exists k; (split; [lia|]); [by left|right].
  exists c2. split; [done|]. split; [by eapply later_trans|]. destruct Hlat as (_ & _ & Hp%prefix_length & _). lia.
Qed.

Lemma turn_progress n c : s_conns (st n) !! id = Some c -> waiting (st n) c <> Some [] -> outcome n (further n c).
Proof using Hd Hstart Hsteps Hturn widest_len.
  intros Hid Hw. destruct (Hturn n c Hid Hw) as (m & Hle & Hlb).
  destruct (run_later n m c Hle Hid) as [(k & Hk & Hn)|(c' & Hid' & Hlat)]; [exists k; auto|].
  destruct (step_later _ _ _ _ (live_ok m) Hid' (Hsteps m)) as [Hn|(c'' & Hid'' & Hlat' & Hf & Hnl)].
  - exists (S m). split; [lia|by left].
  - destruct Hlb as [Hlb|Hlb]; [|done]. exists (S m). split; [lia|right]. exists c''. split; [done|].
    split; [by eapply later_trans|]. rewrite Hf by done. destruct Hlat as (_ & _ & Hp%prefix_length & _). lia.
Qed.

Lemma progress n c :
  s_conns (st n) !! id = Some c -> (length (c_seen c) < length (since (st n) c))%nat -> outcome n (further n c).
Proof using Hd Hstart Hsteps Hturn Hlock widest_len.
  intros Hid Hlt. destruct (decide (waiting (st n) c = Some [])) as [Hw|Hw]; [|by apply turn_progress].
  assert (exists e, s_lock (st n) = Announcing e) as [e He].
  { destruct (s_lock (st n)) eqn:El; [|eauto|]; exfalso; rewrite (seen_all (st n) id c) in Hlt; try apply live_ok; try done;
      try lia; unfold pending; rewrite El; done. }
  destruct (Hlock n e He) as (m & Hle & Hlb).
  destruct (run_later n (S m) c ltac:(lia) Hid) as [(k & Hk & Hn)|(c' & Hid' & Hlat)]; [exists k; auto|].
  assert (s_lock (st (S m)) = Free) as Hfree.
  { pose proof (Hsteps m) as Hstep. rewrite Hlb in Hstep. inversion Hstep; done. }
  destruct (decide (length (c_seen c) < length (c_seen c'))%nat) as [|Hge].
  { exists (S m). split; [lia|right]. exists c'. done. }
  destruct (decide (waiting (st (S m)) c' = Some [])) as [Hw'|Hw'].
  - exfalso. pose proof (seen_all _ id c' (live_ok (S m)) Hid' Hw' (free_pending _ _ Hfree)) as Hall.
    pose proof (since_later _ _ _ _ (live_ok n) (so_conns _ (live_ok n) id c Hid) Hlat) as Hp%prefix_length.
    rewrite Hall in Hge. lia.
  - eapply (outcome_later n (S m)); [lia|exact Hlat|]. by apply turn_progress.
Qed.

Lemma reaches k j n c :
  (S k - length (c_seen c) <= j)%nat -> s_conns (st n) !! id = Some c -> (k < length (since (st n) c))%nat ->
  outcome n (fun c' s' => later c c' (st n) s' /\ (k < length (c_seen c'))%nat).
Proof using Hd Hstart Hsteps Hturn Hlock widest_len.
  revert n c. induction j as [|j IH]; intros n c Hj Hid Hk.
  { exists n. split; [done|right]. exists c. split; [done|]. split; [done|]. lia. }
  destruct (decide (k < length (c_seen c))%nat) as [|Hge].
  { exists n. split; [done|right]. exists c. done. }
  destruct (progress n c Hid) as (m & Hm & [Hn|(c' & Hid' & Hlat & Hlt)]); [lia|exists m; auto|].
  pose proof (since_later _ _ _ _ (live_ok n) (so_conns _ (live_ok n) id c Hid) Hlat) as Hp%prefix_length.
  destruct (IH m c') as (m' & Hm' & [Hn|(c2 & Hid2 & Hlat2 & Hk2)]); [lia|done|lia|exists m'; split; [lia|by left]|].
  exists m'. split; [lia|right]. exists c2. split; [done|]. split; [by eapply later_trans|done].
Qed.

(** C15: Delivery makes progress. On every infinite run in which a write that holds the
    commit lock eventually announces itself and a connection that has something to receive
    eventually takes a turn or ends, every change committed to a vault while a connection to
    it is open is eventually forwarded on that connection, unless the connection ends. *)
Theorem committed_changes_arrive n c e :
  s_conns (st n) !! id = Some c -> In e (since (st n) c) ->
  exists m, (n <= m)%nat /\ (s_conns (st m) !! id = None \/ exists c', s_conns (st m) !! id = Some c' /\ In e (c_seen c')).
Proof using Hd Hstart Hsteps Hturn Hlock widest_len.
  intros Hid He. apply list_elem_of_In, list_elem_of_lookup in He as [k Hk].
  pose proof (lookup_lt_Some _ _ _ Hk) as Hlt.
  destruct (reaches k _ n c ltac:(reflexivity) Hid Hlt) as (m & Hm & [Hn|(c' & Hid' & Hlat & Hk')]); exists m; (split; [done|]); [by left|right].
  exists c'. split; [done|]. apply list_elem_of_In, list_elem_of_lookup. exists k.
  pose proof (since_later _ _ _ _ (live_ok n) (so_conns _ (live_ok n) id c Hid) Hlat) as Hp1.
  pose proof (seen_prefix _ _ _ (live_ok m) Hid') as Hp2.
  apply lookup_lt_is_Some in Hk' as [x Hx]. pose proof (prefix_lookup_Some _ _ _ _ Hk Hp1).
  pose proof (prefix_lookup_Some _ _ _ _ Hx Hp2). congruence.
Qed.
End Liveness.
End Delivery.

(** ** A concrete run

    A connection joins vault-1 of the scenario, a collaborator pushes a file, the event is
    announced and forwarded; after that the server idles. *)
Notation live_sys := (@sys (log_broadcast Event)).
Notation live_step := (sstep demo_parse demo_token_hash demo_notice_len).

Definition live_push : result (Revision * db) :=
  add_file_revision_internal 2000 (demo_revision "c.md" false false 7 2) (Some token_b) (demo_bytes 7) 1000 1000 demo_db.
Definition live_event : Event :=
  match live_push with Ok (r, _) => committed_event r | Err _ => invalidation "vault-1" end.
Definition live0 : live_sys := idle demo_db.
Definition live1 : live_sys := with_lock (Joining "vault-1" (current_version "vault-1" demo_db)) live0.
Definition live2 : live_sys := joined "vault-1" (current_version "vault-1" demo_db) live1.
Definition live3 : live_sys := written (settle demo_db live_push) live_event live2.
Definition live4 : live_sys := announced live_event live3.
Definition live_receiver : @receiver Event (log_broadcast Event) := 1%nat.
Definition live5 : live_sys :=
  match s_conns live4 !! 0%nat with Some c => forwarded 0 c live_event live_receiver live4 | None => live4 end.
Definition live_idle : op := OpSetName 99 "Nobody".
#[global] Strategy 1000 [live_event live_push].

Definition live_st (n : nat) : live_sys :=
  match n with 0%nat => live0 | 1%nat => live1 | 2%nat => live2 | 3%nat => live3 | 4%nat => live4 | _ => live5 end.
Definition live_lb (n : nat) : label :=
  match n with
  | 0%nat => LBegin "vault-1" | 1%nat => LJoin | 2%nat => LWrite live_event | 3%nat => LAnnounce
  | 4%nat => LForward 0 | _ => LDb live_idle
  end.

Lemma demo_widest n : 0 <= pn_uid n <= i64_max -> 0 <= pn_ts n <= i64_max -> demo_notice_len n <= demo_notice_len (widest n).
Proof. intros _ _. reflexivity. Qed.

Lemma live_write : write demo_notice_len demo_db live_event (settle demo_db live_push).
Proof.
  destruct live_push as [[rev d']|] eqn:E; [|vm_compute in E; discriminate].
  assert (live_event = committed_event rev) as -> by (unfold live_event; rewrite E; reflexivity). cbn [settle].
  eapply (write_push _ _ 2000 (demo_revision "c.md" false false 7 2) token_b 1000 1000);
    [reflexivity|vm_compute; discriminate|right; exists (demo_bytes 7); exact E].
Qed.

Lemma live_forward : live_step live4 (LForward 0) live5.
Proof.
  unfold live5. destruct (s_conns live4 !! 0%nat) as [c|] eqn:Ec; [|vm_compute in Ec; discriminate].
  destruct (s_topics live4 !! c_vault c) as [t|] eqn:Et; [|vm_compute in Ec; injection Ec as <-; vm_compute in Et; discriminate].
  apply (S_forward _ _ _ live4 0%nat c t live_event live_receiver Ec Et).
  all: vm_compute in Ec; injection Ec as <-; try (vm_compute; reflexivity).
  vm_compute in Et. injection Et as <-. vm_compute. reflexivity.
Qed.

Lemma live_steps n : live_step (live_st n) (live_lb n) (live_st (S n)).
Proof.
  destruct n as [|[|[|[|[|n]]]]].
  - exact (S_begin demo_parse demo_token_hash demo_notice_len live0 "vault-1" eq_refl).
  - exact (S_join demo_parse demo_token_hash demo_notice_len live1 "vault-1" (current_version "vault-1" demo_db) eq_refl).
  - exact (S_write demo_parse demo_token_hash demo_notice_len live2 live_event (settle demo_db live_push) eq_refl live_write).
  - apply (S_announce _ _ _ live3 live_event); vm_compute; reflexivity.
  - exact live_forward.
  - cbn [live_st live_lb].
    assert (with_sdb (exec demo_parse demo_token_hash demo_notice_len 3000 live_idle (s_db live5)) live5 = live5) as E
      by (vm_compute; reflexivity).
    rewrite <- E at 2. apply S_db; [reflexivity..|]. intros H. discriminate H.
Qed.

Lemma live_serves n : serves demo_parse demo_token_hash demo_notice_len demo_db (live_st n).
Proof. induction n as [|n IH]; [exact (serves_start _ _ _ demo_db)|]. eapply serves_step; [exact IH|apply live_steps]. Qed.

Lemma live_announces n e : s_lock (live_st n) = Announcing e -> exists m, (n <= m)%nat /\ live_lb m = LAnnounce.
Proof.
  destruct n as [|[|[|[|[|n]]]]]; intros H; try (exists 3%nat; split; [lia|reflexivity]).
  - vm_compute in H. discriminate.
  - vm_compute in H. discriminate.
Qed.
Lemma live_turns n c :
  s_conns (live_st n) !! 0%nat = Some c -> waiting (live_st n) c <> Some [] ->
  exists m, (n <= m)%nat /\ (live_lb m = LForward 0 \/ live_lb m = LLeave 0).
Proof.
  destruct n as [|[|[|[|[|n]]]]]; intros Hc H; try (exists 4%nat; split; [lia|by left]).
  exfalso. apply H. vm_compute in Hc. injection Hc as <-. vm_compute. reflexivity.
Qed.

Lemma delivery_exact_witness :
  exists c, s_conns live5 !! 0%nat = Some c /\ c_seen c = since live5 c /\
    map e_uid (c_seen c) = [5] /\ sublist (rows_after (c_vault c) (c_ready c) (s_db live5)) (since live5 c).
Proof.
  destruct (s_conns live5 !! 0%nat) as [c|] eqn:Ec; [|vm_compute in Ec; discriminate]. exists c.
  destruct (delivery_exact demo_parse demo_token_hash demo_notice_len demo_widest demo_db live5 0%nat c demo_db_ok
              (live_serves 5) Ec) as (_ & _ & _ & Hsub & Hall).
  split; [reflexivity|]. split; [|split; [|exact Hsub]].
  - apply Hall; vm_compute in Ec; injection Ec as <-; vm_compute; reflexivity.
  - vm_compute in Ec. injection Ec as <-. vm_compute. reflexivity.
Defined.

Lemma sync_end_to_end_witness :
  exists c replayed, s_conns live5 !! 0%nat = Some c /\
    replay 10 false "vault-1" 2 (current_version "vault-1" demo_db) (fun _ => s_db live5) = Some replayed /\
    map committed_event replayed ++ c_seen c
      = map committed_event (changes "vault-1" 2 (current_version "vault-1" (s_db live5)) (s_db live5)).
Proof.
  destruct (s_conns live5 !! 0%nat) as [c|] eqn:Ec; [|vm_compute in Ec; discriminate]. exists c.
  assert (trace (fun l s s' => live_step s l s') live2 [LWrite live_event; LAnnounce; LForward 0] live5) as Hrun.
  { econstructor; [exact (live_steps 2)|]. econstructor; [exact (live_steps 3)|]. econstructor; [exact (live_steps 4)|]. constructor. }
  assert (Forall keeps_history [LWrite live_event; LAnnounce; LForward 0]) as Hk.
  { repeat constructor. }
  destruct (sync_end_to_end demo_parse demo_token_hash demo_notice_len demo_widest demo_db live1 "vault-1"
              (current_version "vault-1" demo_db) [LWrite live_event; LAnnounce; LForward 0] live5 c 2 10 (fun _ => s_db live5)
              demo_db_ok (live_serves 1) eq_refl) as (rs & H1 & H2).
  - vm_compute. discriminate.
  - exact Hrun.
  - exact Hk.
  - intros _. exists [LWrite live_event; LAnnounce; LForward 0], live5. split; [exact Hrun|]. split; [exact Hk|reflexivity].
  - apply Nat.ltb_lt. vm_compute. reflexivity.
  - exact Ec.
  - vm_compute in Ec. injection Ec as <-. vm_compute. reflexivity.
  - vm_compute. reflexivity.
  - exists rs. split; [reflexivity|]. split; [exact H1|exact H2].
Defined.

Lemma committed_changes_arrive_witness :
  exists m, (3 <= m)%nat /\ (s_conns (live_st m) !! 0%nat = None \/
    exists c', s_conns (live_st m) !! 0%nat = Some c' /\ In live_event (c_seen c')).
Proof.
  destruct (s_conns live3 !! 0%nat) as [c|] eqn:Ec; [|vm_compute in Ec; discriminate].
  apply (committed_changes_arrive demo_parse demo_token_hash demo_notice_len demo_widest demo_db live_st live_lb 0%nat demo_db_ok
           (live_serves 0) live_steps live_announces live_turns 3%nat c live_event Ec).
  vm_compute in Ec. injection Ec as <-. vm_compute. left. reflexivity.
Defined.
