(* ===== verification/Publish.v ===== *)
(** * The Publish runtime (publish.rs)

    Loading a reviewed set of web assets and replaying it over HTTP.  A directory tree of
    the file system is a [node]; the operating system's path lookup follows the segments
    of a path through it.  SHA-256, the parser of JSON and the quoting of JSON strings are
    parameters.  The tree does not change while it is loaded. *)

From Stdlib Require Import ZArith Lia List String Ascii Bool Permutation.
From stdpp Require Import base list strings gmap pretty.
From S2P Require Import Prelude Sql Model Auth Vaults Text Json.

Local Open Scope Z_scope.

Definition RECEIPT_FILE : string := "blackglass-publish-runtime.json".
Definition MAX_RUNTIME_ASSETS : Z := 128.
Definition MAX_RUNTIME_BYTES : Z := 32 * 1024 * 1024.
Definition MAX_ASSET_BYTES : Z := 8 * 1024 * 1024.
Definition MAX_RECEIPT_BYTES : Z := 256 * 1024.
Definition MAX_RUNTIME_ENTRIES : Z := 512.
Definition MAX_RUNTIME_DEPTH : Z := 8.
Definition usize_max : Z := u64_max.

(** ** The file system *)

(** A directory lists its entries; a name that is not UTF-8 is [None].  A symbolic link
    that resolves carries the node at its end and whether it is below the root. *)
Inductive node :=
| File (bytes : blob)
| Dir (entries : list (option string * node))
| Symlink (target : option (bool * node))
| Special.

Fixpoint entry_at (name : string) (es : list (option string * node)) : option node :=
  match es with
  | [] => None
  | (Some n, child) :: es => if String.eqb n name then Some child else entry_at name es
  | (None, _) :: es => entry_at name es
  end.

(** The node a relative path leads to, its last segment not followed, and whether its
    resolved form is below the root.  A path through anything but a directory fails. *)
Fixpoint resolve (n : node) (inside : bool) (segments : list string) : option (bool * node) :=
  match segments with
  | [] => Some (inside, n)
  | seg :: rest =>
      match match n with Symlink (Some t) => t | _ => (inside, n) end with
      | (inside, Dir es) =>
          if String.eqb seg "" || String.eqb seg "." then resolve (Dir es) inside rest
          else if String.eqb seg ".." then None
          else match entry_at seg es with Some child => resolve child inside rest | None => None end
      | _ => None
      end
  end.

Definition canonical_directory (root : option node) (label : string) : result (list (option string * node)) :=
  match root with
  | None => Err (Bail ("inspect " +:+ label))
  | Some (Dir es) => Ok es
  | Some _ => Err (Bail (label +:+ " must be a real directory"))
  end.

Definition read_regular_file (root : list (option string * node)) (path label : string) (maximum_bytes : Z) : result blob :=
  match resolve (Dir root) true (split "/" path) with
  | None => Err (Bail ("inspect " +:+ label))
  | Some (inside, File bytes) =>
      ensure blob_len bytes <=? maximum_bytes orelse Bail (label +:+ " exceeds its byte bound") in
      ensure inside orelse Bail (label +:+ " escapes the Publish runtime root") in
      Ok bytes
  | Some _ => Err (Bail (label +:+ " must be a regular file"))
  end.

(** ** Paths: [Path::components] on Unix *)
Inductive Component := RootDir | CurDir | ParentDir | Normal (name : string).

Definition component_of (leading : bool) (segment : string) : list Component :=
  if String.eqb segment "" then []
  else if String.eqb segment "." then if leading then [CurDir] else []
  else if String.eqb segment ".." then [ParentDir]
  else [Normal segment].

Definition is_absolute (path : string) : bool := starts_with "/" path.
Definition components (path : string) : list Component :=
  match split "/" path with
  | [] => []
  | first :: rest =>
      (if is_absolute path then [RootDir] else component_of true first) ++ flat_map (component_of false) rest
  end.
Definition is_normal (c : Component) : bool := match c with Normal _ => true | _ => false end.
Definition normal_names (cs : list Component) : list string :=
  flat_map (fun c => match c with Normal n => [n] | _ => [] end) cs.

Definition validate_relative_asset_path (path : string) : result unit :=
  ensure negb (is_empty path || contains_char "\" path || contains_char "000" path)
    orelse Bail "Publish runtime asset path is unsafe" in
  ensure negb (is_absolute path || existsb (fun c => negb (is_normal c)) (components path))
    orelse Bail "Publish runtime asset path is not canonical" in
  Ok tt.

(** [PathBuf::push] of a name, and of each of a list of names. *)
Definition below (prefix name : string) : string := if is_empty prefix then name else prefix +:+ "/" +:+ name.
Definition join (prefix : string) (names : list string) : string := fold_left below names prefix.
(** The directories above a path. *)
Definition ancestors (names : list string) : list string :=
  map (fun k => join "" (take k names)) (seq 1 (pred (length names))).

Definition require_sha256 (value label : string) : result unit :=
  ensure (str_len value =? 64) && all_bytes is_lower_hexdigit value
    orelse Bail (label +:+ " must be 64 lowercase hexadecimal characters") in
  Ok tt.

(** ** [inventory_tree] *)
Record inventory := { in_files : gset string; in_directories : gset string; in_entries : Z }.

Definition count_entry (st : inventory) : result inventory :=
  ensure in_entries st + 1 <=? MAX_RUNTIME_ENTRIES orelse Bail "Publish runtime directory entry count exceeds its bound" in
  Ok {| in_files := in_files st; in_directories := in_directories st; in_entries := in_entries st + 1 |}.
Definition add_directory (path : string) (st : inventory) : inventory :=
  {| in_files := in_files st; in_directories := {[path]} ∪ in_directories st; in_entries := in_entries st |}.
Definition add_file (path : string) (st : inventory) : inventory :=
  {| in_files := {[path]} ∪ in_files st; in_directories := in_directories st; in_entries := in_entries st |}.

Fixpoint walk (directory : node) (prefix : string) (depth : Z) (st : inventory) : result inventory :=
  match directory with
  | Dir es =>
      ensure depth <=? MAX_RUNTIME_DEPTH orelse Bail "Publish runtime directory nesting exceeds its bound" in
      (fix each (es : list (option string * node)) (st : inventory) : result inventory :=
         match es with
         | [] => Ok st
         | (name, child) :: es =>
             let? st := count_entry st in
             let? st := match child, name with
                        | Symlink _, _ => Err (Bail "Publish runtime contains a symbolic link")
                        | Special, _ => Err (Bail "Publish runtime contains an unsupported entry")
                        | Dir _, None => Err (Bail "Publish runtime directory path is not UTF-8")
                        | File _, None => Err (Bail "Publish runtime asset path is not UTF-8")
                        | Dir _, Some name => walk child (below prefix name) (depth + 1) (add_directory (below prefix name) st)
                        | File _, Some name => Ok (add_file (below prefix name) st)
                        end in
             each es st
         end) es st
  | _ => Err (Bail "read Publish runtime directory")
  end.

Definition inventory_tree (root : list (option string * node)) : result (gset string * gset string) :=
  let? st := walk (Dir root) "" 0 {| in_files := ∅; in_directories := ∅; in_entries := 0 |} in
  Ok (in_files st, in_directories st).

(** ** [canonical_json] *)
Definition key_order (x y : string * string) : bool := string_leb (fst x) (fst y).

Section Runtime.
Context (sha256 : blob -> string).
Context (parse_json : blob -> option json).
Context (quote : string -> string).

Fixpoint canonical_json (value : json) : string :=
  match value with
  | JNull => "null"
  | JBool b => if b then "true" else "false"
  | JInt z => pretty z
  | JFloat text => text
  | JStr s => quote s
  | JArr values => "[" +:+ String.concat "," (map canonical_json values) +:+ "]"
  | JObj fields =>
      let entries := map (fun kv => match kv with (k, v) => (k, canonical_json v) end) fields in
      "{" +:+ String.concat "," (map (fun e => quote (fst e) +:+ ":" +:+ snd e) (order_by key_order entries)) +:+ "}"
  end.

(** ** [VerifiedPublishRuntime] *)
Record VerifiedPublishRuntime := {
  runtime_sha256 : string;
  source_runtime_sha256 : string;
  assets : gmap string blob;
  total_bytes : Z;
}.

Record loading := {
  l_assets : gmap string blob;
  l_files : gset string;
  l_directories : gset string;
  l_total : Z;
}.

Definition field_str (k : string) (o : list (string * json)) : option string := option_bind _ _ as_str (assoc k o).
Definition field_u64 (k : string) (o : list (string * json)) : option Z := option_bind _ _ as_u64 (assoc k o).
Definition is_field (k : string) (o : list (string * json)) (v : string) : bool := bool_decide (field_str k o = Some v).
Definition is_version (o : list (string * json)) : bool := bool_decide (field_u64 "schemaVersion" o = Some 1).

(** One asset of the manifest. *)
Definition load_asset (root : list (option string * node)) (asset : json) (st : loading) : result loading :=
  let? asset := ok_or (as_object asset) (Bail "Publish runtime asset identity must be an object") in
  let? path := ok_or (field_str "path" asset) (Bail "Publish runtime asset has no path") in
  let? _ := validate_relative_asset_path path in
  ensure negb (bool_decide (path ∈ l_files st)) orelse Bail "Publish runtime has a duplicate asset path" in
  let directories := list_to_set (ancestors (normal_names (components path))) ∪ l_directories st in
  let? expected_bytes := ok_or (field_u64 "bytes" asset) (Bail "Publish runtime asset has an invalid byte length") in
  ensure expected_bytes <=? MAX_ASSET_BYTES orelse Bail "Publish runtime asset exceeds the per-file bound" in
  let? expected_sha256 := ok_or (field_str "sha256" asset) (Bail "Publish runtime asset has no SHA-256") in
  let? _ := require_sha256 expected_sha256 "Publish runtime asset SHA-256" in
  let? bytes := read_regular_file root path "Publish runtime asset" MAX_ASSET_BYTES in
  ensure (blob_len bytes =? expected_bytes) && String.eqb (sha256 bytes) expected_sha256
    orelse Bail "Publish runtime asset identity changed" in
  ensure l_total st + blob_len bytes <=? usize_max orelse Bail "Publish runtime total byte count overflow" in
  ensure l_total st + blob_len bytes <=? MAX_RUNTIME_BYTES orelse Bail "Publish runtime exceeds the total byte bound" in
  Ok {| l_assets := <[path := bytes]> (l_assets st); l_files := {[path]} ∪ l_files st;
        l_directories := directories; l_total := l_total st + blob_len bytes |}.

Fixpoint load_assets (root : list (option string * node)) (values : list json) (st : loading) : result loading :=
  match values with
  | [] => Ok st
  | v :: values => let? st := load_asset root v st in load_assets root values st
  end.

(** The receipt's identity checks, up to its manifest. *)
Definition check_receipt (receipt : list (string * json)) (expected_runtime expected_source : string)
    : result (string * string * list (string * json)) :=
  ensure is_version receipt && is_field "generatedBy" receipt "tools/adapt-publish-runtime.ts"
    orelse Bail "Publish runtime receipt has an unsupported schema or generator" in
  let? source := ok_or (field_str "sourceRuntimeSha256" receipt) (Bail "Publish runtime receipt has no sourceRuntimeSha256") in
  let? _ := require_sha256 source "source Publish runtime SHA-256" in
  ensure String.eqb source expected_source
    orelse Bail "Publish runtime receipt does not match the configured reviewed source identity" in
  let? output := ok_or (field_str "outputRuntimeSha256" receipt) (Bail "Publish runtime receipt has no outputRuntimeSha256") in
  let? _ := require_sha256 output "output Publish runtime SHA-256" in
  ensure String.eqb output expected_runtime
    orelse Bail "Publish runtime does not match the configured source-bound identity" in
  let? manifest := ok_or (assoc "outputManifest" receipt) (Bail "Publish runtime receipt has no outputManifest") in
  let? manifest := ok_or (as_object manifest) (Bail "Publish runtime outputManifest must be an object") in
  ensure is_version manifest && is_field "generatedBy" manifest "tools/inspect-publish-runtime.ts"
      && is_field "runtimeSha256" manifest output
    orelse Bail "Publish runtime outputManifest has inconsistent identity metadata" in
  Ok (source, output, manifest).

Definition unsigned (manifest : list (string * json)) : json :=
  JObj (List.filter (fun kv => negb (String.eqb (fst kv) "runtimeSha256")) manifest).
Definition text_bytes (s : string) : blob := map byte_of_ascii (bytes_of s).

Definition load (root : option node) (expected_runtime_sha256 expected_source_runtime_sha256 : string)
    : result VerifiedPublishRuntime :=
  let? _ := require_sha256 expected_runtime_sha256 "expected Publish runtime SHA-256" in
  let? _ := require_sha256 expected_source_runtime_sha256 "expected source Publish runtime SHA-256" in
  let? root := canonical_directory root "Publish runtime root" in
  let? receipt := read_regular_file root RECEIPT_FILE "Publish runtime receipt" MAX_RECEIPT_BYTES in
  let? receipt := ok_or (parse_json receipt) (Bail "parse Publish runtime receipt") in
  let? receipt := ok_or (as_object receipt) (Bail "Publish runtime receipt must be an object") in
  let? (identities, manifest) := check_receipt receipt expected_runtime_sha256 expected_source_runtime_sha256 in
  let (source, output) := (identities : string * string) in
  ensure String.eqb (sha256 (text_bytes (canonical_json (unsigned manifest)))) output
    orelse Bail "Publish runtime manifest canonical identity is invalid" in
  let? values := ok_or (option_bind _ _ as_array (assoc "assets" manifest))
                   (Bail "Publish runtime outputManifest has no asset inventory") in
  ensure negb ((Z.of_nat (length values) =? 0) || (MAX_RUNTIME_ASSETS <? Z.of_nat (length values)))
    orelse Bail "Publish runtime asset count is outside the supported bound" in
  let? st := load_assets root values {| l_assets := ∅; l_files := {[RECEIPT_FILE]}; l_directories := ∅; l_total := 0 |} in
  let? (actual_files, actual_directories) := inventory_tree root in
  ensure bool_decide (actual_files = l_files st) && bool_decide (actual_directories = l_directories st)
    orelse Bail "Publish runtime directory contains unbound or missing files or directories" in
  Ok {| runtime_sha256 := output; source_runtime_sha256 := source; assets := l_assets st; total_bytes := l_total st |}.

Definition asset (runtime : VerifiedPublishRuntime) (path : string) : option blob := assets runtime !! path.

(** ** Replaying over HTTP *)
Context (to_string : json -> string).
Notation to_vec v := (text_bytes (to_string v)).

Definition report (runtime : VerifiedPublishRuntime) : json :=
  JObj [("sourceRuntimeSha256", JStr (source_runtime_sha256 runtime)); ("runtimeSha256", JStr (runtime_sha256 runtime));
        ("assets", JInt (Z.of_nat (size (assets runtime)))); ("bytes", JInt (total_bytes runtime));
        ("verified", JBool true)]%string.

Record response := { status : Z; headers : list (string * string); body : blob }.

Definition replay_response (status_ : Z) (content_type : string) (body_ : blob) (active immutable : bool) : response :=
  {| status := status_;
     headers := [("content-type", content_type);
                 ("cache-control", if immutable then "public, max-age=31536000, immutable" else "no-store");
                 ("x-content-type-options", "nosniff")]%string
                ++ (if active then [("access-control-allow-origin", "*"); ("obs-status", "active")]%string else []);
     body := body_ |}.

(** [Path::extension] of the last component. *)
Definition extension (path : string) : option string :=
  match List.last (components path) CurDir with
  | Normal name => match rsplit_once "." name with
                   | Some (before, after) => if is_empty before then None else Some after
                   | None => None
                   end
  | _ => None
  end.

Definition content_type (path : string) : string :=
  match extension path with
  | Some ext =>
      if String.eqb ext "css" then "text/css; charset=utf-8"
      else if String.eqb ext "js" || String.eqb ext "mjs" then "text/javascript; charset=utf-8"
      else if String.eqb ext "svg" then "image/svg+xml"
      else if String.eqb ext "png" then "image/png"
      else if String.eqb ext "woff2" then "font/woff2"
      else "application/octet-stream"
  | None => "application/octet-stream"
  end.

Definition REPLAY_SITE_UID : string := "00000000000000000000000000000001".

(** A text with a back quote for each of its double quotes. *)
Definition quoted (s : string) : string :=
  string_of_list_ascii (map (fun c => if Ascii.eqb c "`" then "034"%char else c) (bytes_of s)).

Definition site_info (host : string) : json :=
  JObj [("uid", JStr REPLAY_SITE_UID); ("host", JStr host); ("status", JStr "active"); ("slug", JStr "spike");
        ("redirect", JInt 0); ("customurl", JNull)]%string.
Definition shell_fetch (name path : string) : string :=
  quoted ("window." +:+ name +:+ "=fetch(`" +:+ path +:+ "`,{credentials:`include`});").
Definition replay_shell (host : string) : string :=
  quoted "<!doctype html><html lang=`en`><head><meta charset=`utf-8`><meta name=`viewport` content=`width=device-width,initial-scale=1`><script defer src=`/app.js`></script><link rel=`stylesheet` href=`/app.css`><title>Blackglass Publish</title><script>window.siteInfo="
    +:+ to_string (site_info host) +:+ ";"
    +:+ shell_fetch "preloadOptions" ("/options/" +:+ REPLAY_SITE_UID)
    +:+ shell_fetch "preloadCache" ("/cache/" +:+ REPLAY_SITE_UID)
    +:+ shell_fetch "preloadPage" ("/access/" +:+ REPLAY_SITE_UID +:+ "/Home.md")
    +:+ quoted "</script></head><body class=`theme-dark`><div class=`preload`>Loading…</div></body></html>".

Definition replay_options : json :=
  JObj [("indexFile", JStr "Home"); ("siteName", JStr "Blackglass Publish"); ("defaultTheme", JStr "dark");
        ("showOutline", JBool true); ("showBacklinks", JBool true); ("showSearch", JBool true);
        ("showThemeToggle", JBool true); ("showNavigation", JBool true); ("showGraph", JBool true)]%string.
Definition replay_cache : json :=
  JObj [("Home.md", JObj
    [("links", JArr []);
     ("headings", JArr [JObj [("heading", JStr "Blackglass Publish"); ("level", JInt 1);
                              ("pos", JArr [JInt 0; JInt 0; JInt 0; JInt 0; JInt 20; JInt 20])]]);
     ("frontmatter", JObj []); ("frontmatterLinks", JArr [])])]%string.
Definition newline : string := String "010" "".
Definition replay_home : string :=
  "# Blackglass Publish" +:+ newline +:+ newline
    +:+ "A self-hosted Publish runtime, rendered entirely from Rust." +:+ newline.

Definition safe_host (host : string) : bool :=
  negb (existsb (fun c => contains_char c host) ["<"; ">"; "034"; "'"; "\"]%char).

(** [host] is the Host header when it is visible ASCII. *)
Definition replay_request (runtime : VerifiedPublishRuntime) (path : string) (host : option string) : response :=
  if String.eqb path "/.well-known/blackglass-publish-runtime.json" then
    replay_response 200 "application/json; charset=utf-8" (to_vec (report runtime)) false false
  else if String.eqb path "/" then
    let host := match host with Some h => if safe_host h then h else "127.0.0.1" | None => "127.0.0.1" end in
    replay_response 200 "text/html; charset=utf-8" (text_bytes (replay_shell host)) false false
  else if String.eqb path ("/options/" +:+ REPLAY_SITE_UID) then
    replay_response 200 "application/json; charset=utf-8" (to_vec replay_options) true false
  else if String.eqb path ("/cache/" +:+ REPLAY_SITE_UID) then
    replay_response 200 "application/json; charset=utf-8" (to_vec replay_cache) true false
  else if String.eqb path ("/access/" +:+ REPLAY_SITE_UID +:+ "/Home.md") then
    replay_response 200 "text/markdown; charset=utf-8" (text_bytes replay_home) true false
  else
    let asset_path := default path (strip_prefix "/" path) in
    match asset runtime asset_path with
    | Some bytes => replay_response 200 (content_type asset_path) bytes false true
    | None => replay_response 404 "text/plain; charset=utf-8" (text_bytes "not found") false false
    end.
End Runtime.
