(* ===== verification/PublishSpec.v ===== *)
(** * Correctness of the Publish runtime *)

From Stdlib Require Import ZArith Lia List String Ascii Bool Permutation Sorted.
From stdpp Require Import base list strings gmap pretty sorting.
From S2P Require Import Prelude Sql Model Auth Vaults Text Json Publish.

Local Open Scope Z_scope.

(** ** Canonical JSON *)

(** Byte order on strings. *)
Lemma string_leb_total a b : string_leb a b = false -> string_leb b a = true.
Proof. unfold string_leb. rewrite (String.compare_antisym b a). destruct (String.compare a b); done. Qed.
Lemma string_leb_antisym a b : string_leb a b = true -> string_leb b a = true -> a = b.
Proof.
  unfold string_leb. rewrite (String.compare_antisym b a). destruct (String.compare a b) eqn:E; try done.
  intros _ _. by apply String.compare_eq_iff.
Qed.
Lemma ascii_compare_trans a b c : Ascii.compare a b = Lt -> Ascii.compare b c = Lt -> Ascii.compare a c = Lt.
Proof. unfold Ascii.compare. rewrite !N.compare_lt_iff. lia. Qed.
Lemma string_leb_trans a b c : string_leb a b = true -> string_leb b c = true -> string_leb a c = true.
Proof.
  unfold string_leb. revert b c. induction a as [|x a IH]; intros [|y b] [|z c]; cbn; try done.
  destruct (Ascii.compare x y) eqn:Exy, (Ascii.compare y z) eqn:Eyz; try done; intros H1 H2.
  - apply Ascii.compare_eq_iff in Exy as ->. rewrite Eyz. by apply (IH b c).
  - apply Ascii.compare_eq_iff in Exy as ->. rewrite Eyz. done.
  - apply Ascii.compare_eq_iff in Eyz as ->. rewrite Exy. done.
  - rewrite (ascii_compare_trans x y z) by done. done.
Qed.

(** The same value with the fields of its objects in any order. *)
Inductive jequiv : json -> json -> Prop :=
| jequiv_refl v : jequiv v v
| jequiv_arr l l' : Forall2 jequiv l l' -> jequiv (JArr l) (JArr l')
| jequiv_obj l m l' :
    Forall2 (fun x y => fst x = fst y /\ jequiv (snd x) (snd y)) l m -> Permutation m l' -> NoDup (map fst l) ->
    jequiv (JObj l) (JObj l').

Lemma order_by_permutation (l m : list (string * string)) :
  Permutation l m -> NoDup (map fst l) -> order_by key_order l = order_by key_order m.
Proof.
  intros Hp Hn.
  assert (forall t, Sorted (fun x y => key_order x y = true) (order_by key_order t)) as Hs.
  { intros t. apply order_by_sorted. intros x y. apply string_leb_total. }
  assert (Transitive (fun x y => key_order x y = true)) as Ht by (intros x y z; apply string_leb_trans).
  apply (Sorted_unique_strong (fun x y => key_order x y = true)); [|apply Hs|apply Hs|].
  - intros [k1 v1] [k2 v2] H1 H2 L1 L2. apply list_elem_of_In, in_order_by, list_elem_of_In in H1.
    apply list_elem_of_In, in_order_by, list_elem_of_In in H2. rewrite <- Hp in H2. cbn in *.
    assert (k1 = k2) as -> by (by apply string_leb_antisym). f_equal.
    apply list_elem_of_lookup in H1 as [i Hi], H2 as [j Hj].
    assert (i = j) as ->; [|congruence].
    eapply (NoDup_lookup (map fst l)); [done|rewrite list_lookup_fmap, Hi; done|rewrite list_lookup_fmap, Hj; done].
  - rewrite <- !order_by_perm. done.
Qed.

Section Canonical.
Context (quote : string -> string).

Lemma canonical_entries l m :
  Forall2 (fun x y : string * json => fst x = fst y /\ canonical_json quote (snd x) = canonical_json quote (snd y)) l m ->
  map (fun kv : string * json => let (k, v) := kv in (k, canonical_json quote v)) l
  = map (fun kv : string * json => let (k, v) := kv in (k, canonical_json quote v)) m.
Proof.
  induction 1 as [|[k v] [k' v'] l m [Hk Hv] _ IH]; cbn in *; [done|]. rewrite IH, Hv, Hk. done.
Qed.

Lemma canonical_json_stable (a b : json) : jequiv a b -> canonical_json quote a = canonical_json quote b.
Proof.
  revert a b. fix IH 3. intros a b [v|l l' H|l m l' H Hp Hn]; [done|..].
  - cbn. do 3 f_equal. induction H as [|x y l l' Hxy _ IHl]; cbn; [done|]. rewrite (IH x y Hxy), IHl. done.
  - cbn [canonical_json]. rewrite (canonical_entries l m).
    + do 4 f_equal. apply order_by_permutation; [by apply Permutation_map|].
      rewrite map_map. assert (map fst l = map fst m) as E.
      { clear Hp Hn. induction H as [|x y l m [Hk _] _ IHl]; cbn; congruence. }
      rewrite E in Hn. erewrite map_ext; [exact Hn|]. intros [k v]. done.
    + clear Hp Hn. induction H as [|x y l m [Hk Hv] _ IHl]; constructor; [split; [done|exact (IH _ _ Hv)]|done].
Qed.
End Canonical.

(** ** Trees *)
Section NodeInd.
Context (P : node -> Prop).
Hypothesis Hfile : forall b, P (File b).
Hypothesis Hdir : forall es, Forall (fun e => P (snd e)) es -> P (Dir es).
Hypothesis Hlink : forall t, P (Symlink t).
Hypothesis Hspecial : P Special.
Lemma node_nested_ind : forall n, P n.
Proof using Hfile Hdir Hlink Hspecial.
  fix IH 1. intros [b|es|t|]; [apply Hfile| |apply Hlink|apply Hspecial]. apply Hdir.
  induction es as [|[o c] es IHes]; constructor; [apply IH|exact IHes].
Qed.
End NodeInd.

(** A file name: what the operating system can store in a directory. *)
Definition name_ok (n : string) : bool :=
  negb (is_empty n || String.eqb n "." || String.eqb n ".." || contains_char "/" n || contains_char "000" n).
Definition names_of (es : list (option string * node)) : list string := omap fst es.

(** Each directory holds a name once. *)
Fixpoint tree_ok (n : node) : Prop :=
  match n with
  | Dir es =>
      NoDup (names_of es) /\ Forall (fun x => name_ok x = true) (names_of es) /\
      (fix all es := match es with [] => True | (_, child) :: es => tree_ok child /\ all es end) es
  | _ => True
  end.

Lemma tree_ok_dir es :
  tree_ok (Dir es) <-> NoDup (names_of es) /\ Forall (fun x => name_ok x = true) (names_of es) /\ Forall (fun e => tree_ok (snd e)) es.
Proof.
  cbn. assert (forall es, (fix all (es : list (option string * node)) := match es with [] => True | (_, child) :: es => tree_ok child /\ all es end) es
    <-> Forall (fun e => tree_ok (snd e)) es) as E.
  { induction es0 as [|[n c] es0 IH]; [split; constructor|]. rewrite Forall_cons. cbn. tauto. }
  rewrite E. tauto.
Qed.

(** The node below a directory at a list of names, with no link on the way. *)
Fixpoint descend (n : node) (names : list string) : option node :=
  match names with
  | [] => Some n
  | name :: names => match n with
                     | Dir es => match entry_at name es with Some child => descend child names | None => None end
                     | _ => None
                     end
  end.

Lemma entry_at_in name es child : entry_at name es = Some child -> In (Some name, child) es.
Proof.
  induction es as [|[[n|] c] es IH]; cbn; [done| |naive_solver]. destruct (String.eqb_spec n name) as [->|]; [|naive_solver].
  intros [= <-]. by left.
Qed.
Lemma in_entry_at name es child : NoDup (names_of es) -> In (Some name, child) es -> entry_at name es = Some child.
Proof.
  induction es as [|[[n|] c] es IH]; cbn; [done| |].
  - rewrite NoDup_cons. intros [Hn Hd] [[= -> ->]|Hin]; [by rewrite String.eqb_refl|].
    destruct (String.eqb_spec n name) as [->|]; [|auto]. exfalso. apply Hn. unfold names_of.
    apply list_elem_of_omap. exists (Some name, child). split; [by apply list_elem_of_In|done].
  - intros Hd [[=]|Hin]. auto.
Qed.
Lemma entry_name name es child : tree_ok (Dir es) -> entry_at name es = Some child -> name_ok name = true /\ tree_ok child.
Proof.
  rewrite tree_ok_dir. intros (_ & Hn & Hc) H%entry_at_in. rewrite Forall_forall in Hn. rewrite Forall_forall in Hc. split.
  - apply Hn, list_elem_of_omap. exists (Some name, child). split; [by apply list_elem_of_In|done].
  - apply (Hc (Some name, child)). by apply list_elem_of_In.
Qed.
Lemma descend_names names n m : tree_ok n -> descend n names = Some m -> Forall (fun x => name_ok x = true) names.
Proof.
  revert n. induction names as [|x names IH]; intros n Hn H; [constructor|]. cbn in H. destruct n; try done.
  destruct (entry_at x entries) as [c|] eqn:E; [|done]. destruct (entry_name _ _ _ Hn E). constructor; [done|]. by apply (IH c).
Qed.

(** The operating system finds what is below the root without links. *)
Lemma resolve_descend names n m inside :
  Forall (fun x => name_ok x = true) names -> descend n names = Some m -> resolve n inside names = Some (inside, m).
Proof.
  revert n. induction names as [|x names IH]; intros n Hall H; [cbn in *; congruence|]. inversion_clear Hall as [|? ? Hx Hxs].
  cbn in *. destruct n as [|es| |]; try done. destruct (entry_at x es) as [c|] eqn:E; [|done].
  unfold name_ok in Hx. breflect. destruct (String.eqb_spec x "") as [->|]; [done|].
  rewrite !(proj2 (String.eqb_neq _ _)) by done. cbn. by apply IH.
Qed.

(** ** Paths *)
Lemma split_bytes_nonempty c l : split_bytes c l <> [].
Proof. destruct l as [|x l]; cbn; [done|]. destruct (Ascii.eqb x c); [done|]. destruct (split_bytes c l); done. Qed.
Lemma split_bytes_app c a b : split_bytes c (a ++ c :: b) = split_bytes c a ++ split_bytes c b.
Proof.
  induction a as [|x a IH]; cbn; [by rewrite Ascii.eqb_refl|]. rewrite IH. destruct (Ascii.eqb x c); [done|].
  destruct (split_bytes c a) as [|p ps] eqn:E; [|done]. by apply split_bytes_nonempty in E.
Qed.
Lemma split_bytes_one c l : existsb (Ascii.eqb c) l = false -> split_bytes c l = [l].
Proof.
  induction l as [|x l IH]; cbn; [done|]. intros [Hx Hl]%orb_false_iff. rewrite Ascii.eqb_sym, Hx, IH by done. done.
Qed.
Lemma split_name c n : contains_char c n = false -> split c n = [n].
Proof.
  intros H. unfold split. rewrite split_bytes_one by done. cbn. rewrite string_of_list_ascii_of_string. done.
Qed.
Lemma split_below prefix n : prefix <> ""%string -> contains_char "/" n = false -> split "/" (below prefix n) = split "/" prefix ++ [n].
Proof.
  intros Hp Hn. assert (below prefix n = prefix +:+ "/" +:+ n) as -> by (destruct prefix; done). unfold split at 1.
  rewrite !bytes_app. change (bytes_of "/") with ["/"%char]. cbn [app]. rewrite split_bytes_app, map_app. f_equal.
  by apply split_name.
Qed.
Lemma below_nonempty prefix n : n <> ""%string -> below prefix n <> ""%string.
Proof. unfold below. intros Hn. destruct prefix; done. Qed.

Lemma split_join_below names prefix :
  prefix <> ""%string -> Forall (fun x => name_ok x = true) names -> split "/" (join prefix names) = split "/" prefix ++ names.
Proof.
  intros Hp Hall. revert prefix Hp. induction Hall as [|n names Hn _ IH]; intros prefix Hp; cbn [join fold_left]; [by rewrite app_nil_r|].
  unfold name_ok in Hn. breflect. change (fold_left below names ?p) with (join p names). rewrite IH.
  - rewrite split_below, <- app_assoc by done. done.
  - apply below_nonempty. intros ->. done.
Qed.
Lemma split_join names :
  names <> [] -> Forall (fun x => name_ok x = true) names -> split "/" (join "" names) = names.
Proof.
  intros Hne Hall. destruct Hall as [|n names Hn Hall]; [done|]. cbn [join fold_left]. change (below "" n) with n.
  change (fold_left below names ?p) with (join p names). unfold name_ok in Hn. breflect. rewrite split_join_below.
  - rewrite split_name by done. done.
  - intros ->. done.
  - done.
Qed.

(** ** The inventory *)
Definition ordinary (n : node) : Prop := match n with File _ | Dir _ => True | _ => False end.
Definition walk_entry (prefix : string) (depth : Z) (name : option string) (child : node) (st : inventory) : result inventory :=
  match child, name with
  | Symlink _, _ => Err (Bail "Publish runtime contains a symbolic link")
  | Special, _ => Err (Bail "Publish runtime contains an unsupported entry")
  | Dir _, None => Err (Bail "Publish runtime directory path is not UTF-8")
  | File _, None => Err (Bail "Publish runtime asset path is not UTF-8")
  | Dir _, Some name => walk child (below prefix name) (depth + 1) (add_directory (below prefix name) st)
  | File _, Some name => Ok (add_file (below prefix name) st)
  end.
Fixpoint walk_entries (prefix : string) (depth : Z) (es : list (option string * node)) (st : inventory) : result inventory :=
  match es with
  | [] => Ok st
  | (name, child) :: es =>
      let? st := count_entry st in
      let? st := walk_entry prefix depth name child st in
      walk_entries prefix depth es st
  end.
Lemma walk_dir es prefix depth st :
  walk (Dir es) prefix depth st
  = ensure depth <=? MAX_RUNTIME_DEPTH orelse Bail "Publish runtime directory nesting exceeds its bound" in
    walk_entries prefix depth es st.
Proof.
  cbn [walk]. destruct (depth <=? MAX_RUNTIME_DEPTH); [|done]. revert st. induction es as [|[name child] es IH]; intros st; [done|].
  cbn. destruct (count_entry st) as [st1|]; [|done]. cbn. unfold walk_entry.
  destruct child, name; lazy beta match; try done; try apply IH. destruct (walk _ _ _ _) as [st2|]; [apply IH|done].
Qed.

Definition is_file (n : node) : Prop := match n with File _ => True | _ => False end.
Definition is_dir (n : node) : Prop := match n with Dir _ => True | _ => False end.

(** The nodes of a kind at or below a node, by their paths, and those strictly below. *)
Definition found_at (Q : node -> Prop) (n : node) (path p : string) : Prop :=
  exists names m, descend n names = Some m /\ Q m /\ p = join path names.
Definition found (Q : node -> Prop) (n : node) (path p : string) : Prop :=
  exists names m, names <> [] /\ descend n names = Some m /\ Q m /\ p = join path names.

Lemma found_at_here Q n path p : found_at Q n path p <-> (Q n /\ p = path) \/ found Q n path p.
Proof.
  split.
  - intros ([|x names] & m & H & HQ & ->); [left; cbn in H; injection H as <-; done|right]. by exists (x :: names), m.
  - intros [[HQ ->]|(names & m & _ & H)]; [by exists [], n|by exists names, m].
Qed.
Lemma found_nil Q path p : ~ found Q (Dir []) path p.
Proof. intros ([|x names] & m & Hne & H & _); done. Qed.
Lemma found_cons Q name child es path p :
  ~ In name (names_of es) ->
  found Q (Dir ((Some name, child) :: es)) path p <-> found_at Q child (below path name) p \/ found Q (Dir es) path p.
Proof.
  intros Hnew. split.
  - intros ([|x names] & m & Hne & H & HQ & ->); [done|]. cbn in H. destruct (String.eqb_spec name x) as [->|].
    + left. by exists names, m.
    + right. by exists (x :: names), m.
  - intros [(names & m & H & HQ & ->)|([|x names] & m & Hne & H & HQ & ->)]; [|done|].
    + exists (name :: names), m. cbn. rewrite String.eqb_refl. done.
    + exists (x :: names), m. split; [done|]. split; [|done]. cbn. destruct (String.eqb_spec name x) as [->|]; [|done].
      exfalso. apply Hnew. cbn in H. destruct (entry_at x es) as [c|] eqn:Ex; [|done]. apply entry_at_in in Ex.
      apply list_elem_of_In, list_elem_of_omap. eexists. split; [by apply list_elem_of_In|done].
Qed.

(** What a walk of [n] adds: the files and directories below it. *)
Record walked (n : node) (path : string) (st st' : inventory) : Prop := {
  wk_files p : p ∈ in_files st' <-> p ∈ in_files st \/ found is_file n path p;
  wk_directories p : p ∈ in_directories st' <-> p ∈ in_directories st \/ found is_dir n path p;
  wk_ordinary names m : descend n names = Some m -> ordinary m;
}.
Definition entered (n : node) (path : string) (st st' : inventory) : Prop :=
  (forall p, p ∈ in_files st' <-> p ∈ in_files st \/ found_at is_file n path p) /\
  (forall p, p ∈ in_directories st' <-> p ∈ in_directories st \/ found_at is_dir n path p) /\
  (forall names m, descend n names = Some m -> ordinary m).

Lemma descend_file b names m : descend (File b) names = Some m -> names = [] /\ m = File b.
Proof. destruct names; cbn; naive_solver. Qed.
Lemma found_file Q b path p : ~ found Q (File b) path p.
Proof. intros (names & m & Hne & [-> _]%descend_file & _). done. Qed.

Lemma walk_entry_spec prefix depth name child st st' :
  (forall prefix depth st st', walk child prefix depth st = Ok st' -> walked child prefix st st') ->
  walk_entry prefix depth (Some name) child st = Ok st' -> entered child (below prefix name) st st'.
Proof.
  intros IH H. unfold entered. setoid_rewrite found_at_here. destruct child as [b|es| |]; try done; cbn [walk_entry] in H.
  - injection H as <-. cbn. pose proof (fun Q => found_file Q b). split; [|split].
    + intros p. rewrite elem_of_union, elem_of_singleton. naive_solver.
    + naive_solver.
    + intros names m [-> ->]%descend_file. done.
  - destruct (IH _ _ _ _ H) as [Hf Hd Ho]. cbn in Hf, Hd |- *. split; [|split; [|done]].
    + intros p. rewrite Hf. naive_solver.
    + intros p. rewrite Hd, elem_of_union, elem_of_singleton. naive_solver.
Qed.

Lemma walk_entries_spec prefix depth es st st' :
  Forall (fun e => forall prefix depth st st', walk (snd e) prefix depth st = Ok st' -> walked (snd e) prefix st st') es ->
  NoDup (names_of es) -> walk_entries prefix depth es st = Ok st' -> walked (Dir es) prefix st st'.
Proof.
  intros Hall. revert st. induction Hall as [|[name child] es Hchild _ IH]; intros st Hnd H.
  - injection H as <-. pose proof (fun Q => found_nil Q prefix). split; [naive_solver..|].
    intros [|x names] m H1; cbn in H1; [|done]. injection H1 as <-. done.
  - cbn in H. destruct (count_entry st) as [st1|] eqn:E1; [|done]. cbn in H.
    destruct (walk_entry prefix depth name child st1) as [st2|] eqn:E2; [|done]. cbn in H.
    destruct name as [name|]; [|destruct child; done]. cbn in Hnd. apply NoDup_cons in Hnd as [Hnew Hnd].
    rewrite list_elem_of_In in Hnew.
    apply walk_entry_spec in E2 as (Ef' & Ed' & Eo); [|exact Hchild]. destruct (IH st2 Hnd H) as [If Id Io].
    assert (in_files st1 = in_files st /\ in_directories st1 = in_directories st) as (Ef & Ed).
    { unfold count_entry in E1. inv_ok E1. done. }
    split.
    + intros p. rewrite found_cons, If, Ef', Ef by done. naive_solver.
    + intros p. rewrite found_cons, Id, Ed', Ed by done. naive_solver.
    + intros [|x names] m H1; [cbn in H1; injection H1 as <-; done|]. cbn in H1.
      destruct (String.eqb name x); [by eapply Eo|by eapply (Io (x :: names))].
Qed.

Lemma walk_spec n prefix depth st st' : tree_ok n -> walk n prefix depth st = Ok st' -> walked n prefix st st'.
Proof.
  revert prefix depth st st'. induction n as [b|es IH|t|] using node_nested_ind; try done.
  intros prefix depth st st' Hok H. rewrite walk_dir in H. inv_ok H. apply tree_ok_dir in Hok as (Hnd & _ & Hok).
  eapply walk_entries_spec; [|done|done]. rewrite Forall_forall in IH, Hok |- *. eauto.
Qed.

(** ** Loading *)
Definition asset_total (m : gmap string blob) : Z := map_fold (fun _ b acc => blob_len b + acc) 0 m.

Section Loaded.
Context (sha256 : blob -> string) (parse_json : blob -> option json) (quote : string -> string).

(** The manifest lists [path] with the length and the hash of [bytes]. *)
Definition listed (values : list json) (path : string) (bytes : blob) : Prop :=
  exists o, In (JObj o) values /\ field_str "path" o = Some path /\ field_u64 "bytes" o = Some (blob_len bytes) /\
    field_str "sha256" o = Some (sha256 bytes).

Record loading_ok (root : list (option string * node)) (values : list json) (st : loading) : Prop := {
  lo_files : l_files st = {[RECEIPT_FILE]} ∪ dom (l_assets st);
  lo_receipt : l_assets st !! RECEIPT_FILE = None;
  lo_asset p b : l_assets st !! p = Some b ->
    read_regular_file root p "Publish runtime asset" MAX_ASSET_BYTES = Ok b /\ listed values p b /\ blob_len b <= MAX_ASSET_BYTES;
  lo_listed o : In (JObj o) values -> exists p, field_str "path" o = Some p /\ is_Some (l_assets st !! p);
  lo_total : l_total st = asset_total (l_assets st);
  lo_bound : l_total st <= MAX_RUNTIME_BYTES;
  lo_count : size (l_assets st) = length values;
}.

Lemma read_regular_file_bound root p label m b : read_regular_file root p label m = Ok b -> blob_len b <= m.
Proof. unfold read_regular_file. intros H. repeat case_match; try done. inv_ok H. breflect. done. Qed.

Lemma ok_or_some {A} (o : option A) e a : ok_or o e = Ok a -> o = Some a.
Proof. destruct o; cbn; congruence. Qed.

Lemma load_asset_ok root values v st st' :
  loading_ok root values st -> load_asset sha256 root v st = Ok st' -> loading_ok root (values ++ [v]) st'.
Proof.
  intros [Hf Hr Ha Hl Ht Hb Hc] H. unfold load_asset in H. steps_in H. breflect.
  repeat match goal with E : ok_or _ _ = Ok _ |- _ => apply ok_or_some in E end.
  destruct v; try discriminate E. injection E as ->. rename value into o, value0 into path, value5 into bytes.
  pose proof (read_regular_file_bound _ _ _ _ _ E7) as Hlen. apply bool_decide_eq_false in E2.
  assert (path <> RECEIPT_FILE /\ l_assets st !! path = None) as [Hnr Hnew].
  { rewrite Hf, not_elem_of_union, not_elem_of_singleton, not_elem_of_dom in *. tauto. }
  assert (forall p b, listed values p b -> listed (values ++ [JObj o]) p b) as Hmono.
  { intros p b (o' & Hin & ?). exists o'. split; [apply in_or_app; by left|done]. }
  split; cbn.
  - rewrite Hf, dom_insert_L. set_solver.
  - rewrite lookup_insert_ne by done. done.
  - intros p b [[<- <-]|[_ Hp]]%lookup_insert_Some.
    + split; [done|]. split; [|done]. exists o. split; [apply in_or_app; right; by left|]. split; [done|]. split; congruence.
    + destruct (Ha p b Hp) as (? & ? & ?). auto.
  - intros o' [Hin|[[= <-]|[]]]%in_app_iff.
    + destruct (Hl o' Hin) as (p & Hp & b & Hpb). exists p. split; [done|]. exists b. rewrite lookup_insert_ne by congruence. done.
    + exists path. split; [done|]. rewrite lookup_insert_eq. eauto.
  - unfold asset_total. rewrite (map_fold_insert_L _ _ path bytes) by (try done; intros; lia). fold (asset_total (l_assets st)). lia.
  - lia.
  - rewrite map_size_insert_None, length_app by done. cbn. lia.
Qed.

Lemma load_assets_ok root vs values st st' :
  loading_ok root values st -> load_assets sha256 root vs st = Ok st' -> loading_ok root (values ++ vs) st'.
Proof.
  revert values st. induction vs as [|v vs IH]; intros values st Hst H; cbn in H.
  - injection H as <-. rewrite app_nil_r. done.
  - destruct (load_asset sha256 root v st) as [st1|] eqn:E; [|done]. cbn in H.
    change (v :: vs) with ([v] ++ vs). rewrite app_assoc. eapply IH; [|done]. by eapply load_asset_ok.
Qed.

(** A regular file of the tree, under its canonical path. *)
Definition file_at (root : list (option string * node)) (p : string) (b : blob) : Prop :=
  exists names, names <> [] /\ p = join "" names /\ descend (Dir root) names = Some (File b).

Lemma read_file_at root p label m b b' :
  tree_ok (Dir root) -> file_at root p b' -> read_regular_file root p label m = Ok b -> b = b'.
Proof.
  intros Hok (names & Hne & -> & Hd) H. pose proof (descend_names _ _ _ Hok Hd) as Hn.
  unfold read_regular_file in H. rewrite split_join, (resolve_descend names _ (File b') true) in H by done. inv_ok H. done.
Qed.

Lemma inventory_spec root files dirs :
  tree_ok (Dir root) -> inventory_tree root = Ok (files, dirs) ->
  (forall p, p ∈ files <-> exists b, file_at root p b) /\
  (forall names m, descend (Dir root) names = Some m -> ordinary m).
Proof.
  intros Hok H. unfold inventory_tree in H. destruct (walk _ _ _ _) as [st|] eqn:E; [|done]. cbn in H. injection H as <- <-.
  apply walk_spec in E as [Hf _ Ho]; [|done]. split; [|done]. intros p. rewrite Hf. cbn. rewrite elem_of_empty. split.
  - intros [[]|(names & m & Hne & Hd & Hm & ->)]. destruct m as [b| | |]; try done. exists b, names. done.
  - intros (b & names & Hne & -> & Hd). right. exists names, (File b). done.
Qed.

Lemma loading_start root :
  loading_ok root [] {| l_assets := ∅; l_files := {[RECEIPT_FILE]}; l_directories := ∅; l_total := 0 |}.
Proof.
  split; cbn; try done.
Qed.

Lemma check_receipt_spec receipt runtime_sha source_sha source output manifest :
  check_receipt receipt runtime_sha source_sha = Ok (source, output, manifest) ->
  source = source_sha /\ output = runtime_sha /\ assoc "outputManifest" receipt = Some (JObj manifest).
Proof.
  intros H. unfold check_receipt in H. steps_in H. breflect.
  repeat match goal with E : ok_or _ _ = Ok _ |- _ => apply ok_or_some in E end.
  match goal with E : as_object ?v = Some _ |- _ => destruct v; try discriminate E; injection E as -> end. done.
Qed.

Lemma loaded_exact root runtime_sha source_sha rt :
  tree_ok root -> load sha256 parse_json quote (Some root) runtime_sha source_sha = Ok rt ->
  exists entries receipt bytes manifest values,
    root = Dir entries /\
    file_at entries RECEIPT_FILE bytes /\ parse_json bytes = Some (JObj receipt) /\
    assoc "outputManifest" receipt = Some (JObj manifest) /\
    (forall names m, descend root names = Some m -> ordinary m) /\
    (forall p b, assets rt !! p = Some b <-> p <> RECEIPT_FILE /\ file_at entries p b) /\
    sha256 (text_bytes (canonical_json quote (unsigned manifest))) = runtime_sha /\
    assoc "assets" manifest = Some (JArr values) /\
    (forall p b, assets rt !! p = Some b -> listed values p b /\ blob_len b <= MAX_ASSET_BYTES) /\
    1 <= Z.of_nat (size (assets rt)) <= MAX_RUNTIME_ASSETS /\
    total_bytes rt = asset_total (assets rt) /\ total_bytes rt <= MAX_RUNTIME_BYTES.
Proof.
  intros Hok H. unfold load in H. steps_in H. breflect.
  repeat match goal with E : ok_or _ _ = Ok _ |- _ => apply ok_or_some in E end.
  apply bool_decide_eq_true in H as ->. rename l into manifest, value6 into values, value7 into st.
  destruct root as [|entries| |]; try discriminate E1. injection E1 as <-.
  destruct value3; try discriminate E4. injection E4 as ->. rename value4 into receipt.
  apply check_receipt_spec in E5 as (_ & -> & Hman).
  assert (assoc "assets" manifest = Some (JArr values)) as Hval.
  { destruct (assoc "assets" manifest) as [[]|]; cbn in E9; congruence. }
  pose proof (load_assets_ok entries values [] _ _ (loading_start entries) E11) as [Hf Hr Ha Hl Ht Hb Hc]. cbn [app] in *.
  destruct (inventory_spec entries _ _ Hok E12) as [Hinv Hord].
  assert (exists b, file_at entries RECEIPT_FILE b) as [rb Hrb] by (apply Hinv; set_solver).
  exists entries, receipt, rb, manifest, values. split_and!; try done; cbn [assets total_bytes].
  - assert (value2 = rb) as <-; [|done]. by eapply read_file_at.
  - intros p b. split.
    + intros Hp. split; [congruence|]. assert (exists b', file_at entries p b') as [b' Hb'].
      { apply Hinv. rewrite Hf, elem_of_union, elem_of_dom. eauto. }
      destruct (Ha p b Hp) as [Hread _]. rewrite (read_file_at _ _ _ _ _ _ Hok Hb' Hread). done.
    + intros [Hne Hb']. assert (p ∈ l_files st) as Hp by (apply Hinv; eauto).
      rewrite Hf, elem_of_union, elem_of_singleton, elem_of_dom in Hp. destruct Hp as [|[b0 Hp]]; [done|].
      destruct (Ha p b0 Hp) as [Hread _]. rewrite <- (read_file_at _ _ _ _ _ _ Hok Hb' Hread). done.
  - intros p b Hp. by apply Ha.
  - lia.
  - lia.
Qed.

Lemma loaded_assets entries runtime_sha source_sha rt :
  tree_ok (Dir entries) -> load sha256 parse_json quote (Some (Dir entries)) runtime_sha source_sha = Ok rt ->
  forall p b, assets rt !! p = Some b <-> p <> RECEIPT_FILE /\ file_at entries p b.
Proof.
  intros Hok Hl. destruct (loaded_exact _ _ _ _ Hok Hl) as (entries' & _ & _ & _ & _ & E & _ & _ & _ & _ & H & _).
  injection E as <-. done.
Qed.

(** C31: A Publish runtime that loads is exactly the reviewed one. Its directory holds only
    regular files and directories, no link; its assets are precisely the files below the
    root except the receipt, under their canonical paths, so no path of the manifest leads
    anywhere else; each has the length and the SHA-256 the manifest lists, the manifest's
    canonical text hashes to the configured identity, and the counts and sizes are within
    their bounds. *)
Theorem publish_runtime_exact root runtime_sha source_sha rt :
  tree_ok root -> load sha256 parse_json quote (Some root) runtime_sha source_sha = Ok rt ->
  exists entries receipt bytes manifest values,
    root = Dir entries /\
    file_at entries RECEIPT_FILE bytes /\ parse_json bytes = Some (JObj receipt) /\
    assoc "outputManifest" receipt = Some (JObj manifest) /\
    (forall names m, descend root names = Some m -> ordinary m) /\
    (forall p b, assets rt !! p = Some b <-> p <> RECEIPT_FILE /\ file_at entries p b) /\
    sha256 (text_bytes (canonical_json quote (unsigned manifest))) = runtime_sha /\
    assoc "assets" manifest = Some (JArr values) /\
    (forall p b, assets rt !! p = Some b -> listed values p b /\ blob_len b <= MAX_ASSET_BYTES) /\
    1 <= Z.of_nat (size (assets rt)) <= MAX_RUNTIME_ASSETS /\
    total_bytes rt = asset_total (assets rt) /\ total_bytes rt <= MAX_RUNTIME_BYTES.
Proof. apply loaded_exact. Qed.

(** ** Serving *)
Context (to_string : json -> string).


(** The paths the replay answers itself. *)
Definition reserved : list string :=
  [".well-known/blackglass-publish-runtime.json"; ""; "options/" +:+ REPLAY_SITE_UID; "cache/" +:+ REPLAY_SITE_UID;
   "access/" +:+ REPLAY_SITE_UID +:+ "/Home.md"].

Lemma replay_asset rt p host :
  ~ In p reserved ->
  replay_request to_string rt ("/" +:+ p) host
  = match assets rt !! p with
    | Some b => replay_response 200 (content_type p) b false true
    | None => replay_response 404 "text/plain; charset=utf-8" (text_bytes "not found") false false
    end.
Proof.
  intros Hp. unfold replay_request.
  assert (forall q q', In q reserved -> q' = "/" +:+ q -> String.eqb ("/" +:+ p) q' = false) as Hne.
  { intros q q' Hq ->. apply String.eqb_neq. intros E. assert (p = q) as -> by (injection E; done). done. }
  rewrite (Hne ".well-known/blackglass-publish-runtime.json" "/.well-known/blackglass-publish-runtime.json"), (Hne "" "/"),
    (Hne ("options/" +:+ REPLAY_SITE_UID) ("/options/" +:+ REPLAY_SITE_UID)),
    (Hne ("cache/" +:+ REPLAY_SITE_UID) ("/cache/" +:+ REPLAY_SITE_UID)),
    (Hne ("access/" +:+ REPLAY_SITE_UID +:+ "/Home.md") ("/access/" +:+ REPLAY_SITE_UID +:+ "/Home.md")) by (cbn; tauto || done).
  rewrite strip_prefix_app. done.
Qed.

(** C32: The replay serves exactly the reviewed files. For every request path outside its
    five own routes it answers a file of the verified tree with that file's bytes, as
    immutable, and everything else (the receipt included, and any path with dot segments or
    doubled slashes) with 404; no request reads anything outside the verified tree. *)
Theorem publish_serves_exactly entries runtime_sha source_sha rt p host :
  tree_ok (Dir entries) -> load sha256 parse_json quote (Some (Dir entries)) runtime_sha source_sha = Ok rt ->
  ~ In p reserved ->
  (exists b, p <> RECEIPT_FILE /\ file_at entries p b /\
     replay_request to_string rt ("/" +:+ p) host = replay_response 200 (content_type p) b false true) \/
  ((forall b, p <> RECEIPT_FILE -> ~ file_at entries p b) /\
     replay_request to_string rt ("/" +:+ p) host
     = replay_response 404 "text/plain; charset=utf-8" (text_bytes "not found") false false).
Proof.
  intros Hok Hl Hp. pose proof (loaded_assets entries _ _ _ Hok Hl) as Hassets.
  rewrite replay_asset by done. destruct (assets rt !! p) as [b|] eqn:E; [left|right].
  - exists b. apply Hassets in E as [? ?]. done.
  - split; [|done]. intros b Hne Hb. assert (assets rt !! p = Some b) by (apply Hassets; done). congruence.
Qed.
End Loaded.

(** ** A concrete tree *)
Definition demo_sha (_ : blob) : string := string_of_list_ascii (repeat "a"%char 64).
Definition demo_asset (path : string) (n : Z) : json :=
  JObj [("path", JStr path); ("bytes", JInt n); ("sha256", JStr (demo_sha []))]%string.
Definition demo_manifest : list (string * json) :=
  [("schemaVersion", JInt 1); ("generatedBy", JStr "tools/inspect-publish-runtime.ts"); ("runtimeSha256", JStr (demo_sha []));
   ("assets", JArr [demo_asset "app.js" 2; demo_asset "css/app.css" 1])]%string.
Definition demo_receipt : json :=
  JObj [("schemaVersion", JInt 1); ("generatedBy", JStr "tools/adapt-publish-runtime.ts");
        ("sourceRuntimeSha256", JStr (demo_sha [])); ("outputRuntimeSha256", JStr (demo_sha []));
        ("outputManifest", JObj demo_manifest)]%string.
Definition demo_tree : list (option string * node) :=
  [(Some RECEIPT_FILE, File [Byte.x7b]); (Some "app.js"%string, File [Byte.x41; Byte.x42]);
   (Some "css"%string, Dir [(Some "app.css"%string, File [Byte.x43])])].
Definition demo_load : result VerifiedPublishRuntime :=
  load demo_sha (fun _ => Some demo_receipt) (fun s => s) (Some (Dir demo_tree)) (demo_sha []) (demo_sha []).

Lemma demo_tree_ok : tree_ok (Dir demo_tree).
Proof.
  cbn. split; [|split; [|split_and!; try done]].
  - refine (proj1 (bool_decide_eq_true _) _). vm_compute. reflexivity.
  - repeat constructor.
  - refine (proj1 (bool_decide_eq_true _) _). vm_compute. reflexivity.
  - repeat constructor.
Qed.

Lemma publish_runtime_exact_witness :
  exists rt, demo_load = Ok rt /\
    (exists es, Dir demo_tree = Dir es /\ forall p b, assets rt !! p = Some b <-> p <> RECEIPT_FILE /\ file_at es p b) /\
    total_bytes rt = 3.
Proof.
  destruct demo_load as [rt|] eqn:E; [|vm_compute in E; discriminate]. exists rt. split; [reflexivity|]. split.
  - destruct (publish_runtime_exact demo_sha _ _ _ _ _ rt demo_tree_ok E) as (es & _ & _ & _ & _ & He & _ & _ & _ & _ & H & _).
    exists es. split; [exact He|exact H].
  - vm_compute in E. injection E as <-. reflexivity.
Defined.

Lemma publish_serves_exactly_witness :
  exists rt, demo_load = Ok rt /\
    ((exists b, "css/app.css"%string <> RECEIPT_FILE /\ file_at demo_tree "css/app.css" b /\
       replay_request (fun _ => EmptyString) rt "/css/app.css" None = replay_response 200 (content_type "css/app.css") b false true) \/
     ((forall b, "css/app.css"%string <> RECEIPT_FILE -> ~ file_at demo_tree "css/app.css" b) /\
       replay_request (fun _ => EmptyString) rt "/css/app.css" None
       = replay_response 404 "text/plain; charset=utf-8" (text_bytes "not found") false false)) /\
    replay_request (fun _ => EmptyString) rt "/css/../app.js" None
    = replay_response 404 "text/plain; charset=utf-8" (text_bytes "not found") false false.
Proof.
  destruct demo_load as [rt|] eqn:E; [|vm_compute in E; discriminate]. exists rt. split; [reflexivity|]. split.
  - apply (publish_serves_exactly demo_sha _ _ (fun _ => EmptyString) demo_tree _ _ rt "css/app.css" None demo_tree_ok E).
    vm_compute. intros H. repeat destruct H as [H|H]; discriminate H || exact H.
  - vm_compute in E. injection E as <-. vm_compute. reflexivity.
Defined.
