(* ===== verification/World.v ===== *)
(** * The meaning of the connection's commands

    [interp] runs one command on the server's state: the database, the shared
    counters, this connection's event queue and its socket.  [run_alone] runs a whole
    handler with no other task in between; a run under interference executes each
    command in whatever state the others left ([possible]). *)

From Stdlib Require Import ZArith Lia List String Ascii Bool.
From stdpp Require Import base list strings gmap.
From S2P Require Import Prelude Sql Model Store Auth Accounts Vaults Sharing Revisions Replay Io Text Config.
From S2P Require Import Reservations Limits Json Protocol.

Local Open Scope Z_scope.

Record world := {
  w_now : Z;
  w_db : db;
  w_reserved : Storage.state;
  w_users : gmap Z Concurrency.entry;
  w_uploads : Z;
  w_topic : option string;
  w_queue : list Event;
  w_stop : bool;
  w_sent : list frame;
}.

Definition with_db (w : world) (d : db) : world := {|
  w_now := w_now w; w_db := d; w_reserved := w_reserved w; w_users := w_users w; w_uploads := w_uploads w;
  w_topic := w_topic w; w_queue := w_queue w; w_stop := w_stop w; w_sent := w_sent w |}.
Definition with_reserved (w : world) (x : Storage.state) : world := {|
  w_now := w_now w; w_db := w_db w; w_reserved := x; w_users := w_users w; w_uploads := w_uploads w;
  w_topic := w_topic w; w_queue := w_queue w; w_stop := w_stop w; w_sent := w_sent w |}.
Definition with_user_table (w : world) (x : gmap Z Concurrency.entry) : world := {|
  w_now := w_now w; w_db := w_db w; w_reserved := w_reserved w; w_users := x; w_uploads := w_uploads w;
  w_topic := w_topic w; w_queue := w_queue w; w_stop := w_stop w; w_sent := w_sent w |}.
Definition with_uploads (w : world) (x : Z) : world := {|
  w_now := w_now w; w_db := w_db w; w_reserved := w_reserved w; w_users := w_users w; w_uploads := x;
  w_topic := w_topic w; w_queue := w_queue w; w_stop := w_stop w; w_sent := w_sent w |}.
Definition with_events (w : world) (t : option string) (q : list Event) : world := {|
  w_now := w_now w; w_db := w_db w; w_reserved := w_reserved w; w_users := w_users w; w_uploads := w_uploads w;
  w_topic := t; w_queue := q; w_stop := w_stop w; w_sent := w_sent w |}.
Definition with_sent (w : world) (f : frame) : world := {|
  w_now := w_now w; w_db := w_db w; w_reserved := w_reserved w; w_users := w_users w; w_uploads := w_uploads w;
  w_topic := w_topic w; w_queue := w_queue w; w_stop := w_stop w; w_sent := w_sent w ++ [f] |}.

(** A database operation as a task: its value, and its database when it commits. *)
Definition commit {A} (w : world) (r : result (A * db)) : result A * world :=
  match r with Ok (a, d) => (Ok a, with_db w d) | Err e => (Err e, w) end.

(** The lookup of [init], in one task. *)
Definition lookup (now : Z) (validation_hash : option string) (id : string) (d : db) : InitLookup :=
  match match validation_hash with Some hash => auth_context_hash now hash d | None => None end with
  | None => {| il_auth := None; il_vault := None; il_owner := None; il_retired := false |}
  | Some ctx =>
      {| il_auth := Some ctx; il_vault := find_authorized_vault (ac_user_id ctx) id d;
         il_owner := vault_owner_user_id id d; il_retired := is_retired_vault_for_user (ac_user_id ctx) id d |}
  end.

Section Interp.
Context (notice_len : PushNotice -> Z).

(** The runtime answers of a server that is not overloaded: every pool grants a permit
    and every write succeeds.  Alone, a connection only waits for its own event. *)
Definition interp (X : Type) (c : cmd X) (w : world) : X * world :=
  let d := w_db w in
  let now := w_now w in
  match c in cmd X return X * world with
  | SessionActive hash vault => (valid_session_for_vault now hash vault d, w)
  | RenewSession hash vault ttl =>
      let (r, d) := renew_session_for_vault now hash vault ttl d in (Ok r, with_db w d)
  | Lookup hash id => (Ok (lookup now hash id d), w)
  | CurrentVersion vault => (Ok (current_version vault d), w)
  | ReplayPage initial vault cursor ready =>
      (Ok (if initial then initial_snapshot_page vault cursor ready REPLAY_PAGE_SIZE d
           else list_changes_page vault cursor ready REPLAY_PAGE_SIZE d), w)
  | AddEmpty r hash q oq => commit w (add_empty_revision_for_session now r hash q oq d)
  | AddFile r hash file q oq => commit w (add_file_revision_for_session now r hash file q oq d)
  | StoredSizes owner => (Ok (stored_ciphertext_size d, owner_stored_ciphertext_size d owner), w)
  | SizeReport vault =>
      (match stored_ciphertext_size_for_vault_owner vault d with
       | None => Err (Bail "authorized vault has no owner")
       | Some n => Ok (n, vault_size d vault, stored_ciphertext_size d)
       end, w)
  | Usernames vault => (Ok (usernames_for_vault vault d), w)
  | GetPullInfo uid => (Ok (pull_info uid d), w)
  | ContentChunk uid off len => (content_chunk uid off len d, w)
  | History vault path last n => (Ok (Revisions.history vault path last n d), w)
  | DeletedPage vault suppress after_ => (Ok (list_deleted_page vault suppress after_ DELETED_PAGE_SIZE d), w)
  | Restore user hash vault uid device limits =>
      commit w (restore_for_session notice_len now user hash vault uid device limits d)
  | Purge user hash vault => commit w (purge_for_session now user hash vault d)
  | LockCommits | UnlockCommits | DropBulk | DropPull | DropLarge | ReleaseSource => (tt, w)
  | Publish e =>
      (tt, match w_topic w with
           | Some t => if String.eqb t (e_vault e) then with_events w (w_topic w) (w_queue w ++ [e]) else w
           | None => w
           end)
  | Subscribe vault => (tt, with_events w (Some vault) [])
  | Recv => match w_queue w with
            | [] => (ChannelClosed, w)
            | e :: q => (Received e, with_events w (w_topic w) q)
            end
  | TryReserve cg co o n gl ol =>
      match Storage.try_reserve cg co o n gl ol (w_reserved w) with
      | Some (r, st) => (Some r, with_reserved w st)
      | None => (None, w)
      end
  | ReleaseReservation r => (tt, with_reserved w (Storage.release r (w_reserved w)))
  | Reserved owner => ((Storage.reserved (w_reserved w), Storage.reserved_for_owner owner (w_reserved w)), w)
  | AcquireUser user k limit =>
      let (b, m) := Concurrency.try_acquire user k limit (w_users w) in (b, with_user_table w m)
  | ReleaseUser user k => (tt, with_user_table w (Concurrency.release user k (w_users w)))
  | TryUploadPermit => if 0 <? w_uploads w then (true, with_uploads w (w_uploads w - 1)) else (false, w)
  | DropUploadPermit => (tt, with_uploads w (w_uploads w + 1))
  | RegisterLive _ _ _ _ _ => (true, w)
  | ShuttingDown => (w_stop w, w)
  | AcquireBulk | AcquirePull | AcquireLarge => (if w_stop w then Stopping else Granted, w)
  | CreateStaged | WriteStaged _ | SyncStaged | RemoveStaged => (Ok tt, w)
  | Send f => (true, with_sent w f)
  end.

Fixpoint run_alone {A} (p : io cmd A) (w : world) : list (event cmd) * A * world :=
  match p with
  | Ret a => ([], a, w)
  | Vis c k =>
      let (x, w) := interp _ c w in
      let '(tr, a, w) := run_alone (k x) w in
      (Ev c x :: tr, a, w)
  end.

(** What a command may answer when [good] holds of every state of the server: its
    value in some such state, a failed task, or any answer of the runtime. *)
Definition possible (good : world -> Prop) (X : Type) (c : cmd X) (x : X) : Prop :=
  (exists w, good w /\ fst (interp X c w) = x)
  \/ match c in cmd X return X -> Prop with
     | SessionActive _ _ => fun x => x = false
     | RenewSession _ _ _ => fun x => exists e, x = Err e
     | Lookup _ _ => fun x => exists e, x = Err e
     | CurrentVersion _ => fun x => exists e, x = Err e
     | ReplayPage _ _ _ _ => fun x => exists e, x = Err e
     | AddEmpty _ _ _ _ => fun x => exists e, x = Err e
     | AddFile _ _ _ _ _ => fun x => exists e, x = Err e
     | StoredSizes _ => fun x => exists e, x = Err e
     | SizeReport _ => fun x => exists e, x = Err e
     | Usernames _ => fun x => exists e, x = Err e
     | GetPullInfo _ => fun x => exists e, x = Err e
     | ContentChunk _ _ _ => fun x => exists e, x = Err e
     | History _ _ _ _ => fun x => exists e, x = Err e
     | DeletedPage _ _ _ => fun x => exists e, x = Err e
     | Restore _ _ _ _ _ _ => fun x => exists e, x = Err e
     | Purge _ _ _ => fun x => exists e, x = Err e
     | Recv | RegisterLive _ _ _ _ _ | ShuttingDown | AcquireBulk | AcquirePull | AcquireLarge
     | CreateStaged | WriteStaged _ | SyncStaged | RemoveStaged | Send _ => fun _ => True
     | _ => fun _ => False
     end x.

Lemma run_alone_runs {A} (ans : forall X, cmd X -> X -> Prop) (inv : world -> Prop) (p : io cmd A) w tr a w' :
  (forall X (c : cmd X) w, inv w -> ans X c (fst (interp X c w)) /\ inv (snd (interp X c w))) ->
  inv w -> run_alone p w = (tr, a, w') -> runs ans p tr a.
Proof.
  intros Hans. revert w tr. induction p as [b|X c k IH]; intros w tr Hw H; cbn in H.
  - injection H as <- <- <-. constructor.
  - destruct (Hans X c w Hw) as [Hx Hw1]. destruct (interp X c w) as [x w1].
    destruct (run_alone (k x) w1) as [[tr1 b] w2] eqn:E. injection H as <- <- <-. econstructor; [exact Hx|].
    by eapply IH.
Qed.

(** No command stops the server. *)
Lemma interp_stop X (c : cmd X) w : w_stop (snd (interp X c w)) = w_stop w.
Proof.
  destruct c; cbn; try done; try (unfold commit; by repeat case_match); try (by repeat case_match).
Qed.
End Interp.
