(* ===== verification/ProtocolSpec.v ===== *)
(** * What a connection may do ([server.rs])

    Properties of every run of the WebSocket handlers under any interference of the
    other tasks: a command may return any answer. *)

From Stdlib Require Import ZArith Lia List String Ascii Bool.
From stdpp Require Import base list strings pretty gmap.
From S2P Require Import Prelude Sql Model Store Auth Accounts Vaults Revisions Invariant Machine Scenario Io Text.
From S2P Require Import Config Reservations Limits Json Protocol World.

Local Open Scope Z_scope.

(** Any answer at all. *)
Definition any_answer (X : Type) (c : cmd X) (x : X) : Prop := True.

Section Combinators.
Context (answers : forall X, cmd X -> X -> Prop).
Context {St : Type} (allowed : forall X, St -> cmd X -> Prop) (next : forall X, St -> cmd X -> X -> St).
Notation mwp := (mwp answers allowed next).

Lemma mwp_on_error {A} cleanup (m : handler A) Q st s :
  mwp m (fun st s r => match r with Ok a => Q st s (Ok a) | Err e => mwp cleanup (fun st s _ => Q st s (Err e)) st s end) st s ->
  mwp (on_error cleanup m) Q st s.
Proof.
  intros H. unfold Io.mwp, on_error. apply wp_bind. eapply wp_mono; [|exact H]. intros st' [s' [a|e]]; cbn; [done|].
  intros H'. apply wp_bind. eapply wp_mono; [|exact H']. done.
Qed.
Lemma mwp_attempt {A} (m : handler A) Q st s :
  mwp m (fun st s r => Q st s (Ok r)) st s -> mwp (attempt m) Q st s.
Proof. intros H. unfold Io.mwp, attempt. apply wp_bind. eapply wp_mono; [|exact H]. done. Qed.
Lemma mwp_finally {A} cleanup (m : handler A) Q st s :
  mwp m (fun st s r => mwp cleanup (fun st s _ => Q st s r) st s) st s -> mwp (finally cleanup m) Q st s.
Proof.
  intros H. unfold Io.mwp, finally. apply wp_bind. eapply wp_mono; [|exact H]. intros st' [s' r] H'.
  apply wp_bind. eapply wp_mono; [|exact H']. done.
Qed.
End Combinators.

Ltac split_bool x := try match type of x with bool => destruct x end.

(** Symbolic execution of a handler; [prim] solves the obligation of a command. *)
Ltac wstep prim :=
  cbn beta iota zeta delta [fst snd ok_or negb] in *;
  lazymatch goal with
  | |- mwp _ _ _ (bind _ _) _ _ _ => apply mwp_bind
  | |- mwp _ _ _ (ret _) _ _ _ => apply mwp_ret
  | |- mwp _ _ _ (fail _) _ _ _ => apply mwp_fail
  | |- mwp _ _ _ (lift _) _ _ _ => apply mwp_lift
  | |- mwp _ _ _ get _ _ _ => apply mwp_get
  | |- mwp _ _ _ (put _) _ _ _ => apply mwp_put
  | |- mwp _ _ _ (task _) _ _ _ => apply mwp_task; [prim|intros ? _]
  | |- mwp _ _ _ (perform _) _ _ _ => apply mwp_perform; [prim|let x := fresh "x" in intros x _; split_bool x]
  | |- mwp _ _ _ (on_error _ _) _ _ _ => apply mwp_on_error
  | |- mwp _ _ _ (attempt _) _ _ _ => apply mwp_attempt
  | |- mwp _ _ _ (finally _ _) _ _ _ => apply mwp_finally
  | |- mwp _ _ _ (locked _) _ _ _ => unfold locked
  | |- mwp _ _ _ (context _ _) _ _ _ => unfold context
  | |- mwp _ _ _ (unwrap _) _ _ _ => unfold unwrap
  | |- mwp _ _ _ (socket_send _) _ _ _ => unfold socket_send
  | |- mwp _ _ _ (send _ _) _ _ _ => unfold send
  | |- mwp _ _ _ (send_with_limit _ _ _) _ _ _ => unfold send_with_limit
  | |- mwp _ _ _ (close _ _) _ _ _ => unfold close
  | |- mwp _ _ _ (reject_storage_quota _) _ _ _ => unfold reject_storage_quota
  | |- mwp _ _ _ close_storage_quota _ _ _ => unfold close_storage_quota
  | |- mwp _ _ _ (not_found _) _ _ _ => unfold not_found
  | |- mwp _ _ _ (vault_not_found _) _ _ _ => unfold vault_not_found
  | |- mwp _ _ _ (unable_to_authenticate _) _ _ _ => unfold unable_to_authenticate
  | |- mwp _ _ _ (last_words _ _) _ _ _ => unfold last_words
  | |- mwp _ _ _ (check_session _ _) _ _ _ => unfold check_session
  | |- mwp _ _ _ (when _ _) _ _ _ => unfold when
  | |- mwp _ _ _ (match ?x with _ => _ end) _ _ _ => destruct x eqn:?
  | |- match ?x with _ => _ end => destruct x eqn:?
  end.

(** ** Frames that carry vault data *)

(** The fields of replies that tell a client nothing of a vault's content. *)
Definition control_keys : list string :=
  ["res"; "msg"; "code"; "err"; "conditional_push_v1"; "userId"; "perFileMax"; "uid"]%string.
Definition is_pong (v : json) : bool := match v with JObj [("op"%string, JStr "pong")] => true | _ => false end.
Definition is_data (f : frame) : bool :=
  match f with
  | Text (JObj l) => negb (is_pong (JObj l)) && negb (forallb (fun p => existsb (String.eqb (fst p)) control_keys) l)
  | Text _ => true
  | EventText _ | Binary _ => true
  | Pong _ | CloseFrame _ _ => false
  end.

(** ** Confinement to the session's vault *)
Record watch := { checked : bool; cleared : option Z }.

Create HintDb stays discriminated.

Section Confined.
(** The token hash, the vault and the user of the session. *)
Context (h v : string) (u : Z).

Definition own_revision (r : NewRevision) (hash : string) : Prop := n_vault_id r = v /\ n_user_id r = u /\ hash = h.

(** Commands name the session's own vault, token and user; content is read only of a
    revision the server looked up and found in the vault; data leaves only when the
    last thing the connection did was to find its session valid. *)
Definition confined (X : Type) (st : watch) (c : cmd X) : Prop :=
  match c with
  | SessionActive hash vault | RenewSession hash vault _ => hash = h /\ vault = v
  | CurrentVersion vault | ReplayPage _ vault _ _ | SizeReport vault | Usernames vault
  | History vault _ _ _ | DeletedPage vault _ _ | Subscribe vault => vault = v
  | AddEmpty r hash _ _ | AddFile r hash _ _ _ => own_revision r hash
  | Restore user hash vault _ _ _ | Purge user hash vault => user = u /\ hash = h /\ vault = v
  | ContentChunk uid _ _ => cleared st = Some uid
  | Send f => is_data f = true -> checked st = true
  | Lookup _ _ => False
  | _ => True
  end.
Definition watch_next (X : Type) (st : watch) (c : cmd X) : X -> watch :=
  match c in cmd X return X -> watch with
  | SessionActive _ _ => fun x => {| checked := x; cleared := cleared st |}
  | ShuttingDown | AcquireBulk | AcquirePull => fun _ => st
  | GetPullInfo uid => fun x =>
      {| checked := false;
         cleared := match x with
                    | Ok (Some info) => if String.eqb (pi_vault_id info) v then Some uid else None
                    | _ => None
                    end |}
  | _ => fun _ => {| checked := false; cleared := cleared st |}
  end.

Definition pending_own (p : Pending) : Prop := own_revision (p_revision p) h.
Record session_is (s : Session) : Prop := {
  si_auth : ss_authenticated s = true;
  si_hash : ss_token_hash s = Some h;
  si_vault : ss_vault s = Some v;
  si_user : ss_user_id s = Some u;
  si_pending : forall p, ss_pending s = Some p -> pending_own p;
}.

Notation cwp := (mwp any_answer confined watch_next).
Context (token_hash : string -> string) (notice_len : PushNotice -> Z) (json_len : json -> Z).
Context (config : Config) (fuel : nat).

(** A handler that keeps the identity of the session, whatever the monitor's state. *)
Definition stays {A} (m : handler A) : Prop :=
  forall st s, session_is s -> cwp m (fun _ s' _ => session_is s') st s.

Lemma session_is_set_pending s p :
  session_is s -> (forall q, p = Some q -> pending_own q) -> session_is (set_pending p s).
Proof. intros [] H. constructor; done. Qed.

Lemma active_spec st s (Q : watch -> Session -> result bool -> Prop) :
  session_is s -> (forall b, Q {| checked := b; cleared := cleared st |} s (Ok b)) -> cwp session_active Q st s.
Proof.
  intros Hs HQ. unfold session_active. apply mwp_bind, mwp_get. rewrite (si_hash s Hs), (si_vault s Hs).
  apply mwp_perform; [done|]. intros b _. apply HQ.
Qed.

Lemma renew_spec st s (Q : watch -> Session -> result bool -> Prop) :
  session_is s -> (forall b, Q {| checked := false; cleared := cleared st |} s (Ok b)) ->
  cwp (renew_active_session config) Q st s.
Proof.
  intros Hs HQ. unfold renew_active_session. apply mwp_bind, mwp_get. rewrite (si_hash s Hs), (si_vault s Hs).
  apply mwp_bind, mwp_perform; [done|]. intros b _. apply mwp_ret, HQ.
Qed.

Lemma stays_use {A} (m : handler A) (Q : watch -> Session -> result A -> Prop) st s :
  stays m -> session_is s -> (forall st' s' r, session_is s' -> Q st' s' r) -> cwp m Q st s.
Proof. intros Hm Hs HQ. eapply mwp_mono; [|by apply Hm]. auto. Qed.

Ltac prim := try solve [done | cbn; intros; discriminate | cbn; intros; congruence].
(** Run a handler of a session [Hs : session_is s], splitting every branch. *)
Ltac wgo :=
  repeat first
    [ match goal with
      | Hs : session_is ?s |- context [ss_token_hash ?s] => rewrite (si_hash s Hs)
      | Hs : session_is ?s |- context [ss_vault ?s] => rewrite (si_vault s Hs)
      | Hs : session_is ?s |- context [ss_user_id ?s] => rewrite (si_user s Hs)
      | Hs : session_is ?s |- context [ss_authenticated ?s] => rewrite (si_auth s Hs)
      | Hs : session_is ?s |- mwp _ _ _ session_active _ _ ?s => apply active_spec; [exact Hs|intros []]
      | Hs : session_is ?s |- mwp _ _ _ (renew_active_session _) _ _ ?s => apply renew_spec; [exact Hs|intros []]
      end
    | match goal with
      | Hs : session_is ?s |- mwp _ _ _ _ _ _ ?s =>
          eapply stays_use; [solve [auto with stays nocore]|exact Hs|intros ? ? ? ?]
      end
    | wstep prim
    | progress cbn [negb ok_or] ]; try done.

Lemma publish_stays r : stays (publish_committed notice_len r).
Proof. intros st s Hs. unfold publish_committed. wgo. Qed.
Hint Resolve publish_stays : stays.

Lemma await_stays n e : stays (await_own_event n e).
Proof. induction n as [|n IH]; intros st s Hs; cbn [await_own_event]; wgo. Qed.
Hint Resolve await_stays : stays.

Lemma acknowledge_stays e b : stays (acknowledge_commit json_len fuel e b).
Proof. intros st s Hs. unfold acknowledge_commit. wgo. Qed.
Hint Resolve acknowledge_stays : stays.

Lemma settle_stays r : stays (settle_commit notice_len r).
Proof. intros st s Hs. unfold settle_commit. wgo. Qed.
Hint Resolve settle_stays : stays.

Lemma send_page_stays page cursor : stays (send_page json_len page cursor).
Proof. revert cursor. induction page as [|r page IH]; intros cursor st s Hs; cbn [send_page]; wgo. Qed.
Hint Resolve send_page_stays : stays.

Lemma replay_pages_stays n initial cursor ready : stays (replay_pages json_len n initial v cursor ready).
Proof. revert cursor. induction n as [|n IH]; intros cursor st s Hs; cbn [replay_pages]; wgo. Qed.
Hint Resolve replay_pages_stays : stays.

Lemma replay_and_ready_stays initial version ready : stays (replay_and_ready json_len initial v version ready).
Proof. intros st s Hs. unfold replay_and_ready. wgo. Qed.
Hint Resolve replay_and_ready_stays : stays.

Lemma subscribe_and_replay_stays ctx version initial : stays (subscribe_and_replay json_len config ctx v version initial).
Proof. intros st s Hs. unfold subscribe_and_replay. wgo. Qed.

Lemma release_upload_stays user : stays (release_upload user).
Proof. intros st s Hs. unfold release_upload. wgo. Qed.
Hint Resolve release_upload_stays : stays.

Lemma push_empty_stays r : own_revision r h -> stays (push_empty notice_len json_len config fuel r).
Proof. intros Hr st s Hs. unfold push_empty. wgo. Qed.

Lemma push_file_stays r : own_revision r h -> stays (push_file json_len config r).
Proof.
  intros Hr st s Hs. unfold push_file. wgo.
  all: apply session_is_set_pending; [done|]; intros q [= <-]; done.
Qed.

Lemma begin_push_stays j : stays (begin_push notice_len json_len config fuel j).
Proof.
  intros st s Hs. unfold begin_push. wgo.
  - eapply stays_use; [apply push_empty_stays; done|done|done].
  - eapply stays_use; [apply push_file_stays; done|done|done].
Qed.
Hint Resolve begin_push_stays : stays.

Lemma finish_upload_stays p : pending_own p -> stays (finish_upload notice_len json_len config fuel p).
Proof.
  intros Hp st s Hs. unfold finish_upload.
  assert (session_is (set_pending None s)) as Hs' by (apply session_is_set_pending; done). wgo.
Qed.

Lemma upload_chunk_stays bytes : stays (upload_chunk notice_len json_len config fuel bytes).
Proof.
  intros st s Hs. unfold upload_chunk. wstep prim. wstep prim. destruct (ss_pending s) as [p|] eqn:Ep; [|wgo].
  pose proof (si_pending s Hs p Ep) as Hp.
  assert (forall q, p_revision q = p_revision p -> session_is (set_pending (Some q) s)) as Hset.
  { intros q Hq. apply session_is_set_pending; [done|]. intros q' [= <-]. unfold pending_own. by rewrite Hq. }
  pose proof (Hset (accept_piece p bytes) eq_refl) as Hs1.
  pose proof (Hset (append_piece (accept_piece p bytes) bytes) eq_refl) as Hs2. wgo.
  eapply stays_use; [by apply finish_upload_stays|done|done].
Qed.
Hint Resolve upload_chunk_stays : stays.

Lemma discard_stays : stays discard_pending_upload.
Proof.
  intros st s Hs. unfold discard_pending_upload.
  assert (session_is (set_pending None s)) as Hs' by (apply session_is_set_pending; done). wgo.
Qed.
Hint Resolve discard_stays : stays.

(** The revision being streamed stays cleared. *)
Lemma send_piece_stays uid offset_ len st s :
  session_is s -> cleared st = Some uid ->
  cwp (send_piece config uid offset_ len) (fun st' s' _ => session_is s' /\ cleared st' = Some uid) st s.
Proof. intros Hs Hc. unfold send_piece. wgo. Qed.
Lemma send_frames_stays n uid size offset_ st s :
  session_is s -> cleared st = Some uid ->
  cwp (send_frames config n uid size offset_) (fun _ s' _ => session_is s') st s.
Proof.
  revert offset_ st s. induction n as [|n IH]; intros offset_ st s Hs Hc; cbn [send_frames]; wgo.
  eapply mwp_mono; [|by apply send_piece_stays]. intros st' s' [b|e] [Hs' Hc']; [|done]. wgo. by apply IH.
Qed.

Lemma pull_stays j : stays (pull json_len config j).
Proof.
  intros st s Hs. unfold pull. wgo. apply send_frames_stays; [done|]. cbn.
  apply negb_false_iff, bool_decide_eq_true in Heqb. injection Heqb as ->. by rewrite String.eqb_refl.
Qed.
Hint Resolve pull_stays : stays.

Lemma large_stays m : stays m -> stays (with_large_response m).
Proof. intros Hm st s Hs. unfold with_large_response. wgo. Qed.

Lemma history_stays j : stays (history json_len j).
Proof. apply large_stays. intros st s Hs. wgo. Qed.
Hint Resolve history_stays : stays.

Lemma deleted_pages_stays n suppress after_ len items : stays (deleted_pages json_len n v suppress after_ len items).
Proof.
  revert after_ len items. induction n as [|n IH]; intros after_ len items st s Hs; cbn [deleted_pages]; wgo.
Qed.
Hint Resolve deleted_pages_stays : stays.

Lemma deleted_stays j : stays (deleted json_len fuel j).
Proof. apply large_stays. intros st s Hs. wgo. Qed.
Hint Resolve deleted_stays : stays.

Lemma restore_stays j : stays (restore notice_len json_len config fuel j).
Proof. intros st s Hs. unfold restore. wgo. Qed.
Hint Resolve restore_stays : stays.

Lemma size_stays : stays (size_report json_len config).
Proof. intros st s Hs. unfold size_report. wgo. Qed.
Lemma usernames_stays : stays (usernames json_len).
Proof. intros st s Hs. unfold usernames. wgo. Qed.
Lemma purge_stays : stays (purge json_len).
Proof. intros st s Hs. unfold purge. wgo. Qed.
Hint Resolve size_stays usernames_stays purge_stays : stays.

Lemma dispatch_stays op j : stays (dispatch notice_len json_len config fuel op j).
Proof. intros st s Hs. unfold dispatch. wgo. Qed.
Hint Resolve dispatch_stays : stays.

Lemma handle_message_stays m : stays (handle_message token_hash notice_len json_len config fuel m).
Proof. intros st s Hs. unfold handle_message. wgo. Qed.
Hint Resolve handle_message_stays : stays.

Lemma deliver_stays b m : stays (deliver token_hash notice_len json_len config fuel b m).
Proof. intros st s Hs. unfold deliver. wgo. Qed.
Hint Resolve deliver_stays : stays.

Lemma turn_stays w : stays (turn token_hash notice_len json_len config fuel w).
Proof. intros st s Hs. unfold turn. wgo. Qed.
Hint Resolve turn_stays : stays.

Lemma socket_loop_stays ws : stays (socket_loop token_hash notice_len json_len config fuel ws).
Proof. induction ws as [|w ws IH]; intros st s Hs; cbn [socket_loop]; wgo. Qed.
End Confined.

(** ** From the first message

    Before it is admitted, a connection may only look a session up; [Closed] remembers
    the identity of the last lookup that found a session and a vault it may use.  The
    connection permit of that identity's user opens it. *)
Definition identity : Type := string * string * Z.
Inductive gate :=
| Closed (candidate : option identity)
| Opened (i : identity) (w : watch).

Definition candidate_of (found : result InitLookup) : option identity :=
  match found with
  | Ok found =>
      match il_auth found, il_vault found with
      | Some ctx, Some (vault, _) => Some (ac_token_hash ctx, v_id vault, ac_user_id ctx)
      | _, _ => None
      end
  | Err _ => None
  end.

Definition gate_allows (X : Type) (g : gate) (c : cmd X) : Prop :=
  match g with
  | Opened (h, v, u) w => confined h v u X w c
  | Closed candidate =>
      match c with
      | Lookup _ _ | ShuttingDown | ReleaseSource => True
      | RenewSession hash vault _ => exists u, candidate = Some (hash, vault, u)
      | AcquireUser user Concurrency.Connection _ => exists h v, candidate = Some (h, v, user)
      | Send f => is_data f = false
      | _ => False
      end
  end.
Definition gate_next (X : Type) (g : gate) (c : cmd X) : X -> gate :=
  match g with
  | Opened (h, v, u) w => fun x => Opened (h, v, u) (watch_next v X w c x)
  | Closed candidate =>
      match c in cmd X return X -> gate with
      | Lookup _ _ => fun found => Closed (candidate_of found)
      | AcquireUser _ _ _ => fun granted =>
          match granted, candidate with
          | true, Some i => Opened i {| checked := false; cleared := None |}
          | _, _ => Closed candidate
          end
      | _ => fun _ => Closed candidate
      end
  end.

Definition quiet (s : Session) : Prop := ss_authenticated s = false /\ ss_pending s = None /\ ss_live s = false.
(** The session agrees with the gate. *)
Definition gated (g : gate) (s : Session) : Prop :=
  match g with
  | Closed _ => quiet s
  | Opened (h, v, u) _ => session_is h v u s
  end.

Section Gate.
Context (answers : forall X, cmd X -> X -> Prop).
Context (token_hash : string -> string) (notice_len : PushNotice -> Z) (json_len : json -> Z).
Context (config : Config) (fuel : nat).
Notation gwp := (mwp answers gate_allows gate_next).

(** An admitted connection is confined. *)
Lemma opened_stays {A} h v u w (m : handler A) s (Q : gate -> Session -> result A -> Prop) :
  stays h v u m -> session_is h v u s ->
  (forall w s r, session_is h v u s -> Q (Opened (h, v, u) w) s r) -> gwp m Q (Opened (h, v, u) w) s.
Proof.
  intros Hm Hs HQ. unfold mwp.
  eapply wp_mono; [|eapply (wp_sim any_answer answers (confined h v u) (watch_next v) gate_allows gate_next
                              (fun w g => g = Opened (h, v, u) w)); [done| |exact (Hm w s Hs)|reflexivity]].
  - intros g [s' r] (w' & -> & Hs'). apply HQ. exact Hs'.
  - intros X c w1 g -> Ha. split; [exact Ha|]. done.
Qed.

Ltac prim := try solve [done | eexists; reflexivity | eexists _, _; reflexivity | reflexivity].
Ltac ggo := repeat first [wstep prim | progress cbn [negb] ]; try done.

Definition keeps {A} (m : handler A) : Prop :=
  forall c s, quiet s -> gwp m (fun g s _ => gated g s) (Closed c) s.

Lemma init_accepted_keeps ctx vault owner j s :
  quiet s ->
  gwp (init_accepted json_len config ctx vault owner j) (fun g s _ => gated g s)
    (Closed (Some (ac_token_hash ctx, v_id vault, ac_user_id ctx))) s.
Proof.
  intros Hs. unfold init_accepted.
  assert (forall b, session_is (ac_token_hash ctx) (v_id vault) (ac_user_id ctx)
                      (set_live b (authenticated_session ctx vault owner j s))) as Hs'.
  { intros b. constructor; try done. cbn. destruct Hs as (_ & -> & _). done. }
  ggo. all: eapply opened_stays; [apply subscribe_and_replay_stays|apply Hs'|done].
Qed.

Lemma init_keeps j : keeps (init token_hash json_len config j).
Proof.
  intros c s Hs. unfold init. ggo. cbn [gate_next candidate_of]. rewrite Heqo, Heqo0. by apply init_accepted_keeps.
Qed.

Lemma handle_message_keeps m : keeps (handle_message token_hash notice_len json_len config fuel m).
Proof.
  intros c s Hs. unfold handle_message. apply mwp_bind, mwp_get. rewrite (proj1 Hs). cbn [negb].
  ggo. by apply init_keeps.
Qed.

(** A handler that respects the gate from every session that agrees with it. *)
Lemma gated_use {A} (m : handler A) (Q : gate -> Session -> result A -> Prop) g s :
  keeps m -> (forall h v u, stays h v u m) -> gated g s ->
  (forall g s r, gated g s -> Q g s r) -> gwp m Q g s.
Proof.
  intros Hk Hst Hg HQ. destruct g as [c|[[h v] u] w].
  - eapply mwp_mono; [|by apply Hk]. auto.
  - eapply opened_stays; [apply Hst|exact Hg|]. intros w' s' r Hs'. by apply HQ.
Qed.

Lemma discard_keeps : keeps discard_pending_upload.
Proof. intros c s Hs. unfold discard_pending_upload. apply mwp_bind, mwp_get. rewrite (proj1 (proj2 Hs)). done. Qed.

Lemma deliver_keeps m : keeps (deliver token_hash notice_len json_len config fuel false m).
Proof.
  intros c s Hs. apply mwp_bind, mwp_attempt. eapply gated_use;
    [apply handle_message_keeps|intros; apply handle_message_stays|exact Hs|].
  intros [c'|[[h v] u] w'] s' r Hg; ggo; destruct Hg; congruence.
Qed.

Lemma turn_keeps w c s :
  quiet s -> enabled s w = true ->
  gwp (turn token_hash notice_len json_len config fuel w) (fun g s _ => gated g s) (Closed c) s.
Proof.
  intros Hs He. pose proof Hs as (Ha & Hp & Hl).
  destruct w as [| | | | | |[m|]|r]; cbn in He; rewrite ?Ha, ?Hp, ?Hl in He; try discriminate He;
    unfold turn; cbn beta iota; apply mwp_bind, mwp_get; [ggo|ggo| |done].
  rewrite Ha. destruct m; try done; apply mwp_bind, mwp_ret; cbn [negb]; by apply deliver_keeps.
Qed.

Lemma socket_loop_gated ws g s :
  gated g s -> gwp (socket_loop token_hash notice_len json_len config fuel ws) (fun g s _ => gated g s) g s.
Proof.
  revert g s. induction ws as [|w ws IH]; intros g s Hg; [done|].
  destruct g as [c|[[h v] u] wt]; [|eapply opened_stays; [apply socket_loop_stays|exact Hg|done]].
  cbn [socket_loop]. apply mwp_bind, mwp_get. destruct (enabled s w) eqn:He; cbn [negb]; [|by apply IH].
  apply mwp_bind. eapply mwp_mono; [|by apply turn_keeps]. intros g' s' [[]|e] Hg'; cbn beta iota; [by apply IH| |done].
  eapply gated_use; [apply discard_keeps|intros; apply discard_stays|done|done].
Qed.
End Gate.


(** ** A connection that signs in, replays, downloads and uploads *)
Definition demo_config : Config := {|
  bind_host := V4 LOCALHOST; control_port := 3000; data_port := 3003; public_data_host := "127.0.0.1:3003";
  database_path := "server.sqlite"; staging_dir := "server.uploads"; per_file_max := 1000;
  storage_quota_bytes := 100000; storage_quota_bytes_per_owner := 50000; session_ttl := 3600;
  websocket_idle_timeout := 90; upload_idle_timeout := 300; allowed_origins := ["app://obsidian.md"%string];
  max_concurrent_uploads := 2; max_concurrent_uploads_per_user := 2; max_ws_connections := 16;
  max_ws_connections_per_user := 4; trusted_proxy := None; admin := None; json_logs := true;
  sharing_enabled := true; sharing_canary_owner_ids := []; share_invites_per_source := 60;
  share_invites_per_user := 30; share_invite_targets_per_user := 20; share_invites_global := 300 |}.
Definition demo_world : world := {|
  w_now := 2000; w_db := demo_db; w_reserved := Storage.empty_state; w_users := ∅; w_uploads := 2;
  w_topic := None; w_queue := []; w_stop := false; w_sent := [] |}.
Definition demo_json_len (_ : json) : Z := 100.

Definition text (fields : list (string * json)) : wakeup := Incoming (Some (MText 300 (Some (JObj fields)))).
Definition demo_init (token : string) : wakeup :=
  text [("op", JStr "init"); ("token", JStr token); ("id", JStr "vault-1"); ("keyhash", JStr "key");
        ("encryption_version", JInt 3); ("version", JInt 2); ("device", JStr "phone")]%string.
Definition demo_push (path : string) (size : Z) : wakeup :=
  text [("op", JStr "push"); ("path", JStr path); ("extension", JStr "md"); ("hash", JStr "h"); ("ctime", JInt 1);
        ("mtime", JInt 2); ("folder", JBool false); ("deleted", JBool false); ("size", JInt size); ("pieces", JInt 1)]%string.
Definition demo_wakeups : list wakeup :=
  [demo_init token_b; text [("op", JStr "pull"); ("uid", JInt 1)]%string; demo_push "new.md" 4;
   Incoming (Some (MBinary (demo_bytes 4)))].

Definition demo_loop (ws : list wakeup) (w : world) :=
  run_alone demo_notice_len (socket_loop demo_token_hash demo_notice_len demo_json_len demo_config 8 ws new_session) w.

(** Bob (user 2) receives revisions 3 and 4, downloads revision 1 and stores revision 5. *)
Example demo_loop_result :
  let '(_, (s, r), w) := demo_loop demo_wakeups demo_world in
  r = Ok tt /\ ss_user_id s = Some 2 /\ ss_pending s = None /\
  map (fun f => match f with
                | Text v => jget "uid" v
                | EventText n => Some (JInt (pn_uid n))
                | Binary b => Some (JInt (blob_len b))
                | _ => None
                end) (w_sent w)
  = [None; Some (JInt 3); Some (JInt 4); None; None; Some (JInt 3); None; Some (JInt 5); None] /\
  option_map (fun r : revision_row => (r_path r, r_size r, r_user_id r, r_device r)) (find_revision (w_db w) 5)
    = Some ("new.md"%string, 4, 2, "phone"%string) /\
  w_reserved w = Storage.empty_state /\ w_uploads w = 2.
Proof. vm_compute. repeat split. Qed.


(** ** Who gets in *)
Section Credentials.
Context (answers : forall X, cmd X -> X -> Prop).
Context (token_hash : string -> string) (notice_len : PushNotice -> Z) (json_len : json -> Z).
Context (config : Config) (fuel : nat).
Definition allow_all (X : Type) (_ : unit) (_ : cmd X) : Prop := True.
Definition no_state (X : Type) (_ : unit) (_ : cmd X) (_ : X) : unit := tt.
Notation twp := (mwp answers allow_all no_state).

Lemma stays_anywhere {A} h v u (m : handler A) s (Q : unit -> Session -> result A -> Prop) :
  stays h v u m -> session_is h v u s -> (forall s r, session_is h v u s -> Q tt s r) -> twp m Q tt s.
Proof.
  intros Hm Hs HQ. unfold mwp.
  eapply wp_mono; [|eapply (wp_sim any_answer answers (confined h v u) (watch_next v) allow_all no_state
                              (fun _ _ => True)); [done|done|exact (Hm {| checked := false; cleared := None |} s Hs)|done]].
  intros [] [s' r] (w & _ & Hs'). apply HQ. exact Hs'.
Qed.

Ltac tgo := repeat first [wstep ltac:(done) | progress cbn [negb] ]; try done.

Lemma init_accepted_identity ctx vault owner j s :
  quiet s ->
  twp (init_accepted json_len config ctx vault owner j)
    (fun _ s' _ => ss_authenticated s' = true -> session_is (ac_token_hash ctx) (v_id vault) (ac_user_id ctx) s') tt s.
Proof.
  intros (Ha & Hp & Hl). unfold init_accepted.
  assert (forall b, session_is (ac_token_hash ctx) (v_id vault) (ac_user_id ctx)
                      (set_live b (authenticated_session ctx vault owner j s))) as Hs'.
  { intros b. constructor; try done. cbn. rewrite Hp. done. }
  tgo; try congruence. all: eapply stays_anywhere; [apply subscribe_and_replay_stays|apply Hs'|done].
Qed.
End Credentials.

(** The sharing switch: a collaborator gets in only while the owner may share. *)
Definition sharing_permits (config : Config) (access : VaultAccess) (owner : option Z) : Prop :=
  is_collaborator access = true -> exists o, owner = Some o /\ sharing_allowed_for_owner config o = true.

(** The credentials [j] hold in the state [w] and give the session its identity. *)
Definition admits (token_hash : string -> string) (config : Config) (j : json) (w : world) (s : Session) : Prop :=
  let token := default ""%string (str_field "token" j) in
  let id := default ""%string (str_field "id" j) in
  exists ctx vault access,
    lower_hex64 token = true /\
    auth_context_hash (w_now w) (token_hash token) (w_db w) = Some ctx /\
    find_authorized_vault (ac_user_id ctx) id (w_db w) = Some (vault, access) /\
    str_field "keyhash" j = v_keyhash vault /\
    int_field "encryption_version" j = Some (v_encryption_version vault) /\
    sharing_permits config access (vault_owner_user_id id (w_db w)) /\
    session_is (ac_token_hash ctx) (v_id vault) (ac_user_id ctx) s.

(** The remaining branches reply and leave the session [Ha : ss_authenticated s = false]. *)
Ltac shut Ha := cbn beta iota zeta delta [il_auth il_vault il_owner il_retired]; repeat wstep ltac:(done); cbn beta iota; intros; congruence.

Lemma init_credentials good token_hash notice_len json_len config j s :
  quiet s ->
  mwp (possible notice_len good) allow_all no_state (init token_hash json_len config j)
    (fun _ s' _ => ss_authenticated s' = true -> exists w, good w /\ admits token_hash config j w s') tt s.
Proof.
  intros Hs. pose proof (proj1 Hs) as Ha. unfold init.
  destruct (negb _); [shut Ha|].
  apply mwp_bind, mwp_task; [done|]. intros x Hx. destruct x as [found|e]; [|shut Ha].
  destruct Hx as [(w & Hw & Hx)|[e He]]; [|discriminate He]. cbn in Hx. injection Hx as <-. cbn zeta.
  unfold lookup. destruct (token_has_session_shape _) eqn:Et; [|shut Ha].
  destruct (auth_context_hash _ _ _) as [ctx|] eqn:Ec; [|shut Ha].
  cbn [il_auth il_vault il_owner il_retired]. destruct (find_authorized_vault _ _ _) as [[vault access]|] eqn:Ev;
    [|shut Ha].
  destruct (is_collaborator access && _) eqn:Esh; [shut Ha|].
  destruct (opt_eqb _ _ && _) eqn:Ek; [|shut Ha].
  eapply mwp_mono; [|by apply init_accepted_identity]. cbn beta. intros _ s' _ Hid Hauth'.
  exists w. split; [done|]. exists ctx, vault, access. apply andb_true_iff in Ek as [Ek Ee].
  apply bool_decide_eq_true in Ek. destruct (int_field "encryption_version" j); [|done]. apply Z.eqb_eq in Ee.
  split_and!; auto; [by subst|]. intros Hcol. rewrite Hcol in Esh. cbn in Esh. apply negb_false_iff in Esh.
  destruct (vault_owner_user_id _ _); [eauto|done].
Qed.

(** C20: a client is admitted only with credentials that held at one moment in a state of
    the server: a well-formed token of a live session of an active user, a vault that
    user owns or collaborates on (while sharing is allowed for its owner), the vault's key
    hash and its encryption version.  The session then carries exactly that identity. *)
Theorem init_requires_credentials good token_hash notice_len json_len config fuel m s tr s' r :
  quiet s ->
  runs (possible notice_len good) (handle_message token_hash notice_len json_len config fuel m s) tr (s', r) ->
  ss_authenticated s' = true ->
  exists len j w, m = MText len (Some j) /\ good w /\ admits token_hash config j w s'.
Proof.
  intros Hs Hrun Hauth.
  assert (mwp (possible notice_len good) allow_all no_state (handle_message token_hash notice_len json_len config fuel m)
            (fun _ s' _ => ss_authenticated s' = true ->
               exists len j w, m = MText len (Some j) /\ good w /\ admits token_hash config j w s') tt s) as Hm.
  { pose proof (proj1 Hs) as Ha. unfold handle_message. apply mwp_bind, mwp_get. rewrite Ha. cbn [negb].
    destruct m as [len [j|]| | | |]; try solve [shut Ha].
    destruct (64 * 1024 <? len); [shut Ha|]. destruct (negb _); [shut Ha|].
    eapply mwp_mono; [|by apply init_credentials]. intros st1 s1 r1 H H1. destruct (H H1) as (w & ? & ?). eauto 8. }
  exact (proj2 (wp_sound _ _ _ _ _ _ _ _ Hm Hrun) Hauth).
Qed.

Lemma init_requires_credentials_witness :
  let m := MText 300 (Some (JObj [("op", JStr "init"); ("token", JStr token_b); ("id", JStr "vault-1");
             ("keyhash", JStr "key"); ("encryption_version", JInt 3); ("version", JInt 2)]%string)) in
  let p := handle_message demo_token_hash demo_notice_len demo_json_len demo_config 8 m new_session in
  let out := run_alone demo_notice_len p demo_world in
  quiet new_session /\ runs (possible demo_notice_len (fun _ => True)) p (fst (fst out)) (snd (fst out)) /\
  exists len j w, m = MText len (Some j) /\ True /\ admits demo_token_hash demo_config j w (fst (snd (fst out))).
Proof.
  intros m p out. split; [done|].
  assert (runs (possible demo_notice_len (fun _ => True)) p (fst (fst out)) (snd (fst out))) as H.
  { apply (run_alone_runs demo_notice_len _ (fun _ => True) _ demo_world _ _ (snd out)); [intros; split; [left; eauto|done]|done|].
    unfold out. destruct (run_alone _ _ _) as [[? ?] ?]. reflexivity. }
  assert (ss_authenticated (fst (snd (fst out))) = true) as Ha by (vm_compute; reflexivity).
  split; [exact H|]. destruct (snd (fst out)) as [s r].
  exact (init_requires_credentials (fun _ => True) demo_token_hash demo_notice_len demo_json_len demo_config 8%nat m new_session _ s r (conj eq_refl (conj eq_refl eq_refl)) H Ha).
Defined.
