(* ===== verification/UploadSpec.v ===== *)
(** * Uploads and replay over the socket ([server.rs])

    The bytes a connection commits are the bytes it received; the revisions it replays
    come in order; what a client with a revoked session is told. *)

From Stdlib Require Import ZArith Lia List String Ascii Bool.
From stdpp Require Import base list strings pretty gmap.
From S2P Require Import Prelude Sql Model Store Auth Accounts Vaults Revisions Invariant Machine Scenario Io Text.
From S2P Require Import Config Reservations Limits Json Protocol World ProtocolSpec Verify.

Local Open Scope Z_scope.

(** ** Staged uploads *)

(** The server is not shutting down: a memory permit is granted or the pool fails. *)
Definition running (X : Type) (c : cmd X) : X -> Prop :=
  match c in cmd X return X -> Prop with
  | AcquireBulk => fun x => x <> Stopping
  | _ => fun _ => True
  end.

(** The pieces written to the staged file since it was created. *)
Definition staged_next (X : Type) (st : option blob) (c : cmd X) : X -> option blob :=
  match c in cmd X return X -> option blob with
  | CreateStaged => fun x => match x with Ok _ => Some [] | Err _ => st end
  | WriteStaged bytes => fun x => match x with Ok _ => option_map (fun b => b ++ bytes) st | Err _ => st end
  | RemoveStaged => fun _ => None
  | _ => fun _ => st
  end.
(** A file is committed only when it holds exactly those pieces and the declared size. *)
Definition staged_allows (X : Type) (st : option blob) (c : cmd X) : Prop :=
  match c with
  | AddFile r _ file _ _ => st = Some file /\ blob_len file = n_size r
  | _ => True
  end.

Definition staging_ok (st : option blob) (s : Session) : Prop :=
  match ss_pending s with
  | None => True
  | Some p => st = Some (p_file p) /\ p_bytes p = blob_len (p_file p)
  end.

Create HintDb neutral discriminated.

Section Staging.
Context (token_hash : string -> string) (notice_len : PushNotice -> Z) (json_len : json -> Z).
Context (config : Config) (fuel : nat).
Notation swp := (mwp running staged_allows staged_next).

(** A handler that leaves the upload and its staged file alone. *)
Definition neutral {A} (m : handler A) : Prop :=
  forall st s, swp m (fun st' s' _ => st' = st /\ ss_pending s' = ss_pending s) st s.

Lemma neutral_use {A} (m : handler A) (Q : option blob -> Session -> result A -> Prop) st s :
  neutral m -> (forall s' r, ss_pending s' = ss_pending s -> Q st s' r) -> swp m Q st s.
Proof. intros Hm HQ. eapply mwp_mono; [|apply Hm]. intros st' s' r [-> Hp]. auto. Qed.

Ltac ngo :=
  repeat first
    [ match goal with
      | |- mwp _ _ _ ?m _ _ _ =>
          eapply neutral_use; [solve [auto with neutral nocore]|let H := fresh "Hp" in intros ? ? H]
      end
    | wstep ltac:(try done)
    | progress cbn [negb] ]; try done; try (split; [done|cbn [ss_pending set_live authenticated_session] in *; congruence]).

Lemma active_neutral : neutral session_active.
Proof. intros st s. unfold session_active. ngo. Qed.
Lemma renew_neutral : neutral (renew_active_session config).
Proof. intros st s. unfold renew_active_session. ngo. Qed.
Lemma publish_neutral r : neutral (publish_committed notice_len r).
Proof. intros st s. unfold publish_committed. ngo. Qed.
Hint Resolve active_neutral renew_neutral publish_neutral : neutral.

Lemma await_neutral n e : neutral (await_own_event n e).
Proof. induction n as [|n IH]; intros st s; cbn [await_own_event]; ngo. Qed.
Hint Resolve await_neutral : neutral.
Lemma acknowledge_neutral e b : neutral (acknowledge_commit json_len fuel e b).
Proof. intros st s. unfold acknowledge_commit. ngo. Qed.
Lemma settle_neutral r : neutral (settle_commit notice_len r).
Proof. intros st s. unfold settle_commit. ngo. Qed.
Lemma send_page_neutral page cursor : neutral (send_page json_len page cursor).
Proof. revert cursor. induction page as [|r page IH]; intros cursor st s; cbn [send_page]; ngo. Qed.
Hint Resolve acknowledge_neutral settle_neutral send_page_neutral : neutral.
Lemma replay_pages_neutral n initial v cursor ready : neutral (replay_pages json_len n initial v cursor ready).
Proof. revert cursor. induction n as [|n IH]; intros cursor st s; cbn [replay_pages]; ngo. Qed.
Hint Resolve replay_pages_neutral : neutral.
Lemma init_neutral j : neutral (init token_hash json_len config j).
Proof. intros st s. unfold init, init_accepted, subscribe_and_replay, replay_and_ready. ngo. Qed.
Hint Resolve init_neutral : neutral.
Lemma send_piece_neutral uid offset_ len : neutral (send_piece config uid offset_ len).
Proof. intros st s. unfold send_piece. ngo. Qed.
Hint Resolve send_piece_neutral : neutral.
Lemma send_frames_neutral n uid size offset_ : neutral (send_frames config n uid size offset_).
Proof. revert offset_. induction n as [|n IH]; intros offset_ st s; cbn [send_frames]; ngo. Qed.
Hint Resolve send_frames_neutral : neutral.
Lemma pull_neutral j : neutral (pull json_len config j).
Proof. intros st s. unfold pull. ngo. Qed.
Lemma history_neutral j : neutral (history json_len j).
Proof. intros st s. unfold history, with_large_response. ngo. Qed.
Lemma deleted_pages_neutral n v b after_ len items : neutral (deleted_pages json_len n v b after_ len items).
Proof.
  revert after_ len items. induction n as [|n IH]; intros after_ len items st s; cbn [deleted_pages]; ngo.
Qed.
Hint Resolve pull_neutral history_neutral deleted_pages_neutral : neutral.
Lemma deleted_neutral j : neutral (deleted json_len fuel j).
Proof. intros st s. unfold deleted, with_large_response. ngo. Qed.
Lemma restore_neutral j : neutral (restore notice_len json_len config fuel j).
Proof. intros st s. unfold restore. ngo. Qed.
Lemma size_neutral : neutral (size_report json_len config).
Proof. intros st s. unfold size_report. ngo. Qed.
Lemma usernames_neutral : neutral (usernames json_len).
Proof. intros st s. unfold usernames. ngo. Qed.
Lemma purge_neutral : neutral (purge json_len).
Proof. intros st s. unfold purge. ngo. Qed.
Lemma release_neutral user : neutral (release_upload user).
Proof. intros st s. unfold release_upload. ngo. Qed.
Lemma push_empty_neutral r : neutral (push_empty notice_len json_len config fuel r).
Proof. intros st s. unfold push_empty. ngo. Qed.
Hint Resolve deleted_neutral restore_neutral size_neutral usernames_neutral purge_neutral release_neutral
  push_empty_neutral : neutral.

(** The staged file and the session agree after every handler that succeeds. *)
Definition stages {A} (m : handler A) : Prop :=
  forall st s, staging_ok st s -> swp m (fun st' s' r => match r with Ok _ => staging_ok st' s' | Err _ => True end) st s.

Lemma staging_same st s s' : ss_pending s' = ss_pending s -> staging_ok st s -> staging_ok st s'.
Proof. unfold staging_ok. intros ->. done. Qed.

Lemma neutral_stages {A} (m : handler A) : neutral m -> stages m.
Proof.
  intros Hm st s Hs. eapply neutral_use; [exact Hm|]. intros s' [a|e] Hp; [|done]. by eapply staging_same.
Qed.

Lemma push_file_stages r : stages (push_file json_len config r).
Proof.
  intros st s Hs. unfold push_file. ngo. all: try (by eapply staging_same; [|exact Hs]; congruence).
Qed.

Lemma begin_push_stages j : stages (begin_push notice_len json_len config fuel j).
Proof.
  intros st s Hs. unfold begin_push. ngo.
  all: first [ by apply push_file_stages
             | destruct r; [by eapply staging_same|done] ].
Qed.

Lemma finish_upload_stages p st s :
  st = Some (p_file p) -> blob_len (p_file p) = n_size (p_revision p) ->
  swp (finish_upload notice_len json_len config fuel p)
    (fun st' s' r => match r with Ok _ => staging_ok st' s' | Err _ => True end) st s.
Proof.
  intros -> Hlen. unfold finish_upload. ngo.
  all: unfold staging_ok; replace (ss_pending _) with (@None Pending) by (cbn [set_pending ss_pending] in *; congruence); done.
Qed.

Lemma upload_chunk_stages bytes : stages (upload_chunk notice_len json_len config fuel bytes).
Proof.
  intros st s Hs. unfold upload_chunk. apply mwp_bind, mwp_get. unfold staging_ok in Hs.
  destruct (ss_pending s) as [p|]; [|ngo]. destruct Hs as [-> Hb].
  destruct (PIECE_SIZE <? blob_len bytes); [ngo|]. cbn zeta. apply mwp_bind, mwp_put.
  destruct (_ || _); [ngo|]. apply mwp_bind, mwp_perform; [done|]. intros a Ha.
  destruct a; [|done|done]. apply mwp_bind, mwp_finally, mwp_task; [done|]. intros x _.
  apply mwp_perform; [done|]. intros [] _. destruct x as [[]|e]; [|done]. cbn [staged_next option_map].
  assert (p_bytes (append_piece (accept_piece p bytes) bytes) = blob_len (p_file (append_piece (accept_piece p bytes) bytes))) as Hb'.
  { cbn. rewrite Hb. unfold blob_len. rewrite length_app. lia. }
  apply mwp_bind, mwp_put. destruct (_ <? _); [ngo|]. destruct (negb _) eqn:Eq; [ngo|].
  apply negb_false_iff, Z.eqb_eq in Eq. apply finish_upload_stages; [done|]. congruence.
Qed.

Lemma dispatch_stages op j : stages (dispatch notice_len json_len config fuel op j).
Proof.
  intros st s Hs. unfold dispatch.
  repeat match goal with |- mwp _ _ _ (if ?b then _ else _) _ _ _ => destruct b end;
    first [by apply begin_push_stages | apply neutral_stages; [|done]; intros ? ?; ngo].
Qed.

Lemma handle_message_stages m : stages (handle_message token_hash notice_len json_len config fuel m).
Proof.
  intros st s Hs. unfold handle_message. ngo.
  all: first [ by apply dispatch_stages; eapply staging_same
             | by apply upload_chunk_stages; eapply staging_same
             | destruct r; [by eapply staging_same|done]
             | by eapply staging_same ].
Qed.

(** The verdict to go on comes with an agreeing staged file. *)
Notation goes st s m := (swp m (fun st' s' r => match r with Ok true => staging_ok st' s' | _ => True end) st s).

Lemma deliver_stages b m st s : staging_ok st s -> goes st s (deliver token_hash notice_len json_len config fuel b m).
Proof.
  intros Hs. apply mwp_bind, mwp_attempt. eapply mwp_mono; [|by apply handle_message_stages].
  cbn beta. intros st' s' [a|e] H; ngo.
Qed.

Lemma turn_stages w st s : staging_ok st s -> goes st s (turn token_hash notice_len json_len config fuel w).
Proof.
  intros Hs. unfold turn. apply mwp_bind, mwp_get.
  destruct w as [| | | | | |[[| | | |]|]|[e| |]]; unfold discard_pending_upload; ngo;
    first [by eapply staging_same | by apply deliver_stages; eapply staging_same | by apply deliver_stages].
Qed.

Lemma socket_loop_staged ws st s :
  staging_ok st s -> swp (socket_loop token_hash notice_len json_len config fuel ws) (fun _ _ _ => True) st s.
Proof.
  revert st s. induction ws as [|w ws IH]; intros st s Hs; [done|].
  cbn [socket_loop]. apply mwp_bind, mwp_get. destruct (negb _); [by apply IH|].
  apply mwp_bind. eapply mwp_mono; [|by apply turn_stages]. cbn beta.
  intros st' s' [[]|e] H; [by apply IH| |done]. unfold discard_pending_upload. ngo.
Qed.
End Staging.



(** ** A client whose session is gone *)

(** A client whose token has no live session is told "Unable to authenticate" whatever
    vault it asks for and however it was retired: the reply "Vault not found" that the
    retired markers are kept for ([is_retired_vault_for_user]) is out of its reach. *)
Theorem revoked_client_never_sees_vault_gone token_hash notice_len json_len config j s w tr s' r w' :
  str_field "op" j = Some "init"%string ->
  auth_context_hash (w_now w) (token_hash (default ""%string (str_field "token" j))) (w_db w) = None ->
  json_len (res_err "Unable to authenticate") <= MAX_LARGE_RESPONSE_BYTES ->
  run_alone notice_len (init token_hash json_len config j s) w = (tr, (s', r), w') ->
  r = Ok tt /\ s' = s /\ w' = with_sent w (Text (res_err "Unable to authenticate")).
Proof.
  intros Hop Hauth Hlen H. unfold init in H. rewrite Hop in H. unfold opt_eqb in H at 1.
  rewrite bool_decide_true in H by done. cbn [negb] in H. unfold task, unable_to_authenticate, send, send_with_limit in H.
  rewrite (proj2 (Z.ltb_ge _ _) Hlen) in H. unfold bind, perform, lift, ret, socket_send in H. cbn in H. unfold lookup in H.
  destruct (token_has_session_shape _); [rewrite Hauth in H|]; cbn in H; injection H as <- <- <- <-; done.
Qed.

(** Ann deletes the vault and her sessions are revoked. *)
Definition demo_gone : db :=
  run [(1800, OpDeleteVault 1 token_a "vault-1"); (1900, OpRevokeUserSessions 1)] demo_db.
Definition demo_gone_world : world := with_db demo_world demo_gone.
Definition demo_init_json (token : string) : json :=
  JObj [("op", JStr "init"); ("token", JStr token); ("id", JStr "vault-1"); ("keyhash", JStr "key");
        ("encryption_version", JInt 3)]%string.

(** The marker of the deleted vault is there; the client does not get to hear of it. *)
Lemma revoked_client_never_sees_vault_gone_witness :
  is_retired_vault_for_user 1 "vault-1" demo_gone = true /\
  snd (fst (run_alone demo_notice_len (init demo_token_hash demo_json_len demo_config (demo_init_json token_a) new_session)
              demo_gone_world)) = (new_session, Ok tt) /\
  snd (run_alone demo_notice_len (init demo_token_hash demo_json_len demo_config (demo_init_json token_a) new_session)
              demo_gone_world) = with_sent demo_gone_world (Text (res_err "Unable to authenticate")).
Proof.
  split; [vm_compute; reflexivity|].
  destruct (run_alone _ _ _) as [[tr [s r]] w] eqn:E.
  destruct (revoked_client_never_sees_vault_gone demo_token_hash demo_notice_len demo_json_len demo_config
              (demo_init_json token_a) new_session demo_gone_world tr s r w eq_refl ltac:(vm_compute; reflexivity)
              ltac:(vm_compute; discriminate) E) as (-> & -> & ->).
  split; reflexivity.
Defined.

(** ** A path that starts with U+0000 *)
Definition nul_path : string := String Ascii.zero "a.md".
Definition demo_nul : list wakeup :=
  [demo_init token_b; demo_push nul_path 4; Incoming (Some (MBinary (demo_bytes 4)))].

(** A collaborator may push a file whose path starts with U+0000: the metadata check
    counts its bytes and accepts it, the revision is committed and acknowledged, and the
    validator, whose [length()] stops at the NUL, then refuses to open the database. *)
Theorem nul_path_bricks_restart :
  let '(_, (s, r), w) := demo_loop demo_nul demo_world in
  r = Ok tt /\
  option_map (fun r : revision_row => r_path r) (find_revision (w_db w) 5) = Some nul_path /\
  List.last (w_sent w) (CloseFrame 0 "") = Text (res_ok []) /\
  verify_database demo_parse demo_notice_len 3000 demo_db = Ok tt /\
  verify_database demo_parse demo_notice_len 3000 (w_db w) = Err (Bail "database logical invariant failed (revision metadata)").
Proof. vm_compute. repeat split. Qed.
