(* ===== verification/Control.v ===== *)
(** * The control API ([server.rs]: [control] and its handlers; [account.rs]: [signup])

    A request is its path, its source address, its [Origin] header and its parsed body.
    Handlers are trees of commands as in [Protocol]; the reply is a JSON value or an error
    message.  Random identifiers, the clock, Argon2 and the JSON parser are answers of
    commands or parts of the request. *)

From Stdlib Require Import ZArith Lia List String Ascii Bool.
From stdpp Require Import base list strings pretty.
From S2P Require Import Prelude Sql Model Store Auth Accounts Vaults Sharing Io Text Config Json Protocol.

Local Open Scope Z_scope.

Definition ADMIN_MANAGED_ACCOUNT_ERROR : string := "Accounts are managed by the Blackglass Server administrator".

(** ** Commands *)
Inductive ctl : Type -> Type :=
(** credentials and sessions *)
| AdmitSignin (source : IpAddr) : ctl bool
| TryWaiter : ctl bool
| AcquireCheck : ctl bool
| AcquirePasswordMemory : ctl (result bool)
| DropWaiter : ctl unit
| DropCheck : ctl unit
| DropPasswordMemory : ctl unit
| SigninCandidate (canonical : string) : ctl (result (option UserCredential))
| VerifyPassword (password encoded : string) : ctl (result bool)
| RefundSignin (source : IpAddr) : ctl unit
| IssueSession (user ttl : Z) : ctl (result string)
| SelfRegistrationEnabled : ctl (result bool)
| HashPassword (password : string) : ctl (result string)
| CreateSelfRegistered (email name password_hash : string) : ctl (result RegistrationResult)
| AuthRenew (token : string) (ttl : Z) : ctl (result (option AuthContext * bool))
| AuthOnly (token : string) : ctl (result (option AuthContext))
| RevokeSession (token : string) : ctl (result unit)
(** vaults and shares *)
| ListVaults (user : Z) : ctl (result (list Vault))
| ListShared (user : Z) : ctl (result (list SharedVault))
| ListShares (user : Z) (vault : string) : ctl (result (option (list VaultShareItem)))
| AdmitInvite (source : IpAddr) (user : Z) (canonical : string) : ctl bool
| Invite (user : Z) (hash vault email : string) : ctl (result VaultShareItem)
| OwnerOf (vault : string) : ctl (result (option Z))
| RemoveShare (user : Z) (hash vault : string) (share : Z) : ctl (result (option Z))
| CreateVault (user : Z) (hash : string) (v : Vault) : ctl (result unit)
| FindAuthorized (user : Z) (id : string) : ctl (result (option (Vault * VaultAccess)))
| BindKeyhash (user : Z) (hash id keyhash : string) : ctl (result (option string))
| FindOwned (user : Z) (id : string) : ctl (result (option Vault))
| MigrateVault (user : Z) (hash source : string) (v : Vault) : ctl (result bool)
| RenameVault (user : Z) (hash id name : string) : ctl (result bool)
| DeleteVault (user : Z) (hash id : string) : ctl (result bool)
(** the administration API *)
| RegisterFailure (source : IpAddr) : ctl (option Z)
| ClearFailures (source : IpAddr) : ctl unit
| SetSelfRegistration (administrator : Z) (enabled : bool) : ctl (result unit)
(** the commit lock, live connections, randomness and the clock *)
| LockCommit : ctl unit
| UnlockCommit : ctl unit
| CancelSession (hash : string) : ctl unit
| CancelUserVault (user : Z) (vault : string) : ctl unit
| InvalidateVault (vault : string) : ctl unit
| NewUuid : ctl string
| NewManagedCredentials : ctl (string * string)
| NowMs : ctl Z.

Notation ctl_handler := (M ctl unit).
Declare Scope ctl_scope.
Delimit Scope ctl_scope with ctl.
Notation "x <- m ; k" := (@bind ctl unit _ _ m (fun x => k))
  (at level 100, m at level 99, right associativity) : ctl_scope.
Notation "m ;; k" := (@bind ctl unit _ _ m (fun _ => k)) (at level 100, right associativity) : ctl_scope.
Local Open Scope ctl_scope.

Definition internal : error := Bail "Internal server error".
(** [db_task(..).await.map_err(internal)?]. *)
Definition answered {X} (r : result X) : ctl_handler X := match r with Ok x => ret x | Err _ => fail internal end.
Definition db_query {X} (c : ctl (result X)) : ctl_handler X := r <- perform c ; answered r.
(** [option.ok_or(msg)?]. *)
Definition some_or {X} (o : option X) (msg : string) : ctl_handler X := lift (ok_or o (Bail msg)).
Definition refuse {X} (msg : string) : ctl_handler X := fail (Bail msg).
(** A scope under the commit-order lock, released on every exit. *)
Definition under_commit_lock {X} (m : ctl_handler X) : ctl_handler X := fun s =>
  Vis LockCommit (fun _ => io_bind (m s) (fun sr => Vis UnlockCommit (fun _ => Ret sr))).

(** The permits a failed step drops on the way out. *)
Definition or_drop {X} (cleanup : ctl_handler unit) (m : ctl_handler X) : ctl_handler X := fun s =>
  io_bind (m s) (fun sr =>
    match sr with
    | (s, Ok a) => Ret (s, Ok a)
    | (s, Err e) => io_bind (cleanup s) (fun sr => Ret (fst sr, Err e))
    end).

(** ** Request bodies ([serde_json::from_value])

    An optional field may be absent or null; a value of another type is an error. *)
Definition opt_string (k : string) (v : json) : result (option string) :=
  match jget k v with
  | None | Some JNull => Ok None
  | Some (JStr s) => Ok (Some s)
  | Some _ => Err (Bail "invalid type")
  end.
Definition opt_i64 (k : string) (v : json) : result (option Z) :=
  match jget k v with
  | None | Some JNull => Ok None
  | Some (JInt z) => if in_i64 z then Ok (Some z) else Err (Bail "invalid value")
  | Some _ => Err (Bail "invalid type")
  end.
Definition is_object (v : json) : bool := match v with JObj _ => true | _ => false end.

Definition parse_body {A} (v : json) (fields : result A) (msg : string) : ctl_handler A :=
  match is_object v, fields with
  | true, Ok a => ret a
  | _, _ => refuse msg
  end.

(** [Signin]; a two-element array is accepted as the fields in order. *)
Definition parse_signin (v : json) : result (option string * option string) :=
  let field (e : json) := match e with
                          | JNull => Ok None
                          | JStr s => Ok (Some s)
                          | _ => Err (Bail "invalid type")
                          end in
  match v with
  | JArr [e; p] => let? email := field e in let? password := field p in Ok (email, password)
  | JObj _ => let? email := opt_string "email" v in let? password := opt_string "password" v in Ok (email, password)
  | _ => Err (Bail "invalid type")
  end.

Record VaultRequest := {
  vq_vault_uid : option string;
  vq_name : option string;
  vq_keyhash : option string;
  vq_salt : option string;
  vq_host : option string;
  vq_email : option string;
  vq_encryption_version : option Z;
  vq_share_uid : option Z;
}.
(** The fields a request type declares, by name; the others are not looked at. *)
Definition parse_vault_request (declared : list string) (v : json) : result VaultRequest :=
  let str k := if existsb (String.eqb k) declared then opt_string k v else Ok None in
  let int k := if existsb (String.eqb k) declared then opt_i64 k v else Ok None in
  let? _ := opt_string "token" v in
  let? _ := str "region"%string in
  let? vault_uid := str "vault_uid"%string in
  let? name := str "name"%string in
  let? keyhash := str "keyhash"%string in
  let? salt := str "salt"%string in
  let? host := str "host"%string in
  let? email := str "email"%string in
  let? version := int "encryption_version"%string in
  let? share := int "share_uid"%string in
  Ok {| vq_vault_uid := vault_uid; vq_name := name; vq_keyhash := keyhash; vq_salt := salt; vq_host := host;
        vq_email := email; vq_encryption_version := version; vq_share_uid := share |}.

(** ** Replies *)
Definition vault_fields (v : Vault) : list (string * json) :=
  [("id", JStr (v_id v)); ("name", JStr (v_name v)); ("keyhash", jopt (v_keyhash v)); ("salt", jopt (v_salt v));
   ("host", JStr (v_host v)); ("region", JStr (v_region v)); ("encryption_version", JInt (v_encryption_version v));
   ("size", JInt (v_size v)); ("created", JInt (v_created v))]%string
  ++ match v_password v with Some p => [("password"%string, JStr p)] | None => [] end.
Definition vault_json (v : Vault) : json := JObj (vault_fields v).
Definition shared_json (s : SharedVault) : json := JObj (vault_fields (sv_vault s) ++ [("share_uid"%string, JInt (sv_share_uid s))]).
Definition share_item_json (i : VaultShareItem) : json :=
  JObj ([("uid", JInt (vs_uid i)); ("email", JStr (vs_email i))]%string
        ++ match vs_name i with Some n => [("name"%string, JStr n)] | None => [] end
        ++ [("accepted"%string, JBool (vs_accepted i))]).

Definition contains_text (needle s : string) : bool :=
  match String.index 0 needle s with Some _ => true | None => false end.
Definition error_text (e : error) : string :=
  match e with
  | Bail m | SqliteError m => m
  | StorageQuotaExceeded => "stored ciphertext quota exceeded"
  | ConditionalWriteConflict => "conditional write conflict; catch up before retrying"
  end.

Section Control.
(** [auth::DUMMY_PASSWORD_HASH] and the configuration. *)
Context (DUMMY_PASSWORD_HASH : string) (config : Config).

(** ** Sign-in *)
Definition authenticate_credentials (source : IpAddr) (email password : option string) : ctl_handler UserCredential :=
  admitted <- perform (AdmitSignin source) ;
  if negb admitted then refuse "Too many sign-in attempts; try again later" else
  waiter <- perform TryWaiter ;
  if negb waiter then refuse "Try again later" else
  permit <- perform AcquireCheck ;
  perform DropWaiter ;;
  if negb permit then refuse "Try again later" else
  memory <- or_drop (perform DropCheck) (db_query AcquirePasswordMemory) ;
  if negb memory then perform DropCheck ;; refuse "Try again later" else
  let canonical := match email with
                   | Some e => match canonicalize_email e with Ok e => Some (ce_canonical e) | Err _ => None end
                   | None => None
                   end in
  candidate <- or_drop (perform DropPasswordMemory ;; perform DropCheck)
    (match canonical with Some c => db_query (SigninCandidate c) | None => ret None end) ;
  let encoded := match candidate with
                 | Some user => if uc_active user then uc_password_hash user else DUMMY_PASSWORD_HASH
                 | None => DUMMY_PASSWORD_HASH
                 end in
  password_ok <- perform (VerifyPassword (default ""%string password) encoded) ;
  perform DropCheck ;;
  perform DropPasswordMemory ;;
  password_ok <- answered password_ok ;
  match candidate with
  | Some user =>
      if uc_active user && password_ok then perform (RefundSignin source) ;; ret user
      else refuse "Invalid email or password"
  | None => refuse "Invalid email or password"
  end.

Definition issue_user_session (user_id : Z) : ctl_handler string := db_query (IssueSession user_id (session_ttl config)).

Definition signin (source : IpAddr) (v : json) : ctl_handler json :=
  match parse_signin v with
  | Err _ => refuse "Invalid email or password"
  | Ok (email, password) =>
      user <- authenticate_credentials source email password ;
      token <- issue_user_session (uc_id user) ;
      ret (JObj [("email", JStr (uc_email user)); ("name", JStr (uc_name user)); ("license", JNull); ("token", JStr token)]%string)
  end.

(** ** Self-registration *)
Inductive RegistrationError :=
| RegInvalid (message : string)
| RegRateLimited
| RegBusy.

Definition registration_query {X} (c : ctl (result X)) : ctl_handler (option X) :=
  r <- perform c ; ret (match r with Ok x => Some x | Err _ => None end).

Definition register_account (source : IpAddr) (email name password : string)
    : ctl_handler (RegistrationResult + RegistrationError) :=
  match canonicalize_email email, normalize_display_name name, validate_self_registered_password password with
  | Err e, _, _ => ret (inr (RegInvalid (error_text e)))
  | _, Err e, _ => ret (inr (RegInvalid (error_text e)))
  | _, _, Err e => ret (inr (RegInvalid (error_text e)))
  | Ok _, Ok _, Ok _ =>
      enabled <- registration_query SelfRegistrationEnabled ;
      match enabled with
      | None => ret (inr RegBusy)
      | Some false => ret (inl RegDisabled)
      | Some true =>
          admitted <- perform (AdmitSignin source) ;
          if negb admitted then ret (inr RegRateLimited) else
          waiter <- perform TryWaiter ;
          if negb waiter then ret (inr RegBusy) else
          permit <- perform AcquireCheck ;
          perform DropWaiter ;;
          if negb permit then ret (inr RegBusy) else
          memory <- registration_query AcquirePasswordMemory ;
          match memory with
          | Some true =>
              hash <- registration_query (HashPassword password) ;
              perform DropCheck ;;
              perform DropPasswordMemory ;;
              match hash with
              | None => ret (inr RegBusy)
              | Some hash =>
                  r <- registration_query (CreateSelfRegistered email name hash) ;
                  ret (match r with Some r => inl r | None => inr RegBusy end)
              end
          | _ => perform DropCheck ;; ret (inr RegBusy)
          end
      end
  end.

(** [signup] of [account.rs]: the status, the [created] flag and the message. *)
Definition signup (source : IpAddr) (email name password : string) : ctl_handler (Z * bool * string) :=
  r <- register_account source email name password ;
  ret (match r with
       | inl (RegCreated _) => (201, true, "Account created. You can now sign in from Blackglass Bridge.")
       | inl RegDisabled => (403, false, "Self-registration is currently disabled.")
       | inl RegUnavailable => (409, false, "Registration could not be completed with those details.")
       | inr (RegInvalid m) => (400, false, m)
       | inr RegRateLimited => (429, false, "Too many registration attempts; try again later.")
       | inr RegBusy => (503, false, "Registration is temporarily unavailable.")
       end%string).

(** [registration_status] of [account.rs]: the status and, on success, the body. *)
Definition registration_status : ctl_handler (Z * option json) :=
  enabled <- registration_query SelfRegistrationEnabled ;
  ret (match enabled with
       | Some enabled => (200, Some (JObj [("enabled"%string, JBool enabled)]))
       | None => (503, None)
       end).

(** ** Vaults *)
Record VaultCredentials := { vc_keyhash : option string; vc_salt : option string; vc_password : option string }.
Definition credential_ok (s : string) : bool := negb (is_empty s) && (str_len s <=? 4096).
Definition vault_credentials (keyhash salt : option string) : ctl_handler VaultCredentials :=
  match keyhash, salt with
  | None, None =>
      c <- perform NewManagedCredentials ;
      ret {| vc_keyhash := None; vc_salt := Some (snd c); vc_password := Some (fst c) |}
  | Some keyhash, Some salt =>
      if credential_ok keyhash && credential_ok salt
      then ret {| vc_keyhash := Some keyhash; vc_salt := Some salt; vc_password := None |}
      else refuse "Invalid encryption credentials"
  | _, _ => refuse "Invalid encryption credentials"
  end.

Definition new_vault (name : string) (version : Z) (c : VaultCredentials) : ctl_handler Vault :=
  id <- perform NewUuid ;
  now <- perform NowMs ;
  ret {| v_id := id; v_name := name; v_keyhash := vc_keyhash c; v_salt := vc_salt c; v_host := public_data_host config;
         v_region := "Blackglass Server"; v_encryption_version := version; v_size := 0; v_created := now;
         v_password := vc_password c |}.

(** [name.map(str::trim).filter(|v| !v.is_empty() && v.len() <= 256)]. *)
Definition vault_name (name : option string) : option string :=
  match name with
  | Some n => let n := trim n in if negb (is_empty n) && (str_len n <=? 256) then Some n else None
  | None => None
  end.

Definition create_vault (user : Z) (hash : string) (v : json) : ctl_handler json :=
  r <- parse_body v (parse_vault_request ["name"; "keyhash"; "salt"; "encryption_version"]%string v) "Invalid vault request" ;
  name <- some_or (vault_name (vq_name r)) "Vault name is required" ;
  version <- some_or (match vq_encryption_version r with
                      | Some z => if in_range 0 3 z then Some z else None
                      | None => None
                      end) "Unsupported encryption version" ;
  credentials <- vault_credentials (vq_keyhash r) (vq_salt r) ;
  vault <- new_vault name version credentials ;
  stored <- perform (CreateVault user hash vault) ;
  match stored with
  | Ok _ => ret (vault_json vault)
  | Err e => if contains_text "vault limit reached" (error_text e) then refuse "Vault limit reached" else fail internal
  end.

Definition access_vault (user : Z) (hash : string) (v : json) : ctl_handler json :=
  let deny := "Unable to access vault"%string in
  r <- parse_body v (parse_vault_request ["vault_uid"; "keyhash"; "host"; "encryption_version"]%string v) deny ;
  id <- some_or (vq_vault_uid r) deny ;
  found <- db_query (FindAuthorized user id) ;
  match found with
  | None => refuse deny
  | Some (vault, access) =>
      (if is_collaborator access then
         owner <- db_query (OwnerOf id) ;
         owner <- some_or owner deny ;
         if sharing_allowed_for_owner config owner then ret tt else refuse "Sharing is unavailable"
       else ret tt) ;;
      if negb (opt_eqb (vq_host r) (Some (v_host vault)))
         || negb (match vq_encryption_version r with Some e => e =? v_encryption_version vault | None => false end)
      then refuse deny else
      keyhash <-
        (if negb (is_null (v_password vault)) && is_null (v_keyhash vault) then
           requested <- some_or (match vq_keyhash r with
                                 | Some k => if credential_ok k then Some k else None
                                 | None => None
                                 end) deny ;
           db_query (BindKeyhash user hash (v_id vault) requested)
         else ret (v_keyhash vault)) ;
      if opt_eqb (vq_keyhash r) keyhash then ret (JObj []) else refuse deny
  end.

Definition migrate_vault (user : Z) (hash : string) (v : json) : ctl_handler json :=
  let deny := "Unable to migrate vault"%string in
  r <- parse_body v (parse_vault_request ["vault_uid"; "keyhash"; "salt"; "region"; "encryption_version"]%string v) deny ;
  source_id <- some_or (vq_vault_uid r) deny ;
  if negb (match vq_encryption_version r with Some e => e =? 3 | None => false end)
  then refuse "Unsupported encryption version" else
  credentials <- vault_credentials (vq_keyhash r) (vq_salt r) ;
  under_commit_lock (
    source <- db_query (FindOwned user source_id) ;
    match source with
    | None => refuse deny
    | Some source =>
        if 3 <=? v_encryption_version source then refuse "Vault already uses encryption version 3" else
        replacement <- new_vault (v_name source) 3 credentials ;
        migrated <- db_query (MigrateVault user hash source_id replacement) ;
        if negb migrated then refuse deny else
        perform (InvalidateVault source_id) ;;
        ret (vault_json replacement)
    end).

Definition rename_vault (user : Z) (hash : string) (v : json) : ctl_handler json :=
  let deny := "Unable to rename vault"%string in
  r <- parse_body v (parse_vault_request ["vault_uid"; "name"]%string v) deny ;
  id <- some_or (vq_vault_uid r) deny ;
  name <- some_or (vault_name (vq_name r)) deny ;
  under_commit_lock (
    renamed <- db_query (RenameVault user hash id name) ;
    if renamed then ret (JObj []) else refuse deny).

Definition delete_vault (user : Z) (hash : string) (v : json) : ctl_handler json :=
  let deny := "Unable to delete vault"%string in
  r <- parse_body v (parse_vault_request ["vault_uid"]%string v) deny ;
  let id := default ""%string (vq_vault_uid r) in
  under_commit_lock (
    deleted <- db_query (DeleteVault user hash id) ;
    if negb deleted then refuse deny else
    perform (InvalidateVault id) ;; ret (JObj [])).

(** ** Sharing *)
Definition shared_inventory (user : Z) : ctl_handler (list SharedVault) :=
  shared <- db_query (ListShared user) ;
  ret (List.filter (fun s => sharing_allowed_for_owner config (sv_owner_user_id s)) shared).

Definition share_list (user : Z) (v : json) : ctl_handler json :=
  if negb (sharing_allowed_for_owner config user) then refuse "Sharing is unavailable" else
  let deny := "Unable to list collaborators"%string in
  r <- parse_body v (parse_vault_request ["vault_uid"]%string v) deny ;
  id <- some_or (vq_vault_uid r) deny ;
  shares <- db_query (ListShares user id) ;
  shares <- some_or shares deny ;
  ret (JObj [("shares"%string, JArr (map share_item_json shares))]).

Definition invite_error (e : error) : error :=
  let m := error_text e in
  if contains_text "sharing user unavailable" m then Bail "User unavailable for sharing"
  else if contains_text "collaborator limit reached" m then Bail "Collaborator limit reached"
  else if contains_text "membership capacity reached" m || contains_text "membership sequence exhausted" m
       then Bail "Sharing capacity reached"
  else if contains_text "sharing vault unavailable" m then Bail "Unable to invite collaborator"
  else internal.

Definition share_invite (source : IpAddr) (user : Z) (hash : string) (v : json) : ctl_handler json :=
  if negb (sharing_allowed_for_owner config user) then refuse "Sharing is unavailable" else
  r <- parse_body v (parse_vault_request ["vault_uid"; "email"]%string v) "Unable to invite collaborator" ;
  id <- some_or (vq_vault_uid r) "Unable to invite collaborator" ;
  email <- some_or (vq_email r) "User unavailable for sharing" ;
  match canonicalize_email email with
  | Err _ => refuse "User unavailable for sharing"
  | Ok canonical =>
      admitted <- perform (AdmitInvite source user (ce_canonical canonical)) ;
      if negb admitted then refuse "Share invitation rate limit reached" else
      item <- perform (Invite user hash id email) ;
      match item with
      | Ok item => ret (share_item_json item)
      | Err e => fail (invite_error e)
      end
  end.

Definition share_remove (user : Z) (hash : string) (v : json) : ctl_handler json :=
  let deny := "Unable to remove collaborator"%string in
  r <- parse_body v (parse_vault_request ["vault_uid"; "share_uid"]%string v) deny ;
  id <- some_or (vq_vault_uid r) deny ;
  owner <- db_query (OwnerOf id) ;
  owner <- some_or owner deny ;
  if negb (sharing_allowed_for_owner config owner) then refuse "Sharing is unavailable" else
  share <- some_or (match vq_share_uid r with
                    | Some u => if in_range 1 MAX_JS_SAFE_INTEGER u then Some u else None
                    | None => None
                    end) deny ;
  removed <- db_query (RemoveShare user hash id share) ;
  match removed with
  | None => refuse deny
  | Some collaborator => perform (CancelUserVault collaborator id) ;; ret (JObj [])
  end.

(** ** Routing *)
Definition signout (ctx : AuthContext) (token : string) : ctl_handler json :=
  db_query (RevokeSession token) ;;
  perform (CancelSession (ac_token_hash ctx)) ;;
  ret (JObj []).
Definition vault_list (ctx : AuthContext) : ctl_handler json :=
  vaults <- db_query (ListVaults (ac_user_id ctx)) ;
  shared <- shared_inventory (ac_user_id ctx) ;
  ret (JObj [("vaults", JArr (map vault_json vaults)); ("shared", JArr (map shared_json shared)); ("limit", JInt 100)]%string).

Definition publish_paths : list string :=
  ["/publish/create"; "/publish/delete"; "/publish/list"; "/publish/share/accept"; "/publish/share/invite";
   "/publish/share/list"; "/publish/share/remove"]%string.

Definition route (path : string) (source : IpAddr) (ctx : AuthContext) (token : string) (v : json) : ctl_handler json :=
  let user := ac_user_id ctx in
  let hash := ac_token_hash ctx in
  let at_path p := String.eqb path p in
  if at_path "/user/signout"%string then signout ctx token
  else if at_path "/user/info"%string then
    ret (JObj [("email", JStr (ac_email ctx)); ("name", JStr (ac_name ctx)); ("license", JNull)]%string)
  else if at_path "/subscription/list"%string then ret (JObj [("sync", JBool true); ("publish", JBool false)]%string)
  else if at_path "/subscription/business"%string then refuse "Business subscriptions are unavailable on a self-hosted server"
  else if at_path "/subscription/sync/signup-mobile"%string then refuse "Mobile Sync signup is unavailable on a self-hosted server"
  else if at_path "/user/authtoken"%string then refuse ADMIN_MANAGED_ACCOUNT_ERROR
  else if existsb at_path publish_paths then refuse "Publish is unavailable on a self-hosted server"
  else if at_path "/vault/regions"%string then
    ret (JObj [("regions", JArr [JObj [("value", JStr "selfhost"); ("name", JStr "Blackglass Server")]])]%string)
  else if at_path "/vault/list"%string then vault_list ctx
  else if at_path "/vault/create"%string then create_vault user hash v
  else if at_path "/vault/access"%string then access_vault user hash v
  else if at_path "/vault/migrate"%string then migrate_vault user hash v
  else if at_path "/vault/rename"%string then rename_vault user hash v
  else if at_path "/vault/delete"%string then delete_vault user hash v
  else if at_path "/vault/share/list"%string then share_list user v
  else if at_path "/vault/share/invite"%string then share_invite source user hash v
  else if at_path "/vault/share/remove"%string then share_remove user hash v
  else refuse "Not found".

Definition authorized_control (path : string) (source : IpAddr) (v : json) : ctl_handler json :=
  token <- some_or (str_field "token" v) "Not logged in" ;
  ctx <- (if String.eqb path "/user/signout" then db_query (AuthOnly token)
          else r <- db_query (AuthRenew token (session_ttl config)) ; ret (fst r)) ;
  match ctx with
  | None => refuse "Not logged in"
  | Some ctx => route path source ctx token v
  end.

(** [permitted_origin]: the header must be present, readable and allowed. *)
Definition permitted_origin (origin : option string) : bool :=
  match origin with Some o => existsb (String.eqb o) (allowed_origins config) | None => false end.

(** The status and the JSON of the reply. *)
Definition control (path : string) (source : IpAddr) (origin : option string) (body : option json) : ctl_handler (Z * json) :=
  if negb (permitted_origin origin) then ret (403, JObj [("error"%string, JStr "Origin not allowed")]) else
  match body with
  | None => ret (400, JObj [("error"%string, JStr "Invalid JSON")])
  | Some v => fun s =>
      let run_route :=
        if String.eqb path "/user/signin" then signin source v
        else if existsb (String.eqb path) ["/user/pow-challenge"; "/user/signup"; "/user/forgetpass"; "/user/resendconfirmation"]%string
        then refuse ADMIN_MANAGED_ACCOUNT_ERROR
        else authorized_control path source v in
      io_bind (run_route s) (fun sr =>
        Ret (fst sr, Ok (200, match snd sr with Ok v => v | Err e => JObj [("error"%string, JStr (error_text e))] end)))
  end.

(** [request_source]: the one address a trusted proxy reports, else the peer. *)
Definition request_source (peer : IpAddr) (forwarded_for : option string) : IpAddr :=
  match trusted_proxy config with
  | Some proxy =>
      if negb (ip_eqb proxy peer) then peer else
      match forwarded_for with
      | Some f =>
          let f := trim f in
          if is_empty f || contains_char "," f then peer
          else match parse_ip f with Some a => a | None => peer end
      | None => peer
      end
  | None => peer
  end.
End Control.
