(* ===== verification/ControlSpec.v ===== *)
(** * What the control API may do ([server.rs])

    Properties of every run of the control handlers under any answers of their
    commands. *)

From Stdlib Require Import ZArith Lia List String Ascii Bool.
From stdpp Require Import base list strings.
From S2P Require Import Json.
From S2P Require Import Prelude Sql Model Store Auth Accounts Vaults Sharing Io Text Config Protocol ProtocolSpec.
From S2P Require Import Control.

Local Open Scope Z_scope.

Definition any_reply (X : Type) (c : ctl X) (x : X) : Prop := True.

Section Rules.
Context {St : Type} (allowed : forall X, St -> ctl X -> Prop) (next : forall X, St -> ctl X -> X -> St).
Notation mwp := (mwp any_reply allowed next).

Lemma mwp_under_lock {A} (m : ctl_handler A) Q st s :
  allowed unit st LockCommit ->
  (forall x, mwp m (fun st s r => allowed unit st UnlockCommit /\ forall y, Q (next unit st UnlockCommit y) s r)
     (next unit st LockCommit x) s) ->
  mwp (under_commit_lock m) Q st s.
Proof.
  intros Ha H. split; [exact Ha|]. intros x _. apply wp_bind. eapply wp_mono; [|exact (H x)].
  intros st' [s' r] [Hu HQ]. split; [exact Hu|]. intros y _. apply HQ.
Qed.
Lemma mwp_query {X} (c : ctl (result X)) (Q : St -> unit -> result X -> Prop) st s :
  allowed _ st c ->
  (forall x, Q (next _ st c (Ok x)) s (Ok x)) -> (forall e, Q (next _ st c (Err e)) s (Err internal)) ->
  mwp (db_query c) Q st s.
Proof.
  intros Ha Ho He. apply mwp_bind, mwp_perform; [exact Ha|]. intros [x|e] _; [apply mwp_ret, Ho|apply mwp_fail, He].
Qed.
Lemma mwp_or_drop {A} cleanup (m : ctl_handler A) Q st s :
  mwp m (fun st s r => match r with Ok a => Q st s (Ok a) | Err e => mwp cleanup (fun st s _ => Q st s (Err e)) st s end) st s ->
  mwp (or_drop cleanup m) Q st s.
Proof.
  intros H. unfold Io.mwp, or_drop. apply wp_bind. eapply wp_mono; [|exact H]. intros st' [s' [a|e]]; cbn; [done|].
  intros H'. apply wp_bind. eapply wp_mono; [|exact H']. done.
Qed.
End Rules.

(** Symbolic execution of a control handler. *)
Ltac cstep prim :=
  cbn beta iota zeta delta [fst snd ok_or negb];
  lazymatch goal with
  | |- mwp _ _ _ (bind _ _) _ _ _ => apply mwp_bind
  | |- mwp _ _ _ (ret _) _ _ _ => apply mwp_ret
  | |- mwp _ _ _ (fail _) _ _ _ => apply mwp_fail
  | |- mwp _ _ _ (lift _) _ _ _ => apply mwp_lift
  | |- mwp _ _ _ (refuse _) _ _ _ => apply mwp_fail
  | |- mwp _ _ _ (some_or _ _) _ _ _ => unfold some_or
  | |- mwp _ _ _ (parse_body _ _ _) _ _ _ => unfold parse_body
  | |- mwp _ _ _ (db_query _) _ _ _ => apply mwp_query; [prim|let x := fresh "x" in intros x; split_bool x|intros ?]
  | |- mwp _ _ _ (perform _) _ _ _ => apply mwp_perform; [prim|let x := fresh "x" in intros x _; split_bool x]
  | |- mwp _ _ _ (or_drop _ _) _ _ _ => apply mwp_or_drop
  | |- mwp _ _ _ (answered _) _ _ _ => unfold answered
  | |- mwp _ _ _ (under_commit_lock _) _ _ _ => apply mwp_under_lock; [prim|intros ?]
  | |- mwp _ _ _ (match ?x with _ => _ end) _ _ _ => destruct x eqn:?
  | |- match ?x with _ => _ end => destruct x eqn:?
  | |- _ /\ forall y : unit, _ => split; [prim|intros ?]
  end.

(** ** Sign-in *)
Record attempt_log := {
  al_candidate : option UserCredential;
  al_checks : nat;
  al_verified : bool;
  al_context : option AuthContext;
}.
Definition fresh_log : attempt_log :=
  {| al_candidate := None; al_checks := 0; al_verified := false; al_context := None |}.

(** The hash a password is compared with: the active account's own, or the dummy. *)
Definition expected_hash (dummy : string) (candidate : option UserCredential) : string :=
  match candidate with Some u => if uc_active u then uc_password_hash u else dummy | None => dummy end.

Definition log_next (X : Type) (st : attempt_log) (c : ctl X) : X -> attempt_log :=
  match c in ctl X return X -> attempt_log with
  | SigninCandidate _ => fun x =>
      {| al_candidate := match x with Ok o => o | Err _ => None end; al_checks := al_checks st;
         al_verified := al_verified st; al_context := al_context st |}
  | VerifyPassword _ _ => fun x =>
      {| al_candidate := al_candidate st; al_checks := S (al_checks st);
         al_verified := match x with Ok b => b | Err _ => false end; al_context := al_context st |}
  | AuthOnly _ => fun x =>
      {| al_candidate := al_candidate st; al_checks := al_checks st; al_verified := al_verified st;
         al_context := match x with Ok o => o | Err _ => None end |}
  | _ => fun _ => st
  end.
(** The account is looked up under the submitted email, a password is checked against the
    hash of the account found, and a session is issued only to that account, when it is
    active and the check succeeded. *)
Definition signin_allows (dummy : string) (email : option string) (password : string) (X : Type)
    (st : attempt_log) (c : ctl X) : Prop :=
  match c with
  | SigninCandidate canonical =>
      exists e ce, email = Some e /\ canonicalize_email e = Ok ce /\ canonical = ce_canonical ce
  | VerifyPassword p encoded => p = password /\ encoded = expected_hash dummy (al_candidate st)
  | IssueSession user _ =>
      al_verified st = true /\ exists u, al_candidate st = Some u /\ uc_active u = true /\ uc_id u = user
  | _ => True
  end.

Definition submitted_email (v : json) : option string :=
  match parse_signin v with Ok (e, _) => e | _ => None end.
Definition submitted_password (v : json) : string :=
  match parse_signin v with Ok (_, Some p) => p | _ => ""%string end.
(** The commands of [authenticate_credentials]. *)
Definition credential_step {X} (c : ctl X) : bool :=
  match c with
  | AdmitSignin _ | TryWaiter | AcquireCheck | AcquirePasswordMemory | SigninCandidate _ | VerifyPassword _ _
  | DropWaiter | DropCheck | DropPasswordMemory
  | RefundSignin _ => true
  | _ => false
  end.
Definition bad_credentials : error := Bail "Invalid email or password".

(** The shared credential check, under any policy that allows what [signin_allows] allows
    its commands. *)
Lemma authenticate_spec (allowed : forall X, attempt_log -> ctl X -> Prop) dummy source email password
    (Q : attempt_log -> unit -> result UserCredential -> Prop) s :
  (forall X st (c : ctl X), credential_step c = true -> signin_allows dummy email (default ""%string password) X st c ->
     allowed X st c) ->
  (forall e st, e <> bad_credentials -> Q st s (Err e)) ->
  (forall st, al_checks st = 1%nat -> Q st s (Err bad_credentials)) ->
  (forall u st, al_candidate st = Some u -> uc_active u = true -> al_verified st = true -> al_checks st = 1%nat -> Q st s (Ok u)) ->
  mwp any_reply allowed log_next (authenticate_credentials dummy source email password) Q fresh_log s.
Proof.
  intros Hall He Hb Ho. unfold authenticate_credentials.
  destruct email as [email|]; [destruct (canonicalize_email email) as [ce|] eqn:Ece|].
  all: repeat cstep ltac:(apply Hall; [reflexivity|cbn; eauto]).
  all: try (apply He; done). all: try (apply Hb; done).
  all: cbn in *; breflect; subst; try (by apply Ho).
Qed.

(** A sign-in issues a session only to the active account found under the submitted
    email, in its canonical spelling, and whose stored hash the submitted password was verified against; and an attempt
    that is answered "Invalid email or password" ran exactly one password check, as a
    successful one does, whether or not the account exists or is active. *)
Theorem signin_verifies_once dummy config source v tr u r :
  is_Some (match parse_signin v with Ok x => Some x | Err _ => None end) ->
  runs any_reply (signin dummy config source v tt) tr (u, r) ->
  accepts (signin_allows dummy (submitted_email v) (submitted_password v)) log_next fresh_log tr /\
  ((exists j, r = Ok j) \/ r = Err bad_credentials -> al_checks (after log_next fresh_log tr) = 1%nat).
Proof.
  intros [x Hx] Hrun. destruct (parse_signin v) as [[email password]|] eqn:Ep; [|done]. clear x Hx.
  assert (mwp any_reply (signin_allows dummy (submitted_email v) (submitted_password v)) log_next (signin dummy config source v)
            (fun st _ r => (exists j, r = Ok j) \/ r = Err bad_credentials -> al_checks st = 1%nat) fresh_log tt) as H.
  { unfold signin, submitted_email, submitted_password. rewrite Ep.
    replace (match password with Some p => p | None => ""%string end) with (default ""%string password) by (by destruct password).
    apply mwp_bind, authenticate_spec.
    - done.
    - intros e st Hne [[j Hj]|[= He]]; [done|]. congruence.
    - auto.
    - intros c st Hc Ha Hv Hn. apply mwp_bind, mwp_query; [split; eauto| |].
      + intros token. apply mwp_ret. intros _. exact Hn.
      + intros e [[j Hj]|He]; done. }
  exact (wp_sound _ _ _ _ _ _ _ _ H Hrun).
Qed.

(** A user found, a password that matches, and every request granted. *)
Definition demo_account : UserCredential :=
  {| uc_id := 7; uc_email := "Ann@Example.test"; uc_name := "Ann"; uc_password_hash := "$argon2id$demo"; uc_active := true;
     uc_role := "user" |}.
Definition demo_context : AuthContext :=
  {| ac_user_id := 7; ac_email := "Ann@Example.test"; ac_name := "Ann"; ac_role := "user"; ac_token_hash := "digest" |}.
Definition demo_owned : Vault :=
  {| v_id := "vault-1"; v_name := "Notes"; v_keyhash := Some "key"%string; v_salt := Some "salt"%string;
     v_host := "127.0.0.1:3003"; v_region := "Blackglass Server"; v_encryption_version := 2; v_size := 0; v_created := 100;
     v_password := None |}.
Definition demo_choose (X : Type) (c : ctl X) : X :=
  match c in ctl X return X with
  | AdmitSignin _ | TryWaiter | AcquireCheck | AdmitInvite _ _ _ => true
  | AcquirePasswordMemory | SelfRegistrationEnabled => Ok true
  | SigninCandidate _ => Ok (Some demo_account)
  | VerifyPassword p _ => Ok (String.eqb p "correct horse")
  | DropWaiter | DropCheck | DropPasswordMemory | RefundSignin _ | LockCommit | UnlockCommit | CancelSession _ | CancelUserVault _ _ | InvalidateVault _ => tt
  | IssueSession _ _ => Ok "token"%string
  | HashPassword _ => Ok "$argon2id$demo"%string
  | CreateSelfRegistered _ _ _ => Ok (RegCreated 8)
  | AuthRenew _ _ => Ok (Some demo_context, true)
  | AuthOnly _ => Ok (Some demo_context)
  | RevokeSession _ | CreateVault _ _ _ => Ok tt
  | ListVaults _ => Ok [demo_owned]
  | ListShared _ => Ok []
  | ListShares _ _ => Ok (Some [])
  | Invite _ _ _ e => Ok {| vs_uid := 1; vs_email := e; vs_name := None; vs_accepted := true |}
  | OwnerOf _ => Ok (Some 7)
  | RemoveShare _ _ _ _ => Ok (Some 9)
  | FindAuthorized u v => Ok (Some (demo_owned, Owner u v))
  | BindKeyhash _ _ _ k => Ok (Some k)
  | FindOwned _ _ => Ok (Some demo_owned)
  | MigrateVault _ _ _ _ | RenameVault _ _ _ _ | DeleteVault _ _ _ => Ok true
  | RegisterFailure _ => None
  | ClearFailures _ => tt
  | SetSelfRegistration _ _ => Ok tt
  | NewUuid => "uuid"%string
  | NewManagedCredentials => ("pw", "salt")%string
  | NowMs => 1000
  end.

Definition demo_signin_body (password : string) : json :=
  JObj [("email", JStr "ann@example.test"); ("password", JStr password)]%string.

Lemma signin_verifies_once_witness :
  let v := demo_signin_body "correct horse" in
  let p := signin "dummy" demo_config (V4 LOCALHOST) v tt in
  accepts (signin_allows "dummy" (Some "ann@example.test"%string) "correct horse") log_next fresh_log (fst (run_with demo_choose p)) /\
  al_checks (after log_next fresh_log (fst (run_with demo_choose p))) = 1%nat.
Proof.
  intros v p.
  pose proof (run_with_runs any_reply demo_choose p ltac:(done)) as H.
  assert (exists j, snd (snd (run_with demo_choose p)) = Ok j) as Hok by (eexists; vm_compute; reflexivity).
  destruct (snd (run_with demo_choose p)) as [u r].
  destruct (signin_verifies_once "dummy" demo_config (V4 LOCALHOST) v _ u r ltac:(vm_compute; eauto) H) as [Ha Hc].
  split; [exact Ha|]. exact (Hc (or_introl Hok)).
Defined.

(** ** Requests with a token *)
Record grant := {
  gr_context : option AuthContext;
  gr_gone : option string;
  gr_removed : option (Z * string);
}.
Definition no_grant : grant := {| gr_context := None; gr_gone := None; gr_removed := None |}.

Definition grant_next (X : Type) (st : grant) (c : ctl X) : X -> grant :=
  let context o := {| gr_context := o; gr_gone := gr_gone st; gr_removed := gr_removed st |} in
  let gone o := {| gr_context := gr_context st; gr_gone := o; gr_removed := gr_removed st |} in
  match c in ctl X return X -> grant with
  | AuthRenew _ _ => fun x => context (match x with Ok (o, _) => o | Err _ => None end)
  | AuthOnly _ => fun x => context (match x with Ok o => o | Err _ => None end)
  | DeleteVault _ _ id => fun x => gone (match x with Ok true => Some id | _ => None end)
  | MigrateVault _ _ id _ => fun x => gone (match x with Ok true => Some id | _ => None end)
  | RemoveShare _ _ vault _ => fun x =>
      {| gr_context := gr_context st; gr_gone := gr_gone st;
         gr_removed := match x with Ok (Some u) => Some (u, vault) | _ => None end |}
  | _ => fun _ => st
  end.

Definition acts_as (st : grant) (user : Z) (hash : string) : Prop :=
  exists ctx, gr_context st = Some ctx /\ ac_user_id ctx = user /\ ac_token_hash ctx = hash.
Definition acts_for (st : grant) (user : Z) : Prop := exists ctx, gr_context st = Some ctx /\ ac_user_id ctx = user.

(** Every read and change is made in the name of the session the token resolved to, with
    that session's hash; connections are cut off only for a change that was made. *)
Definition control_allows (token : string) (X : Type) (st : grant) (c : ctl X) : Prop :=
  match c with
  | AuthRenew t _ | AuthOnly t => t = token /\ gr_context st = None
  | RevokeSession t => t = token /\ is_Some (gr_context st)
  | CancelSession hash => exists ctx, gr_context st = Some ctx /\ ac_token_hash ctx = hash
  | CreateVault user hash _ | BindKeyhash user hash _ _ | MigrateVault user hash _ _ | RenameVault user hash _ _
  | DeleteVault user hash _ | Invite user hash _ _ | RemoveShare user hash _ _ => acts_as st user hash
  | ListVaults user | ListShared user | ListShares user _ | FindAuthorized user _ | FindOwned user _
  | AdmitInvite _ user _ => acts_for st user
  | InvalidateVault id => gr_gone st = Some id
  | CancelUserVault user vault => gr_removed st = Some (user, vault)
  | IssueSession _ _ | VerifyPassword _ _ | CreateSelfRegistered _ _ _ | SigninCandidate _ => False
  | _ => True
  end.

Section Authorised.
Context (config : Config) (token : string).
Notation awp := (mwp any_reply (control_allows token) grant_next).

Ltac prim := try solve [ done | eexists; split_and!; reflexivity | eexists; split; reflexivity | split; [reflexivity|eauto] ].

Lemma route_authorised path source ctx v s :
  awp (route config path source ctx token v) (fun _ _ _ => True)
    {| gr_context := Some ctx; gr_gone := None; gr_removed := None |} s.
Proof.
  unfold route, signout, vault_list, shared_inventory, create_vault, access_vault, migrate_vault, rename_vault, delete_vault,
    share_list, share_invite, share_remove, vault_credentials, new_vault.
  repeat cstep prim; try done.
Qed.

Lemma control_authorised_wp path source v s :
  str_field "token" v = Some token ->
  awp (authorized_control config path source v) (fun _ _ _ => True) no_grant s.
Proof.
  intros Ht. unfold authorized_control. rewrite Ht. repeat first [apply route_authorised | cstep prim]; try done.
  all: destruct x as [o b]; cbn in *; subst; apply route_authorised.
Qed.
End Authorised.


