(* ===== verification/Admin.v ===== *)
(** * Administration ([admin.rs])

    The registry of live connections with its cancellation flags, the per-source
    throttle of failed administrator sign-ins, the session cookie and the handlers of the
    administration API.  Parsing of the [Host] header ([http::uri::Authority]) is a
    parameter. *)

From Stdlib Require Import ZArith Lia List String Ascii Bool Permutation.
From stdpp Require Import base list strings pretty gmap.
From S2P Require Import Prelude Sql Model Store Auth Accounts Io Text Config Limits Json Protocol Control.

Local Open Scope Z_scope.

Definition MAX_DEVICE_BYTES : nat := 128.
Definition ADMIN_AUTH_FAILURES_PER_SOURCE : Z := 8.
Definition ADMIN_AUTH_FAILURE_WINDOW : Z := 60 * 1000.
Definition MAX_ADMIN_AUTH_SOURCES : Z := 8.
Definition ADMIN_SESSION_COOKIE : string := "blackglass_admin_session".

(** ** Live connections *)
Record LiveConnection := {
  lc_id : string;
  lc_vault_id : string;
  lc_device : string;
  lc_connected_at : Z;
  lc_last_activity_at : Z;
  lc_client_cursor : Z;
  lc_state : string;
  lc_user_id : Z;
}.
Record LiveEntry := { le_connection : LiveConnection; le_session_hash : string; le_cancelled : bool }.
Notation registry := (gmap string LiveEntry).

(** [split_whitespace().join(" ")]: the words between runs of white space. *)
Fixpoint words (cur : list (list ascii)) (l : list (list ascii)) : list (list (list ascii)) :=
  match l with
  | [] => match cur with [] => [] | _ => [rev cur] end
  | c :: l =>
      if is_whitespace c then match cur with [] => words [] l | _ => rev cur :: words [] l end
      else words (c :: cur) l
  end.
Fixpoint join_words (ws : list (list (list ascii))) : list (list ascii) :=
  match ws with
  | [] => []
  | [w] => w
  | w :: ws => w ++ [[" "%char]] ++ join_words ws
  end.
Definition sanitize_device (value : string) : string :=
  let clean := join_words (words [] (chars_of value)) in
  let clean := List.filter (fun c => negb (is_control c)) (take MAX_DEVICE_BYTES clean) in
  match clean with [] => "Unknown device"%string | _ => string_of_chars clean end.

Section Registry.
(** The iteration order of the map, and the capacity. *)
Context (iter : registry -> list (string * LiveEntry)) (max : nat).

(** [register]; [id] is a new UUID, [now] the clock. *)
Definition register (id : string) (now user_id : Z) (session_hash vault device : string) (cursor : Z) (m : registry)
    : option (string * registry) :=
  if (max <=? size m)%nat then None else
  Some (id, <[id := {| le_connection := {| lc_id := id; lc_vault_id := vault; lc_device := sanitize_device device;
                                           lc_connected_at := now; lc_last_activity_at := now; lc_client_cursor := cursor;
                                           lc_state := "replaying"; lc_user_id := user_id |};
                       le_session_hash := session_hash; le_cancelled := false |}]> m).

Definition cancel (p : LiveEntry -> bool) (m : registry) : registry :=
  (fun e => if p e then {| le_connection := le_connection e; le_session_hash := le_session_hash e; le_cancelled := true |} else e) <$> m.
Definition in_session (session_hash : string) (e : LiveEntry) : bool := String.eqb (le_session_hash e) session_hash.
Definition on_vault (vault_id : string) (e : LiveEntry) : bool := String.eqb (lc_vault_id (le_connection e)) vault_id.
Definition of_user_on_vault (user_id : Z) (vault_id : string) (e : LiveEntry) : bool :=
  (lc_user_id (le_connection e) =? user_id) && on_vault vault_id e.
Definition cancel_session (session_hash : string) (m : registry) : registry := cancel (in_session session_hash) m.
Definition cancel_vault (vault_id : string) (m : registry) : registry := cancel (on_vault vault_id) m.
Definition cancel_user_vault (user_id : Z) (vault_id : string) (m : registry) : registry :=
  cancel (of_user_on_vault user_id vault_id) m.

(** [sort_by_key] is stable; then [truncate]. *)
Definition snapshot (m : registry) : list LiveConnection :=
  take max (order_by (asc lc_connected_at) (map (fun p => le_connection (snd p)) (iter m))).

Definition touch (cursor : option Z) (state : string) (now : Z) (c : LiveConnection) : LiveConnection := {|
  lc_id := lc_id c; lc_vault_id := lc_vault_id c; lc_device := lc_device c; lc_connected_at := lc_connected_at c;
  lc_last_activity_at := now; lc_client_cursor := default (lc_client_cursor c) cursor;
  lc_state := string_of_chars (take 32 (chars_of state)); lc_user_id := lc_user_id c |}.
Definition update_live (id : string) (f : LiveConnection -> LiveConnection) (m : registry) : registry :=
  match m !! id with
  | None => m
  | Some e => <[id := {| le_connection := f (le_connection e); le_session_hash := le_session_hash e; le_cancelled := le_cancelled e |}]> m
  end.
Definition activity (id : string) (now cursor : Z) (state : string) : registry -> registry :=
  update_live id (touch (Some cursor) state now).
Definition protocol_activity (id : string) (now : Z) (state : string) : registry -> registry :=
  update_live id (touch None state now).
(** [Drop for LiveGuard]. *)
Definition unregister (id : string) (m : registry) : registry := delete id m.

(** The registry's steps; ids are fresh (UUID v4). *)
Inductive reg_step : registry -> registry -> Prop :=
| reg_register id now u h v dv cur id' m m' :
    m !! id = None -> register id now u h v dv cur m = Some (id', m') -> reg_step m m'
| reg_cancel_session h m : reg_step m (cancel_session h m)
| reg_cancel_vault v m : reg_step m (cancel_vault v m)
| reg_cancel_user u v m : reg_step m (cancel_user_vault u v m)
| reg_activity id now cur st m : reg_step m (activity id now cur st m)
| reg_protocol id now st m : reg_step m (protocol_activity id now st m)
| reg_drop id m : reg_step m (unregister id m).

(** The display does not touch who a connection belongs to. *)
Definition same_connection (e e' : LiveEntry) : Prop :=
  lc_user_id (le_connection e') = lc_user_id (le_connection e) /\
  lc_vault_id (le_connection e') = lc_vault_id (le_connection e) /\
  le_session_hash e' = le_session_hash e /\ (le_cancelled e = true -> le_cancelled e' = true).

Lemma cancel_lookup p m id :
  cancel p m !! id = (fun e => if p e then {| le_connection := le_connection e; le_session_hash := le_session_hash e;
                                             le_cancelled := true |} else e) <$> m !! id.
Proof. apply lookup_fmap. Qed.

Lemma cancel_same p m id e : m !! id = Some e -> exists e', cancel p m !! id = Some e' /\ same_connection e e'.
Proof.
  intros H. rewrite cancel_lookup, H. cbn. eexists. split; [done|]. destruct (p e); unfold same_connection; cbn; done.
Qed.

Lemma update_same id f m k e :
  (forall c, lc_user_id (f c) = lc_user_id c /\ lc_vault_id (f c) = lc_vault_id c) ->
  m !! k = Some e -> exists e', update_live id f m !! k = Some e' /\ same_connection e e'.
Proof.
  intros Hf Hk. unfold update_live. destruct (m !! id) as [e0|] eqn:E; [|exists e; done].
  destruct (decide (id = k)) as [->|Hne]; [|rewrite lookup_insert_ne by done; exists e; done].
  rewrite lookup_insert_eq. eexists. split; [done|]. assert (e0 = e) as -> by congruence.
  destruct (Hf (le_connection e)). unfold same_connection. cbn. done.
Qed.
End Registry.

(** The live registry keeps its promises through every step: it never holds more
    connections than the server admits; a step either drops a connection or keeps its
    user, vault and session; a cancellation is never withdrawn; and cancelling a session,
    a vault or a collaborator cancels exactly the connections it names. *)
Theorem registry_cancellation_exact max m m' :
  reg_step max m m' -> (size m <= max)%nat ->
  (size m' <= max)%nat /\
  (forall id e, m !! id = Some e -> m' !! id = None \/ exists e', m' !! id = Some e' /\ same_connection e e') /\
  (forall p id e, m !! id = Some e ->
     le_cancelled <$> cancel p m !! id = Some (le_cancelled e || p e)).
Proof.
  intros Hstep Hmax. split_and!.
  - destruct Hstep as [id now u h v dv cur id' m m' Hf H|h m|v m|u v m|id now cur st m|id now st m|id m];
      try (unfold cancel_session, cancel_vault, cancel_user_vault, cancel; by rewrite map_size_fmap).
    + unfold register in H. destruct (max <=? size m)%nat eqn:E; [done|]. injection H as <- <-.
      apply Nat.leb_gt in E. rewrite map_size_insert_None by done. lia.
    + unfold activity, update_live. destruct (m !! id) eqn:E; [|done]. rewrite (map_size_insert_Some _ _ _ (mk_is_Some _ _ E)). done.
    + unfold protocol_activity, update_live. destruct (m !! id) eqn:E; [|done]. rewrite (map_size_insert_Some _ _ _ (mk_is_Some _ _ E)). done.
    + unfold unregister. pose proof (map_size_delete id m). destruct (m !! id); cbn in *; lia.
  - intros k e Hk. destruct Hstep as [id now u h v dv cur id' m m' Hf H|h m|v m|u v m|id now cur st m|id now st m|id m].
    + right. unfold register in H. destruct (max <=? size m)%nat; [done|]. injection H as <- <-.
      assert (id <> k) by congruence. rewrite lookup_insert_ne by done. exists e. done.
    + right. by apply cancel_same.
    + right. by apply cancel_same.
    + right. by apply cancel_same.
    + right. by apply update_same.
    + right. by apply update_same.
    + unfold unregister. destruct (decide (id = k)) as [->|Hne]; [left; apply lookup_delete_eq|].
      right. rewrite lookup_delete_ne by done. exists e. done.
  - intros p k e Hk. rewrite cancel_lookup, Hk. cbn. destruct (p e); cbn; by rewrite ?orb_true_r, ?orb_false_r.
Qed.

Definition demo_live (u : Z) (vault : string) : LiveEntry :=
  {| le_connection := {| lc_id := vault; lc_vault_id := vault; lc_device := "laptop"; lc_connected_at := 1; lc_last_activity_at := 1;
                         lc_client_cursor := 0; lc_state := "ready"; lc_user_id := u |};
     le_session_hash := "h"; le_cancelled := false |}.
Lemma registry_cancellation_exact_witness :
  let m := <["a"%string := demo_live 1 "v1"]> (<["b"%string := demo_live 2 "v1"]> ∅) in
  reg_step 16 m (cancel_user_vault 2 "v1" m) /\ (size (cancel_user_vault 2 "v1" m) <= 16)%nat /\
  le_cancelled <$> cancel_user_vault 2 "v1" m !! "b"%string = Some true /\
  le_cancelled <$> cancel_user_vault 2 "v1" m !! "a"%string = Some false.
Proof.
  intros m. split; [apply reg_cancel_user|].
  destruct (registry_cancellation_exact 16 m _ (reg_cancel_user 16 2 "v1" m) ltac:(vm_compute; lia)) as (H1 & _ & H3).
  split; [exact H1|]. split.
  - exact (H3 (of_user_on_vault 2 "v1") "b"%string (demo_live 2 "v1") eq_refl).
  - exact (H3 (of_user_on_vault 2 "v1") "a"%string (demo_live 1 "v1") eq_refl).
Defined.

(** ** Failed administrator sign-ins *)
Module Failures.
Record bucket := { window_started : Z; failures : Z }.
Notation table := (gmap string bucket).

Section Register.
Context (iter : table -> list (string * bucket)).

(** [register_at]: the seconds to wait once the source has failed too often. *)
Definition register_at (source : string) (now : Z) (m : table) : option Z * table :=
  let m := filter (fun p => (duration_since now (window_started (snd p)) <? ADMIN_AUTH_FAILURE_WINDOW) = true) m in
  let m := match m !! source with
           | Some _ => m
           | None =>
               if MAX_ADMIN_AUTH_SOURCES <=? Z.of_nat (size m) then
                 match Source.min_by_key (fun p => window_started (snd p)) (iter m) with
                 | Some (oldest, _) => delete oldest m
                 | None => m
                 end
               else m
           end in
  let e := default {| window_started := now; failures := 0 |} (m !! source) in
  let e := {| window_started := window_started e; failures := Z.min 255 (failures e + 1) |} in
  (if failures e <=? ADMIN_AUTH_FAILURES_PER_SOURCE then None
   else Some (Z.max 1 (Z.max 0 (ADMIN_AUTH_FAILURE_WINDOW - duration_since now (window_started e)) / 1000)),
   <[source := e]> m).
End Register.

Definition clear (source : string) (m : table) : table := delete source m.

(** A source that failed [n] times within its window, counted from its first failure. *)
Inductive failing (iter : table -> list (string * bucket)) (source : string) (start : Z) : nat -> table -> Prop :=
| failing_first m : m !! source = None -> failing iter source start 1 (register_at iter source start m).2
| failing_again n m now :
    failing iter source start n m -> start <= now < start + ADMIN_AUTH_FAILURE_WINDOW ->
    failing iter source start (S n) (register_at iter source now m).2.

Lemma register_lookup iter source now m e :
  m !! source = Some e -> 0 <= now - window_started e < ADMIN_AUTH_FAILURE_WINDOW ->
  (register_at iter source now m).2 !! source
    = Some {| window_started := window_started e; failures := Z.min 255 (failures e + 1) |}.
Proof.
  intros Hm Hw. unfold register_at. set (k := filter _ m).
  assert (k !! source = Some e) as Hk.
  { apply map_lookup_filter_Some. split; [done|]. cbn. apply Z.ltb_lt. unfold duration_since. lia. }
  cbn zeta. rewrite Hk. cbn. rewrite Hk. apply lookup_insert_eq.
Qed.

Lemma failing_count iter source start n m :
  failing iter source start n m -> m !! source = Some {| window_started := start; failures := Z.min 255 (Z.of_nat n) |}.
Proof.
  induction 1 as [m Hm|n m now _ IH Hn].
  - unfold register_at. set (k := filter _ m). assert (k !! source = None) as Hk.
    { apply map_lookup_filter_None. auto. }
    cbn zeta. rewrite Hk. cbn. rewrite lookup_insert_eq. f_equal.
    assert (forall t : table, t !! source = None -> default {| window_started := start; failures := 0 |} (t !! source)
               = {| window_started := start; failures := 0 |}) as Hd by (intros t ->; done).
    destruct (_ <=? _); [destruct (Source.min_by_key _ _) as [[o b]|]|]; rewrite Hd; try done.
    apply lookup_delete_None. auto.
  - rewrite (register_lookup iter source now m _ IH) by (cbn; lia). cbn. do 2 f_equal. lia.
Qed.

(** The administrator sign-in throttle: within the minute that starts with a
    source's first failure, failures one to eight are answered "unauthorised" and every
    later one "too many requests", with a wait of at least one second and at most the
    whole minute. *)
Theorem admin_failures_throttled iter source start n m now :
  failing iter source start n m -> start <= now < start + ADMIN_AUTH_FAILURE_WINDOW ->
  match fst (register_at iter source now m) with
  | None => Z.of_nat n < ADMIN_AUTH_FAILURES_PER_SOURCE
  | Some wait => ADMIN_AUTH_FAILURES_PER_SOURCE <= Z.of_nat n /\ 1 <= wait <= 60
  end.
Proof.
  intros Hf Hn. apply failing_count in Hf. unfold register_at. set (k := filter _ m).
  assert (k !! source = Some {| window_started := start; failures := Z.min 255 (Z.of_nat n) |}) as Hk.
  { apply map_lookup_filter_Some. split; [done|]. cbn. apply Z.ltb_lt. unfold duration_since, ADMIN_AUTH_FAILURE_WINDOW in *. lia. }
  cbn zeta. rewrite Hk. cbn [fst]. rewrite Hk. cbn [from_option id window_started failures].
  unfold duration_since, ADMIN_AUTH_FAILURES_PER_SOURCE, ADMIN_AUTH_FAILURE_WINDOW in *.
  destruct (_ <=? _) eqn:E; breflect; [lia|]. split; [lia|].
  Z.to_euclidean_division_equations. lia.
Qed.

Lemma admin_failures_throttled_witness :
  failing map_to_list "127.0.0.1" 0 1 (register_at map_to_list "127.0.0.1" 0 ∅).2 /\
  match fst (register_at map_to_list "127.0.0.1" 30 (register_at map_to_list "127.0.0.1" 0 ∅).2) with
  | None => 1 < ADMIN_AUTH_FAILURES_PER_SOURCE
  | Some wait => ADMIN_AUTH_FAILURES_PER_SOURCE <= 1 /\ 1 <= wait <= 60
  end.
Proof.
  assert (failing map_to_list "127.0.0.1" 0 1 (register_at map_to_list "127.0.0.1" 0 ∅).2) as H
    by (apply failing_first; apply lookup_empty).
  split; [exact H|].
  exact (admin_failures_throttled map_to_list "127.0.0.1" 0 1 _ 30 H ltac:(vm_compute; split; [discriminate|reflexivity])).
Defined.
End Failures.

(** ** Handlers of the administration API *)

(** [strip_prefix("blackglass_admin_session=")] of the first cookie that has it. *)
Fixpoint find_cookie (cookies : list string) : option string :=
  match cookies with
  | [] => None
  | c :: rest => match strip_prefix (ADMIN_SESSION_COOKIE +:+ "=") c with Some t => Some t | None => find_cookie rest end
  end.
Definition session_token (cookie : option string) : option string :=
  match cookie with
  | None => None
  | Some c => match find_cookie (map trim (split ";" c)) with
              | Some t => if lower_hex64 t then Some t else None
              | None => None
              end
  end.

Inductive admin_reply :=
| AdminStatus (code : Z)
| AdminRetryAfter (seconds : Z)
| AdminCookie (code : Z) (cookie : string) (body : json)
| AdminBody (body : json).

Section Handlers.
Context (DUMMY_PASSWORD_HASH : string) (config : Config).
Local Open Scope ctl_scope.

(** An error of the shared credential check becomes a value. *)
Definition try_ {A} (m : ctl_handler A) : ctl_handler (result A) := fun s =>
  io_bind (m s) (fun sr => Ret (fst sr, Ok (snd sr))).

Definition login (source : IpAddr) (email password : string) : ctl_handler admin_reply :=
  user <- try_ (authenticate_credentials DUMMY_PASSWORD_HASH source (Some email) (Some password)) ;
  match match user with Ok u => if String.eqb (uc_role u) "admin" then Some u else None | Err _ => None end with
  | None =>
      retry <- perform (RegisterFailure source) ;
      ret (match retry with None => AdminStatus 401 | Some seconds => AdminRetryAfter seconds end)
  | Some user =>
      token <- try_ (issue_user_session config (uc_id user)) ;
      match token with
      | Err _ => ret (AdminStatus 503)
      | Ok token =>
          perform (ClearFailures source) ;;
          ret (AdminCookie 200
                 (ADMIN_SESSION_COOKIE +:+ "=" +:+ token +:+ "; HttpOnly; SameSite=Strict; Path=/admin; Max-Age="
                    +:+ pretty (session_ttl config))
                 (JObj [("signedIn", JBool true); ("name", JStr (uc_name user))]%string))
      end
  end.

(** The custom header a cross-site form cannot send. *)
Definition csrf_ok (header : option string) : bool := match header with Some h => String.eqb h "1" | None => false end.

Definition logout (header cookie : option string) : ctl_handler admin_reply :=
  if negb (csrf_ok header) then ret (AdminStatus 403) else
  match session_token cookie with
  | Some token => try_ (db_query (RevokeSession token)) ;; ret tt
  | None => ret tt
  end ;;
  ret (AdminCookie 204 (ADMIN_SESSION_COOKIE +:+ "=; HttpOnly; SameSite=Strict; Path=/admin; Max-Age=0") JNull).

Definition administrator (cookie : option string) : ctl_handler (option AuthContext) :=
  match session_token cookie with
  | None => ret None
  | Some token =>
      ctx <- perform (AuthOnly token) ;
      ret (match ctx with
           | Ok (Some ctx) => if String.eqb (ac_role ctx) "admin" then Some ctx else None
           | _ => None
           end)
  end.

Definition session_status (cookie : option string) : ctl_handler admin_reply :=
  a <- administrator cookie ;
  ret (AdminBody (match a with
                  | Some a => JObj [("signedIn", JBool true); ("name", JStr (ac_name a))]%string
                  | None => JObj [("signedIn"%string, JBool false)]
                  end)).

Definition update_registration (header cookie : option string) (enabled : bool) : ctl_handler admin_reply :=
  if negb (csrf_ok header) then ret (AdminStatus 403) else
  a <- administrator cookie ;
  match a with
  | None => ret (AdminStatus 401)
  | Some a =>
      r <- perform (SetSelfRegistration (ac_user_id a) enabled) ;
      ret (match r with
           | Ok _ => AdminBody (JObj [("enabled"%string, JBool enabled)])
           | Err _ => AdminStatus 409
           end)
  end.

(** [allowed_authority]; [authority] is the parsed [Host] header: its host and port. *)
Definition allowed_authority (authority : option (string * option Z)) (a : AdminConfig) : bool :=
  match authority with
  | None => false
  | Some (host, port) =>
      if negb (default 80 port =? adm_port a) then false else
      let inner := match strip_prefix "[" host with
                   | Some rest => match rev (bytes_of rest) with
                                  | "]"%char :: l => string_of_list_ascii (rev l)
                                  | _ => host
                                  end
                   | None => host
                   end in
      String.eqb (to_ascii_lowercase inner) "localhost"
      || match parse_ip inner with Some ip => ip_eqb ip (adm_bind_host a) | None => false end
  end.
End Handlers.
