(* ===== verification/AdminSpec.v ===== *)
(** * What the administration API may do ([admin.rs])

    Every run of an administration request, under any answers of its commands, stays
    within [admin_allows]. *)

From Stdlib Require Import ZArith Lia List String Ascii Bool.
From stdpp Require Import base list strings.
From S2P Require Import Json.
From S2P Require Import Prelude Sql Model Store Auth Accounts Vaults Sharing Io Text Config Protocol ProtocolSpec.
From S2P Require Import Control ControlSpec Admin.

Local Open Scope Z_scope.

(** The routes of [router] that touch shared state: [header] is [x-blackglass-admin],
    [cookie] the [Cookie] header. *)
Inductive admin_request :=
| Login (source : IpAddr) (email password : string)
| Logout (header cookie : option string)
| SessionStatus (cookie : option string)
| UpdateRegistration (header cookie : option string) (enabled : bool).

Definition serve (dummy : string) (config : Config) (q : admin_request) : ctl_handler admin_reply :=
  match q with
  | Login source email password => login dummy config source email password
  | Logout header cookie => logout header cookie
  | SessionStatus cookie => session_status cookie
  | UpdateRegistration header cookie enabled => update_registration header cookie enabled
  end.

Definition request_header (q : admin_request) : option string :=
  match q with Logout h _ | UpdateRegistration h _ _ => h | _ => None end.
Definition request_cookie (q : admin_request) : option string :=
  match q with Logout _ c | SessionStatus c | UpdateRegistration _ c _ => c | _ => None end.
Definition request_email (q : admin_request) : option string :=
  match q with Login _ e _ => Some e | _ => None end.
Definition request_password (q : admin_request) : string :=
  match q with Login _ _ p => p | _ => ""%string end.

(** A session is issued only to an administrator who proved the password; the
    self-registration switch moves only in the name of an administrator whose live session
    is in the request's own cookie, and, like a sign-out, only with the custom header.
    Nothing else is changed. *)
Definition admin_allows (dummy : string) (q : admin_request) (X : Type) (st : attempt_log) (c : ctl X) : Prop :=
  match c with
  | SigninCandidate _ | VerifyPassword _ _ => signin_allows dummy (request_email q) (request_password q) X st c
  | IssueSession user _ =>
      al_verified st = true /\
      exists u, al_candidate st = Some u /\ uc_active u = true /\ uc_role u = "admin"%string /\ uc_id u = user
  | AuthOnly token => session_token (request_cookie q) = Some token
  | RevokeSession token => csrf_ok (request_header q) = true /\ session_token (request_cookie q) = Some token
  | SetSelfRegistration user _ =>
      csrf_ok (request_header q) = true /\
      exists ctx, al_context st = Some ctx /\ ac_role ctx = "admin"%string /\ ac_user_id ctx = user
  | AdmitSignin _ | TryWaiter | AcquireCheck | AcquirePasswordMemory | DropWaiter | DropCheck | DropPasswordMemory
  | RefundSignin _ | RegisterFailure _
  | ClearFailures _ => True
  | _ => False
  end.

(** An error turned into a value, under any monitor. *)
Lemma mwp_try {St A} allowed (next : forall X, St -> ctl X -> X -> St) (m : ctl_handler A) Q st s :
  mwp any_reply allowed next m (fun st s r => Q st s (Ok r)) st s -> mwp any_reply allowed next (try_ m) Q st s.
Proof. intros H. apply wp_bind. eapply wp_mono; [|exact H]. intros st' [s' r] HQ. exact HQ. Qed.

Section Rules.
Context (dummy : string) (config : Config) (q : admin_request).
Notation awp := (mwp any_reply (admin_allows dummy q) log_next).

Lemma administrator_spec cookie (Q : attempt_log -> unit -> result (option AuthContext) -> Prop) st s :
  request_cookie q = cookie ->
  (forall st, Q st s (Ok None)) ->
  (forall st ctx, al_context st = Some ctx -> ac_role ctx = "admin"%string -> Q st s (Ok (Some ctx))) ->
  awp (administrator cookie) Q st s.
Proof.
  intros <- HN HS. unfold administrator. destruct (session_token (request_cookie q)) as [token|] eqn:Et; [|apply mwp_ret, HN].
  apply mwp_bind, mwp_perform; [exact Et|]. intros [[ctx|]|e] _; apply mwp_ret; try apply HN.
  destruct (String.eqb_spec (ac_role ctx) "admin") as [Ha|]; [by apply HS|apply HN].
Qed.
End Rules.

Lemma serve_wp dummy config q s :
  mwp any_reply (admin_allows dummy q) log_next (serve dummy config q) (fun _ _ _ => True) fresh_log s.
Proof.
  destruct q as [source email password|header cookie|cookie|header cookie enabled]; cbn [serve].
  - unfold login. apply mwp_bind, mwp_try, authenticate_spec.
    + intros X st c Hi Ha. destruct c; try done.
    + intros e st _. repeat cstep ltac:(done); done.
    + intros st _. repeat cstep ltac:(done); done.
    + intros u st Hc Ha Hv _. cbn beta iota.
      destruct (String.eqb_spec (uc_role u) "admin") as [Hr|]; [|(repeat cstep ltac:(done); done)].
      apply mwp_bind, mwp_try, mwp_query; [split; eauto| |]; intros ?; repeat cstep ltac:(done); done.
  - unfold logout. destruct (csrf_ok header) eqn:Eh; [|by apply mwp_ret].
    apply mwp_bind. destruct (session_token cookie) as [token|] eqn:Et.
    + apply mwp_bind, mwp_try, mwp_query; [done| |]; intros ?; repeat cstep ltac:(done); done.
    + repeat cstep ltac:(done); done.
  - apply mwp_bind, administrator_spec; [done| |]; intros; by apply mwp_ret.
  - unfold update_registration. destruct (csrf_ok header) eqn:Eh; [|by apply mwp_ret].
    apply mwp_bind, administrator_spec; [done|intros st; by apply mwp_ret|].
    intros st ctx Hc Hr. apply mwp_bind, mwp_perform; [split; eauto|]. intros x _. by apply mwp_ret.
Qed.

(** C36: whatever an administration request holds, a session is issued only to an active
    administrator account whose password was verified against its own hash; the
    self-registration switch is moved only in the name of an administrator whose live
    session is the one in the request's cookie; that and signing out also need the header a
    cross-site form cannot set; and no request does anything else. *)
Theorem admin_requests_authorised dummy config q tr u r :
  runs any_reply (serve dummy config q tt) tr (u, r) ->
  accepts (admin_allows dummy q) log_next fresh_log tr.
Proof. intros Hrun. exact (proj1 (wp_sound _ _ _ _ _ _ _ _ (serve_wp dummy config q tt) Hrun)). Qed.

(** An administrator with a session cookie turns self-registration on. *)
Definition demo_admin_choose (X : Type) (c : ctl X) : X :=
  match c in ctl X return X with
  | AuthOnly _ => Ok (Some {| ac_user_id := 1; ac_email := "root@example.test"; ac_name := "Root"; ac_role := "admin";
                              ac_token_hash := "digest" |})
  | c => demo_choose _ c
  end.
Definition demo_cookie : string :=
  "theme=dark; blackglass_admin_session=0123456789abcdef0123456789abcdef0123456789abcdef0123456789abcdef".

Lemma admin_requests_authorised_witness :
  let q := UpdateRegistration (Some "1"%string) (Some demo_cookie) true in
  let p := serve "dummy" demo_config q tt in
  snd (run_with demo_admin_choose p) = (tt, Ok (AdminBody (JObj [("enabled"%string, JBool true)]))) /\
  accepts (admin_allows "dummy" q) log_next fresh_log (fst (run_with demo_admin_choose p)).
Proof.
  intros q p. split; [vm_compute; reflexivity|].
  pose proof (run_with_runs any_reply demo_admin_choose p ltac:(done)) as H.
  destruct (snd (run_with demo_admin_choose p)) as [u r].
  exact (admin_requests_authorised "dummy" demo_config q _ u r H).
Defined.
