(* ===== verification/Snapshot.v ===== *)
(** * The administrator's snapshot ([Db::admin_snapshot], [build_snapshot], [staging_facts])

    What the administration page shows: the queries on a separate read-only connection, the
    facts of the process around them, and the handler that serves them.  A query that passes
    its 250 ms deadline fails the whole snapshot; [None] stands for that. *)

From Stdlib Require Import ZArith Lia List String Ascii Bool.
From stdpp Require Import base list strings gmap pretty.
From S2P Require Import Prelude Sql Model Store Auth Accounts Vaults Io Text Staging Config Limits Json Protocol Control Admin.

Local Open Scope Z_scope.

(** ** [Db::admin_snapshot] *)
Record AdminVault := {
  av_id : string; av_name : string; av_created_at : Z; av_encryption_mode : string; av_encryption_version : Z;
  av_current_revision : Z; av_live_bytes : Z; av_retained_bytes : Z; av_file_count : Z; av_deleted_count : Z;
  av_latest_activity_at : option Z; av_latest_device : option string; av_owner_user_id : Z; av_active_collaborators : Z;
}.
Record AdminActivity := {
  aa_timestamp : Z; aa_vault_id : string; aa_vault_name : string; aa_device : string; aa_event_type : string;
  aa_extension : string; aa_size : Z; aa_revision : Z; aa_user_id : Z;
}.
Record AdminSession := { as_user_id : Z; as_created_at : Z; as_expires_at : Z; as_revoked_at : option Z }.
Record AdminUser := {
  au_id : Z; au_email : string; au_name : string; au_status : string; au_role : string; au_owned_vaults : Z;
  au_shared_vaults : Z; au_sessions : Z; au_retained_bytes : Z;
}.
Record AdminDatabaseSnapshot := {
  ad_schema_version : Z; ad_max_sessions : Z; ad_vaults : list AdminVault; ad_activity : list AdminActivity;
  ad_sessions : list AdminSession; ad_users : list AdminUser; ad_active_users : Z; ad_disabled_users : Z; ad_user_count : Z;
  ad_active_sessions : Z; ad_session_count : Z; ad_logical_bytes : Z; ad_retained_bytes : Z; ad_vault_count : Z;
  ad_activity_count : Z; ad_membership_count : Z; ad_active_memberships : Z; ad_mismatched_data_hosts : Z;
  ad_self_registration_enabled : bool;
}.

Section Queries.
Context (d : db).
Notation ruid := (fun r : revision_row => r_uid r).

(** [latest_path]: the revision is the newest of its path. *)
Definition latest_of_path (r : revision_row) : bool :=
  r_uid r =? max_of ruid (select (fun r' : revision_row => String.eqb (r_vault_id r') (r_vault_id r) && String.eqb (r_path r') (r_path r)) (revisions d)).
(** [latest_revision]: the newest revision of the vault. *)
Definition latest_revision (id : string) : option revision_row :=
  query_row (fun r : revision_row => r_uid r =? max_of ruid (select (in_vault id) (revisions d))) (select (in_vault id) (revisions d)).

Definition admin_vault (v : vault_row) : AdminVault :=
  let revs := select (in_vault (v_id v)) (revisions d) in
  {| av_id := v_id v; av_name := v_name v; av_created_at := v_created v;
     av_encryption_mode := if is_null (v_password v) then "custom-password" else "managed";
     av_encryption_version := v_encryption_version v; av_current_revision := vr_version v; av_live_bytes := v_size v;
     av_retained_bytes := total_size revs;
     av_file_count := count (fun r : revision_row => latest_of_path r && negb (r_deleted r) && negb (r_folder r)) revs;
     av_deleted_count := count (fun r : revision_row => latest_of_path r && r_deleted r) revs;
     av_latest_activity_at := option_map (fun r : revision_row => r_ts r) (latest_revision (v_id v));
     av_latest_device := option_map (fun r : revision_row => r_device r) (latest_revision (v_id v));
     av_owner_user_id := vr_owner_user_id v;
     av_active_collaborators := count (fun m => String.eqb (m_vault_id m) (v_id v) && membership_active m) (memberships d) |}.

(** The join with [vaults]. *)
Definition admin_activity (r : revision_row) : list AdminActivity :=
  map (fun v : vault_row =>
    {| aa_timestamp := r_ts r; aa_vault_id := r_vault_id r; aa_vault_name := v_name v; aa_device := r_device r;
       aa_event_type := if r_deleted r then "deleted" else if r_folder r then "folder" else "revision";
       aa_extension := r_extension r; aa_size := r_size r; aa_revision := r_uid r; aa_user_id := r_user_id r |})
    (select (fun v : vault_row => String.eqb (v_id v) (r_vault_id r)) (vaults d)).

Definition admin_session (s : session_row) : AdminSession :=
  {| as_user_id := s_user_id s; as_created_at := s_created_at s; as_expires_at := s_expires_at s; as_revoked_at := s_revoked_at s |}.

Definition admin_user (u : user_row) : AdminUser :=
  {| au_id := u_id u; au_email := u_email u; au_name := u_name u; au_status := u_status u; au_role := u_role u;
     au_owned_vaults := count (fun v : vault_row => vr_owner_user_id v =? u_id u) (vaults d);
     au_shared_vaults := count (fun m => (m_user_id m =? u_id u) && membership_active m) (memberships d);
     au_sessions := count (fun s => s_user_id s =? u_id u) (sessions d);
     au_retained_bytes := owner_stored_ciphertext_size d (u_id u) |}.

Definition admin_snapshot (expected_host : string) (now : Z) : AdminDatabaseSnapshot := {|
  ad_schema_version := CURRENT_SCHEMA_VERSION;
  ad_max_sessions := MAX_SESSIONS;
  ad_vaults := limit 100 (map admin_vault (order_by (asc (fun v : vault_row => v_created v)) (vaults d)));
  ad_activity := limit 100 (flat_map admin_activity (order_by (desc ruid) (revisions d)));
  ad_sessions := limit 100 (map admin_session (order_by (desc s_created_at) (sessions d)));
  ad_users := limit MAX_USERS (map admin_user (order_by (asc u_id) (users d)));
  ad_active_users := count (fun u => String.eqb (u_status u) "active") (users d);
  ad_disabled_users := count (fun u => String.eqb (u_status u) "disabled") (users d);
  ad_user_count := count_all (users d);
  ad_active_sessions := count (fun s => is_null (s_revoked_at s) && (now <? s_expires_at s)) (sessions d);
  ad_session_count := count_all (sessions d);
  ad_logical_bytes := sum_of (fun v : vault_row => v_size v) (vaults d);
  ad_retained_bytes := total_size (revisions d);
  ad_vault_count := count_all (vaults d);
  ad_activity_count := count_all (revisions d);
  ad_membership_count := count_all (memberships d);
  ad_active_memberships := count membership_active (memberships d);
  ad_mismatched_data_hosts := count (fun v : vault_row => negb (String.eqb (v_host v) expected_host)) (vaults d);
  ad_self_registration_enabled := ss_self_registration_enabled (settings d) =? 1;
|}.
End Queries.

(** ** [staging_facts] *)
Record StagingFacts := { sf_accessible : bool; sf_count : option Z; sf_oldest_age_seconds : option Z }.
(** [Path::extension] of a file name. *)
Definition name_extension (name : string) : option string :=
  match rsplit_once "." name with
  | Some (before, after) => if is_empty before then None else Some after
  | None => None
  end.
(** [age name]: the seconds since the file changed, when the clock and the file system tell. *)
Fixpoint count_parts (age : string -> option Z) (l : list (string * child)) (n : Z) (oldest : option Z) : Z * option Z :=
  match l with
  | [] => (n, oldest)
  | (name, _) :: l =>
      match name_extension name with
      | Some ext =>
          if String.eqb ext "part" then
            count_parts age l (n + 1) (match age name with Some a => Some (Z.max (default 0 oldest) a) | None => oldest end)
          else count_parts age l n oldest
      | None => count_parts age l n oldest
      end
  end.
(** [listing] is [None] when the directory cannot be read. *)
Definition staging_facts (age : string -> option Z) (listing : option (list (string * child))) : StagingFacts :=
  match listing with
  | None => {| sf_accessible := false; sf_count := None; sf_oldest_age_seconds := None |}
  | Some l =>
      let (n, oldest) := count_parts age (take 1024 l) 0 None in
      {| sf_accessible := true; sf_count := Some n; sf_oldest_age_seconds := oldest |}
  end.

(** ** [build_snapshot] *)
Record Counts := {
  ct_vaults_total : Z; ct_vaults_visible : Z; ct_activity_total : Z; ct_activity_visible : Z; ct_sessions_total : Z;
  ct_sessions_visible : Z; ct_users_total : Z; ct_users_visible : Z; ct_users_active : Z; ct_users_disabled : Z;
  ct_memberships_total : Z; ct_memberships_active : Z;
}.
Record Overview := { ov_healthy : bool; ov_version : string; ov_source_revision : string; ov_schema_version : Z; ov_uptime_seconds : Z }.
Record SnapshotLimits := {
  sl_per_file_bytes : Z; sl_retained_storage_bytes : Z; sl_retained_storage_bytes_per_owner : Z; sl_max_sessions : Z;
  sl_max_connections : Z; sl_max_connections_per_user : Z; sl_max_uploads : Z; sl_max_uploads_per_user : Z;
}.
Record Sessions := { se_active : Z; se_total : Z; se_items : list AdminSession }.
Record SnapshotStorage := { st_database_file_bytes : option Z; st_logical_bytes : Z; st_retained_bytes : Z }.
Record Diagnostics := {
  dg_readiness : bool; dg_schema_version : Z; dg_staging_accessible : bool; dg_staging_file_count : option Z;
  dg_oldest_staging_age_seconds : option Z; dg_data_host_mismatch : bool; dg_admin_bind : string; dg_control_bind : string;
  dg_data_bind : string; dg_tls_handled_by_server : bool; dg_transport_security : string;
}.
Record Snapshot := {
  sn_generated_at : Z; sn_overview : Overview; sn_limits : SnapshotLimits; sn_users : list AdminUser; sn_vaults : list AdminVault;
  sn_live_connections : list LiveConnection; sn_recent_activity : list AdminActivity; sn_sessions : Sessions;
  sn_storage : SnapshotStorage; sn_diagnostics : Diagnostics; sn_counts : Counts; sn_registration_enabled : bool;
}.
(** What the process knows besides the database. *)
Record facts := {
  fa_now : Z; fa_ready : bool; fa_uptime : Z; fa_version : string; fa_revision : string; fa_file_bytes : option Z;
  fa_staging : StagingFacts; fa_live : list LiveConnection;
}.
Definition len {A} (l : list A) : Z := Z.of_nat (length l).
Definition show_addr (a : IpAddr) (port : Z) : string :=
  match a with V4 o => show_ipv4 o | V6 g => show_ipv6 g end +:+ ":" +:+ pretty port.

Definition build_snapshot (config : Config) (a : AdminConfig) (f : facts) (data : AdminDatabaseSnapshot) : Snapshot := {|
  sn_generated_at := fa_now f;
  sn_overview := {| ov_healthy := fa_ready f && sf_accessible (fa_staging f); ov_version := fa_version f; ov_source_revision := fa_revision f;
                    ov_schema_version := ad_schema_version data; ov_uptime_seconds := fa_uptime f |};
  sn_limits := {| sl_per_file_bytes := per_file_max config; sl_retained_storage_bytes := storage_quota_bytes config;
                  sl_retained_storage_bytes_per_owner := storage_quota_bytes_per_owner config; sl_max_sessions := ad_max_sessions data;
                  sl_max_connections := max_ws_connections config; sl_max_connections_per_user := max_ws_connections_per_user config;
                  sl_max_uploads := max_concurrent_uploads config; sl_max_uploads_per_user := max_concurrent_uploads_per_user config |};
  sn_users := ad_users data;
  sn_vaults := ad_vaults data;
  sn_live_connections := fa_live f;
  sn_recent_activity := ad_activity data;
  sn_sessions := {| se_active := ad_active_sessions data; se_total := ad_session_count data; se_items := ad_sessions data |};
  sn_storage := {| st_database_file_bytes := fa_file_bytes f; st_logical_bytes := ad_logical_bytes data; st_retained_bytes := ad_retained_bytes data |};
  sn_diagnostics := {| dg_readiness := fa_ready f; dg_schema_version := ad_schema_version data;
                       dg_staging_accessible := sf_accessible (fa_staging f); dg_staging_file_count := sf_count (fa_staging f);
                       dg_oldest_staging_age_seconds := sf_oldest_age_seconds (fa_staging f);
                       dg_data_host_mismatch := 0 <? ad_mismatched_data_hosts data; dg_admin_bind := show_addr (adm_bind_host a) (adm_port a);
                       dg_control_bind := show_addr (bind_host config) (control_port config);
                       dg_data_bind := show_addr (bind_host config) (data_port config); dg_tls_handled_by_server := false;
                       dg_transport_security := "TLS is expected at the private reverse proxy; not observable by Blackglass" |};
  sn_counts := {| ct_vaults_total := ad_vault_count data; ct_vaults_visible := len (ad_vaults data);
                  ct_activity_total := ad_activity_count data; ct_activity_visible := len (ad_activity data);
                  ct_sessions_total := ad_session_count data; ct_sessions_visible := len (ad_sessions data);
                  ct_users_total := ad_user_count data; ct_users_visible := len (ad_users data); ct_users_active := ad_active_users data;
                  ct_users_disabled := ad_disabled_users data; ct_memberships_total := ad_membership_count data;
                  ct_memberships_active := ad_active_memberships data |};
  sn_registration_enabled := ad_self_registration_enabled data;
|}.

(** ** [snapshot]: the handler; [permit] and [data] are what the semaphore and the worker
    answer once they are asked. *)
Local Open Scope ctl_scope.
Definition snapshot_handler (config : Config) (cookie : option string) (permit : bool) (f : facts) (data : option AdminDatabaseSnapshot)
    : ctl_handler (Z + Snapshot) :=
  match admin config with
  | None => ret (inl 404)
  | Some a =>
      who <- administrator cookie ;
      match who with
      | None => ret (inl 401)
      | Some _ =>
          if negb permit then ret (inl 429) else
          match data with
          | None => ret (inl 503)
          | Some data => ret (inr (build_snapshot config a f data))
          end
      end
  end.
