(* ===== verification/SnapshotSpec.v ===== *)
(** * What the administrator's snapshot tells *)

From Stdlib Require Import ZArith Lia List String Ascii Bool.
From stdpp Require Import base list strings gmap pretty.
From S2P Require Import Prelude Sql Model Store Auth Accounts Vaults Sharing Revisions Invariant Heads Preservation Machine Scenario.
From S2P Require Import RevisionsSpec Io Text Staging Config Limits Json Protocol ProtocolSpec Control ControlSpec Admin AdminSpec Snapshot.

Local Open Scope Z_scope.

(** ** Queries on a renamed table *)
Section Renamed.
Context {A B : Type} (f : A -> B).

Lemma order_by_map (le : B -> B -> bool) l : order_by le (map f l) = map f (order_by (fun x y => le (f x) (f y)) l).
Proof.
  assert (forall x t, insert_sorted le (f x) (map f t) = map f (insert_sorted (fun x y => le (f x) (f y)) x t)) as Hins.
  { intros x t. induction t as [|y t IH]; [done|]. cbn. destruct (le (f x) (f y)); [done|]. by rewrite IH. }
  unfold order_by. induction l as [|x l IH]; [done|]. cbn. by rewrite IH, Hins.
Qed.
Lemma count_renamed (P : B -> bool) l : count P (map f l) = count (fun x => P (f x)) l.
Proof. unfold count. by rewrite select_map, length_map. Qed.
Lemma sum_renamed (g : B -> Z) l : sum_of g (map f l) = sum_of (fun x => g (f x)) l.
Proof. unfold sum_of. induction l as [|x l IH]; [done|]. cbn. by rewrite IH. Qed.
Lemma max_renamed (g : B -> Z) l : max_of g (map f l) = max_of (fun x => g (f x)) l.
Proof. unfold max_of. induction l as [|x l IH]; [done|]. cbn. by rewrite IH. Qed.
Lemma query_renamed (P : B -> bool) l : query_row P (map f l) = option_map f (query_row (fun x => P (f x)) l).
Proof. unfold query_row. rewrite select_map. by destruct (select _ l). Qed.
Lemma flat_renamed {C} (g : B -> list C) l : flat_map g (map f l) = flat_map (fun x => g (f x)) l.
Proof. induction l as [|x l IH]; [done|]. cbn. by rewrite IH. Qed.
End Renamed.

(** ** Redaction *)

(** Everything secret replaced: password hashes, token hashes, the keys of vaults, the hashes
    and contents of files, and their paths by other names. *)
Section Redact.
Context (rename : string -> string).

Definition redact_user (u : user_row) : user_row := {|
  u_id := u_id u; u_email_canonical := u_email_canonical u; u_email := u_email u; u_name := u_name u; u_password_hash := "";
  u_status := u_status u; u_created_at := u_created_at u; u_updated_at := u_updated_at u; u_role := u_role u |}.
Definition redact_vault (v : vault_row) : vault_row := {|
  vr_vault := {| v_id := v_id v; v_name := v_name v; v_keyhash := None; v_salt := None; v_host := v_host v; v_region := v_region v;
                 v_encryption_version := v_encryption_version v; v_size := v_size v; v_created := v_created v;
                 v_password := option_map (fun _ => ""%string) (v_password v) |};
  vr_version := vr_version v; vr_owner_user_id := vr_owner_user_id v |}.
Definition redact_revision (r : revision_row) : revision_row := {|
  rr_rev := {| r_uid := r_uid r; r_vault_id := r_vault_id r; r_path := rename (r_path r); r_relatedpath := None;
               r_extension := r_extension r; r_hash := ""; r_ctime := 0; r_mtime := 0; r_folder := r_folder r;
               r_deleted := r_deleted r; r_size := r_size r; r_pieces := 0; r_device := r_device r; r_user_id := r_user_id r; r_ts := r_ts r |};
  rr_content := None |}.
Definition redact_session (s : session_row) : session_row := {|
  s_token_hash := ""; s_user_id := s_user_id s; s_created_at := s_created_at s; s_expires_at := s_expires_at s; s_revoked_at := s_revoked_at s |}.
Definition redact (d : db) : db := {|
  users := map redact_user (users d); seq_users := 0; vaults := map redact_vault (vaults d);
  revisions := map redact_revision (revisions d); seq_revisions := 0; contents := []; sessions := map redact_session (sessions d);
  retired := []; memberships := memberships d; seq_memberships := None; settings := settings d; usage := 0 |}.

Context (rename_inj : forall a b, rename a = rename b -> a = b).

Lemma rename_eqb a b : String.eqb (rename a) (rename b) = String.eqb a b.
Proof using rename_inj. destruct (String.eqb_spec a b) as [->|H]; [apply String.eqb_refl|]. apply String.eqb_neq. eauto. Qed.

Lemma latest_redact d r : latest_of_path (redact d) (redact_revision r) = latest_of_path d r.
Proof using rename_inj.
  unfold latest_of_path. cbn [revisions redact redact_revision rr_rev r_uid r_vault_id r_path]. rewrite select_map, max_renamed. cbn.
  do 2 f_equal. apply select_ext. intros x _. by rewrite rename_eqb.
Qed.
Lemma latest_revision_redact d id : latest_revision (redact d) id = option_map redact_revision (latest_revision d id).
Proof using. unfold latest_revision. cbn [revisions redact]. by rewrite select_map, query_renamed, max_renamed. Qed.

Lemma vault_redact d v : admin_vault (redact d) (redact_vault v) = admin_vault d v.
Proof using rename_inj.
  unfold admin_vault. cbn [vr_vault redact_vault v_id v_name v_created v_password v_encryption_version v_size vr_version vr_owner_user_id memberships redact].
  rewrite latest_revision_redact. cbn [revisions redact]. rewrite select_map, !count_renamed. unfold total_size. rewrite sum_renamed.
  f_equal.
  - by destruct (v_password v).
  - apply count_ext. intros r _. by rewrite latest_redact.
  - apply count_ext. intros r _. by rewrite latest_redact.
  - by destruct (latest_revision d (v_id v)).
  - by destruct (latest_revision d (v_id v)).
Qed.
Lemma activity_redact d r : admin_activity (redact d) (redact_revision r) = admin_activity d r.
Proof using. unfold admin_activity. cbn [vaults redact]. rewrite select_map, map_map. reflexivity. Qed.
Lemma user_redact d u : admin_user (redact d) (redact_user u) = admin_user d u.
Proof using.
  unfold admin_user, owner_stored_ciphertext_size. cbn [vaults revisions sessions memberships redact]. rewrite sum_renamed, !count_renamed.
  f_equal. unfold sum_of. induction (revisions d) as [|r l IH]; [done|]. cbn [foldr]. rewrite count_renamed, IH. reflexivity.
Qed.
Lemma snapshot_redact d host now : admin_snapshot (redact d) host now = admin_snapshot d host now.
Proof using rename_inj.
  unfold admin_snapshot. cbn [users vaults revisions sessions memberships settings redact].
  rewrite !order_by_map, !count_renamed, !sum_renamed. unfold count_all, total_size. rewrite !length_map, sum_renamed, flat_renamed, !map_map.
  f_equal.
  - f_equal. apply map_ext. intros v. apply vault_redact.
  - f_equal. apply flat_map_ext. intros r. apply activity_redact.
  - f_equal. apply map_ext. intros u. apply user_redact.
Qed.
End Redact.

(** ** The figures *)
Lemma in_limit {A} n (l : list A) a : In a (limit n l) -> In a l.
Proof. unfold limit. destruct (n <? 0); [done|]. rewrite <- (firstn_skipn (Z.to_nat n) l) at 2. intros H. apply in_or_app. by left. Qed.
Lemma sum_swap {A B} (f : A -> B -> Z) l m :
  sum_of (fun a => sum_of (f a) m) l = sum_of (fun b => sum_of (fun a => f a b) l) m.
Proof.
  unfold sum_of. induction l as [|a l IH]; cbn [foldr].
  - clear. induction m as [|b m IHm]; cbn; [reflexivity|]. rewrite <- IHm. reflexivity.
  - rewrite IH. clear IH. induction m as [|b m IHm]; cbn [foldr]; [done|]. rewrite <- IHm. lia.
Qed.
Lemma sum_scale {A} c (f : A -> Z) l : sum_of (fun a => c * f a) l = c * sum_of f l.
Proof. unfold sum_of. induction l as [|a l IH]; cbn; [lia|]. rewrite IH. lia. Qed.

(** Every vault has exactly one owner among the users. *)
Lemma owners_partition (us : list user_row) (P : vault_row -> bool) vs :
  NoDup (map u_id us) -> (forall v, In v vs -> In (vr_owner_user_id v) (map u_id us)) ->
  sum_of (fun u => count (fun v : vault_row => P v && (vr_owner_user_id v =? u_id u)) vs) us = count P vs.
Proof.
  intros Hnd Hown. induction vs as [|v vs IH].
  - unfold sum_of, count. cbn. clear. induction us as [|u us IHu]; [done|]. cbn. exact IHu.
  - rewrite count_cons, <- IH by (intros w Hw; apply Hown; by right).
    assert (sum_of (fun u => if P v && (vr_owner_user_id v =? u_id u) then 1 else 0) us = if P v then 1 else 0) as Hone.
    { destruct (P v); cbn [andb]; [|unfold sum_of; clear; induction us; cbn; lia].
      specialize (Hown v (or_introl eq_refl)). clear -Hnd Hown. unfold sum_of. induction us as [|u us IHu]; [done|]. cbn [foldr].
      inversion Hnd as [|? ? Hn Hnd']; subst. destruct (Z.eqb_spec (vr_owner_user_id v) (u_id u)) as [E|Hne].
      - assert (foldr (fun u acc => (if vr_owner_user_id v =? u_id u then 1 else 0) + acc) 0 us = 0) as ->; [|done].
        rewrite E. clear -Hn. induction us as [|w us IHw]; [done|]. cbn [foldr]. cbn in Hn. rewrite not_elem_of_cons in Hn.
        rewrite (proj2 (Z.eqb_neq (u_id u) (u_id w))) by tauto. rewrite IHw by tauto. done.
      - destruct Hown as [E|Hin]; [congruence|]. rewrite IHu by done. done. }
    rewrite <- Hone. unfold sum_of. clear. induction us as [|u us IHu]; [done|]. cbn [foldr]. rewrite count_cons, IHu. lia.
Qed.

Lemma users_retain_all d : db_ok d -> sum_of (fun u => owner_stored_ciphertext_size d (u_id u)) (users d) = total_size (revisions d).
Proof.
  intros Hd. unfold owner_stored_ciphertext_size. rewrite sum_swap. unfold total_size. apply sum_of_ext. intros r Hr.
  rewrite sum_scale, owners_partition; [| |apply (vaults_owner _ _ _ (ok_vaults _ _ Hd))].
  - pose proof (revs_vault _ _ _ _ (ok_revs _ _ Hd) r Hr) as (v & Ev & Hv)%in_map_iff.
    rewrite (count_one vid _ _ v (vaults_nodup _ _ _ (ok_vaults _ _ Hd)) Hv); [lia|by apply String.eqb_eq|].
    intros w _ Hw%String.eqb_eq. congruence.
  - apply (increasing_nodup u_id), (users_increasing _ _ (ok_users _ _ Hd)).
Qed.

Lemma latest_head d r : db_ok d -> In r (revisions d) ->
  latest_of_path d r = in_list (r_uid r) (head_uids (revisions d) (r_vault_id r)).
Proof.
  intros Hd Hr. pose proof (revs_increasing _ _ _ _ (ok_revs _ _ Hd)) as Hinc. apply eq_true_iff_eq. rewrite in_head_uids by done.
  pose proof (revs_bounds _ _ _ _ (ok_revs _ _ Hd) r Hr) as Hpos. unfold latest_of_path. rewrite Z.eqb_eq.
  match goal with |- context [select ?P (revisions d)] => set (same := P) end. assert (In r (select same (revisions d))) as Hin.
  { apply in_select. split; [done|]. unfold same. by rewrite !String.eqb_refl. }
  pose proof (max_of_ge ruid _ r Hin) as Hge. split.
  - intros E. split; [apply in_select; split; [done|apply String.eqb_refl]|]. intros r' [Hr' Hv]%in_select Hp. rewrite E.
    apply (max_of_ge ruid), in_select. split; [done|]. unfold same, in_vault in *. by rewrite Hp, Hv, String.eqb_refl.
  - intros [_ Hle]. apply Z.le_antisymm; [done|]. apply max_of_le; [lia|]. intros r' [Hr' Hs]%in_select. unfold same in Hs. breflect.
    apply Hle; [apply in_select; split; [done|by apply String.eqb_eq]|done].
Qed.

(** The figures of the snapshot are exact.  On every database the server can reach, every
    account is listed, the retained bytes are those the quota counts and are the sum of the
    accounts' shares, the live bytes are the sizes of the newest undeleted files, each listed
    vault shows its true size and its number of live files, and a data-host mismatch is
    reported exactly when the server would refuse to start on it. *)
Theorem snapshot_exact d host now :
  db_ok d ->
  let s := admin_snapshot d host now in
  map au_id (ad_users s) = map u_id (users d) /\
  ad_retained_bytes s = stored_ciphertext_size d /\
  sum_of au_retained_bytes (ad_users s) = stored_ciphertext_size d /\
  ad_logical_bytes s = sum_of (fun v : vault_row => vault_size d (v_id v)) (vaults d) /\
  (forall a, In a (ad_vaults s) ->
     av_live_bytes a = vault_size d (av_id a) /\
     av_file_count a = count (fun r : revision_row => in_vault (av_id a) r && in_list (r_uid r) (head_uids (revisions d) (av_id a))
                                && negb (r_deleted r) && negb (r_folder r)) (revisions d)) /\
  (ad_mismatched_data_hosts s = 0 <-> mismatched_data_hosts host d = []).
Proof.
  intros Hd s. pose proof (ok_users _ _ Hd) as Hu. pose proof (ok_usage _ _ Hd) as Husage.
  assert (ad_users s = map (admin_user d) (users d)) as Eu.
  { unfold s, admin_snapshot. cbn [ad_users]. rewrite order_by_increasing by apply (users_increasing _ _ Hu). unfold limit.
    apply firstn_all2. rewrite length_map. pose proof (users_count _ _ Hu) as Hc. unfold count_all, MAX_USERS in *. lia. }
  assert (forall v, In v (vaults d) -> v_size v = vault_size d (v_id v)) as Hsize by (intros v Hv; apply (ok_sizes _ _ Hd v Hv)).
  split_and!.
  - rewrite Eu, map_map. done.
  - symmetry. exact Husage.
  - rewrite Eu, sum_renamed. unfold stored_ciphertext_size. rewrite Husage. by apply users_retain_all.
  - unfold s, admin_snapshot. cbn [ad_logical_bytes]. apply sum_of_ext. exact Hsize.
  - intros a Ha. unfold s, admin_snapshot in Ha. cbn [ad_vaults] in Ha. apply in_limit, in_map_iff in Ha as (v & <- & Hv).
    apply in_order_by in Hv. cbn [admin_vault av_live_bytes av_id av_file_count]. split; [by apply Hsize|].
    unfold count. rewrite select_select. f_equal. apply f_equal, select_ext. intros r Hr. unfold in_vault.
    destruct (String.eqb_spec (r_vault_id r) (v_id v)) as [E|]; cbn [andb]; [|done]. by rewrite (latest_head d r Hd Hr), E.
  - unfold s, admin_snapshot, mismatched_data_hosts. cbn [ad_mismatched_data_hosts]. rewrite count_zero. split.
    + intros H. rewrite select_none by done. done.
    + intros H v Hv. destruct (negb (String.eqb (v_host v) host)) eqn:E; [|done]. exfalso.
      assert (In (v_host v) []) as []. rewrite <- H. apply in_order_by, nodup_In, in_map_iff.
      exists v. split; [done|]. by apply in_select.
Qed.

Lemma snapshot_exact_witness :
  db_ok demo_db /\ map au_id (ad_users (admin_snapshot demo_db "sync.example.test" 1000)) = map u_id (users demo_db).
Proof. split; [exact demo_db_ok|]. exact (proj1 (snapshot_exact demo_db "sync.example.test" 1000 demo_db_ok)). Defined.

(** ** Who sees it, and what it cannot tell *)

(** The trace holds the live session of an administrator, found by the request's own cookie. *)
Definition shown_to_administrator (cookie : option string) (tr : list (event ctl)) : Prop :=
  exists token ctx, session_token cookie = Some token /\ In (Ev (AuthOnly token) (Ok (Some ctx))) tr /\ ac_role ctx = "admin"%string.

Lemma snapshot_handler_wp config cookie permit f data :
  mwp any_reply (fun _ _ _ => True) record (snapshot_handler config cookie permit f data)
    (fun tr _ r => forall s, r = Ok (inr s) -> shown_to_administrator cookie tr) [] tt.
Proof.
  unfold snapshot_handler. destruct (admin config) as [a|]; [|by apply mwp_ret]. apply mwp_bind.
  unfold administrator. destruct (session_token cookie) as [token|] eqn:Et; [|apply mwp_ret, mwp_ret; done].
  apply mwp_bind, mwp_perform; [done|]. intros [[ctx|]|e] _; try (apply mwp_ret, mwp_ret; done).
  apply mwp_ret. destruct (String.eqb_spec (ac_role ctx) "admin") as [Hr|]; [|by apply mwp_ret].
  destruct permit; [|by apply mwp_ret]. destruct data as [data|]; apply mwp_ret; [|done].
  intros s _. exists token, ctx. split_and!; [done| |done]. by left.
Qed.

(** C37: The snapshot gives no secret away.  On two databases that differ only in password
    hashes, token hashes, vault keys and salts, file hashes, file contents, times of files
    and the names of paths, the same request has the same answer; and a snapshot is answered
    only after the token of the request's own cookie was found to be the live session of an
    administrator. *)
Theorem snapshot_hides_secrets rename d d' config cookie permit f now tr u s :
  (forall a b, rename a = rename b -> a = b) ->
  redact rename d = redact (fun p => p) d' ->
  let serve d := snapshot_handler config cookie permit f (Some (admin_snapshot d (public_data_host config) now)) tt in
  runs any_reply (serve d) tr (u, Ok (inr s)) ->
  runs any_reply (serve d') tr (u, Ok (inr s)) /\ shown_to_administrator cookie tr.
Proof.
  intros Hinj E serve Hrun. split.
  - unfold serve. rewrite <- (snapshot_redact (fun p => p) ltac:(done) d'), <- E, snapshot_redact by done. exact Hrun.
  - destruct (wp_sound _ _ _ _ _ _ _ _ (snapshot_handler_wp config cookie permit f _) Hrun) as [_ H].
    rewrite after_record in H. exact (H s eq_refl).
Qed.

(** An administrator asks; the secrets of the sample database are replaced. *)
Definition demo_admin_config : Config :=
  let c := demo_config in
  {| bind_host := bind_host c; control_port := control_port c; data_port := data_port c; public_data_host := public_data_host c;
     database_path := database_path c; staging_dir := staging_dir c; per_file_max := per_file_max c;
     storage_quota_bytes := storage_quota_bytes c; storage_quota_bytes_per_owner := storage_quota_bytes_per_owner c;
     session_ttl := session_ttl c; websocket_idle_timeout := websocket_idle_timeout c; upload_idle_timeout := upload_idle_timeout c;
     allowed_origins := allowed_origins c; max_concurrent_uploads := max_concurrent_uploads c;
     max_concurrent_uploads_per_user := max_concurrent_uploads_per_user c; max_ws_connections := max_ws_connections c;
     max_ws_connections_per_user := max_ws_connections_per_user c; trusted_proxy := trusted_proxy c;
     admin := Some {| adm_bind_host := V4 LOCALHOST; adm_port := 3002 |}; json_logs := json_logs c;
     sharing_enabled := sharing_enabled c; sharing_canary_owner_ids := sharing_canary_owner_ids c;
     share_invites_per_source := share_invites_per_source c; share_invites_per_user := share_invites_per_user c;
     share_invite_targets_per_user := share_invite_targets_per_user c; share_invites_global := share_invites_global c |}.
Definition demo_facts : facts := {|
  fa_now := 1000; fa_ready := true; fa_uptime := 5; fa_version := "1"; fa_revision := "abc"; fa_file_bytes := Some 4096;
  fa_staging := staging_facts (fun _ => Some 7) (Some []); fa_live := [] |}.

Lemma snapshot_hides_secrets_witness :
  let hidden := redact (String "x") demo_db in
  let serve d := snapshot_handler demo_admin_config (Some demo_cookie) true demo_facts (Some (admin_snapshot d "127.0.0.1:3003" 1000)) tt in
  let tr := fst (run_with demo_admin_choose (serve demo_db)) in
  runs any_reply (serve hidden) tr (snd (run_with demo_admin_choose (serve demo_db))) /\ shown_to_administrator (Some demo_cookie) tr.
Proof.
  intros hidden serve tr.
  apply (snapshot_hides_secrets (String "x") demo_db hidden demo_admin_config (Some demo_cookie) true demo_facts 1000).
  - intros a b E. by injection E.
  - vm_compute. reflexivity.
  - exact (run_with_runs any_reply demo_admin_choose (serve demo_db) ltac:(done)).
Defined.
