(* ===== verification/Tokens.v ===== *)
(** * Random tokens and their text ([auth.rs]: [new_token], [new_managed_vault_credentials], [token_hash])

    The random generator and SHA-256 are outside the program: the bytes they return are
    arguments.  What the program adds is the hexadecimal text ([hex::encode]), and every
    place that takes a token back checks that text on its own: the admin cookie, the data
    socket, the control API and the validation of a stored database. *)

From Stdlib Require Import ZArith Lia List String Ascii Bool.
From stdpp Require Import base list strings pretty.
From S2P Require Import Prelude Sql Model Store Auth Accounts Vaults Sharing Revisions Invariant Heads Preservation Machine Scenario.
From S2P Require Import AccountsSpec Verify Io Text Staging Config Limits Json Protocol ProtocolSpec Control ControlSpec Admin AdminSpec.

Local Open Scope Z_scope.

(** ** [hex::encode] *)
Definition hex_digit (n : N) : ascii := ascii_of_N (if (n <? 10)%N then 48 + n else 87 + n).
Definition hex_byte (b : Byte.byte) : list ascii :=
  let n := Byte.to_N b in [hex_digit (n / 16); hex_digit (n mod 16)].
Definition hex_encode (b : blob) : string := string_of_list_ascii (flat_map hex_byte b).

Definition new_token (random : blob) : string := hex_encode random.
Definition new_managed_vault_credentials (password salt : blob) : string * string := (hex_encode password, hex_encode salt).
Definition token_hash (sha256 : blob -> blob) (token : string) : string :=
  hex_encode (sha256 (map byte_of_ascii (bytes_of token))).

(** ** Reading it back *)
Definition unhex_digit (c : ascii) : option N :=
  if is_ascii_digit c then Some (N_of_ascii c - 48)%N
  else if in_range 97 102 (code c) then Some (N_of_ascii c - 87)%N else None.
Fixpoint unhex (l : list ascii) : option blob :=
  match l with
  | [] => Some []
  | a :: b :: l =>
      match unhex_digit a, unhex_digit b, unhex l with
      | Some x, Some y, Some r => option_map (fun z => z :: r) (Byte.of_N (16 * x + y))
      | _, _, _ => None
      end
  | [_] => None
  end.
Definition hex_decode (s : string) : option blob := unhex (bytes_of s).

(** A fact of one byte, checked on all 256. *)
Ltac all_bytes_of b := destruct b; vm_compute; reflexivity.

Lemma hex_byte_roundtrip b l : unhex (hex_byte b ++ l) = option_map (fun r => b :: r) (unhex l).
Proof.
  assert (exists x y c d, hex_byte b = [c; d] /\ unhex_digit c = Some x /\ unhex_digit d = Some y /\ Byte.of_N (16 * x + y) = Some b)
    as (x & y & c & d & -> & Hx & Hy & Hb).
  { eexists _, _, _, _. split; [reflexivity|].
    assert (unhex_digit (hex_digit (Byte.to_N b / 16)) = Some (Byte.to_N b / 16)%N) as -> by all_bytes_of b.
    assert (unhex_digit (hex_digit (Byte.to_N b mod 16)) = Some (Byte.to_N b mod 16)%N) as -> by all_bytes_of b.
    split; [reflexivity|]. split; [reflexivity|]. all_bytes_of b. }
  cbn [app unhex]. rewrite Hx, Hy. destruct (unhex l); cbn [option_map]; [|done]. by rewrite Hb.
Qed.
Lemma hex_roundtrip b : hex_decode (hex_encode b) = Some b.
Proof.
  unfold hex_decode, hex_encode. rewrite bytes_of_string. induction b as [|x b IH]; [done|]. cbn [flat_map].
  by rewrite hex_byte_roundtrip, IH.
Qed.
Lemma hex_inj a b : hex_encode a = hex_encode b -> a = b.
Proof. intros E. pose proof (hex_roundtrip a) as H. rewrite E, hex_roundtrip in H. by injection H. Qed.

(** ** Its shape *)
Lemma hex_bytes_ok (p : ascii -> bool) b :
  (forall c, is_lower_hexdigit c = true -> p c = true) -> forallb p (flat_map hex_byte b) = true.
Proof.
  intros H. induction b as [|x b IH]; [done|]. cbn [flat_map]. rewrite forallb_app, IH, andb_true_r. cbn [hex_byte forallb].
  rewrite andb_true_r. apply andb_true_iff. split; apply H; all_bytes_of x.
Qed.
Lemma hex_length b : length (flat_map hex_byte b) = (2 * length b)%nat.
Proof. induction b as [|x b IH]; [done|]. cbn [flat_map hex_byte length app]. lia. Qed.
Lemma hex_len b : str_len (hex_encode b) = 2 * blob_len b.
Proof. unfold hex_encode, blob_len. rewrite str_len_bytes, bytes_of_string, hex_length. lia. Qed.
Lemma hex_all p b : (forall c, is_lower_hexdigit c = true -> p c = true) -> all_bytes p (hex_encode b) = true.
Proof. intros H. unfold all_bytes, hex_encode. rewrite bytes_of_string. by apply hex_bytes_ok. Qed.

Lemma token_shape b : length b = 32%nat -> lower_hex64 (hex_encode b) = true.
Proof. intros H. unfold lower_hex64. rewrite hex_len, hex_all by done. unfold blob_len. by rewrite H. Qed.
Lemma lower_hex64_hex64 s : lower_hex64 s = true -> hex64 s = true.
Proof.
  unfold lower_hex64, hex64, all_bytes. intros [-> H]%andb_true_iff. apply forallb_forall. intros c Hc.
  apply lower_hexdigit_hexdigit. by apply (proj1 (forallb_forall _ _) H).
Qed.

(** SQLite sees the whole text: no byte of it is NUL and each is a character. *)
Lemma hex_before_nul b : before_nul (flat_map hex_byte b) = flat_map hex_byte b.
Proof.
  assert (forallb (fun c => negb (code c =? 0)) (flat_map hex_byte b) = true) as H by (apply hex_bytes_ok; intros c; all_256 c).
  induction (flat_map hex_byte b) as [|c l IH]; [done|]. cbn in *. destruct (code c =? 0); cbn in H; [done|]. by rewrite IH.
Qed.
Lemma filter_all {A} (p : A -> bool) l : forallb p l = true -> List.filter p l = l.
Proof. induction l as [|x l IH]; cbn; [done|]. intros [-> H]%andb_true_iff. by rewrite IH. Qed.
Lemma hex_sqlite_length b : sqlite_length (hex_encode b) = 2 * blob_len b.
Proof.
  unfold sqlite_length, char_count, hex_encode, blob_len. rewrite bytes_of_string, hex_before_nul, filter_all.
  - rewrite hex_length. lia.
  - apply hex_bytes_ok. intros c. all_256 c.
Qed.
Lemma hex_glob b : glob_outside is_lower_hexdigit (hex_encode b) = false.
Proof.
  unfold glob_outside, hex_encode. rewrite bytes_of_string, hex_before_nul. apply not_true_iff_false.
  intros (c & Hc & Hn)%existsb_exists. pose proof (proj1 (forallb_forall _ _) (hex_bytes_ok is_lower_hexdigit b (fun _ H => H)) c Hc) as H.
  by rewrite H in Hn.
Qed.

(** A vault with managed credentials passes the validation of its credentials. *)
Lemma managed_credentials_valid v password salt :
  length password = 32%nat -> length salt = 16%nat ->
  v_password (vr_vault v) = Some (fst (new_managed_vault_credentials password salt)) ->
  v_salt (vr_vault v) = Some (snd (new_managed_vault_credentials password salt)) -> v_keyhash (vr_vault v) = None ->
  credential_shape_valid v = true.
Proof.
  intros Hp Hs Ep Es Ek. unfold credential_shape_valid. rewrite Ep, Es, Ek. cbn [new_managed_vault_credentials fst snd].
  rewrite !hex_sqlite_length, !hex_glob. unfold blob_len. by rewrite Hp, Hs.
Qed.

(** ** The cookie *)

(** Printable ASCII without the separators of a [Cookie] header. *)
Definition plain (c : ascii) : bool := in_range 33 126 (code c) && negb (Ascii.eqb c ";").

Lemma plain_scalar c : plain c = true -> is_whitespace [c] = false /\ continues c = false.
Proof. all_256 c; intros _; split; reflexivity. Qed.
Lemma chars_plain l : forallb (fun c => negb (continues c)) l = true -> chars l = map (fun c => [c]) l.
Proof.
  induction l as [|c l IH]; [done|]. cbn [forallb]. intros [_ H]%andb_true_iff. cbn [chars]. rewrite (IH H).
  destruct l as [|d l]; [done|]. cbn [map]. cbn in H. apply andb_true_iff in H as [Hd _]. by destruct (continues d).
Qed.
Lemma concat_single {A} (l : list A) : List.concat (map (fun c => [c]) l) = l.
Proof. induction l as [|x l IH]; [done|]. cbn. by rewrite IH. Qed.
Lemma drop_chars_plain l : forallb plain l = true -> drop_chars is_whitespace (map (fun c => [c]) l) = map (fun c => [c]) l.
Proof. destruct l as [|c l]; [done|]. cbn [forallb map drop_chars]. intros [H _]%andb_true_iff. by rewrite (proj1 (plain_scalar c H)). Qed.
Lemma plain_not_continues l : forallb plain l = true -> forallb (fun c => negb (continues c)) l = true.
Proof. rewrite !forallb_forall. intros H c Hc. by rewrite (proj2 (plain_scalar c (H c Hc))). Qed.

Lemma trim_plain l : forallb plain l = true -> trim (string_of_list_ascii l) = string_of_list_ascii l.
Proof.
  intros H. unfold trim, chars_of, string_of_chars. rewrite bytes_of_string, chars_plain by (by apply plain_not_continues).
  rewrite drop_chars_plain, <- map_rev, drop_chars_plain by (rewrite ?forallb_rev; done). by rewrite map_rev, rev_involutive, concat_single.
Qed.
Lemma trim_spaced l : forallb plain l = true -> trim (String " " (string_of_list_ascii l)) = string_of_list_ascii l.
Proof.
  intros H. etransitivity; [|exact (trim_plain l H)]. unfold trim, chars_of. change (bytes_of (String " " ?s)) with (" "%char :: bytes_of s).
  rewrite bytes_of_string, (chars_plain (_ :: l)), chars_plain by (cbn; rewrite ?plain_not_continues by done; done). done.
Qed.
Lemma split_plain l rest :
  forallb plain l = true -> split_bytes ";" (l ++ rest) = match split_bytes ";" rest with p :: ps => (l ++ p) :: ps | [] => [l] end.
Proof.
  intros H. induction l as [|c l IH]; cbn [app]; [by destruct (split_bytes _ rest) eqn:E; [destruct rest; cbn in E; [|repeat case_match]|]|].
  cbn [forallb] in H. apply andb_true_iff in H as [Hc H]. cbn [split_bytes].
  assert (Ascii.eqb c ";" = false) as -> by (unfold plain in Hc; apply andb_true_iff in Hc as [_ Hc]; by apply negb_true_iff in Hc).
  rewrite (IH H). by destruct (split_bytes ";" rest).
Qed.

(** The [Cookie] header a browser sends: what it holds for the server, separated by "; ". *)
Fixpoint cookie_bytes (others : list (list ascii)) (last : list ascii) : list ascii :=
  match others with
  | [] => last
  | o :: os => o ++ ";"%char :: " "%char :: cookie_bytes os last
  end.
Definition cookie_header (others : list string) (pair : string) : string :=
  string_of_list_ascii (cookie_bytes (map bytes_of others) (bytes_of pair)).
(** The pair of a [Set-Cookie] header, before its attributes. *)
Definition cookie_pair (set_cookie : string) : string := match split ";" set_cookie with p :: _ => p | [] => ""%string end.
Definition other_cookie (o : string) : Prop :=
  all_bytes plain o = true /\ strip_prefix (ADMIN_SESSION_COOKIE +:+ "=") o = None.

Lemma string_of_bytes s : string_of_list_ascii (bytes_of s) = s.
Proof. apply string_of_list_ascii_of_string. Qed.

Lemma find_cookie_last others pair token :
  Forall other_cookie others -> all_bytes plain pair = true -> strip_prefix (ADMIN_SESSION_COOKIE +:+ "=") pair = Some token ->
  exists p ps, split_bytes ";" (cookie_bytes (map bytes_of others) (bytes_of pair)) = p :: ps /\
    find_cookie (map (fun l => trim (string_of_list_ascii l)) (p :: ps)) = Some token /\
    find_cookie (map (fun l => trim (string_of_list_ascii l)) ((" "%char :: p) :: ps)) = Some token.
Proof.
  intros Ho Hp Hs. induction Ho as [|o others [Hplain Hnone] _ (p & ps & Esplit & IH1 & IH2)]; cbn [map cookie_bytes].
  - exists (bytes_of pair), []. rewrite <- (app_nil_r (bytes_of pair)) at 1. rewrite split_plain by done. cbn [split_bytes].
    rewrite app_nil_r. split; [done|]. cbn [map find_cookie string_of_list_ascii]. rewrite trim_spaced, trim_plain by done.
    rewrite string_of_bytes, Hs. done.
  - exists (bytes_of o), ((" "%char :: p) :: ps). rewrite split_plain by done. cbn [split_bytes Ascii.eqb Bool.eqb].
    rewrite Esplit, app_nil_r. split; [done|]. cbn [map find_cookie string_of_list_ascii] in *. rewrite (trim_spaced (bytes_of o) Hplain), (trim_plain (bytes_of o) Hplain).
    rewrite string_of_bytes, Hnone. done.
Qed.

Lemma session_token_returned others pair token :
  Forall other_cookie others -> all_bytes plain pair = true -> strip_prefix (ADMIN_SESSION_COOKIE +:+ "=") pair = Some token ->
  lower_hex64 token = true -> session_token (Some (cookie_header others pair)) = Some token.
Proof.
  intros Ho Hp Hs Ht. destruct (find_cookie_last others pair token Ho Hp Hs) as (p & ps & E & Hf & _).
  unfold session_token, split, cookie_header. rewrite bytes_of_string, E, map_map, Hf, Ht. done.
Qed.

Lemma cookie_pair_plain pair attributes :
  all_bytes plain pair = true -> cookie_pair (pair +:+ ";" +:+ attributes) = pair.
Proof.
  intros H. unfold cookie_pair, split. rewrite bytes_app, split_plain by done.
  change (bytes_of (";" +:+ attributes)) with (";"%char :: bytes_of attributes). cbn [split_bytes Ascii.eqb Bool.eqb map].
  by rewrite app_nil_r, string_of_bytes.
Qed.

(** ** Signing in as administrator *)
Lemma login_wp dummy config source email password :
  mwp any_reply (fun _ _ _ => True) record (login dummy config source email password)
    (fun tr _ r => forall cookie body, r = Ok (AdminCookie 200 cookie body) ->
       exists user token, In (Ev (IssueSession user (session_ttl config)) (Ok token)) tr /\
         exists attributes, cookie = ADMIN_SESSION_COOKIE +:+ "=" +:+ token +:+ ";" +:+ attributes) [] tt.
Proof.
  unfold login. apply mwp_bind, mwp_try, mwp_any; [done|]. intros st s user. destruct (match user with Ok u => _ | Err _ => _ end) as [u|].
  - apply mwp_bind, mwp_try, mwp_query; [done| |].
    + intros token. apply mwp_bind, mwp_perform; [done|]. intros x _. apply mwp_ret. intros cookie body Hc. injection Hc as <- _.
      exists (uc_id u), token. split; [apply in_or_app; left; apply in_or_app; right; by left|]. by eexists.
    + intros e. apply mwp_ret. done.
  - apply mwp_bind, mwp_perform; [done|]. intros [wait|] _; apply mwp_ret; done.
Qed.

Lemma hexdigit_plain c : is_lower_hexdigit c = true -> plain c = true.
Proof. all_256 c. Qed.


Definition demo_random : blob := repeat Byte.xa7 32.
Definition demo_sha256 (_ : blob) : blob := repeat Byte.x5c 32.
Definition demo_login_choose (X : Type) (c : ctl X) : X :=
  match c in ctl X return X with
  | SigninCandidate _ => Ok (Some {| uc_id := 1; uc_email := "root@example.test"; uc_name := "Root"; uc_password_hash := "$argon2id$demo";
                                     uc_active := true; uc_role := "admin" |})
  | IssueSession _ _ => Ok (new_token demo_random)
  | c => demo_choose _ c
  end.
