(* ===== verification/Lanes.v ===== *)
(** * The handlers and the pools

    Every handler of the data socket, of the control API, of the account page and of the
    administration API takes its permits in the order of [rank] and returns them all. *)

From Stdlib Require Import ZArith Lia List String Bool.
From stdpp Require Import base list strings gmap.
From S2P Require Import Prelude Sql Model Auth Accounts Io Text Config Json Limits Reservations Protocol World ProtocolSpec.
From S2P Require Import Control ControlSpec Admin AdminSpec Snapshot Pools PoolsSpec.

Local Open Scope Z_scope.

(** ** The commands of the data socket and of the control API *)
Definition is_granted (a : acquired) : bool := match a with Granted => true | _ => false end.
Definition cmd_use (X : Type) (c : cmd X) : use :=
  match c with
  | SessionActive _ _ | RenewSession _ _ _ | Lookup _ _ | CurrentVersion _ | ReplayPage _ _ _ _ | AddEmpty _ _ _ _
  | AddFile _ _ _ _ _ | StoredSizes _ | SizeReport _ | Usernames _ | GetPullInfo _ | ContentChunk _ _ _ | History _ _ _ _
  | DeletedPage _ _ _ | Restore _ _ _ _ _ _ | Purge _ _ _ => Database
  | LockCommits => Take CommitOrder 1
  | UnlockCommits => Give CommitOrder 1
  | AcquireBulk => Take BulkMemory 1
  | DropBulk => Give BulkMemory 1
  | AcquirePull => Take Pulls 1
  | DropPull => Give Pulls 1
  | AcquireLarge => Take LargeResponses 1
  | DropLarge => Give LargeResponses 1
  | _ => Local
  end.
Definition cmd_granted (X : Type) (c : cmd X) : X -> bool :=
  match c in cmd X return X -> bool with
  | AcquireBulk | AcquirePull | AcquireLarge => is_granted
  | _ => fun _ => true
  end.
Lemma cmd_answerable X (c : cmd X) : exists x, cmd_granted X c x = true.
Proof.
  destruct c; first [by exists tt | by exists true | by exists Granted | by exists (Err (Bail "")) | by exists ChannelClosed
                    | by exists None | by exists (0, 0) ].
Qed.
#[export] Instance cmd_pooled : Pooled cmd := {| use_of := cmd_use; granted := cmd_granted; answerable := cmd_answerable |}.

Definition ctl_use (X : Type) (c : ctl X) : use :=
  match c with
  | AcquireCheck => Take AuthChecks 1
  | DropCheck => Give AuthChecks 1
  | AcquirePasswordMemory => Take BulkMemory ARGON2_MEMORY_PERMITS
  | DropPasswordMemory => Give BulkMemory ARGON2_MEMORY_PERMITS
  | LockCommit => Take CommitOrder 1
  | UnlockCommit => Give CommitOrder 1
  | SigninCandidate _ | IssueSession _ _ | SelfRegistrationEnabled | CreateSelfRegistered _ _ _ | AuthRenew _ _ | AuthOnly _
  | RevokeSession _ | ListVaults _ | ListShared _ | ListShares _ _ | Invite _ _ _ _ | OwnerOf _ | RemoveShare _ _ _ _
  | CreateVault _ _ _ | FindAuthorized _ _ | BindKeyhash _ _ _ _ | FindOwned _ _ | MigrateVault _ _ _ _ | RenameVault _ _ _ _
  | DeleteVault _ _ _ | SetSelfRegistration _ _ => Database
  | _ => Local
  end.
Definition ctl_granted (X : Type) (c : ctl X) : X -> bool :=
  match c in ctl X return X -> bool with
  | AcquireCheck => fun x => x
  | AcquirePasswordMemory => fun x => match x with Ok b => b | Err _ => false end
  | _ => fun _ => true
  end.
Lemma ctl_answerable X (c : ctl X) : exists x, ctl_granted X c x = true.
Proof. by exists (demo_choose X c); destruct c. Qed.
#[export] Instance ctl_pooled : Pooled ctl := {| use_of := ctl_use; granted := ctl_granted; answerable := ctl_answerable |}.

(** ** The discipline as a monitor of the handlers *)
Section Monitor.
Context {E : Type -> Type} `{Pooled E}.
Definition pool_allowed (X : Type) (h : permits) (c : E X) : Prop :=
  match use_of c with
  | Local | Database => below DbWorkers h
  | Take p n => 1 <= n <= capacity p /\ p <> DbWorkers /\ below p h
  | Give p n => In (p, n) h
  end.
Definition pool_next (X : Type) (h : permits) (c : E X) (x : X) : permits :=
  match use_of c with
  | Local | Database => h
  | Take p n => if granted c x then (p, n) :: h else h
  | Give p n => give_back (p, n) h
  end.
Lemma wp_ordered {A} (p : io E A) h :
  wp (fun _ _ _ => True) pool_allowed pool_next p (fun h' _ => h' = []) h -> ordered h (lane_of p).
Proof.
  revert h. induction p as [a|X c k IH]; intros h; cbn [wp lane_of ordered]; [done|]. intros [Ha Hk].
  split; [apply answerable|]. unfold pool_allowed, pool_next in *. destruct (use_of c).
  - split; [done|]. intros x. by apply IH, Hk.
  - split; [done|]. intros x. by apply IH, Hk.
  - destruct Ha as (Hn & Hp & Hb). split_and!; [lia..|done|done|]. intros x. by apply IH, Hk.
  - split; [done|]. intros x. by apply IH, Hk.
Qed.
End Monitor.

Lemma give_head q h : give_back q (q :: h) = h.
Proof. cbn. by rewrite bool_decide_true. Qed.
Lemma below_le p q h : below p h -> rank p <= rank q -> below q h.
Proof. unfold below. intros Hb Hr. eapply List.Forall_impl; [|exact Hb]. cbn. lia. Qed.
Lemma below_cons p q h : rank (fst q) < rank p -> below p h -> below p (q :: h).
Proof. by constructor. Qed.
Ltac belows :=
  repeat (apply below_cons; [cbn; lia|]); first [assumption | eapply below_le; [eassumption|cbn; lia] | by constructor].

Create HintDb pools discriminated.

(** ** The handlers of the data socket *)
Section Sockets.
Context (token_hash : string -> string) (notice_len : PushNotice -> Z) (json_len : json -> Z).
Context (config : Config) (fuel : nat).
Notation pwp := (mwp any_answer pool_allowed pool_next).

(** The handler takes permits from [p] upwards, and ends with those it started with. *)
Definition keeps {A} (p : pool) (m : handler A) : Prop :=
  forall h s, below p h -> pwp m (fun h' _ _ => h' = h) h s.
Lemma keeps_use {A} p (m : handler A) (Q : permits -> Session -> result A -> Prop) h s :
  keeps p m -> below p h -> (forall s' r, Q h s' r) -> pwp m Q h s.
Proof. intros Hm Hb HQ. eapply mwp_mono; [|by apply Hm]. intros h' s' r ->. auto. Qed.

Ltac allowed := cbv [pool_allowed use_of cmd_pooled cmd_use]; first [belows | by left | split_and!; [done..|belows]].
Ltac normal := cbv [pool_next use_of granted cmd_pooled cmd_use cmd_granted is_granted] in *; rewrite ?give_head.
Ltac pgo :=
  repeat first
    [ match goal with
      | |- mwp _ _ _ _ _ _ _ => eapply keeps_use; [solve [eauto with pools nocore]|belows|intros ? ?]
      end
    | wstep ltac:(allowed); normal
    | progress cbn [negb] ]; try done.

Lemma active_keeps : keeps DbWorkers session_active.
Proof. intros h s Hb. unfold session_active. pgo. Qed.
Lemma renew_keeps : keeps DbWorkers (renew_active_session config).
Proof. intros h s Hb. unfold renew_active_session. pgo. Qed.
Lemma publish_keeps r : keeps DbWorkers (publish_committed notice_len r).
Proof. intros h s Hb. unfold publish_committed. pgo. Qed.
Lemma await_keeps n e : keeps DbWorkers (await_own_event n e).
Proof.
  pose proof active_keeps. induction n as [|n IH]; intros h s Hb; cbn [await_own_event]; pgo.
Qed.
Hint Resolve active_keeps renew_keeps publish_keeps await_keeps : pools.
Lemma acknowledge_keeps e b : keeps DbWorkers (acknowledge_commit json_len fuel e b).
Proof. intros h s Hb. unfold acknowledge_commit. pgo. Qed.
Lemma settle_keeps r : keeps DbWorkers (settle_commit notice_len r).
Proof. intros h s Hb. unfold settle_commit. pgo. Qed.
Lemma release_keeps user : keeps DbWorkers (release_upload user).
Proof. intros h s Hb. unfold release_upload. pgo. Qed.
Lemma discard_keeps_pools : keeps DbWorkers discard_pending_upload.
Proof. intros h s Hb. unfold discard_pending_upload. pgo. Qed.
Hint Resolve acknowledge_keeps settle_keeps release_keeps discard_keeps_pools : pools.

Lemma send_page_keeps page cursor : keeps BulkMemory (send_page json_len page cursor).
Proof. revert cursor. induction page as [|r page IH]; intros cursor h s Hb; cbn [send_page]; pgo. Qed.
Hint Resolve send_page_keeps : pools.
Lemma replay_pages_keeps n initial v cursor ready : keeps BulkMemory (replay_pages json_len n initial v cursor ready).
Proof. revert cursor. induction n as [|n IH]; intros cursor h s Hb; cbn [replay_pages]; pgo. Qed.
Hint Resolve replay_pages_keeps : pools.
Lemma init_keeps_pools j : keeps BulkMemory (init token_hash json_len config j).
Proof. intros h s Hb. unfold init, init_accepted, subscribe_and_replay, replay_and_ready. pgo. Qed.
Lemma push_empty_keeps r : keeps CommitOrder (push_empty notice_len json_len config fuel r).
Proof. intros h s Hb. unfold push_empty. pgo. Qed.
Lemma push_file_keeps r : keeps CommitOrder (push_file json_len config r).
Proof. intros h s Hb. unfold push_file. pgo. Qed.
Hint Resolve init_keeps_pools push_empty_keeps push_file_keeps : pools.
Lemma begin_push_keeps j : keeps CommitOrder (begin_push notice_len json_len config fuel j).
Proof. intros h s Hb. unfold begin_push. pgo. Qed.
Lemma finish_upload_keeps p : keeps CommitOrder (finish_upload notice_len json_len config fuel p).
Proof. intros h s Hb. unfold finish_upload. pgo. Qed.
Hint Resolve begin_push_keeps finish_upload_keeps : pools.
Lemma upload_chunk_keeps bytes : keeps BulkMemory (upload_chunk notice_len json_len config fuel bytes).
Proof. intros h s Hb. unfold upload_chunk. pgo. Qed.
Lemma send_piece_keeps uid offset_ len : keeps Pulls (send_piece config uid offset_ len).
Proof. intros h s Hb. unfold send_piece. pgo. Qed.
Hint Resolve upload_chunk_keeps send_piece_keeps : pools.
Lemma send_frames_keeps n uid size offset_ : keeps Pulls (send_frames config n uid size offset_).
Proof. revert offset_. induction n as [|n IH]; intros offset_ h s Hb; cbn [send_frames]; pgo. Qed.
Hint Resolve send_frames_keeps : pools.
Lemma pull_keeps j : keeps Pulls (pull json_len config j).
Proof. intros h s Hb. unfold pull. pgo. Qed.
Lemma large_keeps m : keeps CommitOrder m -> keeps LargeResponses (with_large_response m).
Proof. intros Hm h s Hb. unfold with_large_response. pgo. Qed.
Lemma history_keeps j : keeps LargeResponses (history json_len j).
Proof. apply large_keeps. intros h s Hb. pgo. Qed.
Lemma deleted_pages_keeps n v b after_ len items : keeps DbWorkers (deleted_pages json_len n v b after_ len items).
Proof. revert after_ len items. induction n as [|n IH]; intros after_ len items h s Hb; cbn [deleted_pages]; pgo. Qed.
Hint Resolve pull_keeps history_keeps deleted_pages_keeps : pools.
Lemma deleted_keeps j : keeps LargeResponses (deleted json_len fuel j).
Proof. apply large_keeps. intros h s Hb. pgo. Qed.
Lemma restore_keeps j : keeps CommitOrder (restore notice_len json_len config fuel j).
Proof. intros h s Hb. unfold restore. pgo. Qed.
Lemma size_keeps : keeps CommitOrder (size_report json_len config).
Proof. intros h s Hb. unfold size_report. pgo. Qed.
Lemma usernames_keeps : keeps DbWorkers (usernames json_len).
Proof. intros h s Hb. unfold usernames. pgo. Qed.
Lemma purge_keeps : keeps CommitOrder (purge json_len).
Proof. intros h s Hb. unfold purge. pgo. Qed.
Hint Resolve deleted_keeps restore_keeps size_keeps usernames_keeps purge_keeps : pools.
Lemma dispatch_keeps op j : keeps Pulls (dispatch notice_len json_len config fuel op j).
Proof. intros h s Hb. unfold dispatch. pgo. Qed.
Hint Resolve dispatch_keeps : pools.
Lemma handle_message_keeps_pools m : keeps Pulls (handle_message token_hash notice_len json_len config fuel m).
Proof. intros h s Hb. unfold handle_message. pgo. Qed.
Hint Resolve handle_message_keeps_pools : pools.
Lemma deliver_keeps_pools b m : keeps Pulls (deliver token_hash notice_len json_len config fuel b m).
Proof. intros h s Hb. unfold deliver. pgo. Qed.
Hint Resolve deliver_keeps_pools : pools.
Lemma turn_keeps_pools w : keeps Pulls (turn token_hash notice_len json_len config fuel w).
Proof. intros h s Hb. unfold turn. pgo. Qed.
Hint Resolve turn_keeps_pools : pools.
Lemma socket_loop_keeps ws : keeps Pulls (socket_loop token_hash notice_len json_len config fuel ws).
Proof. induction ws as [|w ws IH]; intros h s Hb; cbn [socket_loop]; pgo. Qed.

Lemma socket_ordered ws s : ordered [] (lane_of (socket_loop token_hash notice_len json_len config fuel ws s)).
Proof. apply wp_ordered. apply (socket_loop_keeps ws [] s). constructor. Qed.
End Sockets.

(** ** The handlers of the control API, the account page and the administration API *)
Section Requests.
Context (dummy : string) (config : Config).
Notation rwp := (mwp any_reply pool_allowed pool_next).

Definition request_keeps {A} (p : pool) (m : ctl_handler A) : Prop :=
  forall h s, below p h -> rwp m (fun h' _ _ => h' = h) h s.
Lemma request_use {A} p (m : ctl_handler A) (Q : permits -> unit -> result A -> Prop) h s :
  request_keeps p m -> below p h -> (forall s' r, Q h s' r) -> rwp m Q h s.
Proof. intros Hm Hb HQ. eapply mwp_mono; [|by apply Hm]. intros h' s' r ->. auto. Qed.
Lemma give_tail q q' h : q' <> q -> give_back q (q' :: h) = q' :: give_back q h.
Proof. intros Hq. cbn. by rewrite bool_decide_false. Qed.

Lemma registration_rule {X} (c : ctl (result X)) (Q : permits -> unit -> result (option X) -> Prop) h s :
  pool_allowed _ h c -> (forall x, Q (pool_next _ h c (Ok x)) s (Ok (Some x))) -> (forall e, Q (pool_next _ h c (Err e)) s (Ok None)) ->
  rwp (registration_query c) Q h s.
Proof. intros Ha Ho He. apply mwp_bind, mwp_perform; [exact Ha|]. intros [x|e] _; apply mwp_ret; auto. Qed.

Ltac allowed := cbv [pool_allowed use_of ctl_pooled ctl_use]; first [belows | by left | by right; left | split_and!; [done..|belows]].
Ltac normal :=
  cbv [pool_next use_of granted ctl_pooled ctl_use ctl_granted] in *; rewrite ?give_head, ?give_tail, ?give_head by done.
Ltac rgo :=
  repeat first
    [ match goal with
      | |- mwp _ _ _ _ _ _ _ => eapply request_use; [solve [eauto with pools nocore]|belows|intros ? ?]
      end
    | cstep ltac:(allowed); normal
    | match goal with
      | |- mwp _ _ _ (registration_query _) _ _ _ =>
          apply registration_rule; [allowed|let x := fresh "x" in intros x; split_bool x|intros ?]; normal
      end
    | progress cbn [negb] ]; try done.

Lemma authenticate_keeps source email password : request_keeps AuthChecks (authenticate_credentials dummy source email password).
Proof. intros h s Hb. unfold authenticate_credentials. rgo. Qed.
Lemma issue_keeps user : request_keeps DbWorkers (issue_user_session config user).
Proof. intros h s Hb. unfold issue_user_session. rgo. Qed.
Hint Resolve authenticate_keeps issue_keeps : pools.
Lemma signin_keeps source v : request_keeps AuthChecks (signin dummy config source v).
Proof. intros h s Hb. unfold signin. rgo. Qed.
Lemma register_keeps source email name password : request_keeps AuthChecks (register_account source email name password).
Proof. intros h s Hb. unfold register_account. rgo. Qed.
Hint Resolve signin_keeps register_keeps : pools.
Lemma signup_keeps source email name password : request_keeps AuthChecks (signup source email name password).
Proof. intros h s Hb. unfold signup. rgo. Qed.
Lemma route_keeps path source ctx token v : request_keeps CommitOrder (route config path source ctx token v).
Proof.
  intros h s Hb. unfold route, signout, vault_list, shared_inventory, create_vault, access_vault, migrate_vault, rename_vault, delete_vault,
    share_list, share_invite, share_remove, vault_credentials, new_vault. rgo.
Qed.
Hint Resolve route_keeps : pools.
Lemma authorized_keeps path source v : request_keeps CommitOrder (authorized_control config path source v).
Proof. intros h s Hb. unfold authorized_control. rgo. Qed.
Hint Resolve authorized_keeps : pools.

Lemma control_keeps path source origin body : request_keeps AuthChecks (control dummy config path source origin body).
Proof.
  intros h s Hb. unfold control. destruct (negb _); [by apply mwp_ret|]. destruct body as [v|]; [|by apply mwp_ret].
  unfold Io.mwp. apply wp_bind. eapply (wp_mono _ _ _ _ (fun h' _ => h' = h)); [intros h' [s' r] ->; done|].
  destruct (String.eqb path "/user/signin"); [by apply signin_keeps|]. destruct (existsb _ _); [done|].
  apply authorized_keeps. eapply below_le; [exact Hb|cbn; lia].
Qed.

Lemma try_rule {A} (m : ctl_handler A) (Q : permits -> unit -> result (result A) -> Prop) h s :
  rwp m (fun h s r => Q h s (Ok r)) h s -> rwp (try_ m) Q h s.
Proof. intros H. unfold Io.mwp, try_. apply wp_bind. eapply wp_mono; [|exact H]. done. Qed.
Ltac tgo := repeat first [progress rgo | match goal with |- mwp _ _ _ (try_ _) _ _ _ => apply try_rule end]; try done.

Lemma login_keeps source email password : request_keeps AuthChecks (login dummy config source email password).
Proof. intros h s Hb. unfold login. tgo. Qed.
Lemma logout_keeps header cookie : request_keeps DbWorkers (logout header cookie).
Proof. intros h s Hb. unfold logout. tgo. Qed.
Lemma administrator_keeps cookie : request_keeps DbWorkers (administrator cookie).
Proof. intros h s Hb. unfold administrator. tgo. Qed.
Hint Resolve administrator_keeps : pools.
Lemma session_status_keeps cookie : request_keeps DbWorkers (session_status cookie).
Proof. intros h s Hb. unfold session_status. tgo. Qed.
Lemma update_registration_keeps header cookie enabled : request_keeps DbWorkers (update_registration header cookie enabled).
Proof. intros h s Hb. unfold update_registration. tgo. Qed.
Lemma snapshot_keeps cookie permit f data : request_keeps DbWorkers (snapshot_handler config cookie permit f data).
Proof. intros h s Hb. unfold snapshot_handler. tgo. Qed.

Lemma registration_status_keeps : request_keeps DbWorkers registration_status.
Proof. intros h s Hb. unfold registration_status. tgo. Qed.

Lemma request_ordered {A} p (m : ctl_handler A) : request_keeps p m -> ordered [] (lane_of (m tt)).
Proof. intros H. apply wp_ordered. apply (H [] tt). constructor. Qed.
End Requests.


(** ** The lanes of the server *)
Inductive server_lane : lane -> Prop :=
| lane_socket token_hash notice_len json_len config fuel ws :
    server_lane (lane_of (socket_loop token_hash notice_len json_len config fuel ws new_session))
| lane_control dummy config path source origin body : server_lane (lane_of (control dummy config path source origin body tt))
| lane_signup source email name password : server_lane (lane_of (signup source email name password tt))
| lane_login dummy config source email password : server_lane (lane_of (login dummy config source email password tt))
| lane_logout header cookie : server_lane (lane_of (logout header cookie tt))
| lane_session cookie : server_lane (lane_of (session_status cookie tt))
| lane_registration header cookie enabled : server_lane (lane_of (update_registration header cookie enabled tt))
| lane_snapshot config cookie permit f data : server_lane (lane_of (snapshot_handler config cookie permit f data tt))
| lane_status : server_lane (lane_of (registration_status tt))
(** [try_db_task] of [ready] and [metrics]: a worker, or no answer. *)
| lane_probe : server_lane (Do Database unit (fun _ => true) (fun _ => Done)).

Lemma server_lanes_ordered l : server_lane l -> ordered [] l.
Proof.
  intros []; [apply socket_ordered|eapply request_ordered..|].
  - apply control_keeps.
  - apply signup_keeps.
  - apply login_keeps.
  - apply logout_keeps.
  - apply session_status_keeps.
  - apply update_registration_keeps.
  - apply snapshot_keeps.
  - apply registration_status_keeps.
  - split; [by exists tt|]. split; [constructor|done].
Qed.
Lemma server_sound s : rtc (step server_lane) idle s -> sound s.
Proof.
  intros H. assert (forall s0, sound s0 -> rtc (step server_lane) s0 s -> sound s) as Hrun; [|exact (Hrun idle idle_sound H)].
  clear H. intros s0 Hs H. induction H as [|s0 s1 s2 Hst _ IH]; [done|]. apply IH. eapply step_sound; [exact server_lanes_ordered|exact Hs|exact Hst].
Qed.

(** C10: The server never deadlocks on its pools.  Any number of connections, control
    requests, sign-ins, registrations and administration requests may run interleaved, be
    cancelled, time out or be refused; then no pool hands out more permits than it has and
    every permit is held by a task or available; at most one password check holds its three
    of the four permits of bulk memory, so one is always left to the sockets; as long as a
    task is unfinished, some task can take a step without waiting for a deadline; and if
    nothing new arrives the tasks come to an end under every schedule, with all of them
    finished and all permits returned. *)
Theorem pools_never_deadlock s :
  rtc (step server_lane) idle s ->
  (forall p, 0 <= avail s p /\ avail s p + taken p (tasks s) = capacity p) /\
  password_checks (tasks s) <= 1 /\
  (tasks s <> ∅ -> exists s', work s s') /\
  Acc (fun s2 s1 => work s1 s2) s /\
  (forall s', rtc work s s' -> (forall s'', ~ work s' s'') -> tasks s' = ∅ /\ forall p, avail s' p = capacity p).
Proof.
  intros Hrun%server_sound. split_and!.
  - intros p. rewrite (so_avail s Hrun). pose proof (so_nonneg s Hrun p) as Hn. rewrite (so_avail s Hrun) in Hn. lia.
  - by apply one_password_check.
  - by apply pools_progress.
  - by apply work_terminates.
  - intros s' Hw. assert (sound s') as Hs'; [|by apply work_ends].
    clear -Hrun Hw. induction Hw as [|s s1 s2 Hst _ IH]; [done|]. apply IH. by eapply work_sound.
Qed.

(** A sign-in and a connection arrive. *)
Definition demo_signin_lane : lane :=
  lane_of (control "dummy" demo_config "/user/signin" (V4 LOCALHOST) (Some "app://obsidian.md"%string)
    (Some (JObj [("email", JStr "ann@example.test"); ("password", JStr "correct horse")]%string)) tt).
Definition demo_socket_lane : lane :=
  lane_of (socket_loop (fun t => t) (fun _ => 0) (fun _ => 0) demo_config 3 [Incoming None] new_session).
Definition demo_system : system :=
  update_task 1 {| held := []; working := false; rest := demo_socket_lane |}
    (update_task 0 {| held := []; working := false; rest := demo_signin_lane |} idle).
Lemma demo_system_reached : rtc (step server_lane) idle demo_system.
Proof.
  eapply rtc_l; [apply (step_arrive _ idle 0 demo_signin_lane)|eapply rtc_l; [apply (step_arrive _ _ 1 demo_socket_lane)|apply rtc_refl]].
  - reflexivity.
  - apply lane_control.
  - reflexivity.
  - apply lane_socket.
Qed.
Lemma pools_never_deadlock_witness :
  (exists s', work demo_system s') /\
  (forall s', rtc work demo_system s' -> (forall s'', ~ work s' s'') -> forall p, avail s' p = capacity p).
Proof.
  destruct (pools_never_deadlock demo_system demo_system_reached) as (_ & _ & Hp & _ & He). split.
  - apply Hp. apply insert_non_empty.
  - intros s' Hr Hn. exact (proj2 (He s' Hr Hn)).
Defined.
