(* ===== verification/Admission.v ===== *)
(** * Admission of requests and connections ([control_admission], [upgrade])

    A control request holds a body-reader permit while its body arrives and a request permit
    while it is handled; a connection of the data port holds a connection permit until it
    ends and a slot of its source until it is authenticated.  All of them are dropped with the
    future that owns them, so every exit returns them, a vanished client included. *)

From Stdlib Require Import ZArith Lia List String Bool Permutation.
From stdpp Require Import base list strings gmap.
From S2P Require Import Prelude Sql Totals Auth Text Io Config Limits Json Protocol ProtocolSpec Control.

Local Open Scope Z_scope.

Definition MAX_CONTROL_BODY_READERS : Z := 32.
Definition MAX_CONTROL_REQUESTS : Z := 16.
Definition MAX_CONTROL_BODY_BYTES : Z := 64 * 1024.

(** ** Responses *)
Record response := { rs_status : Z; rs_origin : string; rs_body : json }.
Definition FALLBACK_ORIGIN : string := "app://obsidian.md".
Definition error_json (m : string) : json := JObj [("error"%string, JStr m)].

Section Admission.
Context (header_value_ok : string -> bool) (config : Config) (iter : Source.state -> list (string * Source.entry)).

(** [api_for_origin]; every response also carries [Cache-Control: no-store] and [Vary]. *)
Definition api_for_origin (value : json) (status : Z) (request_origin : option string) : response :=
  let allowed_origin := match request_origin with
                        | Some o => o
                        | None => default FALLBACK_ORIGIN (head (allowed_origins config))
                        end in
  {| rs_status := status;
     rs_origin := if header_value_ok allowed_origin then allowed_origin else FALLBACK_ORIGIN;
     rs_body := value |}.
Definition api (value : json) (status : Z) : response := api_for_origin value status None.

(** ** The state behind the semaphores *)
Record gate := { body_readers : Z; requests : Z; connections : Z; sources : Source.state }.
Definition new_gate : gate :=
  {| body_readers := MAX_CONTROL_BODY_READERS; requests := MAX_CONTROL_REQUESTS;
     connections := max_ws_connections config; sources := ∅ |}.
Definition with_readers (n : Z) (g : gate) : gate :=
  {| body_readers := n; requests := requests g; connections := connections g; sources := sources g |}.
Definition with_requests (n : Z) (g : gate) : gate :=
  {| body_readers := body_readers g; requests := n; connections := connections g; sources := sources g |}.
Definition with_connections (n : Z) (g : gate) : gate :=
  {| body_readers := body_readers g; requests := requests g; connections := n; sources := sources g |}.
Definition with_sources (m : Source.state) (g : gate) : gate :=
  {| body_readers := body_readers g; requests := requests g; connections := connections g; sources := m |}.

(** [Semaphore::try_acquire_owned]. *)
Definition try_acquire_owned (available : Z) : option Z := if 1 <=? available then Some (available - 1) else None.

(** What a future in progress holds. *)
Inductive future :=
| Reading (origin : string)
| Handling (origin : string) (len : Z)
| Socket (source : option string).

Definition control_busy_for_origin (origin : option string) : response :=
  api_for_origin (error_json "Server busy") 503 origin.

(** ** [control_admission] up to the body *)
Definition admission_begin (origin : option string) (g : gate) : (response + future) * gate :=
  match origin with
  | Some o =>
      if negb (permitted_origin config origin) then (inl (api (error_json "Origin not allowed") 403), g) else
      match try_acquire_owned (body_readers g) with
      | None => (inl (control_busy_for_origin origin), g)
      | Some n => (inr (Reading o), with_readers n g)
      end
  | None => (inl (api (error_json "Origin not allowed") 403), g)
  end.

(** The body as it arrives before the deadline: its length, a failed transfer, or not all. *)
Inductive arrival := Arrived (len : Z) | Broken | Stalled.
(** [timeout(CONTROL_BODY_DEADLINE, to_bytes(body, MAX_CONTROL_BODY_BYTES))]. *)
Definition read_body (a : arrival) : option (option Z) :=
  match a with
  | Arrived len => Some (if len <=? MAX_CONTROL_BODY_BYTES then Some len else None)
  | Broken => Some None
  | Stalled => None
  end.
Definition admission_body (origin : string) (a : arrival) (g : gate) : (response + future) * gate :=
  let g := with_readers (body_readers g + 1) g in
  match read_body a with
  | Some (Some len) =>
      match try_acquire_owned (requests g) with
      | None => (inl (control_busy_for_origin (Some origin)), g)
      | Some n => (inr (Handling origin len), with_requests n g)
      end
  | Some None => (inl (api_for_origin (error_json "Request body too large") 413 (Some origin)), g)
  | None => (inl (api_for_origin (error_json "Request body timed out") 408 (Some origin)), g)
  end.
Definition admission_end (g : gate) : gate := with_requests (requests g + 1) g.

(** ** [upgrade] *)
Definition show_ip (a : IpAddr) : string := match a with V4 o => show_ipv4 o | V6 g => show_ipv6 g end.

(** The status of a refusal; [now] and [later] are the instants of the admission and of the
    drop of a refused connection's permit. *)
Definition upgrade (peer : IpAddr) (origin forwarded_for : option string) (now later : Z) (g : gate) : (Z + future) * gate :=
  if negb (permitted_origin config origin) then (inl 403, g) else
  let source := show_ip (request_source config peer forwarded_for) in
  let (admitted, m) := Source.admit_websocket iter source now (sources g) in
  let g := with_sources m g in
  if negb admitted then (inl 429, g) else
  match try_acquire_owned (connections g) with
  | None => (inl 503, with_sources (Source.release_websocket source later (sources g)) g)
  | Some n => (inr (Socket (Some source)), with_connections n g)
  end.

(** [drop(source_permit.take())] once the connection is authenticated. *)
Definition release_source (source : option string) (now : Z) (g : gate) : gate :=
  match source with
  | Some s => with_sources (Source.release_websocket s now (sources g)) g
  | None => g
  end.

(** A dropped future returns its permits: the client is gone, the task ended. *)
Definition drop_future (f : future) (now : Z) (g : gate) : gate :=
  match f with
  | Reading _ => with_readers (body_readers g + 1) g
  | Handling _ _ => admission_end g
  | Socket source => release_source source now (with_connections (connections g + 1) g)
  end.

(** ** [preflight] and [health] *)
Definition preflight (origin : option string) : option response :=
  if permitted_origin config origin then Some (api_for_origin JNull 204 origin) else None.
(** [CARGO_PKG_VERSION] and [SOURCE_REVISION] are constants of the build. *)
Definition health (version revision : string) : response :=
  api (JObj [("ok", JBool true); ("service", JStr "blackglass-server"); ("implementation", JStr "rust");
             ("version", JStr version); ("sourceRevision", JStr revision)]%string) 200.
(** [ready]: [None] when no database worker is free. *)
Definition ready (outcome : option bool) : response :=
  let ok := default false outcome in api (JObj [("ok"%string, JBool ok)]) (if ok then 200 else 503).

(** [wait_for_connection_drain]: the permits seen at each poll before the deadline. *)
Definition wait_for_connection_drain (polls : list Z) : result unit :=
  if existsb (fun available => available =? max_ws_connections config) polls then Ok tt
  else Err (Bail "WebSocket connections did not drain before the shutdown deadline").

(** ** Runs: the instant, the gate and the futures in progress *)
Record lobby := { l_now : Z; l_gate : gate; l_futures : gmap nat future }.
Definition put_future (i : nat) (r : future) (now : Z) (g : gate) (l : lobby) : lobby :=
  {| l_now := now; l_gate := g; l_futures := <[i := r]> (l_futures l) |}.
Definition only_gate (now : Z) (g : gate) (l : lobby) : lobby := {| l_now := now; l_gate := g; l_futures := l_futures l |}.
Definition end_future (i : nat) (now : Z) (g : gate) (l : lobby) : lobby :=
  {| l_now := now; l_gate := g; l_futures := delete i (l_futures l) |}.

Inductive visit : lobby -> lobby -> Prop :=
| visit_begin l i now origin f g : l_now l <= now -> l_futures l !! i = None ->
    admission_begin origin (l_gate l) = (inr f, g) -> visit l (put_future i f now g l)
| visit_begin_refused l now origin r g : l_now l <= now ->
    admission_begin origin (l_gate l) = (inl r, g) -> visit l (only_gate now g l)
| visit_body l i now origin a f g : l_now l <= now -> l_futures l !! i = Some (Reading origin) ->
    admission_body origin a (l_gate l) = (inr f, g) -> visit l (put_future i f now g l)
| visit_body_refused l i now origin a r g : l_now l <= now -> l_futures l !! i = Some (Reading origin) ->
    admission_body origin a (l_gate l) = (inl r, g) -> visit l (end_future i now g l)
| visit_upgrade l i now later peer origin forwarded f g : l_now l <= now <= later -> l_futures l !! i = None ->
    upgrade peer origin forwarded now later (l_gate l) = (inr f, g) -> visit l (put_future i f later g l)
| visit_upgrade_refused l now later peer origin forwarded r g : l_now l <= now <= later ->
    upgrade peer origin forwarded now later (l_gate l) = (inl r, g) -> visit l (only_gate later g l)
| visit_authenticated l i now source : l_now l <= now -> l_futures l !! i = Some (Socket (Some source)) ->
    visit l (put_future i (Socket None) now (release_source (Some source) now (l_gate l)) l)
| visit_dropped l i now f : l_now l <= now -> l_futures l !! i = Some f ->
    visit l (end_future i now (drop_future f now (l_gate l)) l)
| visit_signin l now source ok m : l_now l <= now ->
    Source.admit_signin iter source now (sources (l_gate l)) = (ok, m) -> visit l (only_gate now (with_sources m (l_gate l)) l)
| visit_refund l now source : l_now l <= now ->
    visit l (only_gate now (with_sources (Source.refund_successful_signin source now (sources (l_gate l))) (l_gate l)) l).

Definition opened (now : Z) : lobby := {| l_now := now; l_gate := new_gate; l_futures := ∅ |}.
End Admission.

(** ** Exact counters *)
Definition reading (f : future) : Z := match f with Reading _ => 1 | _ => 0 end.
Definition handling (f : future) : Z := match f with Handling _ _ => 1 | _ => 0 end.
Definition socket (f : future) : Z := match f with Socket _ => 1 | _ => 0 end.
Definition source_slot (s : string) (f : future) : Z := match f with Socket (Some s') => if String.eqb s s' then 1 else 0 | _ => 0 end.
Definition buffered (f : future) : Z := match f with Handling _ len => len | _ => 0 end.

Section Counters.
Context (header_value_ok : string -> bool) (config : Config) (iter : Source.state -> list (string * Source.entry)).
Context (iter_perm : forall m, Permutation (iter m) (map_to_list m)).

(** The slots of the source table are those of the connections that are not authenticated. *)
Definition slots_ok (now : Z) (m : Source.state) (fs : gmap nat future) : Prop :=
  exists logs live crowded, Source.tracks now m logs live crowded /\ forall s, Source.permits s live = total (source_slot s) fs.
Record lobby_ok (l : lobby) : Prop := {
  lo_readers : body_readers (l_gate l) = MAX_CONTROL_BODY_READERS - total reading (l_futures l) /\ 0 <= body_readers (l_gate l);
  lo_requests : requests (l_gate l) = MAX_CONTROL_REQUESTS - total handling (l_futures l) /\ 0 <= requests (l_gate l);
  lo_connections : connections (l_gate l) = max_ws_connections config - total socket (l_futures l) /\ 0 <= connections (l_gate l);
  lo_sources : slots_ok (l_now l) (sources (l_gate l)) (l_futures l);
  lo_bodies : forall i o len, l_futures l !! i = Some (Handling o len) -> len <= MAX_CONTROL_BODY_BYTES;
}.

Lemma permits_in s live : 0 < Source.permits s live -> exists l1 l2, live = l1 ++ s :: l2.
Proof using.
  unfold Source.permits, count, select. intros H. destruct (List.filter (String.eqb s) live) as [|x q] eqn:E; [done|].
  assert (In x (List.filter (String.eqb s) live)) as [Hin ->%String.eqb_eq]%List.filter_In by (rewrite E; by left). by apply in_split.
Qed.

Lemma slots_same now now' m fs fs' :
  now <= now' -> (forall s, total (source_slot s) fs' = total (source_slot s) fs) -> slots_ok now m fs -> slots_ok now' m fs'.
Proof using.
  intros Hn Hsame (logs & live & b & Ht & Hp). exists logs, live, b. split; [by eapply Source.tracks_mono|]. intros s. by rewrite Hsame.
Qed.
Lemma slots_admit now now' m m' fs s ok :
  now <= now' -> slots_ok now m fs -> Source.admit_websocket iter s now' m = (ok, m') ->
  exists logs live crowded, Source.tracks now' m' logs live crowded /\
    forall x, Source.permits x live = (if ok then if String.eqb x s then 1 else 0 else 0) + total (source_slot x) fs.
Proof using iter_perm.
  intros Hn (logs & live & b & Ht & Hp) Ha. exists logs, (if ok then s :: live else live), (b || Source.full m). split.
  - eapply (Source.admit_websocket_tracks iter iter_perm); [by eapply Source.tracks_mono|done].
  - intros x. rewrite <- Hp. destruct ok; [|lia]. by rewrite Source.permits_cons.
Qed.
Lemma slots_release now now' m fs fs' s logs live crowded :
  now <= now' -> Source.tracks now m logs live crowded -> (forall x, Source.permits x live = (if String.eqb x s then 1 else 0) + total (source_slot x) fs) ->
  (forall x, total (source_slot x) fs' = total (source_slot x) fs) -> slots_ok now' (Source.release_websocket s now' m) fs'.
Proof using.
  intros Hn Ht Hp Hsame. assert (0 <= total (source_slot s) fs) as Hnn by (apply total_nonneg; intros []; cbn; try lia; destruct source; [case_match|]; lia).
  destruct (permits_in s live) as (l1 & l2 & ->); [rewrite Hp, String.eqb_refl; lia|].
  exists logs, (l1 ++ l2), crowded. split; [apply Source.release_tracks; by eapply Source.tracks_mono|].
  intros x. specialize (Hp x). rewrite Source.permits_middle in Hp. rewrite Hsame. lia.
Qed.

(** The effect of one future that appears, changes or goes on every sum. *)
Lemma slots_gone now now' m fs i s :
  now <= now' -> fs !! i = Some (Socket (Some s)) -> slots_ok now m fs ->
  forall fs', (forall x, total (source_slot x) fs' = total (source_slot x) fs - if String.eqb x s then 1 else 0) ->
  slots_ok now' (Source.release_websocket s now' m) fs'.
Proof using.
  intros Hn Hi (logs & live & b & Ht & Hp) fs' Hsame.
  eapply (slots_release now now' m (delete i fs) fs' s logs live b); [done|done| |].
  - intros x. rewrite Hp, (total_delete (source_slot x) fs i _ Hi). cbn. done.
  - intros x. rewrite Hsame, (total_delete (source_slot x) fs i _ Hi). cbn. lia.
Qed.

Lemma acquire_some n m : try_acquire_owned n = Some m -> m = n - 1 /\ 1 <= n.
Proof using. unfold try_acquire_owned. destruct (Z.leb_spec 1 n); intros [= <-]. lia. Qed.

(** What each handler leaves behind. *)
Lemma begin_cases origin g r g' :
  admission_begin header_value_ok config origin g = (r, g') ->
  match r with
  | inl _ => g' = g
  | inr f => exists o, f = Reading o /\ g' = with_readers (body_readers g - 1) g /\ 1 <= body_readers g
  end.
Proof using.
  unfold admission_begin. destruct origin as [o|]; [|by intros [= <- <-]]. destruct (negb _); [by intros [= <- <-]|].
  destruct (try_acquire_owned _) as [n|] eqn:E; intros [= <- <-]; [|done]. apply acquire_some in E as [-> Hn]. by exists o.
Qed.
Lemma body_cases o a g r g' :
  admission_body header_value_ok config o a g = (r, g') ->
  let g0 := with_readers (body_readers g + 1) g in
  match r with
  | inl _ => g' = g0
  | inr f => exists len, f = Handling o len /\ len <= MAX_CONTROL_BODY_BYTES /\ g' = with_requests (requests g - 1) g0 /\ 1 <= requests g
  end.
Proof using.
  unfold admission_body, read_body. destruct a as [len| |]; [|by intros [= <- <-]..]. destruct (Z.leb_spec len MAX_CONTROL_BODY_BYTES); [|by intros [= <- <-]].
  cbn [requests with_readers]. destruct (try_acquire_owned _) as [n|] eqn:E; intros [= <- <-]; [|done].
  apply acquire_some in E as [-> Hn]. exists len. split_and!; try done; cbn; lia.
Qed.
Lemma upgrade_cases peer origin fwd now later g r g' fs t0 :
  t0 <= now <= later -> slots_ok t0 (sources g) fs -> upgrade config iter peer origin fwd now later g = (r, g') ->
  match r with
  | inl _ => exists m, g' = with_sources m g /\ slots_ok later m fs
  | inr f => exists s m, f = Socket (Some s) /\ g' = with_connections (connections g - 1) (with_sources m g) /\ 1 <= connections g /\
               forall fs', (forall x, total (source_slot x) fs' = source_slot x f + total (source_slot x) fs) -> slots_ok later m fs'
  end.
Proof using iter_perm.
  intros Hn Hs. unfold upgrade. destruct (negb _).
  { intros [= <- <-]. exists (sources g). split; [by destruct g|]. eapply slots_same; [|done|exact Hs]. lia. }
  set (s := show_ip _). destruct (Source.admit_websocket iter s now (sources g)) as [ok m] eqn:Ea.
  destruct (slots_admit t0 now (sources g) m fs s ok) as (logs & live & b & Ht & Hp); [lia|done|done|]. destruct ok; cbn [negb].
  - cbn [connections with_sources]. destruct (try_acquire_owned (connections g)) as [n|] eqn:E; intros [= <- <-].
    + apply acquire_some in E as [-> Hc]. exists s, m. split_and!; [done..|]. intros fs' Hfs. exists logs, live, b.
      split; [eapply Source.tracks_mono; [|done]; lia|]. intros x. by rewrite Hp, Hfs.
    + eexists. split; [done|]. cbn [sources]. eapply (slots_release now later m fs fs); [lia|done|exact Hp|done].
  - intros [= <- <-]. exists m. split; [done|]. exists logs, live, b. split; [eapply Source.tracks_mono; [|done]; lia|]. exact Hp.
Qed.

Ltac sums := rewrite ?total_insert, ?(total_delete _ _ _ _ ltac:(eassumption)) by done; cbn [reading handling socket source_slot buffered]; try lia.

Lemma visit_ok l l' : visit header_value_ok config iter l l' -> lobby_ok l -> lobby_ok l'.
Proof using iter_perm.
  intros H [Hr Hq Hc Hs Hb]. destruct H as [l i now origin f g Hn Hi H|l now origin r g Hn H|l i now origin a f g Hn Hi H
    |l i now origin a r g Hn Hi H|l i now later peer origin fwd f g Hn Hi H|l now later peer origin fwd r g Hn H
    |l i now s Hn Hi|l i now f Hn Hi|l now s ok m Hn H|l now s Hn].
  - apply begin_cases in H as (o & -> & -> & Hle). constructor; cbn; [sums..| |].
    + eapply slots_same; [exact Hn| |exact Hs]. intros x. sums.
    + intros j o' len. rewrite lookup_insert_Some. intros [[_ [=]]|[_ Hj]]; eauto.
  - apply begin_cases in H as ->. constructor; cbn; [done..| |done]. eapply slots_same; [exact Hn|done|exact Hs].
  - apply body_cases in H as (len & -> & Hlen & -> & Hle). constructor; cbn.
    + rewrite (total_update _ _ _ _ _ Hi). cbn. lia.
    + rewrite (total_update _ _ _ _ _ Hi). cbn. lia.
    + rewrite (total_update _ _ _ _ _ Hi). cbn. lia.
    + eapply slots_same; [exact Hn| |exact Hs]. intros x. rewrite (total_update _ _ _ _ _ Hi). cbn. lia.
    + intros j o' len'. rewrite lookup_insert_Some. intros [[_ [= _ <-]]|[_ Hj]]; eauto.
  - apply body_cases in H as ->. constructor; cbn.
    + rewrite (total_delete _ _ _ _ Hi) in Hr. cbn in Hr. lia.
    + rewrite (total_delete _ _ _ _ Hi) in Hq. cbn in Hq. lia.
    + rewrite (total_delete _ _ _ _ Hi) in Hc. cbn in Hc. lia.
    + eapply slots_same; [exact Hn| |exact Hs]. intros x. rewrite (total_delete (source_slot x) _ _ _ Hi). cbn. lia.
    + intros j o' len' [_ Hj]%lookup_delete_Some. eauto.
  - eapply upgrade_cases in H as (s & m & -> & -> & Hle & Hslots); [|exact Hn|exact Hs]. constructor; cbn; [sums..| |].
    + apply Hslots. intros x. sums.
    + intros j o' len. rewrite lookup_insert_Some. intros [[_ [=]]|[_ Hj]]; eauto.
  - eapply upgrade_cases in H as (m & -> & Hslots); [|exact Hn|exact Hs]. constructor; done.
  - constructor; cbn.
    + rewrite (total_update _ _ _ _ _ Hi). cbn. lia.
    + rewrite (total_update _ _ _ _ _ Hi). cbn. lia.
    + rewrite (total_update _ _ _ _ _ Hi). cbn. lia.
    + eapply slots_gone; [exact Hn|exact Hi|exact Hs|]. intros x. rewrite (total_update _ _ _ _ _ Hi). cbn. lia.
    + intros j o' len'. rewrite lookup_insert_Some. intros [[_ [=]]|[_ Hj]]; eauto.
  - assert (slots_ok now (sources (drop_future f now (l_gate l))) (delete i (l_futures l))) as Hslots.
    { destruct f as [o|o len|[s|]]; cbn; [eapply slots_same; [exact Hn| |exact Hs]..|eapply slots_gone; [exact Hn|exact Hi|exact Hs|]
        |eapply slots_same; [exact Hn| |exact Hs]]; intros x; rewrite (total_delete (source_slot x) _ _ _ Hi); cbn; lia. }
    rewrite (total_delete reading _ _ _ Hi) in Hr. rewrite (total_delete handling _ _ _ Hi) in Hq.
    rewrite (total_delete socket _ _ _ Hi) in Hc. constructor; cbn [l_gate l_futures l_now end_future]; [..|done|].
    + destruct f as [o|o len|[s|]]; cbn in *; lia.
    + destruct f as [o|o len|[s|]]; cbn in *; lia.
    + destruct f as [o|o len|[s|]]; cbn in *; lia.
    + intros j o' len' [_ Hj]%lookup_delete_Some. eauto.
  - constructor; cbn; [done..| |done]. destruct Hs as (logs & live & b & Ht & Hp). do 3 eexists. split; [|exact Hp].
    eapply (Source.admit_signin_tracks iter iter_perm); [by eapply Source.tracks_mono|exact H].
  - constructor; cbn; [done..| |done]. destruct Hs as (logs & live & b & Ht & Hp). do 3 eexists. split; [|exact Hp].
    eapply (Source.refund_tracks); [by eapply Source.tracks_mono].
Qed.

Lemma opened_ok now : 0 <= max_ws_connections config -> lobby_ok (opened config now).
Proof using iter_perm.
  intros Hm. constructor; cbn; rewrite ?total_empty; unfold MAX_CONTROL_BODY_READERS, MAX_CONTROL_REQUESTS; [lia..| |].
  - exists ∅, [], false. split; [|intros s; by rewrite total_empty]. apply (Source.run_tracks iter iter_perm). constructor.
  - intros i o len H. by rewrite lookup_empty in H.
Qed.

Lemma lobby_reachable_ok start l :
  0 <= max_ws_connections config -> rtc (visit header_value_ok config iter) (opened config start) l -> lobby_ok l.
Proof using iter_perm.
  intros Hm Hrun. assert (forall l0, lobby_ok l0 -> rtc (visit header_value_ok config iter) l0 l -> lobby_ok l) as H;
    [|exact (H _ (opened_ok start Hm) Hrun)].
  clear Hrun. intros l0 H0 H. induction H as [|l0 l1 l2 Hv _ IH]; [done|]. apply IH. by eapply visit_ok.
Qed.

(** A refusal names only origins the administrator configured. *)
Lemma api_origin value status o :
  (forall x, o = Some x -> In x (allowed_origins config)) ->
  In (rs_origin (api_for_origin header_value_ok config value status o)) (FALLBACK_ORIGIN :: allowed_origins config).
Proof using.
  intros Ho. unfold api_for_origin. cbn [rs_origin]. destruct (header_value_ok _); [|by left]. destruct o as [x|]; [right; auto|].
  destruct (allowed_origins config) as [|a l]; cbn; auto.
Qed.
Lemma permitted_in o : permitted_origin config (Some o) = true -> In o (allowed_origins config).
Proof using. cbn. intros (x & Hx & ->%String.eqb_eq)%existsb_exists. done. Qed.

Lemma bodies_bounded l : lobby_ok l -> total buffered (l_futures l) <= MAX_CONTROL_BODY_BYTES * total handling (l_futures l).
Proof using.
  intros H. rewrite <- total_scale. apply total_le. intros i [o|o len|s] Hi; cbn; [lia| |lia].
  pose proof (lo_bodies l H i o len Hi). lia.
Qed.
Lemma no_sockets fs : total socket fs = 0 <-> forall i s, fs !! i <> Some (Socket s).
Proof using.
  assert (forall f, 0 <= socket f) as Hnn by (intros []; cbn; lia). split.
  - intros H i s Hi. pose proof (total_member socket fs i _ Hnn Hi) as Hm. cbn in Hm. lia.
  - intros H. pose proof (total_nonneg socket fs Hnn). destruct (decide (0 < total socket fs)) as [Hp|]; [|lia].
    destruct (total_positive socket fs Hp) as (i & [| |s] & Hi & Hw); cbn in Hw; try lia. by destruct (H i s).
Qed.
End Counters.


(** One request reads its body while a connection is open. *)
Definition demo_origin : option string := Some "app://obsidian.md"%string.
Definition demo_lobby1 : lobby :=
  match admission_begin (fun _ => true) demo_config demo_origin (new_gate demo_config) with
  | (inr f, g) => put_future 0 f 3 g (opened demo_config 0)
  | _ => opened demo_config 0
  end.
Definition demo_lobby : lobby :=
  match upgrade demo_config map_to_list (V4 LOCALHOST) demo_origin None 5 6 (l_gate demo_lobby1) with
  | (inr s, g) => put_future 1 s 6 g demo_lobby1
  | _ => demo_lobby1
  end.
Lemma demo_lobby_reached : rtc (visit (fun _ => true) demo_config map_to_list) (opened demo_config 0) demo_lobby.
Proof.
  apply (rtc_l _ _ demo_lobby1); [|apply rtc_once].
  - eapply (visit_begin _ _ _ (opened demo_config 0) 0 3 demo_origin); [cbn; lia|reflexivity|vm_compute; reflexivity].
  - eapply (visit_upgrade _ _ _ demo_lobby1 1 5 6 (V4 LOCALHOST) demo_origin None); [vm_compute; split; discriminate|vm_compute; reflexivity|vm_compute; reflexivity].
Qed.
