(* ===== verification/Metrics.v ===== *)
(** * The metrics page ([server.rs]: [Metrics], [metrics])

    The counters are relaxed atomics that only grow; the gauges are read from the
    semaphores, the reservations and the database at the moment of the request. *)

From Stdlib Require Import ZArith Lia List String Ascii Bool Permutation.
From stdpp Require Import base list strings gmap pretty.
From S2P Require Import Prelude Sql Totals Model Store Auth Text Io Invariant Machine Scenario Config Reservations Limits Json Protocol ProtocolSpec.
From S2P Require Import Control Admission.

Local Open Scope Z_scope.

(** ** Labels *)
Inductive AuthorizationOperation := Access | Migrate | Rename | Delete | DataInit.
Inductive ShareInviteOutcome := Success | Unavailable | Capacity | RateLimited.
Inductive DatabaseOperation := Request | AdminSnapshot.

Definition AUTHORIZATION_OPERATIONS : list (AuthorizationOperation * string) :=
  [(Access, "access"); (Migrate, "migrate"); (Rename, "rename"); (Delete, "delete"); (DataInit, "data_init")]%string.
Definition SHARE_INVITE_OUTCOMES : list (ShareInviteOutcome * string) :=
  [(Success, "success"); (Unavailable, "unavailable"); (Capacity, "capacity"); (RateLimited, "rate_limited")]%string.
Definition DATABASE_OPERATIONS : list (DatabaseOperation * string) :=
  [(Request, "request"); (AdminSnapshot, "admin_snapshot")]%string.

(** [operation as usize]. *)
Definition operation_index (o : AuthorizationOperation) : nat :=
  match o with Access => 0 | Migrate => 1 | Rename => 2 | Delete => 3 | DataInit => 4 end.
Definition outcome_index (o : ShareInviteOutcome) : nat :=
  match o with Success => 0 | Unavailable => 1 | Capacity => 2 | RateLimited => 3 end.
Definition database_index (o : DatabaseOperation) : nat := match o with Request => 0 | AdminSnapshot => 1 end.

(** ** Counters *)
Record Metrics := {
  mt_control : Z; mt_signins : Z; mt_auth_failures : Z; mt_session_renewals : Z; mt_ws_connections : Z; mt_ws_idle_timeouts : Z;
  mt_ws_capacity_rejections : Z; mt_uploads : Z; mt_upload_bytes : Z; mt_upload_timeouts : Z; mt_storage_quota_rejections : Z;
  mt_downloads : Z; mt_errors : Z; mt_control_rejections : Z; mt_authorization_denials : list Z; mt_database_busy : list Z;
  mt_database_deadlines : list Z; mt_share_invites : list Z;
}.
(** [Metrics::default()]. *)
Definition no_metrics : Metrics := {|
  mt_control := 0; mt_signins := 0; mt_auth_failures := 0; mt_session_renewals := 0; mt_ws_connections := 0; mt_ws_idle_timeouts := 0;
  mt_ws_capacity_rejections := 0; mt_uploads := 0; mt_upload_bytes := 0; mt_upload_timeouts := 0; mt_storage_quota_rejections := 0;
  mt_downloads := 0; mt_errors := 0; mt_control_rejections := 0; mt_authorization_denials := [0; 0; 0; 0; 0]; mt_database_busy := [0; 0];
  mt_database_deadlines := [0; 0]; mt_share_invites := [0; 0; 0; 0] |}.

(** [AtomicU64::fetch_add], which wraps around. *)
Definition fetch_add (n z : Z) : Z := (z + n) mod 2 ^ 64.
Definition with_arrays (denials busy deadlines invites : list Z) (m : Metrics) : Metrics := {|
  mt_control := mt_control m; mt_signins := mt_signins m; mt_auth_failures := mt_auth_failures m; mt_session_renewals := mt_session_renewals m;
  mt_ws_connections := mt_ws_connections m; mt_ws_idle_timeouts := mt_ws_idle_timeouts m;
  mt_ws_capacity_rejections := mt_ws_capacity_rejections m; mt_uploads := mt_uploads m; mt_upload_bytes := mt_upload_bytes m;
  mt_upload_timeouts := mt_upload_timeouts m; mt_storage_quota_rejections := mt_storage_quota_rejections m;
  mt_downloads := mt_downloads m; mt_errors := mt_errors m; mt_control_rejections := mt_control_rejections m;
  mt_authorization_denials := denials; mt_database_busy := busy; mt_database_deadlines := deadlines; mt_share_invites := invites |}.
Definition bump (i : nat) (l : list Z) : list Z := alter (fetch_add 1) i l.

Definition deny (o : AuthorizationOperation) (m : Metrics) : Metrics :=
  with_arrays (bump (operation_index o) (mt_authorization_denials m)) (mt_database_busy m) (mt_database_deadlines m) (mt_share_invites m) m.
Definition count_invite (o : ShareInviteOutcome) (m : Metrics) : Metrics :=
  with_arrays (mt_authorization_denials m) (mt_database_busy m) (mt_database_deadlines m) (bump (outcome_index o) (mt_share_invites m)) m.
Definition database_busy (o : DatabaseOperation) (m : Metrics) : Metrics :=
  with_arrays (mt_authorization_denials m) (bump (database_index o) (mt_database_busy m)) (mt_database_deadlines m) (mt_share_invites m) m.
Definition database_deadline (o : DatabaseOperation) (m : Metrics) : Metrics :=
  with_arrays (mt_authorization_denials m) (mt_database_busy m) (bump (database_index o) (mt_database_deadlines m)) (mt_share_invites m) m.

(** The causes of an error, outermost first; a SQLite error carries its code. *)
Inductive sqlite_code := DatabaseBusy | DatabaseLocked | OperationInterrupted | OtherCode.
Inductive cause := SqliteCause (code : option sqlite_code) | OtherCause.
Fixpoint observe_database_error (o : DatabaseOperation) (chain : list cause) (m : Metrics) : Metrics :=
  match chain with
  | [] => m
  | OtherCause :: chain => observe_database_error o chain m
  | SqliteCause (Some (DatabaseBusy | DatabaseLocked)) :: _ =>
      database_busy o m
  | SqliteCause (Some OperationInterrupted) :: _ => database_deadline o m
  | SqliteCause _ :: _ => m
  end.

(** ** The page *)
Definition double_quote : string := String (Ascii.ascii_of_nat 34) "".
Definition label (key value : string) : string := key +:+ "=" +:+ double_quote +:+ value +:+ double_quote.
Definition newline : string := String (Ascii.ascii_of_nat 10) "".
Definition at_index (l : list Z) (i : nat) : Z := nth i l 0.

(** The series of the page in order; [used] is [None] when no database worker is free. *)
Definition series (config : Config) (m : Metrics) (connections_available reserved_bytes : Z) (used : option Z) : list (string * Z) :=
  [("blackglass_control_requests_total", mt_control m);
   ("blackglass_control_rejections_total", mt_control_rejections m);
   ("blackglass_signins_total", mt_signins m);
   ("blackglass_auth_failures_total", mt_auth_failures m);
   ("blackglass_session_renewals_total", mt_session_renewals m);
   ("blackglass_ws_connections_total", mt_ws_connections m);
   ("blackglass_uploads_total", mt_uploads m);
   ("blackglass_upload_bytes_total", mt_upload_bytes m);
   ("blackglass_upload_timeouts_total", mt_upload_timeouts m);
   ("blackglass_storage_quota_bytes", storage_quota_bytes config);
   ("blackglass_storage_quota_rejections_total", mt_storage_quota_rejections m);
   ("blackglass_downloads_total", mt_downloads m);
   ("blackglass_errors_total", mt_errors m);
   ("obsidian_sync_control_requests_total", mt_control m);
   ("obsidian_sync_signins_total", mt_signins m);
   ("obsidian_sync_auth_failures_total", mt_auth_failures m);
   ("obsidian_sync_ws_connections_total", mt_ws_connections m);
   ("obsidian_sync_uploads_total", mt_uploads m);
   ("obsidian_sync_upload_bytes_total", mt_upload_bytes m);
   ("obsidian_sync_downloads_total", mt_downloads m);
   ("obsidian_sync_errors_total", mt_errors m)]%string
  ++ map (fun p => ("blackglass_authorization_denials_total{" +:+ label "operation" (snd p) +:+ "," +:+ label "reason" "not_authorized" +:+ "}",
                    at_index (mt_authorization_denials m) (operation_index (fst p)))) AUTHORIZATION_OPERATIONS
  ++ [("blackglass_ws_active_connections", Z.max 0 (max_ws_connections config - connections_available));
      ("blackglass_ws_idle_timeouts_total", mt_ws_idle_timeouts m);
      ("blackglass_ws_capacity_rejections_total", mt_ws_capacity_rejections m);
      ("blackglass_storage_reserved_bytes", reserved_bytes)]%string
  ++ match used with Some used => [("blackglass_storage_used_bytes"%string, used)] | None => [] end
  ++ flat_map (fun p => [("blackglass_sqlite_busy_total{" +:+ label "operation" (snd p) +:+ "}", at_index (mt_database_busy m) (database_index (fst p)));
                         ("blackglass_sqlite_deadlines_total{" +:+ label "operation" (snd p) +:+ "}",
                          at_index (mt_database_deadlines m) (database_index (fst p)))]) DATABASE_OPERATIONS
  ++ map (fun p => ("blackglass_share_invites_total{" +:+ label "outcome" (snd p) +:+ "}",
                    at_index (mt_share_invites m) (outcome_index (fst p)))) SHARE_INVITE_OUTCOMES.
Definition render (l : list (string * Z)) : string :=
  List.fold_right (fun p text => fst p +:+ " " +:+ pretty (snd p) +:+ newline +:+ text) ""%string l.
Definition metrics (config : Config) (m : Metrics) (connections_available reserved_bytes : Z) (used : option Z) : string :=
  render (series config m connections_available reserved_bytes used).

(** ** What the page tells *)
Fixpoint value_of (name : string) (l : list (string * Z)) : option Z :=
  match l with
  | [] => None
  | (n, v) :: l => if String.eqb n name then Some v else value_of name l
  end.
Record metrics_ok (m : Metrics) : Prop := {
  mo_denials : length (mt_authorization_denials m) = 5%nat; mo_busy : length (mt_database_busy m) = 2%nat;
  mo_deadlines : length (mt_database_deadlines m) = 2%nat; mo_invites : length (mt_share_invites m) = 4%nat;
}.
(** The event a labelled counter counts, and its series. *)
Inductive occurrence :=
| Denied (o : AuthorizationOperation) | Invited (o : ShareInviteOutcome) | Busy (o : DatabaseOperation) | Overdue (o : DatabaseOperation).
Definition observe (e : occurrence) (m : Metrics) : Metrics :=
  match e with
  | Denied o => deny o m
  | Invited o => count_invite o m
  | Busy o => observe_database_error o [OtherCause; SqliteCause (Some DatabaseLocked)] m
  | Overdue o => observe_database_error o [SqliteCause (Some OperationInterrupted); SqliteCause (Some DatabaseBusy)] m
  end.
Definition labelled {A} (prefix key : string) (suffix : string) (names : list (A * string)) (i : nat) : string :=
  prefix +:+ "{" +:+ label key (match nth_error names i with Some p => snd p | None => "" end) +:+ suffix +:+ "}".
Definition series_of (e : occurrence) : string :=
  match e with
  | Denied o => labelled "blackglass_authorization_denials_total" "operation" ("," +:+ label "reason" "not_authorized") AUTHORIZATION_OPERATIONS (operation_index o)
  | Invited o => labelled "blackglass_share_invites_total" "outcome" "" SHARE_INVITE_OUTCOMES (outcome_index o)
  | Busy o => labelled "blackglass_sqlite_busy_total" "operation" "" DATABASE_OPERATIONS (database_index o)
  | Overdue o => labelled "blackglass_sqlite_deadlines_total" "operation" "" DATABASE_OPERATIONS (database_index o)
  end.

Lemma series_names config m available reserved used :
  map fst (series config m available reserved used) = map fst (series demo_config no_metrics 0 0 used).
Proof. destruct used; reflexivity. Qed.
Lemma series_distinct config m available reserved used : NoDup (map fst (series config m available reserved used)).
Proof. rewrite series_names. apply (bool_decide_unpack _). destruct used; vm_compute; exact I. Qed.

(** One series of a list of series changed. *)
Definition changed_at (name : string) (f : Z -> Z) (l : list (string * Z)) : list (string * Z) :=
  map (fun p => if String.eqb (fst p) name then (fst p, f (snd p)) else p) l.
Lemma value_changed name s f l :
  value_of name (changed_at s f l) = (if String.eqb name s then option_map f else fun v => v) (value_of name l).
Proof.
  induction l as [|[n v] l IH]; cbn [changed_at map value_of fst snd]; [by destruct (String.eqb name s)|]. fold (changed_at s f l).
  destruct (String.eqb n s) eqn:Es, (String.eqb n name) eqn:En; cbn [value_of]; rewrite ?En; try exact IH; breflect; subst.
  - by rewrite String.eqb_refl.
  - destruct (String.eqb name s) eqn:E; [breflect; congruence|done].
Qed.

Lemma observe_series e config m available reserved used :
  metrics_ok m -> series config (observe e m) available reserved used = changed_at (series_of e) (fetch_add 1) (series config m available reserved used).
Proof.
  intros [Hd Hb Ht Hi]. destruct m as [? ? ? ? ? ? ? ? ? ? ? ? ? ? ds bs ts vs]. cbn in Hd, Hb, Ht, Hi.
  do 6 (destruct ds as [|? ds]; try done). do 3 (destruct bs as [|? bs]; try done). do 3 (destruct ts as [|? ts]; try done).
  do 5 (destruct vs as [|? vs]; try done). destruct e as [[]|[]|[]|[]], used; reflexivity.
Qed.

(** The metrics page is exact.  Its series have distinct names; in every state the
    admission of requests can reach, the gauge of active connections is the number of open
    connections; the reserved bytes are those of the live reservations and the used bytes
    those of the stored revisions; and a refused authorisation, an invitation, a busy or an
    overdue database call raises exactly its own labelled series by one and no other. *)
Theorem metrics_exact header_value_ok config iter start l reservations live d m used e name :
  (forall x, Permutation (iter x) (map_to_list x)) -> 0 <= max_ws_connections config ->
  rtc (visit header_value_ok config iter) (opened config start) l -> Storage.run reservations live -> db_ok d -> metrics_ok m ->
  (used = None \/ used = Some (stored_ciphertext_size d)) ->
  let page m := series config m (connections (l_gate l)) (Storage.reserved reservations) used in
  NoDup (map fst (page m)) /\
  value_of "blackglass_ws_active_connections" (page m) = Some (total socket (l_futures l)) /\
  value_of "blackglass_storage_reserved_bytes" (page m) = Some (sum_of Storage.rv_bytes live) /\
  (used <> None -> value_of "blackglass_storage_used_bytes" (page m) = Some (total_size (revisions d))) /\
  value_of name (page (observe e m)) = (if String.eqb name (series_of e) then option_map (fetch_add 1) else fun v => v) (value_of name (page m)).
Proof.
  intros Hi Hc Hrun Hres Hd Hm Hu page.
  pose proof (lo_connections _ _ (lobby_reachable_ok header_value_ok config iter Hi start l Hc Hrun)) as [Econn Hconn].
  pose proof (Storage.acc_global _ _ (Storage.run_accounts _ _ Hres)) as Eres. split_and!.
  - apply series_distinct.
  - change (Some (Z.max 0 (max_ws_connections config - connections (l_gate l))) = Some (total socket (l_futures l))).
    pose proof (total_nonneg socket (l_futures l) ltac:(intros []; cbn; lia)). f_equal. lia.
  - change (Some (Storage.reserved reservations) = Some (sum_of Storage.rv_bytes live)). f_equal. exact Eres.
  - intros Hn. destruct Hu as [->| ->]; [done|]. change (Some (stored_ciphertext_size d) = Some (total_size (revisions d))).
    f_equal. exact (ok_usage _ _ Hd).
  - unfold page. rewrite (observe_series e) by exact Hm. apply value_changed.
Qed.

Definition demo_reservations : Storage.state := {| Storage.global_bytes := 100; Storage.owner_bytes := {[1 := 100]} |}.
Lemma metrics_exact_witness :
  let page m := series demo_config m (connections (l_gate demo_lobby)) (Storage.reserved demo_reservations) (Some (stored_ciphertext_size demo_db)) in
  value_of "blackglass_ws_active_connections" (page no_metrics) = Some 1 /\
  value_of (series_of (Denied Rename)) (page (observe (Denied Rename) no_metrics)) = Some 1.
Proof.
  assert (Storage.run demo_reservations [{| Storage.rv_owner := 1; Storage.rv_bytes := 100 |}]) as Hres.
  { apply (Storage.run_reserve Storage.empty_state [] 0 0 1 100 1000 1000); [constructor|vm_compute; discriminate|vm_compute; reflexivity]. }
  destruct (metrics_exact (fun _ => true) demo_config map_to_list 0 demo_lobby demo_reservations _ demo_db no_metrics
              (Some (stored_ciphertext_size demo_db)) (Denied Rename) (series_of (Denied Rename))
              (fun m => Permutation_refl _) ltac:(cbn; lia) demo_lobby_reached Hres demo_db_ok ltac:(by constructor) (or_intror eq_refl))
    as (_ & Ha & _ & _ & Hn).
  intros page. split; [exact Ha|]. unfold page. rewrite Hn. vm_compute. reflexivity.
Defined.
