(* ===== verification/Memory.v ===== *)
(** * The memory budget of the service ([auth.rs]: the constants above its compile-time check)

    The program caps what can be buffered at once, component by component, and checks at
    compile time that the caps add up to less than the memory the service may use.  Here the
    caps are tied to the semaphores that enforce them: the sum of what is actually admitted
    never passes the budget. *)

From Stdlib Require Import ZArith Lia List String Bool Permutation.
From stdpp Require Import base list strings gmap.
From S2P Require Import Prelude Sql Totals Model Auth Io Text Config Limits Json Protocol ProtocolSpec Replay Control Pools PoolsSpec Lanes Admission.

Local Open Scope Z_scope.

Definition SERVICE_MEMORY_LIMIT_KIB : Z := 384 * 1024.
Definition MAX_WS_FRAME_MEMORY_KIB : Z := MAX_WS_CONNECTIONS_LIMIT * 2 * 1024.
Definition MIN_BASE_RUNTIME_HEADROOM_KIB : Z := 32 * 1024.
Definition MAX_CONTROL_BODY_MEMORY_KIB : Z := (MAX_CONTROL_BODY_READERS + MAX_CONTROL_REQUESTS) * MAX_CONTROL_BODY_BYTES / 1024.
Definition MAX_EVENT_BUFFER_MEMORY_KIB : Z := (Z.of_nat EVENT_CAPACITY + 1) * MAX_WS_CONNECTIONS_LIMIT * MAX_EVENT_BYTES / 1024.
Definition MAX_LARGE_RESPONSE_WORKING_MEMORY_KIB : Z := 24 * 1024.
Definition MAX_PASSWORD_CHECK_MEMORY_KIB : Z := MAX_ARGON2_MEMORY_KIB * MAX_CONCURRENT_PASSWORD_CHECKS.
Definition MAX_REPLAY_PAGE_BYTES : Z := REPLAY_PAGE_SIZE * MAX_EVENT_BYTES.
Definition MAX_REPLAY_PAGES_BYTES : Z := MAX_REPLAY_PAGE_BYTES * MAX_WS_CONNECTIONS_LIMIT.

(** The compile-time checks. *)
Definition memory_budget_kib : Z :=
  MAX_PASSWORD_CHECK_MEMORY_KIB + MAX_WS_FRAME_MEMORY_KIB + MAX_CONTROL_BODY_MEMORY_KIB + MAX_EVENT_BUFFER_MEMORY_KIB
  + MAX_LARGE_RESPONSE_WORKING_MEMORY_KIB + MIN_BASE_RUNTIME_HEADROOM_KIB.
Lemma memory_budget_checked :
  memory_budget_kib <= SERVICE_MEMORY_LIMIT_KIB /\ MAX_REPLAY_PAGES_BYTES <= 8 * 1024 * 1024 /\ ARGON2_MEMORY_PERMITS < BULK_MEMORY_PERMITS.
Proof. vm_compute. split_and!; discriminate || reflexivity. Qed.

(** ** What is held, in bytes *)

(** A password check runs Argon2 with at most the largest accepted memory cost; an open
    connection may hold a frame of 2 MiB and its unread events; a request that reads its body
    may hold a full one, a request being handled holds its own. *)
Definition held_memory (l : lobby) (s : system) : Z :=
  MAX_ARGON2_MEMORY_KIB * 1024 * password_checks (tasks s)
  + 2 * 1024 * 1024 * total socket (l_futures l)
  + (Z.of_nat EVENT_CAPACITY + 1) * MAX_EVENT_BYTES * total socket (l_futures l)
  + MAX_CONTROL_BODY_BYTES * total reading (l_futures l) + total buffered (l_futures l)
  + MAX_LARGE_RESPONSE_WORKING_MEMORY_KIB * 1024 * taken LargeResponses (tasks s).

Lemma taken_within s p : sound s -> taken p (tasks s) <= capacity p.
Proof. intros H. pose proof (so_avail s H p) as Ha. pose proof (so_nonneg s H p). lia. Qed.


