(* ===== verification/Routes.v ===== *)
(** * The HTTP surface ([control_router], [data_router], the routers of [account.rs] and [admin.rs])

    Which request reaches which handler, and what the layers around the handlers add.  A
    router is the table the program builds; axum's own part is that an unknown path is
    answered 404, a known path with another method 405, and that a route for GET also
    answers HEAD.  The [Json] extractor is a parameter: what it reads from a request, or
    the status of its refusal. *)

From Stdlib Require Import ZArith Lia List String Ascii Bool.
From stdpp Require Import base list strings gmap pretty.
From S2P Require Import Prelude Sql Model Store Auth Accounts Io Text Staging Config Limits Json Protocol ProtocolSpec Control ControlSpec.
From S2P Require Import Admin AdminSpec Snapshot Admission.

Local Open Scope Z_scope.

(** ** Routers *)
Inductive verb := GET | HEAD | POST | OPTIONS | OtherVerb (name : string).
#[export] Instance verb_eq_dec : EqDecision verb.
Proof. solve_decision. Defined.

Section Router.
Context {E : Type}.
Definition router := list (string * list (verb * E)).
Fixpoint find_path (path : string) (r : router) : option (list (verb * E)) :=
  match r with
  | [] => None
  | (p, methods) :: r => if String.eqb p path then Some methods else find_path path r
  end.
Fixpoint find_verb (v : verb) (l : list (verb * E)) : option E :=
  match l with
  | [] => None
  | (w, e) :: l => if decide (w = v) then Some e else find_verb v l
  end.
(** The endpoint of a request, or the status of axum's refusal. *)
Definition dispatch_route (r : router) (v : verb) (path : string) : Z + E :=
  match find_path path r with
  | None => inl 404
  | Some methods =>
      match find_verb v methods with
      | Some e => inr e
      | None => match v, find_verb GET methods with HEAD, Some e => inr e | _, _ => inl 405 end
      end
  end.
End Router.
Arguments router E : clear implicits.

Inductive account_endpoint := AccountShell | AccountStyles | AccountScript | AccountLogo | RegistrationStatus | Signup.
Inductive control_endpoint := Control | Preflight | Health | Ready | MetricsPage | Account (a : account_endpoint).
Inductive data_endpoint := Upgrade.
Inductive admin_endpoint :=
| AdminShell | AdminStyles | AdminScript | AdminLogo | AdminLogin | AdminLogout | AdminSessionStatus | AdminSnapshotPage | AdminRegistration.

Definition CONTROL_PATHS : list string :=
  ["/user/signin"; "/user/pow-challenge"; "/user/signout"; "/user/info"; "/subscription/list"; "/vault/regions"; "/vault/list";
   "/vault/create"; "/vault/access"; "/vault/migrate"; "/vault/rename"; "/vault/delete"; "/vault/share/list"; "/vault/share/invite";
   "/vault/share/remove"; "/user/signup"; "/user/forgetpass"; "/user/resendconfirmation"; "/user/authtoken"; "/subscription/business";
   "/subscription/sync/signup-mobile"; "/publish/create"; "/publish/delete"; "/publish/list"; "/publish/share/accept";
   "/publish/share/invite"; "/publish/share/list"; "/publish/share/remove"]%string.

Definition account_router : router account_endpoint :=
  [("/account", [(GET, AccountShell)]); ("/account/styles.css", [(GET, AccountStyles)]); ("/account/app.js", [(GET, AccountScript)]);
   ("/account/logo.png", [(GET, AccountLogo)]); ("/account/api/registration", [(GET, RegistrationStatus)]);
   ("/account/api/signup", [(POST, Signup)])]%string.
Definition control_router : router control_endpoint :=
  map (fun path => (path, [(POST, Control); (OPTIONS, Preflight)])) CONTROL_PATHS
  ++ [("/health", [(GET, Health)]); ("/ready", [(GET, Ready)]); ("/metrics", [(GET, MetricsPage)])]%string
  ++ map (fun r => (fst r, map (fun m => (fst m, Account (snd m))) (snd r))) account_router.
Definition data_router : router data_endpoint := [("/"%string, [(GET, Upgrade)])].
Definition admin_router : router admin_endpoint :=
  [("/admin", [(GET, AdminShell)]); ("/admin/styles.css", [(GET, AdminStyles)]); ("/admin/app.js", [(GET, AdminScript)]);
   ("/admin/logo.png", [(GET, AdminLogo)]); ("/admin/api/login", [(POST, AdminLogin)]); ("/admin/api/logout", [(POST, AdminLogout)]);
   ("/admin/api/session", [(GET, AdminSessionStatus)]); ("/admin/api/snapshot", [(GET, AdminSnapshotPage)]);
   ("/admin/api/registration", [(POST, AdminRegistration)])]%string.

(** ** Replies *)
Inductive page := AccountHtml | AccountCss | AccountJs | AdminHtml | AdminCss | AdminJs | LogoPng.
Inductive content := NoContent | JsonContent (j : json) | PageContent (p : page) | TextContent (s : string) | SnapshotContent (s : Snapshot).
Record reply := { rp_status : Z; rp_headers : list (string * string); rp_content : content }.
Definition plain_reply (status : Z) : reply := {| rp_status := status; rp_headers := []; rp_content := NoContent |}.

(** [HeaderMap::insert] replaces. *)
Definition insert_header (k v : string) (h : list (string * string)) : list (string * string) :=
  (k, v) :: List.filter (fun p => negb (String.eqb (fst p) k)) h.
Definition CSP : string :=
  "default-src 'none'; script-src 'self'; style-src 'self'; img-src 'self'; connect-src 'self'; frame-ancestors 'none'; base-uri 'none'; form-action 'none'".
Definition SECURITY_HEADERS : list (string * string) :=
  [("content-security-policy", CSP); ("x-content-type-options", "nosniff"); ("referrer-policy", "no-referrer"); ("cache-control", "no-store")]%string.
Definition with_security_headers (r : reply) : reply :=
  {| rp_status := rp_status r;
     rp_headers := fold_left (fun h p => insert_header (fst p) (snd p) h) SECURITY_HEADERS (rp_headers r);
     rp_content := rp_content r |}.

Definition shell (p : page) : reply :=
  {| rp_status := 200; rp_headers := [("content-type", "text/html; charset=utf-8")]%string; rp_content := PageContent p |}.
Definition styles (p : page) : reply :=
  {| rp_status := 200; rp_headers := [("content-type", "text/css; charset=utf-8")]%string; rp_content := PageContent p |}.
Definition script (p : page) : reply :=
  {| rp_status := 200; rp_headers := [("content-type", "text/javascript; charset=utf-8")]%string; rp_content := PageContent p |}.
Definition logo : reply :=
  {| rp_status := 200; rp_headers := [("content-type", "image/png")]%string; rp_content := PageContent LogoPng |}.
Definition json_reply (status : Z) (j : json) : reply :=
  {| rp_status := status; rp_headers := [("content-type", "application/json")]%string; rp_content := JsonContent j |}.
Definition api_reply (r : response) : reply :=
  {| rp_status := rs_status r;
     rp_headers := [("cache-control", "no-store"); ("access-control-allow-origin", rs_origin r); ("vary", "Origin");
                    ("content-type", "application/json")]%string;
     rp_content := JsonContent (rs_body r) |}.
Definition preflight_reply (r : option response) : reply :=
  match r with
  | None => plain_reply 403
  | Some r =>
      let a := api_reply r in
      {| rp_status := rp_status a;
         rp_headers := insert_header "access-control-allow-headers" "content-type"
                         (insert_header "access-control-allow-methods" "POST, GET, OPTIONS" (rp_headers a));
         rp_content := rp_content a |}
  end.
Definition admin_reply_of (r : admin_reply) : reply :=
  match r with
  | AdminStatus code => plain_reply code
  | AdminRetryAfter seconds => {| rp_status := 429; rp_headers := [("retry-after"%string, pretty seconds)]; rp_content := NoContent |}
  | AdminCookie code cookie body =>
      match body with
      | JNull => {| rp_status := code; rp_headers := [("set-cookie"%string, cookie)]; rp_content := NoContent |}
      | body => {| rp_status := code; rp_headers := ("set-cookie"%string, cookie) :: rp_headers (json_reply code body); rp_content := JsonContent body |}
      end
  | AdminBody body => json_reply 200 body
  end.
Definition snapshot_reply (r : Z + Snapshot) : reply :=
  match r with
  | inl 429 => {| rp_status := 429; rp_headers := [("retry-after", "30")]%string; rp_content := NoContent |}
  | inl code => plain_reply code
  | inr s => {| rp_status := 200; rp_headers := [("content-type", "application/json")]%string; rp_content := SnapshotContent s |}
  end.

(** ** Requests *)
Record http_request := {
  q_verb : verb; q_path : string; q_origin : option string;
  q_authority : option (string * option Z);      (** the parsed [Host] header *)
  q_admin_header : option string;                (** [x-blackglass-admin] *)
  q_cookie : option string; q_peer : IpAddr; q_forwarded : option string;
  q_body : option json;                          (** the body, when it is JSON *)
}.

Section Listeners.
Context (header_value_ok : string -> bool) (DUMMY_PASSWORD_HASH : string) (config : Config).
(** What [Json] extracts. *)
Context (login_body : http_request -> Z + string * string) (registration_body : http_request -> Z + bool).
Context (signup_body : http_request -> Z + string * string * string).
Local Open Scope ctl_scope.

(** [control_admission]: the gates it sees when it starts and when the body is there;
    [None] lets the request through. *)
Definition control_admission (origin : option string) (a : arrival) (g g' : gate) : option response :=
  match admission_begin header_value_ok config origin g with
  | (inl r, _) => Some r
  | (inr _, _) =>
      match admission_body header_value_ok config (default ""%string origin) a g' with
      | (inl r, _) => Some r
      | (inr _, _) => None
      end
  end.

Definition answer_control (q : http_request) : ctl_handler reply :=
  r <- control DUMMY_PASSWORD_HASH config (q_path q) (request_source config (q_peer q) (q_forwarded q)) (q_origin q) (q_body q) ;
  ret (api_reply (if permitted_origin config (q_origin q)
                  then api_for_origin header_value_ok config (snd r) (fst r) (q_origin q)
                  else api header_value_ok config (snd r) (fst r))).

Definition signup_reply (r : Z * bool * string) : reply :=
  let '(status, created, message) := r in
  let body := json_reply status (JObj [("created", JBool created); ("message", JStr message)]%string) in
  if status =? 429 then {| rp_status := rp_status body; rp_headers := ("retry-after", "60")%string :: rp_headers body; rp_content := rp_content body |}
  else body.
Definition answer_account (e : account_endpoint) (q : http_request) : ctl_handler reply :=
  match e with
  | AccountShell => ret (shell AccountHtml)
  | AccountStyles => ret (styles AccountCss)
  | AccountScript => ret (script AccountJs)
  | AccountLogo => ret logo
  | RegistrationStatus =>
      r <- registration_status ;
      ret (match r with (status, Some body) => json_reply status body | (status, None) => plain_reply status end)
  | Signup =>
      match signup_body q with
      | inl status => ret (plain_reply status)
      | inr (email, name, password) =>
          r <- signup (request_source config (q_peer q) (q_forwarded q)) email name password ; ret (signup_reply r)
      end
  end.

(** What the process knows at the moment of the request. *)
Record moment := {
  mo_gate : gate; mo_gate_body : gate; mo_arrival : arrival; mo_ready : option bool; mo_metrics : string;
  mo_version : string; mo_revision : string; mo_snapshot_permit : bool; mo_facts : facts; mo_snapshot : option AdminDatabaseSnapshot;
}.

(** The control listener. *)
Definition control_listener (t : moment) (q : http_request) : ctl_handler reply :=
  match dispatch_route control_router (q_verb q) (q_path q) with
  | inl status => ret (plain_reply status)
  | inr Control =>
      match control_admission (q_origin q) (mo_arrival t) (mo_gate t) (mo_gate_body t) with
      | Some r => ret (api_reply r)
      | None => answer_control q
      end
  | inr Preflight =>
      match control_admission (q_origin q) (mo_arrival t) (mo_gate t) (mo_gate_body t) with
      | Some r => ret (api_reply r)
      | None => ret (preflight_reply (preflight header_value_ok config (q_origin q)))
      end
  | inr Health => ret (api_reply (health header_value_ok config (mo_version t) (mo_revision t)))
  | inr Ready => ret (api_reply (ready header_value_ok config (mo_ready t)))
  | inr MetricsPage =>
      ret {| rp_status := 200; rp_headers := [("content-type", "text/plain; version=0.0.4"); ("cache-control", "no-store")]%string;
             rp_content := TextContent (mo_metrics t) |}
  | inr (Account e) => r <- answer_account e q ; ret (with_security_headers r)
  end.

(** The administration listener: [security_headers] around the routes. *)
Definition answer_admin (t : moment) (e : admin_endpoint) (q : http_request) : ctl_handler reply :=
  match e with
  | AdminShell => ret (shell AdminHtml)
  | AdminStyles => ret (styles AdminCss)
  | AdminScript => ret (script AdminJs)
  | AdminLogo => ret logo
  | AdminLogin =>
      match login_body q with
      | inl status => ret (plain_reply status)
      | inr (email, password) => r <- login DUMMY_PASSWORD_HASH config (q_peer q) email password ; ret (admin_reply_of r)
      end
  | AdminLogout => r <- logout (q_admin_header q) (q_cookie q) ; ret (admin_reply_of r)
  | AdminSessionStatus => r <- session_status (q_cookie q) ; ret (admin_reply_of r)
  | AdminSnapshotPage =>
      r <- snapshot_handler config (q_cookie q) (mo_snapshot_permit t) (mo_facts t) (mo_snapshot t) ; ret (snapshot_reply r)
  | AdminRegistration =>
      match registration_body q with
      | inl status => ret (plain_reply status)
      | inr enabled => r <- update_registration (q_admin_header q) (q_cookie q) enabled ; ret (admin_reply_of r)
      end
  end.
Definition admin_listener (t : moment) (q : http_request) : ctl_handler reply :=
  r <- (if match admin config with Some a => allowed_authority (q_authority q) a | None => false end
        then match dispatch_route admin_router (q_verb q) (q_path q) with
             | inl status => ret (plain_reply status)
             | inr e => answer_admin t e q
             end
        else ret (plain_reply 421)) ;
  ret (with_security_headers r).
End Listeners.
