(* ===== verification/RoutesSpec.v ===== *)
(** * What can be reached over HTTP *)

From Stdlib Require Import ZArith Lia List String Ascii Bool.
From stdpp Require Import base list strings gmap pretty.
From S2P Require Import Prelude Sql Model Store Auth Accounts Io Text Staging Config Limits Json Protocol ProtocolSpec Control ControlSpec.
From S2P Require Import Admin AdminSpec Snapshot SnapshotSpec Admission Routes.

Local Open Scope Z_scope.

(** ** Tables *)
Lemma find_path_in {E} path (r : router E) methods : find_path path r = Some methods -> In (path, methods) r.
Proof.
  induction r as [|[p ms] r IH]; cbn; [done|]. destruct (String.eqb_spec p path) as [->|]; [intros [= ->]; by left|]. auto.
Qed.
Lemma find_verb_in {E} v (l : list (verb * E)) e : find_verb v l = Some e -> In (v, e) l.
Proof. induction l as [|[w x] l IH]; cbn; [done|]. destruct (decide (w = v)) as [->|]; [intros [= ->]; by left|]. auto. Qed.

(** A request that reaches an endpoint is in the table, with its own method or HEAD for GET. *)
Lemma dispatch_in {E} (r : router E) v path e :
  dispatch_route r v path = inr e -> exists w methods, In (path, methods) r /\ In (w, e) methods /\ (w = v \/ (w = GET /\ v = HEAD)).
Proof.
  unfold dispatch_route. destruct (find_path path r) as [methods|] eqn:Ep; [|done]. apply find_path_in in Ep.
  destruct (find_verb v methods) as [x|] eqn:Ev; [intros [= ->]; apply find_verb_in in Ev; eauto 6|].
  destruct v; try done. destruct (find_verb GET methods) as [x|] eqn:Eg; [|done]. intros [= ->]. apply find_verb_in in Eg. eauto 7.
Qed.

Lemma reaches_control v path : dispatch_route control_router v path = inr Control -> v = POST /\ In path CONTROL_PATHS.
Proof.
  intros (w & methods & Hp & Hm & Hw)%dispatch_in. unfold control_router in Hp. rewrite !in_app_iff in Hp.
  destruct Hp as [(p & [= <- <-] & Hp)%in_map_iff|[Hp|([p ms] & [= <- <-] & Hp)%in_map_iff]].
  - cbn in Hm. destruct Hm as [[= <-]|[[=]|[]]]. split; [|done]. by destruct Hw as [<-|[]].
  - exfalso. cbn in Hp. destruct_or! Hp; simplify_eq; cbn in Hm; destruct_or! Hm; done.
  - exfalso. apply in_map_iff in Hm as (x & [=] & _).
Qed.
Lemma reaches_signup v path : dispatch_route control_router v path = inr (Account Signup) -> v = POST /\ path = "/account/api/signup"%string.
Proof.
  intros (w & methods & Hp & Hm & Hw)%dispatch_in. unfold control_router in Hp. rewrite !in_app_iff in Hp.
  destruct Hp as [(p & [= <- <-] & Hp)%in_map_iff|[Hp|([p ms] & [= <- <-] & Hp)%in_map_iff]].
  - exfalso. cbn in Hm. destruct_or! Hm; done.
  - exfalso. cbn in Hp. destruct_or! Hp; simplify_eq; cbn in Hm; destruct_or! Hm; done.
  - apply in_map_iff in Hm as ([w' e] & [= <- ->] & Hm). cbn in Hp. destruct_or! Hp; simplify_eq; cbn in Hm; destruct_or! Hm; simplify_eq.
    split; [|done]. by destruct Hw as [<-|[]].
Qed.
Lemma reaches_admin v path e :
  dispatch_route admin_router v path = inr e ->
  match e with
  | AdminLogin => v = POST /\ path = "/admin/api/login"%string
  | AdminLogout | AdminRegistration => v = POST
  | _ => True
  end.
Proof.
  intros (w & methods & Hp & Hm & Hw)%dispatch_in. cbn in Hp.
  destruct_or! Hp; simplify_eq; cbn in Hm; destruct_or! Hm; simplify_eq; try done; destruct Hw as [<-|[]]; done.
Qed.

(** ** The table and the handlers agree *)
Definition public_paths : list string :=
  ["/user/signin"; "/user/pow-challenge"; "/user/signup"; "/user/forgetpass"; "/user/resendconfirmation"]%string.
(** The handlers know the path: it needs no session, or a signed-in request is not told "Not found". *)
Definition understood (config : Config) (path : string) : Prop :=
  In path public_paths \/ forall source ctx token, route config path source ctx token JNull tt <> Ret (tt, Err (Bail "Not found")).

Lemma listed_understood config path : In path CONTROL_PATHS -> understood config path.
Proof.
  intros H. unfold understood. cbn in H. destruct_or! H; try done; subst path;
    solve [left; cbn; tauto | right; intros source ctx token E; cbv delta [route share_list share_invite] in E; cbn in E; repeat case_match; discriminate].
Qed.
Lemma unlisted_unknown config path source ctx token v :
  ~ In path CONTROL_PATHS -> route config path source ctx token v tt = Ret (tt, Err (Bail "Not found")) /\ ~ In path public_paths.
Proof.
  intros H.
  assert (forall p, In p CONTROL_PATHS -> String.eqb path p = false) as Hne by (intros p Hp; apply String.eqb_neq; intros ->; done).
  split; [|intros Hp; apply H; clear -Hp; cbn in Hp; destruct_or! Hp; subst; try done; cbn; tauto].
  unfold route. cbn beta zeta. unfold publish_paths. cbn [existsb].
  rewrite !Hne by (clear; cbn; tauto). reflexivity.
Qed.
Lemma control_dispatch path : dispatch_route control_router POST path = inr Control <-> In path CONTROL_PATHS.
Proof.
  split; [intros H; apply reaches_control in H as [_ H]; exact H|]. intros H. cbn in H. destruct_or! H; try done; subst path; reflexivity.
Qed.


(** ** Changes *)

(** The commands that change the database or cut connections off. *)
Definition changes {X} (c : ctl X) : bool :=
  match c with
  | IssueSession _ _ | CreateSelfRegistered _ _ _ | AuthRenew _ _ | RevokeSession _ | Invite _ _ _ _ | RemoveShare _ _ _ _
  | CreateVault _ _ _ | BindKeyhash _ _ _ _ | MigrateVault _ _ _ _ | RenameVault _ _ _ _ | DeleteVault _ _ _ | SetSelfRegistration _ _
  | CancelSession _ | CancelUserVault _ _ | InvalidateVault _ => true
  | _ => false
  end.
Definition guarded (G : Prop) (X : Type) (st : unit) (c : ctl X) : Prop := changes c = true -> G.
Definition unit_next (X : Type) (st : unit) (c : ctl X) (x : X) : unit := tt.
Lemma accepts_guarded G tr ev : accepts (guarded G) unit_next tt tr -> In ev tr -> changes (ev_cmd ctl ev) = true -> G.
Proof. induction tr as [|[Y d y] tr IH]; [done|]. cbn. intros [Hd Hrest] [<-|Hin] Hc; [by apply Hd|by apply IH]. Qed.

Notation gwp G := (mwp any_reply (guarded G) unit_next).
Definition answers_always {A} (_ : unit) (_ : unit) (r : result A) : Prop := exists a, r = Ok a.

Section Guards.
Context (header_value_ok : string -> bool) (dummy : string) (config : Config) (G : Prop).
Context (login_body : http_request -> Z + string * string) (registration_body : http_request -> Z + bool).
Context (signup_body : http_request -> Z + string * string * string).

(** A handler that changes nothing, or one that runs behind the guard. *)
Lemma gwp_then {A B} (m : ctl_handler A) (f : A -> B) st s :
  gwp G m answers_always st s -> gwp G (bind m (fun a => ret (f a))) answers_always st s.
Proof. intros H. apply mwp_bind. eapply mwp_mono; [|exact H]. intros st' s' r (a & ->). apply mwp_ret. by eexists. Qed.
Lemma gwp_ret {A} (a : A) st s : gwp G (ret a) answers_always st s.
Proof. apply mwp_ret. by eexists. Qed.

Lemma administrator_guard cookie (Q : unit -> unit -> result (option AuthContext) -> Prop) st s :
  (forall o, Q tt s (Ok o)) -> gwp G (administrator cookie) Q st s.
Proof.
  intros H. unfold administrator. destruct (session_token cookie); [|by destruct st; apply mwp_ret].
  apply mwp_bind, mwp_perform; [done|]. intros x _. apply mwp_ret, H.
Qed.
Lemma control_guard path source origin body st s : G -> gwp G (control dummy config path source origin body) answers_always st s.
Proof.
  intros HG. unfold control. destruct (negb _); [apply gwp_ret|]. destruct body as [v|]; [|apply gwp_ret].
  unfold mwp. apply wp_bind. eapply wp_mono; [|apply (mwp_any any_reply (guarded G) unit_next _ (fun _ _ _ => True) st s); [by intros X st0 c _|done]].
  intros st' [s' r] _. by eexists.
Qed.
Lemma signup_guard source email name password st s : G -> gwp G (signup source email name password) answers_always st s.
Proof.
  intros HG. unfold signup. apply mwp_bind. unfold register_account, registration_query.
  destruct (canonicalize_email email), (normalize_display_name name), (validate_self_registered_password password); try (apply mwp_ret, gwp_ret).
  repeat cstep ltac:(intros ?; exact HG); by eexists.
Qed.
Lemma login_guard source email password st s : G -> gwp G (login dummy config source email password) answers_always st s.
Proof.
  intros HG. unfold login. apply mwp_bind, mwp_try, mwp_any; [by intros X st0 c _|]. intros st1 s1 user.
  destruct (match user with Ok u => _ | Err _ => _ end) as [u|].
  - apply mwp_bind, mwp_try, mwp_any; [by intros X st0 c _|]. intros st2 s2 [token|e]; [|apply gwp_ret].
    apply mwp_bind, mwp_perform; [done|]. intros x _. apply gwp_ret.
  - apply mwp_bind, mwp_perform; [done|]. intros x _. apply gwp_ret.
Qed.
Lemma logout_guard header cookie st s : (csrf_ok header = true -> G) -> gwp G (logout header cookie) answers_always st s.
Proof.
  intros HG. unfold logout. destruct (csrf_ok header); [|apply gwp_ret]. specialize (HG eq_refl). cbn [negb]. apply mwp_bind.
  destruct (session_token cookie); [|apply mwp_ret, gwp_ret].
  apply mwp_bind, mwp_try, mwp_any; [by intros X st0 c _|]. intros st1 s1 r. apply mwp_ret, gwp_ret.
Qed.
Lemma registration_guard header cookie enabled st s :
  (csrf_ok header = true -> G) -> gwp G (update_registration header cookie enabled) answers_always st s.
Proof.
  intros HG. unfold update_registration. destruct (csrf_ok header); [|apply gwp_ret]. specialize (HG eq_refl). cbn [negb].
  apply mwp_bind, administrator_guard. intros [a|]; [|apply gwp_ret]. apply mwp_bind, mwp_perform; [by intros _|]. intros x _. apply gwp_ret.
Qed.
Lemma status_guard cookie st s : gwp G (session_status cookie) answers_always st s.
Proof. unfold session_status. apply mwp_bind, administrator_guard. intros o. apply gwp_ret. Qed.
Lemma snapshot_guard cookie permit f data st s : gwp G (snapshot_handler config cookie permit f data) answers_always st s.
Proof.
  unfold snapshot_handler. destruct (admin config); [|apply gwp_ret]. apply mwp_bind, administrator_guard. intros [x|]; [|apply gwp_ret].
  destruct (negb permit); [apply gwp_ret|]. destruct data; apply gwp_ret.
Qed.

Lemma control_listener_guard t q st s :
  (q_verb q = POST /\ (In (q_path q) CONTROL_PATHS /\ permitted_origin config (q_origin q) = true \/ q_path q = "/account/api/signup"%string) -> G) ->
  gwp G (control_listener header_value_ok dummy config signup_body t q) answers_always st s.
Proof.
  intros HG. unfold control_listener. destruct (dispatch_route _ _ _) as [status|[]] eqn:E; try apply gwp_ret.
  - destruct (control_admission _ _ _ _ _ _) as [r|] eqn:Ea; [apply gwp_ret|]. apply gwp_then, control_guard, HG.
    apply reaches_control in E as [Hv Hp]. split; [done|]. left. split; [done|]. unfold control_admission, admission_begin in Ea.
    destruct (q_origin q) as [o|]; [|done]. by destruct (permitted_origin config (Some o)).
  - destruct (control_admission _ _ _ _ _ _); apply gwp_ret.
  - destruct a; cbn [answer_account]; try (apply gwp_then, gwp_ret); apply gwp_then.
    + unfold registration_status, registration_query. repeat cstep ltac:(done); by eexists.
    + destruct (signup_body q) as [status|[[email name] password]]; [apply gwp_ret|]. apply gwp_then, signup_guard, HG.
      apply reaches_signup in E as [Hv Hp]. auto.
Qed.
Definition host_allowed (q : http_request) : bool := match admin config with Some a => allowed_authority (q_authority q) a | None => false end.
Lemma admin_listener_guard t q st s :
  (q_verb q = POST /\ host_allowed q = true /\ (q_path q = "/admin/api/login"%string \/ csrf_ok (q_admin_header q) = true) -> G) ->
  gwp G (admin_listener dummy config login_body registration_body t q) answers_always st s.
Proof.
  intros HG. unfold admin_listener. apply gwp_then. fold (host_allowed q). destruct (host_allowed q) eqn:Eh; [|apply gwp_ret].
  destruct (dispatch_route _ _ _) as [status|e] eqn:E; [apply gwp_ret|]. apply reaches_admin in E. destruct e; cbn [answer_admin]; try apply gwp_ret.
  - destruct (login_body q) as [status|[email password]]; [apply gwp_ret|]. apply gwp_then, login_guard, HG. tauto.
  - apply gwp_then, logout_guard. auto.
  - apply gwp_then, status_guard.
  - apply gwp_then, snapshot_guard.
  - destruct (registration_body q) as [status|enabled]; [apply gwp_ret|]. apply gwp_then, registration_guard. auto.
Qed.
End Guards.

(** ** Headers *)
Lemma security_headers_present r h : In h SECURITY_HEADERS -> In h (rp_headers (with_security_headers r)).
Proof. intros H. cbn. cbn in H. destruct_or! H; subst; try done; tauto. Qed.
Lemma secured_wp (m : ctl_handler reply) st s :
  mwp any_reply (fun _ _ _ => True) unit_next (bind m (fun r => ret (with_security_headers r)))
    (fun _ _ r => forall a h, r = Ok a -> In h SECURITY_HEADERS -> In h (rp_headers a)) st s.
Proof.
  apply mwp_bind, mwp_any; [done|]. intros st' s' [r|e]; [|done]. apply mwp_ret. intros a h [= <-]. apply security_headers_present.
Qed.


(** An administrator turns self-registration off; a page on another host name gets nothing. *)
Definition demo_moment : moment := {|
  mo_gate := new_gate demo_config; mo_gate_body := new_gate demo_config; mo_arrival := Arrived 20; mo_ready := Some true; mo_metrics := "";
  mo_version := "1"; mo_revision := "abc"; mo_snapshot_permit := true; mo_facts := demo_facts; mo_snapshot := None |}.
Definition demo_http (host : string) : http_request := {|
  q_verb := POST; q_path := "/admin/api/registration"; q_origin := None; q_authority := Some (host, Some 3002); q_admin_header := Some "1"%string;
  q_cookie := Some demo_cookie; q_peer := V4 LOCALHOST; q_forwarded := None; q_body := None |}.
Definition demo_admin_port (host : string) : io ctl (unit * result reply) :=
  admin_listener "dummy" demo_admin_config (fun _ => inl 415) (fun _ => inr false) demo_moment (demo_http host) tt.
