(* ===== verification/Server.v ===== *)
(** * The server process ([run]): start, supervision and shutdown

    The state of the process is its files and its staging directory.  What happens between
    start and shutdown, the work of the listeners, is a [service]: the rows and the staging
    directory it leaves, what made it end, how each listener ended and what the polls for
    open connections saw. *)

From Stdlib Require Import ZArith Lia List String Bool.
From stdpp Require Import base list strings gmap.
From S2P Require Import Prelude Sql Totals Model Store Auth Text Staging.
From S2P Require Import Accounts Vaults Sharing Revisions Invariant Heads Preservation Machine Scenario Verify Recovery.
From S2P Require Import Catalogue Ddl CatalogueSpec Migrations MigrationsSpec Files FilesSpec Io Config Limits Json Protocol.
From S2P Require Import ProtocolSpec Control Admission Process.

Local Open Scope Z_scope.

(** ** Listeners *)

(** [ListenerJoinResult]: the listener returned, failed, or its task stopped. *)
Inductive ListenerJoinResult := Returned | Failed | Stopped.
Inductive trigger := ShutdownRequested | ControlEnded (r : ListenerJoinResult) | DataEnded (r : ListenerJoinResult) | AdminEnded (r : ListenerJoinResult).

Definition listener_result (name : string) (r : ListenerJoinResult) : result unit :=
  match r with
  | Returned => Ok tt
  | Failed => Err (Bail (name +:+ " listener failed"))
  | Stopped => Err (Bail (name +:+ " listener task stopped"))
  end.
Definition unexpected_listener_result (name : string) (r : ListenerJoinResult) : result unit :=
  let? _ := listener_result name r in Err (Bail (name +:+ " listener exited unexpectedly")).
(** [Result::and]. *)
Definition and_then (a b : result unit) : result unit := let? _ := a in b.

(** The listener that ended first gives its result; the others are told to stop and awaited. *)
Definition supervise_listeners (t : trigger) (control data : ListenerJoinResult) (admin : option ListenerJoinResult) : result unit :=
  let rest := match admin with Some r => listener_result "admin" r | None => Ok tt end in
  match t with
  | ShutdownRequested => and_then (and_then (listener_result "control" control) (listener_result "data" data)) rest
  | ControlEnded r => and_then (and_then (unexpected_listener_result "control" r) (listener_result "data" data)) rest
  | DataEnded r => and_then (and_then (unexpected_listener_result "data" r) (listener_result "control" control)) rest
  | AdminEnded r => and_then (and_then (unexpected_listener_result "admin" r) (listener_result "control" control)) (listener_result "data" data)
  end.

Record service := {
  sv_bound : bool;
  sv_rows : db;
  sv_staging : place;
  sv_trigger : trigger;
  sv_control : ListenerJoinResult;
  sv_data : ListenerJoinResult;
  sv_admin : ListenerJoinResult;
  sv_polls : list Z;
  sv_checkpoint : result unit;
}.

Section Run.
Context (fails : Files.syscall -> string -> bool) (parse_password_hash : string -> option PasswordHash) (notice_len : PushNotice -> Z).
Context (parse_uuid : string -> bool) (list_dir : children -> list (string * child)).
Context (staging_fails : Staging.syscall -> bool) (partial : string) (umask : Z).
Context (now : Z) (config : Config).
Notation process A := (stateful (files * place) A).

(** ** Up to the listeners *)
Definition startup : process (image * db) :=
  let! _ := on_fst (acquire_path_lock fails (database_path config)) in
  let! _ := on_fst (acquire_path_lock fails (staging_dir config)) in
  let! _ := on_snd (prepare_staging parse_uuid list_dir staging_fails partial umask) in
  let! im := on_fst (open_internal fails parse_password_hash notice_len now (database_path config) None) in
  match im_rows im with
  | Single _ => fail (SqliteError "no such table")
  | Multi d =>
      match mismatched_data_hosts (public_data_host config) d with
      | [] => ret (im, d)
      | _ => fail (Bail "persisted vault data host(s) do not match SELFHOST_DATA_HOST")
      end
  end.

(** ** [run] *)
Definition admin_joined (sv : service) : option ListenerJoinResult := match admin config with Some _ => Some (sv_admin sv) | None => None end.
(** What the listeners leave behind. *)
Definition serve (im : image) (sv : service) : process unit :=
  let! _ := on_fst (write_image (database_path config)
              (Some {| im_tables := im_tables im; im_history := im_history im; im_rows := Multi (sv_rows sv) |})) in
  on_snd (become (sv_staging sv)).
Definition run (sv : service) : process unit :=
  let! (im, _) := startup in
  unless sv_bound sv else Bail "bind listener" in
  let! _ := serve im sv in
  let listeners := supervise_listeners (sv_trigger sv) (sv_control sv) (sv_data sv) (admin_joined sv) in
  let drain := wait_for_connection_drain config (sv_polls sv) in
  let! (checkpoint, cleanup) :=
    match drain with
    | Ok _ => let! cleanup := attempt (on_snd (cleanup_staging parse_uuid list_dir staging_fails)) in ret (sv_checkpoint sv, cleanup)
    | Err _ => ret (Ok tt, Ok tt)
    end in
  let! _ := lift listeners in
  let! _ := lift drain in
  let! _ := lift checkpoint in
  lift cleanup.
End Run.

(** ** Starting *)
Lemma touches_lock fails path : touches (eq (path +:+ ".lock")) (acquire_path_lock fails path).
Proof. unfold acquire_path_lock. files. Qed.

Lemma hosts_match expected d : mismatched_data_hosts expected d = [] -> forall v, In v (vaults d) -> v_host v = expected.
Proof.
  intros H v Hv. destruct (String.eqb_spec (v_host v) expected) as [|Hne]; [done|]. exfalso.
  assert (In (v_host v) (mismatched_data_hosts expected d)) as Hin; [|by rewrite H in Hin].
  unfold mismatched_data_hosts. apply in_order_by, nodup_In, in_map_iff. exists v. split; [done|]. apply in_select. split; [done|].
  by apply negb_true_iff, String.eqb_neq.
Qed.

Section Starting.
Context (fails : Files.syscall -> string -> bool) (pp : string -> option PasswordHash) (nl : PushNotice -> Z).
Context (parse_uuid : string -> bool) (list_dir : children -> list (string * child)).
Context (staging_fails : Staging.syscall -> bool) (partial : string) (umask now : Z) (config : Config).
Context (list_dir_perm : forall c, Permutation (list_dir c) (map_to_list c)).
Context (apart : database_path config <> staging_dir config +:+ ".lock").
Notation path := (database_path config).
Notation start := (startup fails pp nl parse_uuid list_dir staging_fails partial umask now config).

(** The database file is the one before, up to its permissions. *)
Definition same_database (fs fs' : files) : Prop :=
  match fs !! path with
  | Some (Regular f) => exists m, fs' !! path = Some (Regular {| f_links := f_links f; f_mode := m; f_image := f_image f |})
  | o => fs' !! path = o
  end.
Lemma same_database_eq fs fs' : fs' !! path = fs !! path -> same_database fs fs'.
Proof using. unfold same_database. intros ->. destruct (fs !! path) as [[[l m i]|]|]; [|done..]. by exists m. Qed.

Lemma lock_elsewhere dir fs : path <> dir +:+ ".lock" -> (acquire_path_lock fails dir fs).2 !! path = fs !! path.
Proof using. intros H. apply touches_lock. intros E. by apply H. Qed.

(** A database the server may serve, as it was found in the file. *)
Definition started (fs fs' : files) (im : image) (d : db) : Prop :=
  exists f im0, fs !! path = Some (Regular f) /\ f_image f = Some im0 /\ served pp nl now im im0 /\
    im_rows im = Multi d /\ fs' !! path = Some (complete im0) /\ forall v, In v (vaults d) -> v_host v = public_data_host config.

Lemma open_started fs r fs' :
  open_internal fails pp nl now path None fs = (r, fs') ->
  same_database fs fs' /\
  forall im, r = Ok im -> exists f im0, fs !! path = Some (Regular f) /\ f_image f = Some im0 /\ served pp nl now im im0 /\
    fs' !! path = Some (complete im0).
Proof using.
  intros H. destruct (fs !! path) as [[f|]|] eqn:Ef.
  - pose proof (open_existing_cases _ _ _ _ _ _ _ _ _ _ Ef H) as Hc. unfold same_database. rewrite Ef. destruct r as [im|e].
    + destruct Hc as (im0 & Hs & Ei & ->). rewrite lookup_insert_eq. split.
      * unfold complete. rewrite Ei. assert (f_links f = 1) as ->; [|by exists 384].
        unfold open_internal, symlink_metadata, bind, entry_at in H. destruct (fails Stat path); [done|]. cbn [negb] in H. rewrite Ef in H.
        unfold reject_hardlinked_file in H. destruct (Z.eqb_spec (f_links f) 1); done.
      * intros im1 [= <-]. by exists f, im0.
    + split; [apply Hc|done].
  - destruct (open_missing_cases _ _ _ _ _ _ _ _ _ (or_intror Ef) H) as [-> [e ->]]. split; [by apply same_database_eq|done].
  - destruct (open_missing_cases _ _ _ _ _ _ _ _ _ (or_introl (conj eq_refl Ef)) H) as [-> [e ->]]. split; [by apply same_database_eq|done].
Qed.

Lemma startup_cases fs p r fs' p' :
  start (fs, p) = (r, (fs', p')) ->
  spares parse_uuid p p' /\ same_database fs fs' /\
  forall im d, r = Ok (im, d) -> prepared parse_uuid p' /\ started fs fs' im d.
Proof using list_dir_perm apart.
  assert (path <> path +:+ ".lock") as Hself by (intros E%append_longer; done).
  unfold startup. unfold bind at 1, on_fst at 1. cbn [fst snd]. pose proof (lock_elsewhere path fs Hself) as H1.
  destruct (acquire_path_lock fails path fs) as [[[]|e] fs1]; cbn [snd] in H1.
  2: { intros [= <- <- <-]. split_and!; [apply spares_refl|by apply same_database_eq|done]. }
  unfold bind at 1, on_fst at 1. cbn [fst snd]. pose proof (lock_elsewhere (staging_dir config) fs1 apart) as H2.
  destruct (acquire_path_lock fails (staging_dir config) fs1) as [[[]|e] fs2]; cbn [snd] in H2; rewrite H1 in H2.
  2: { intros [= <- <- <-]. split_and!; [apply spares_refl|by apply same_database_eq|done]. }
  unfold bind at 1, on_snd at 1. cbn [fst snd].
  destruct (prepare_staging parse_uuid list_dir staging_fails partial umask p) as [r1 p1] eqn:Ep.
  apply prepare_staging_spec in Ep as (Hsp & Hprep & _); [|done]. destruct r1 as [[]|e].
  2: { intros [= <- <- <-]. split_and!; [done|by apply same_database_eq|done]. }
  unfold bind, on_fst. cbn [fst snd]. destruct (open_internal fails pp nl now path None fs2) as [r2 fs3] eqn:Eo.
  apply open_started in Eo as [Hsame Hok]. assert (same_database fs fs3) as Hsame' by (unfold same_database in *; by rewrite H2 in Hsame).
  destruct r2 as [im|e]; [|intros [= <- <- <-]; done]. destruct (Hok im eq_refl) as (f & im0 & Ef & Ei & Hs & E3). rewrite H2 in Ef.
  destruct (im_rows im) as [o|d] eqn:Er; [intros [= <- <- <-]; done|].
  destruct (mismatched_data_hosts (public_data_host config) d) eqn:Em; intros [= <- <- <-]; [|done]. split_and!; [done|done|].
  intros im1 d1 [= <- <-]. split; [by apply Hprep|]. exists f, im0. split_and!; try done. by apply hosts_match.
Qed.
End Starting.


(** ** Stopping *)
Lemma and_then_ok a b : and_then a b = Ok tt <-> a = Ok tt /\ b = Ok tt.
Proof. unfold and_then. destruct a as [[]|e]; naive_solver. Qed.
Lemma listener_ok name r : listener_result name r = Ok tt <-> r = Returned.
Proof. destruct r; done. Qed.
Lemma unexpected_fails name r : unexpected_listener_result name r <> Ok tt.
Proof. by destruct r. Qed.
Lemma supervise_ok t control data admin :
  supervise_listeners t control data admin = Ok tt <->
  t = ShutdownRequested /\ control = Returned /\ data = Returned /\ forall r, admin = Some r -> r = Returned.
Proof.
  unfold supervise_listeners. destruct t; rewrite !and_then_ok.
  - rewrite !listener_ok. destruct admin as [a|]; rewrite ?listener_ok; naive_solver.
  - pose proof (unexpected_fails "control" r). naive_solver.
  - pose proof (unexpected_fails "data" r). naive_solver.
  - pose proof (unexpected_fails "admin" r). naive_solver.
Qed.

Lemma drain_ok config polls : wait_for_connection_drain config polls = Ok tt <-> In (max_ws_connections config) polls.
Proof.
  unfold wait_for_connection_drain. destruct (existsb _ polls) eqn:E.
  - apply existsb_exists in E as (n & Hn & ->%Z.eqb_eq). done.
  - split; [done|]. intros Hin. exfalso. rewrite <- not_true_iff_false, existsb_exists in E. apply E. eexists. split; [exact Hin|apply Z.eqb_refl].
Qed.

Section Stopping.
Context (fails : Files.syscall -> string -> bool) (pp : string -> option PasswordHash) (nl : PushNotice -> Z).
Context (parse_uuid : string -> bool) (list_dir : children -> list (string * child)).
Context (staging_fails : Staging.syscall -> bool) (partial : string) (umask now : Z) (config : Config).
Context (list_dir_perm : forall c, Permutation (list_dir c) (map_to_list c)).
Context (apart : database_path config <> staging_dir config +:+ ".lock").
Notation path := (database_path config).
Notation start := (startup fails pp nl parse_uuid list_dir staging_fails partial umask now config).
Notation run := (run fails pp nl parse_uuid list_dir staging_fails partial umask now config).
Notation cleanup := (cleanup_staging parse_uuid list_dir staging_fails).

(** The file once the listeners have written [rows] into it. *)
Definition left_rows (im : image) (rows : db) : image :=
  {| im_tables := im_tables im; im_history := im_history im; im_rows := Multi rows |}.

(** The outcome of a run that got as far as serving. *)
Lemma run_served sv fs p im d fs1 p1 :
  start (fs, p) = (Ok (im, d), (fs1, p1)) -> sv_bound sv = true ->
  run sv (fs, p) =
    let fs2 := (write_image path (Some (left_rows im (sv_rows sv))) fs1).2 in
    let listeners := supervise_listeners (sv_trigger sv) (sv_control sv) (sv_data sv) (admin_joined config sv) in
    match wait_for_connection_drain config (sv_polls sv) with
    | Ok _ => (and_then listeners (and_then (sv_checkpoint sv) (cleanup (sv_staging sv)).1), (fs2, (cleanup (sv_staging sv)).2))
    | Err e => (and_then listeners (Err e), (fs2, sv_staging sv))
    end.
Proof using.
  intros Hs Hb. unfold Server.run, bind at 1. rewrite Hs, Hb. unfold serve, bind at 1 2, on_fst, on_snd, become. cbn [fst snd].
  unfold left_rows. destruct (write_image path _ fs1) as [[[]|e] fs2] eqn:Ew.
  2: { unfold write_image, bind, entry_at in Ew. destruct (fs1 !! path) as [[]|]; done. }
  cbn [fst snd]. destruct (wait_for_connection_drain config (sv_polls sv)) as [[]|e]; unfold bind, attempt, ret, lift; cbn [fst snd].
  - destruct (cleanup (sv_staging sv)) as [rc pc]. cbn [fst snd]. unfold and_then. destruct (supervise_listeners _ _ _ _) as [[]|e]; [|done].
    destruct (sv_checkpoint sv) as [[]|e]; done.
  - unfold and_then. destruct (supervise_listeners _ _ _ _) as [[]|e']; done.
Qed.
Lemma run_unserved sv fs p r fs1 p1 :
  start (fs, p) = (r, (fs1, p1)) -> (sv_bound sv = false \/ exists e, r = Err e) -> exists e, run sv (fs, p) = (Err e, (fs1, p1)).
Proof using.
  intros Hs Hr. unfold Server.run, bind. rewrite Hs. destruct Hr as [Hb|[e ->]]; [|by eexists]. destruct r as [[im d]|e]; rewrite ?Hb; by eexists.
Qed.
End Stopping.

Lemma steps_ok pp th nl d d' : rtc (Machine.step pp th nl) d d' -> db_ok d -> db_ok d'.
Proof. induction 1 as [|d d1 d2 [t o Ha] _ IH]; [done|]. intros Hd. by apply IH, exec_ok. Qed.

(** C27: The server ends exactly as it should.  A run that got to serve returns success if
    and only if the operator asked it to stop, every listener then returned without an error,
    all connections drained before the deadline, the log was checkpointed and the staging
    directory cleaned.  The staging directory is left untouched while a connection may still
    be open, never loses anything but staged uploads, and holds none after a successful run.
    The file ends with the rows the listeners left, and they satisfy the database invariant
    when the rows at the start did. *)
Theorem run_ends_exactly fails pp th nl parse_uuid list_dir staging_fails partial umask now config sv fs p im d fs1 p1 :
  (forall c, Permutation (list_dir c) (map_to_list c)) -> database_path config <> staging_dir config +:+ ".lock" ->
  startup fails pp nl parse_uuid list_dir staging_fails partial umask now config (fs, p) = (Ok (im, d), (fs1, p1)) ->
  sv_bound sv = true -> rtc (Machine.step pp th nl) d (sv_rows sv) ->
  let '(r, (fs', p')) := run fails pp nl parse_uuid list_dir staging_fails partial umask now config sv (fs, p) in
  let drained := In (max_ws_connections config) (sv_polls sv) in
  (r = Ok tt <->
     sv_trigger sv = ShutdownRequested /\ sv_control sv = Returned /\ sv_data sv = Returned /\
     (admin config <> None -> sv_admin sv = Returned) /\ drained /\ sv_checkpoint sv = Ok tt /\
     (cleanup_staging parse_uuid list_dir staging_fails (sv_staging sv)).1 = Ok tt) /\
  (~ drained -> p' = sv_staging sv) /\
  (forall name x, entries_of (sv_staging sv) !! name = Some x -> staged parse_uuid name x = false -> entries_of p' !! name = Some x) /\
  (r = Ok tt -> forall name x, entries_of p' !! name = Some x -> staged parse_uuid name x = false) /\
  fs' !! database_path config = Some (complete (left_rows im (sv_rows sv))) /\
  (db_ok d -> db_ok (sv_rows sv)).
Proof.
  intros Hl Ha Hs Hb Hrows. rewrite (run_served _ _ _ _ _ _ _ _ _ _ sv _ _ _ _ _ _ Hs Hb). cbn zeta.
  destruct (startup_cases _ _ _ _ _ _ _ _ _ _ Hl Ha _ _ _ _ _ Hs) as (_ & _ & Hst). destruct (Hst im d eq_refl) as (_ & f & im0 & _ & _ & _ & _ & E1 & _).
  set (rows := left_rows im (sv_rows sv)).
  assert ((write_image (database_path config) (Some rows) fs1).2 !! database_path config = Some (complete rows)) as Hfile.
  { unfold write_image, bind, entry_at. rewrite E1. cbn. apply lookup_insert_eq. }
  assert ((forall a, admin_joined config sv = Some a -> a = Returned) <-> (admin config <> None -> sv_admin sv = Returned)) as Hadmin.
  { unfold admin_joined. destruct (admin config); naive_solver. }
  pose proof (supervise_ok (sv_trigger sv) (sv_control sv) (sv_data sv) (admin_joined config sv)) as Hsup. rewrite Hadmin in Hsup.
  pose proof (drain_ok config (sv_polls sv)) as Hd. pose proof (fun H => steps_ok pp th nl d (sv_rows sv) Hrows H) as Hok.
  destruct (wait_for_connection_drain config (sv_polls sv)) as [[]|e].
  - destruct (cleanup_staging parse_uuid list_dir staging_fails (sv_staging sv)) as [rc pc] eqn:Ec. cbn [fst snd]. rewrite !and_then_ok.
    assert ((forall name x, entries_of (sv_staging sv) !! name = Some x -> staged parse_uuid name x = false -> entries_of pc !! name = Some x) /\
            (rc = Ok tt -> forall name x, entries_of pc !! name = Some x -> staged parse_uuid name x = false)) as [Hkeep Hclean].
    { destruct (sv_staging sv) as [| |m c]; [..|destruct (cleanup_staging_spec _ _ _ Hl _ _ _ _ Ec) as (c' & -> & Hthin & Hclean)].
      - unfold cleanup_staging, bind, call in Ec. destruct (staging_fails ReadDirectory); cbn in Ec; injection Ec as <- <-; done.
      - unfold cleanup_staging, bind, call in Ec. destruct (staging_fails ReadDirectory); cbn in Ec; injection Ec as <- <-; done.
      - split; [|exact Hclean]. cbn. intros name x Hx Hf. destruct (Hthin name) as [->|(_ & y & Hy & Hs')]; [done|congruence]. }
    split_and!; [rewrite Hsup; naive_solver|naive_solver|exact Hkeep|naive_solver|exact Hfile|exact Hok].
  - rewrite and_then_ok. split_and!; [naive_solver|done|done|naive_solver|exact Hfile|exact Hok].
Qed.

(** A first start, a run and an orderly stop. *)
Definition demo_process : Config := {|
  bind_host := V4 LOCALHOST; control_port := 3000; data_port := 3003; public_data_host := "sync.example.test";
  database_path := "live.sqlite"; staging_dir := "live.uploads"; per_file_max := 1000;
  storage_quota_bytes := 100000; storage_quota_bytes_per_owner := 50000; session_ttl := 3600;
  websocket_idle_timeout := 90; upload_idle_timeout := 300; allowed_origins := ["app://obsidian.md"%string];
  max_concurrent_uploads := 2; max_concurrent_uploads_per_user := 2; max_ws_connections := 16;
  max_ws_connections_per_user := 4; trusted_proxy := None; admin := None; json_logs := true;
  sharing_enabled := true; sharing_canary_owner_ids := []; share_invites_per_source := 60;
  share_invites_per_user := 30; share_invite_targets_per_user := 20; share_invites_global := 300 |}.
Definition demo_start :=
  startup no_failure demo_parse demo_notice_len demo_uuid map_to_list (fun _ => false) "" 18 5000 demo_process (demo_files, Missing).
Definition demo_rows : db := match demo_start with (Ok (_, d), _) => d | _ => demo_db end.
Definition demo_service : service := {|
  sv_bound := true; sv_rows := demo_rows; sv_staging := demo_staging true; sv_trigger := ShutdownRequested;
  sv_control := Returned; sv_data := Returned; sv_admin := Returned; sv_polls := [15; 16]; sv_checkpoint := Ok tt |}.

Lemma demo_started : exists im d st, demo_start = (Ok (im, d), st).
Proof.
  assert (match demo_start with (Ok _, _) => true | _ => false end = true) as H by (vm_compute; reflexivity).
  destruct demo_start as [[[im d]|e] st]; [by eauto|discriminate].
Qed.
Lemma run_ends_exactly_witness :
  (run no_failure demo_parse demo_notice_len demo_uuid map_to_list (fun _ => false) "" 18 5000 demo_process demo_service
     (demo_files, Missing)).1 = Ok tt.
Proof.
  destruct demo_started as (im & d & [fs' p'] & E).
  assert (rtc (Machine.step demo_parse demo_token_hash demo_notice_len) d (sv_rows demo_service)) as Hr.
  { cbn [sv_rows demo_service]. unfold demo_rows. rewrite E. apply rtc_refl. }
  pose proof (run_ends_exactly no_failure demo_parse demo_token_hash demo_notice_len demo_uuid map_to_list (fun _ => false) "" 18 5000
    demo_process demo_service demo_files Missing im d fs' p' (fun c => Permutation_refl _) ltac:(discriminate) E eq_refl Hr) as H.
  destruct (run _ _ _ _ _ _ _ _ _ _ _ _) as [r [fs2 p2]]. apply (proj1 H). split_and!; try reflexivity.
  right. left. reflexivity.
Defined.
